(* ===== verification/_CoqProject ===== *)
-Q . S2P
Prelude.v
Iree.v
Objects.v
Machine.v
Handle.v
Status.v
IreeHal.v
Device.v
Semaphore.v
Buffer.v
HostAllocator.v
Executable.v
BufferView.v
ValueList.v
Modules.v
QueueOps.v
Stream.v
Pool.v
StreamAlloc.v
Runtime.v
Lifecycle.v
Scenario.v
Ownership.v
StreamTimeline.v
BufferTheorems.v
StatusTheorems.v
QueueTheorems.v
RuntimeTheorems.v
DataTheorems.v
StatusLedger.v
Layout.v
Fuzz.v
FuzzLogic.v
FuzzTheorems.v
HipTable.v
HipMachine.v
HipTracer.v
HipLogging.v
HipIntercept.v
HipPassthrough.v
HipScenario.v
HipLogic.v
HipTransparency.v
HipProgram.v
HipData.v
HipTracking.v
HipDump.v
AbiLayout.v
MiriMock.v
GpuEnumeration.v
Threads.v
AtomicCalls.v
