(* ===== verification/Prelude.v ===== *)
(** * Verification of hrx-system-rs

    hrx-system-rs is a Rust port of libhrx, a C library that offers streams,
    buffers, semaphores and executables on top of the IREE runtime, together with
    a set of libraries that stand in for the HIP runtime and trace or log the calls
    made to it.  This development models both and proves what a client may rely on.

    ** The program and its parts

    - crates/hrx-libhrx/src: the C API.  Every object is an [Arc] behind an opaque
      handle (handle.rs); errors are heap-allocated statuses (common.rs,
      status.rs); process-wide state sits behind one mutex (runtime.rs); objects
      keep each other alive (a stream its semaphore and device, a buffer its
      device) and own references to IREE objects.
    - crates/iree-hal/src/lib.rs: wrappers that own one IREE reference each.
    - crates/iree-sys/src: the declarations of the IREE functions and structures.
    - crates/hip-intercept: the library loaded in place of libamdhip64.so; it
      resolves the backend, loads an interceptor and routes calls through the
      active function table (crates/hip-function-table).
    - crates/hip-buffer-tracer, hip-logging, hip-noop: the interceptors.
    - fuzz/fuzz_targets: two clients of the C API that read calls off random bytes.

    ** Files

    The libhrx half, in dependency order:
    - [Prelude]: pointers and machine integers with their wrap-around, reference
      counting sums, the hint database [hrx] and shared tactics.
    - [Iree]: the foreign calls as a typed family [ffi]; the class [IREE] answers
      each call as an arbitrary function of the history, [delta] is the effect of a
      call on the ledger of foreign references; a concrete environment [mock_iree].
    - [Objects]: the structs behind the handles, what each owns ([owns]) and keeps
      alive ([links]); [Globals] of runtime.rs.
    - [Machine]: the process state [world], the monad [M] (a call returns, panics
      or is undefined), weakest preconditions [wp] and the effect triple [safe].
    - [Handle] (handle.rs), [Status] (common.rs, status.rs), [IreeHal] (iree-hal),
      [Device] (device.rs and the allocator of buffer.rs), [Semaphore]
      (semaphore.rs, fence.rs), [Buffer] and [StreamAlloc] (buffer.rs),
      [HostAllocator], [Executable], [BufferView], [ValueList], [Modules]
      (module.rs), [QueueOps] (queue_ops.rs), [Stream] (stream.rs), [Pool]
      (pool.rs), [Runtime] (runtime.rs).  Each has one definition per function,
      named like it, and a specification lemma [<name>_spec] that it returns and
      balances the ledgers.
    - [Lifecycle]: the API, all 114 exported functions, as a type of calls, the
      contract of each call ([legal]), the invariant [inv], reachability, the abstract
      client view ([client_step]), and the client's books ([ledger]): the handles it
      holds, its foreign resources and the references that refused pushes strand, kept
      along a [history] from calls and answers alone.  [Scenario]: concrete programs
      for the witnesses.
    - [Ownership], [StreamTimeline], [BufferTheorems], [StatusTheorems],
      [QueueTheorems], [RuntimeTheorems], [DataTheorems]: the theorems.
    - [StatusLedger]: the rules [carry] and [tidy] for the libc heap and their
      theorem over the whole API.
    - [GpuEnumeration]: the device loop of hrx_gpu_initialize with its cursors.
    - [Layout]: [repr(C)] layouts, storing and loading structures in bytes;
      [AbiLayout]: the structures of iree-sys and pool.rs, their assertions
      (abi_layout.rs), the initial values and the option blocks filled by offset.
    - [MiriMock]: the test double of IREE's reference counts (mock.rs) and programs
      over the wrappers of iree-hal that run on it.
    - [Fuzz]: the two targets of fuzz/fuzz_targets as programs over the model;
      [FuzzLogic]: the rules for one call of a target and the invariant of its pool;
      [FuzzTheorems]: whole runs.
    - [Threads]: the handle functions of handle.rs as steps of threads that share the
      objects; [AtomicCalls]: how the calls of the other files run on it.

    The HIP half:
    - [HipTable]: the 49 slots, tables, and text: numbers, UTF-8, [atoi].
    - [HipMachine]: the process state [hip_world], the monad [HM] and the class
      [HIP] (backend, loader, environment variables, clock, files).
    - [HipTracer], [HipLogging], [HipIntercept] (with hip-noop), [HipPassthrough]
      (the generated exports as tables): one definition per function.
    - [HipScenario]: a concrete backend and loader.  [HipLogic]: the rules [hwp] and
      the relation [hush] (equal up to log output).
    - [HipTransparency], [HipProgram], [HipTracking], [HipDump], [HipData]: the
      theorems.

    ** How the model corresponds to the code

    A raw pointer or handle is an integer address, null is 0.  Machine integers are
    integers with explicit wrap-around ([wrap_u64] and the like), as release builds
    compute.  The heap of handles maps an address to the strong count and the
    object; client memory maps an address to the scalar stored there.  A Rust
    panic, an abort and undefined behaviour (a dangling handle, an unmapped read, a
    double free) are separate outcomes, so that a theorem which says that a call
    returns excludes all of them.  A function takes and returns exactly what its
    Rust counterpart does; out-parameters are writes to client memory.  Where the
    source drops a value implicitly the model calls its drop glue explicitly
    ([DropGlue]).

    What is not in the repository is a parameter.  IREE and libc answer through
    [IREE], the HIP backend and the dynamic loader through [HIP]; hypotheses about
    them are classes or named premises and state documented behaviour only:
    [IreeCreates] (a constructor that reports OK delivers an object, and no more
    executable loaders are delivered than the array passed for them holds), [LibcAlloc]
    (malloc succeeds; only where errors must be told from OK),
    [IreeDeviceAllocator] (a device has an allocator), [loadable] (the backend
    library loads and an interceptor exports its entry point).  Concrete instances
    show each of them can hold.

    ** What the theorems show

    - C1-C6 ([Ownership]): every legal call from a reachable state returns without
      panic or undefined behaviour; counts agree with the client's books; objects live
      while held and are freed on the last release; when the books are empty after
      shutdown nothing is left but what pools IREE still keeps own and one reference per
      refused push; the API refines the abstract client view.
    - C7-C10 ([StreamTimeline]): submissions of a stream form one chain on its
      timeline, the recorded command buffer itself is submitted and not lost,
      synchronize waits for all of it.  C7 is about recording, flush, wait, query and
      synchronize; hrx_stream_wait_on, hrx_stream_advance_timeline and
      hrx_buffer_allocate move a timeline without waiting on the value before and are
      not in its sequences.
    - C11-C14 ([BufferTheorems]): the mapping protocol and the transfer bounds;
      [transfer_bound_wraps] shows the wrap-around that defeats them.
    - C18, C29 ([AbiLayout]): the layouts are the asserted and recorded ones, C code
      that uses the header's own types reads what Rust stored and conversely; option
      blocks, dispatch configurations, initial values and string views arrive as meant.
    - C16, C17 ([StatusTheorems]): life cycle and conversion of statuses;
      [out_of_memory_reports_ok] shows the loss of errors when memory is exhausted.
    - C19, C21 ([QueueTheorems]): semaphore lists of up to 16 entries arrive whole, a
      longer one overflows the stack arrays (the missing check of its length); host calls
      and the one thunk each makes.
    - C22 ([AtomicCalls]), C26 ([Threads]): handles shared by threads, with atomic counts
      and destructors that interleave; the calls of the model are such schedules.
    - C20 ([StatusLedger]): the status a call returns is all it leaves on the libc
      heap, on every path, and ignoring it gives the heap back.
    - C23-C25, C27 ([RuntimeTheorems]): shared state, all-or-nothing initialization,
      device queries, strings ([cstr_array_keeps_a_prefix]).
    - C15, C28, C30, C32 ([DataTheorems]): reference pushes, which leak one reference
      when IREE refuses, values, shapes, reservations; [timeout_conversion], with the
      range that turns negative.
    - C31 ([FuzzTheorems]): on every input the value-list target, and the buffer target
      with a CPU device, end without undefined behaviour and leave no reference, status
      or object behind but the devices their initialization keeps;
      [buffer_target_needs_a_device] shows what happens without a CPU device.
    - C33, C34 ([HipProgram]): interception is transparent for whole programs unless the
      tracer synchronizes launches, loading selects the right table;
      [unloading_leaves_a_dangling_table] shows what unloading does to it.
    - C35 ([HipTracking]): the buffer table implements a bounded set.
    - C36, C39 ([HipDump]): dumps stay in bounds, launches are traced within the
      limit in every mode.
    - C37 ([HipData]): the hash notices a changed byte; [atoi_reads_decimals].
    - C38 ([MiriMock]): the test double reports exactly the imbalances.
    - C40 ([GpuEnumeration]): the device loop terminates with the right devices.

    ** Bounds and fuel

    Recursion is structural everywhere except where C strings are scanned:
    [read_cstr] takes the length of the array it reads, [c_string] the number of
    mapped cells, which no terminated string can exceed, and in [gpu_while], which is
    proved to need one unit more than there are enumerated devices, and in the loops of
    the fuzz targets, which get one unit more than there are input bytes and are proved
    to end with them.  Hexadecimal text is
    printed with at most 16 digits, the width of a word.  The tracer's table has
    its real size of 65536 slots.

    ** Not modelled

    - Threads, outside of [Threads]: every entry point of runtime.rs and every tracer
      wrapper holds its mutex for its whole body, so calls are atomic here.  [Threads]
      interleaves the reference counts and destructors, with the counts sequentially
      consistent; data races of clients on one object are outside the API contract.
    - The contents of device memory and of IREE objects; the environment answers
      for them.
    - Build scripts, tests and the Python generator.  What else of the sources has no
      definition are declarations of foreign functions, imports, comments and second
      copies of helpers (p and atoi of hip-logging are those of hip-buffer-tracer).
    - Reallocation in place of the tracer's staging vector: a resize always moves
      it, which only changes an address the client cannot see. *)

From stdpp Require Export base gmap list strings.
#[export] Set Default Goal Selector "!".
Open Scope Z_scope.

(** ** Addresses and machine integers *)

(** A raw pointer, a handle or a machine word.  [0] is the null pointer. *)
Abbreviation ptr := Z (only parsing).

Definition null : ptr := 0.

Definition is_null (p : ptr) : bool := p =? 0.

Definition U64_MAX : Z := 2 ^ 64 - 1.
Definition U32_MAX : Z := 2 ^ 32 - 1.
Definition I32_MAX : Z := 2 ^ 31 - 1.
Definition I64_MAX : Z := 2 ^ 63 - 1.
Definition I64_MIN : Z := - 2 ^ 63.

(** Release-profile Rust arithmetic: results are reduced modulo the width. *)
Definition wrap_u64 (z : Z) : Z := z mod 2 ^ 64.
Definition wrap_u32 (z : Z) : Z := z mod 2 ^ 32.
Definition wrap_i32 (z : Z) : Z := (z + 2 ^ 31) mod 2 ^ 32 - 2 ^ 31.
Definition wrap_i64 (z : Z) : Z := (z + 2 ^ 63) mod 2 ^ 64 - 2 ^ 63.

Lemma wrap_u64_id z : 0 <= z <= U64_MAX -> wrap_u64 z = z.
Proof. unfold wrap_u64, U64_MAX. intros. apply Z.mod_small. lia. Qed.

Lemma wrap_u64_range z : 0 <= wrap_u64 z <= U64_MAX.
Proof. unfold wrap_u64, U64_MAX. pose proof (Z.mod_pos_bound z (2 ^ 64)). lia. Qed.

Lemma wrap_i64_id z : I64_MIN <= z <= I64_MAX -> wrap_i64 z = z.
Proof. unfold wrap_i64, I64_MIN, I64_MAX. intros. rewrite Z.mod_small; lia. Qed.

Lemma wrap_i64_range z : I64_MIN <= wrap_i64 z <= I64_MAX.
Proof.
  unfold wrap_i64, I64_MIN, I64_MAX.
  pose proof (Z.mod_pos_bound (z + 2 ^ 63) (2 ^ 64)). lia.
Qed.

(** [u64 as i64] and back is the identity on words. *)
Lemma wrap_u64_i64 z : 0 <= z <= U64_MAX -> wrap_u64 (wrap_i64 z) = z.
Proof.
  unfold wrap_u64, wrap_i64, U64_MAX. intros Hz.
  rewrite Zminus_mod_idemp_l. replace (z + 2 ^ 63 - 2 ^ 63) with z by lia.
  apply Z.mod_small. lia.
Qed.

Lemma wrap_i64_u64 z : I64_MIN <= z <= I64_MAX -> wrap_i64 (wrap_u64 z) = z.
Proof.
  unfold wrap_u64, wrap_i64, I64_MIN, I64_MAX. intros Hz.
  rewrite Zplus_mod_idemp_l. rewrite Z.mod_small; lia.
Qed.

Lemma is_null_true p : is_null p = true <-> p = 0.
Proof. apply Z.eqb_eq. Qed.

Lemma is_null_false p : is_null p = false <-> p <> 0.
Proof. apply Z.eqb_neq. Qed.

(** ** Counting

    [cnt q p] is one reference at [q], seen at address [p].  Addresses up to
    [0x1F] are the null pointer and the code-only IREE statuses, which own
    nothing, so they are never counted. *)
Definition STATUS_CODE_MASK : Z := 31.

Definition cnt (q p : ptr) : Z := if (q =? p) && (STATUS_CODE_MASK <? p) then 1 else 0.

Lemma cnt_nonneg q p : 0 <= cnt q p.
Proof. unfold cnt. by destruct (_ && _). Qed.

Lemma cnt_small q p : q <= STATUS_CODE_MASK -> cnt q p = 0.
Proof.
  unfold cnt. intros. destruct (Z.eqb_spec q p) as [->|]; simpl; [|done].
  destruct (Z.ltb_spec STATUS_CODE_MASK p); [lia|done].
Qed.

Lemma cnt_null p : cnt 0 p = 0.
Proof. apply cnt_small. unfold STATUS_CODE_MASK. lia. Qed.

Lemma cnt_ne q p : q <> p -> cnt q p = 0.
Proof. unfold cnt. intros. by destruct (Z.eqb_spec q p). Qed.

(** A reference to a model address (an [Arc] allocation), counted everywhere. *)
Definition one (q p : ptr) : Z := if q =? p then 1 else 0.

Lemma one_eq q : one q q = 1.
Proof. unfold one. by rewrite Z.eqb_refl. Qed.

Lemma one_ne q p : q <> p -> one q p = 0.
Proof. unfold one. intros. by destruct (Z.eqb_spec q p). Qed.

Lemma one_nonneg q p : 0 <= one q p.
Proof. unfold one. by destruct (_ =? _). Qed.

(** ** Sums over lists and finite maps *)
Definition lsum {A} (f : A -> Z) (l : list A) : Z := foldr (fun a acc => f a + acc) 0 l.

Lemma lsum_cons {A} (f : A -> Z) a l : lsum f (a :: l) = f a + lsum f l.
Proof. done. Qed.

Lemma lsum_app {A} (f : A -> Z) l1 l2 : lsum f (l1 ++ l2) = lsum f l1 + lsum f l2.
Proof. induction l1 as [|a l1 IH]; simpl; [done|]. rewrite IH. lia. Qed.

Lemma lsum_nonneg {A} (f : A -> Z) l : (forall a, 0 <= f a) -> 0 <= lsum f l.
Proof. intros Hf. induction l as [|a l IH]; simpl; [done|]. specialize (Hf a). lia. Qed.

Lemma lsum_elem {A} (f : A -> Z) l a :
  (forall b, 0 <= f b) -> a ∈ l -> f a <= lsum f l.
Proof.
  intros Hf. induction 1 as [a l|a b l _ IH]; simpl.
  - pose proof (lsum_nonneg f l Hf). lia.
  - specialize (Hf b). lia.
Qed.

Lemma lsum_insert {A} (f : A -> Z) l i x y :
  l !! i = Some x -> lsum f (<[i := y]> l) = lsum f l - f x + f y.
Proof.
  revert i. induction l as [|a l IH]; intros [|i] E; try discriminate E.
  - injection E as ->. cbn [insert list_insert]. rewrite !lsum_cons. lia.
  - change (<[S i := y]> (a :: l)) with (a :: <[i := y]> l). rewrite !lsum_cons, (IH _ E). lia.
Qed.

Lemma lsum_pos_elem {A} (f : A -> Z) l : 0 < lsum f l -> exists a, a ∈ l /\ 0 < f a.
Proof.
  induction l as [|a l IH]; [done|]. rewrite lsum_cons. intros Hp.
  destruct (decide (0 < f a)); [exists a; split; [left|done]|].
  destruct IH as (b & ? & ?); [lia|]. exists b. split; [by right|done].
Qed.

Definition msum {V} (f : V -> Z) (m : gmap Z V) : Z :=
  map_fold (fun _ v acc => f v + acc) 0 m.

Section MapSum.
Context {V : Type} (f : V -> Z).

Lemma msum_empty : msum f ∅ = 0.
Proof. unfold msum. by rewrite map_fold_empty. Qed.

Lemma msum_insert_None m i v :
  m !! i = None -> msum f (<[i:=v]> m) = f v + msum f m.
Proof.
  intros Hi. unfold msum. rewrite map_fold_insert_L; [done| |done].
  intros. lia.
Qed.

Lemma msum_delete m i v :
  m !! i = Some v -> msum f m = f v + msum f (delete i m).
Proof.
  intros Hi. rewrite <- (insert_delete_id m i v Hi) at 1.
  apply msum_insert_None. apply lookup_delete_eq.
Qed.

Lemma msum_insert_Some m i v v' :
  m !! i = Some v -> msum f (<[i:=v']> m) = f v' - f v + msum f m.
Proof.
  intros Hi. rewrite (msum_delete m i v Hi).
  rewrite <- insert_delete_eq. rewrite msum_insert_None; [lia|].
  apply lookup_delete_eq.
Qed.

Lemma msum_nonneg m : (forall v, 0 <= f v) -> 0 <= msum f m.
Proof.
  intros Hf. induction m as [|i v m Hi IH] using map_ind.
  - by rewrite msum_empty.
  - rewrite msum_insert_None by done. specialize (Hf v). lia.
Qed.

Lemma msum_lookup_le m i v :
  (forall u, 0 <= f u) -> m !! i = Some v -> f v <= msum f m.
Proof.
  intros Hf Hi. rewrite (msum_delete m i v Hi).
  pose proof (msum_nonneg (delete i m) Hf). lia.
Qed.

Lemma msum_pos_elem m :
  0 < msum f m -> exists i v, m !! i = Some v /\ 0 < f v.
Proof.
  induction m as [|i v m Hi IH] using map_ind.
  - rewrite msum_empty. lia.
  - rewrite msum_insert_None by done. intros Hpos.
    destruct (decide (0 < f v)) as [Hv|Hv].
    + exists i, v. by rewrite lookup_insert_eq.
    + destruct IH as (j & u & Hj & Hu); [lia|].
      exists j, u. split; [|done]. rewrite lookup_insert_ne; [done|]. congruence.
Qed.
End MapSum.

(** ** Automation *)
Create HintDb hrx.
#[export] Hint Resolve cnt_nonneg one_nonneg : hrx.
#[export] Hint Resolve lsum_nonneg msum_nonneg : hrx.

(** Case analysis on every boolean test of the goal and the hypotheses. *)
Ltac case_bool :=
  match goal with
  | |- context [if ?b then _ else _] => destruct b eqn:?
  | H : context [if ?b then _ else _] |- _ => destruct b eqn:?
  end.

(** Turn boolean facts about integers into arithmetic facts. *)
Ltac bool_to_prop :=
  repeat match goal with
  | H : _ && _ = true |- _ => apply andb_true_iff in H as [? ?]
  | H : _ || _ = false |- _ => apply orb_false_iff in H as [? ?]
  | H : negb _ = true |- _ => apply negb_true_iff in H
  | H : negb _ = false |- _ => apply negb_false_iff in H
  | H : is_null _ = true |- _ => apply is_null_true in H
  | H : is_null _ = false |- _ => apply is_null_false in H
  | H : (_ =? _) = true |- _ => apply Z.eqb_eq in H
  | H : (_ =? _) = false |- _ => apply Z.eqb_neq in H
  | H : (_ <? _) = true |- _ => apply Z.ltb_lt in H
  | H : (_ <? _) = false |- _ => apply Z.ltb_ge in H
  | H : (_ <=? _) = true |- _ => apply Z.leb_le in H
  | H : (_ <=? _) = false |- _ => apply Z.leb_gt in H
  end.
