(* ===== verification/Iree.v ===== *)
(** * The boundary with the IREE C runtime and libc

    libhrx reaches IREE only through the [extern "C"] functions declared in
    [crates/iree-sys/src/{lib,init,fem}.rs].  IREE itself is not part of the
    repository, so it is a parameter here: the class [IREE] answers each call
    as an arbitrary function of the history of calls.  The names of the calls
    and their arguments are the ones of the declarations. *)

From S2P Require Import Prelude.

(** ** ABI data (crates/iree-sys/src/init.rs) *)

Definition IREE_HAL_QUEUE_AFFINITY_ANY : Z := U64_MAX.
Definition IREE_HAL_MEMORY_ACCESS_READ : Z := Z.shiftl 1 0.
Definition IREE_HAL_MEMORY_ACCESS_WRITE : Z := Z.shiftl 1 1.
Definition IREE_HAL_MEMORY_ACCESS_DISCARD : Z := Z.shiftl 1 2.
Definition IREE_HAL_MEMORY_ACCESS_DISCARD_WRITE : Z :=
  Z.lor IREE_HAL_MEMORY_ACCESS_WRITE IREE_HAL_MEMORY_ACCESS_DISCARD.
Definition IREE_HAL_MEMORY_ACCESS_ALL : Z := 7.
Definition IREE_HAL_COMMAND_CATEGORY_TRANSFER : Z := 1.
Definition IREE_HAL_COMMAND_CATEGORY_DISPATCH : Z := 2.
Definition IREE_HAL_BUFFER_COMPATIBILITY_ALLOCATABLE : Z := Z.shiftl 1 0.
Definition IREE_VM_VALUE_TYPE_I64 : Z := 4.

(** [iree_hal_buffer_params_t] without its padding words. *)
Record iree_hal_buffer_params_t : Set := BufferParams {
  p_usage : Z;
  p_access : Z;
  p_type : Z;
  p_queue_affinity : Z;
  p_min_alignment : Z;
}.

#[export] Instance buffer_params_eq_dec : EqDecision iree_hal_buffer_params_t.
Proof. solve_decision. Defined.

(** [iree_hal_buffer_ref_t]: buffer, offset, length. *)
Record iree_hal_buffer_ref_t : Set := BufferRef {
  br_buffer : ptr;
  br_offset : Z;
  br_length : Z;
}.

(** [iree_timeout_t]. *)
Record iree_timeout_t : Set := Timeout { t_type : Z; t_nanos : Z }.

Definition IREE_TIMEOUT_ABSOLUTE : Z := 0.
Definition IREE_TIMEOUT_RELATIVE : Z := 1.

Definition timeout_infinite : iree_timeout_t := Timeout IREE_TIMEOUT_ABSOLUTE I64_MAX.
Definition timeout_immediate : iree_timeout_t := Timeout IREE_TIMEOUT_ABSOLUTE I64_MIN.
Definition timeout_relative_ns (ns : Z) : iree_timeout_t := Timeout IREE_TIMEOUT_RELATIVE ns.

(** [iree_allocator_t]: the instance pointer and the control function. *)
Record iree_allocator_t : Set := Allocator { al_self : ptr; al_ctl : ptr }.

(** Address of [iree_allocator_libc_ctl]; only that it is fixed matters. *)
Definition iree_allocator_libc_ctl : ptr := 64.
Definition allocator_system : iree_allocator_t := Allocator null iree_allocator_libc_ctl.
Definition allocator_null : iree_allocator_t := Allocator null null.

(** [iree_hal_semaphore_list_t]: the (semaphore, payload value) pairs. *)
Abbreviation sem_list := (list (ptr * Z)) (only parsing).

(** ** Calls

    Grouped by what they answer.  [created] is the answer of every constructor:
    a status and the new object, which carries one reference for the caller
    when the status is OK. *)
Record created : Set := Created { c_status : Z; c_ptr : ptr }.

(** Reference-counted or owned foreign resources. *)
Inductive rkind : Set :=
  | iree_status
  | iree_vm_instance | iree_async_proactor_pool | iree_async_frontier_tracker
  | iree_task_executor | iree_hal_executable_loader | iree_hal_allocator
  | iree_hal_driver | iree_hal_device | iree_hal_device_group
  | iree_hal_semaphore | iree_hal_fence | iree_hal_buffer | iree_hal_buffer_view
  | iree_hal_command_buffer | iree_hal_pool | iree_async_notification
  | iree_hal_executable | iree_hal_executable_cache
  | iree_vm_module | iree_vm_context | iree_vm_list.

Inductive create_call : Set :=
  | iree_vm_instance_create
  | iree_async_proactor_pool_create (node_count : Z)
  | iree_async_frontier_tracker_create
  | iree_hal_device_group_create_from_device (device tracker : ptr)
  | iree_task_executor_create (group_count worker_stack_size : Z)
  | iree_hal_allocator_create_heap
  | iree_hal_task_driver_create (executor : ptr) (loaders : list ptr) (allocator : ptr)
  | iree_hal_driver_create_default_device (driver proactor_pool : ptr)
  | iree_hal_driver_registry_try_create (registry : ptr)
  | iree_hal_driver_create_device_by_ordinal (driver : ptr) (ordinal : Z) (proactor_pool : ptr)
  | iree_hal_semaphore_create (device : ptr) (affinity initial_value flags : Z)
  | iree_hal_fence_create (capacity : Z)
  | iree_hal_fence_create_at (semaphore : ptr) (value : Z)
  | iree_hal_command_buffer_create (device : ptr) (mode category affinity binding_capacity : Z)
  | iree_hal_allocator_allocate_buffer (allocator : ptr) (params : iree_hal_buffer_params_t) (size : Z)
  | iree_hal_allocator_import_buffer (allocator : ptr) (params : iree_hal_buffer_params_t)
      (size : Z) (host_ptr : ptr)
  | iree_hal_allocator_virtual_memory_reserve (allocator : ptr) (affinity size : Z)
  | iree_hal_allocator_physical_memory_allocate (allocator : ptr)
      (params : iree_hal_buffer_params_t) (size : Z)
  | iree_hal_device_queue_alloca (device : ptr) (affinity : Z) (wait signal : sem_list)
      (pool : ptr) (params : iree_hal_buffer_params_t) (size : Z)
  | iree_async_notification_create (proactor : ptr)
  | iree_hal_buffer_view_create (buffer : ptr) (shape : list Z) (element_type encoding_type : Z)
  | iree_hal_executable_cache_create (device : ptr)
  | iree_hal_executable_cache_prepare_executable (cache format data : ptr) (data_size : Z)
  | iree_vm_bytecode_module_create (instance archive : ptr) (archive_size : Z)
  | iree_hal_module_create (instance device_group : ptr)
  | iree_vm_context_create_with_modules (instance : ptr) (modules : list ptr)
  | iree_vm_list_create (capacity : Z)
  | iree_allocator_malloc (allocator : iree_allocator_t) (byte_length : Z)
  | iree_allocator_malloc_uninitialized (allocator : iree_allocator_t) (byte_length : Z)
  | iree_allocator_clone (allocator : iree_allocator_t) (source : ptr) (byte_length : Z)
  | iree_allocator_malloc_aligned (allocator : iree_allocator_t)
      (byte_length min_alignment offset : Z).

Inductive status_call : Set :=
  | iree_hal_module_register_all_types (instance : ptr)
  | iree_hal_amdgpu_driver_module_register (registry : ptr)
  | iree_hal_semaphore_wait (semaphore : ptr) (value : Z) (timeout : iree_timeout_t)
  | iree_hal_semaphore_signal (semaphore : ptr) (value : Z)
  | iree_hal_fence_insert (fence semaphore : ptr) (value : Z)
  | iree_hal_fence_extend (into_fence from_fence : ptr)
  | iree_hal_fence_signal (fence : ptr)
  | iree_hal_fence_wait (fence : ptr) (timeout : iree_timeout_t)
  | iree_hal_command_buffer_begin (cb : ptr)
  | iree_hal_command_buffer_end (cb : ptr)
  | iree_hal_command_buffer_execution_barrier (cb : ptr) (source_stage target_stage : Z)
      (source_scope target_scope : Z)
  | iree_hal_command_buffer_fill_buffer (cb : ptr) (target : iree_hal_buffer_ref_t)
      (pattern : ptr) (pattern_length : Z)
  | iree_hal_command_buffer_copy_buffer (cb : ptr) (source target : iree_hal_buffer_ref_t)
  | iree_hal_command_buffer_update_buffer (cb : ptr) (source : ptr) (source_offset : Z)
      (target : iree_hal_buffer_ref_t)
  | iree_hal_command_buffer_dispatch (cb executable : ptr) (function : Z)
      (workgroup_size workgroup_count : list Z) (constants : ptr) (constants_size : Z)
      (bindings : list iree_hal_buffer_ref_t) (flags : Z)
  | iree_hal_device_queue_execute (device : ptr) (affinity : Z) (wait signal : sem_list) (cb : ptr)
  | iree_hal_device_queue_barrier (device : ptr) (affinity : Z) (wait signal : sem_list)
  | iree_hal_device_queue_dispatch (device : ptr) (affinity : Z) (wait signal : sem_list)
      (executable : ptr) (function : Z) (workgroup_size workgroup_count : list Z)
      (constants : ptr) (constants_size : Z) (bindings : list iree_hal_buffer_ref_t) (flags : Z)
  | iree_hal_device_queue_host_call (device : ptr) (affinity : Z) (wait signal : sem_list)
      (thunk : ptr)
  | iree_hal_device_wait_semaphores (device : ptr) (semaphores : sem_list)
  | iree_hal_device_transfer_h2d (device source target : ptr) (target_offset length : Z)
  | iree_hal_device_transfer_d2h (device source : ptr) (source_offset : Z) (target : ptr) (length : Z)
  | iree_hal_buffer_unmap_range (mapping : ptr)
  | iree_hal_allocator_virtual_memory_release (allocator buffer : ptr)
  | iree_hal_allocator_physical_memory_free (allocator physical : ptr)
  | iree_hal_allocator_virtual_memory_map (allocator buffer : ptr) (virtual_offset : Z)
      (physical : ptr) (physical_offset size : Z)
  | iree_hal_allocator_virtual_memory_unmap (allocator buffer : ptr) (virtual_offset size : Z)
  | iree_hal_allocator_virtual_memory_protect (allocator buffer : ptr)
      (virtual_offset size affinity protection : Z)
  | iree_vm_list_push_value (list_ : ptr) (type_ : Z) (storage : list Z)
  | iree_vm_list_push_ref_move (list_ : ptr) (ref : ptr)
  | iree_vm_invoke (context function inputs outputs : ptr).

(** Calls that answer a status and a value that carries no reference. *)
Inductive read_call : Set :=
  | iree_hal_semaphore_query (semaphore : ptr)
  | iree_hal_device_query_i64 (device : ptr) (category key : string)
  | iree_hal_executable_lookup_function_by_name (executable name : ptr)
  | iree_vm_context_resolve_function (context name : ptr)
  | iree_async_proactor_pool_get (pool : ptr) (index : Z).

(** Accessors that cannot fail. *)
Inductive get_call : Set :=
  | iree_vm_list_size (list_ : ptr)
  | iree_hal_buffer_view_shape_rank (view : ptr)
  | iree_hal_buffer_view_shape_dim (view : ptr) (index : Z)
  | iree_hal_executable_function_count (executable : ptr)
  | iree_hal_buffer_byte_length (buffer : ptr)
  | iree_hal_device_allocator (device : ptr)
  | iree_hal_allocator_supports_virtual_memory (allocator : ptr)
  | iree_hal_driver_registry_default
  | libc_fopen (path : ptr)
  | libc_fseek_end (file : ptr)
  | libc_fseek_set (file : ptr)
  | libc_ftell (file : ptr)
  | libc_fread (target file : ptr) (size : Z)
  | libc_fclose (file : ptr).

(** Calls without an answer. *)
Inductive void_call : Set :=
  | iree_async_notification_signal (notification : ptr) (count : Z)
  (** Incoming: IREE dropped the last reference to a pool and hands its storage
      back by calling the [destroy] slot of the vtable. *)
  | pool_destroy_invoked (base : ptr).

Record iree_hal_device_info_t : Set := DeviceInfo { di_path_size : Z; di_name : list Z }.

Record iree_hal_executable_function_info_t : Set := FunctionInfo {
  fi_name : ptr;
  fi_flags : Z;
  fi_constant_count : Z;
  fi_binding_count : Z;
  fi_parameter_count : Z;
  fi_workgroup_size : list Z;
}.

Inductive ffi : Set -> Type :=
  | ffi_create (c : create_call) : ffi created
  | ffi_status (c : status_call) : ffi Z
  | ffi_read (c : read_call) : ffi (Z * Z)%type
  | ffi_get (c : get_call) : ffi Z
  | ffi_void (c : void_call) : ffi unit
  | ffi_retain (k : rkind) (p : ptr) : ffi unit
  | ffi_release (k : rkind) (p : ptr) : ffi unit
  (** [iree_hal_buffer_map_range]: status, mapping storage, mapped address. *)
  | iree_hal_buffer_map_range (buffer : ptr) (access offset length : Z) : ffi (Z * ptr * ptr)%type
  (** [iree_status_to_string]: success, buffer, its contents. *)
  | iree_status_to_string (status : Z) : ffi (bool * ptr * string)%type
  (** [iree_hal_create_all_available_executable_loaders]: status, loaders. *)
  | iree_hal_create_all_available_executable_loaders (capacity : Z) : ffi (Z * list ptr)%type
  (** [iree_hal_driver_query_available_devices]: status, array, its contents. *)
  | iree_hal_driver_query_available_devices (driver : ptr)
      : ffi (Z * ptr * list iree_hal_device_info_t)%type
  (** [iree_hal_allocator_query_buffer_compatibility]: flags, resolved params. *)
  | iree_hal_allocator_query_buffer_compatibility (allocator : ptr)
      (params : iree_hal_buffer_params_t) (size : Z) : ffi (Z * iree_hal_buffer_params_t)%type
  (** [iree_hal_allocator_virtual_memory_query_granularity]: status, minimum, recommended. *)
  | iree_hal_allocator_virtual_memory_query_granularity (allocator : ptr)
      (params : iree_hal_buffer_params_t) : ffi (Z * Z * Z)%type
  | iree_vm_list_get_value_as (list_ : ptr) (index value_type : Z) : ffi (Z * list Z)%type
  | iree_hal_executable_function_info (executable : ptr) (function : Z)
      : ffi (Z * iree_hal_executable_function_info_t)%type
  (** [iree_allocator_realloc] / [_realloc_aligned]: status and the block after the call. *)
  | iree_allocator_realloc (allocator : iree_allocator_t) (old : ptr) (byte_length : Z)
      : ffi (Z * ptr)%type
  | iree_allocator_realloc_aligned (allocator : iree_allocator_t) (old : ptr)
      (byte_length min_alignment offset : Z) : ffi (Z * ptr)%type
  | iree_allocator_free (allocator : iree_allocator_t) (p : ptr) : ffi unit
  | iree_allocator_free_aligned (allocator : iree_allocator_t) (p : ptr) : ffi unit
  (** [iree_status_allocate_f(code, "hrx", 0, "%s", message)]. *)
  | iree_status_allocate_f (code : Z) (message : string) : ffi Z
  (** Whether libc can serve an allocation of this size. *)
  | libc_malloc_succeeds (size : Z) : ffi bool
  (** The client's host-call callback and the code and message of its status. *)
  | host_callback (callback user_data : ptr) : ffi (option (Z * option string)).

Inductive event : Type :=
  | Ev (A : Set) (c : ffi A) (r : A).
Arguments Ev {A} _ _.

(** What the environment answers, as a function of the calls made so far
    (latest first). *)
Class IREE := iree_respond : forall A : Set, list event -> ffi A -> A.
Arguments iree_respond {_ A} _ _.

(** Constructors that report OK deliver an object, the contract behind the
    [expect("OK ... with null ...")] of the wrappers, and the loader query answers
    no more loaders than the array it was given has room for. *)
Class IreeCreates `{IREE} := {
  iree_create_nonnull : forall tr (c : create_call),
    c_status (iree_respond tr (ffi_create c)) = 0 ->
    c_ptr (iree_respond tr (ffi_create c)) <> 0;
  iree_loaders_fit : forall tr n, 0 < n ->
    Z.of_nat (length (iree_respond tr (iree_hal_create_all_available_executable_loaders n)).2) <= n;
}.

(** The libc heap serves every request.  Needed only where a function tells
    success from failure by the null status that [hrx_make_status] also returns
    when it cannot allocate the payload. *)
Class LibcAlloc `{IREE} := libc_alloc_succeeds :
  forall tr n, iree_respond tr (libc_malloc_succeeds n) = true.

(** ** Status words (crates/iree-sys/src/lib.rs) *)
Definition status_is_ok (s : Z) : bool := is_null s.
Definition status_code (s : Z) : Z := Z.land s STATUS_CODE_MASK.
Definition iree_status_from_code (code : Z) : Z := Z.land code STATUS_CODE_MASK.
Definition IREE_STATUS_INVALID_ARGUMENT : Z := 3.
Definition IREE_STATUS_FAILED_PRECONDITION : Z := 9.

Lemma iree_status_from_code_inline code : iree_status_from_code code <= STATUS_CODE_MASK.
Proof.
  unfold iree_status_from_code, STATUS_CODE_MASK.
  change (Z.land code 31) with (Z.land code (Z.ones 5)).
  rewrite Z.land_ones by lia. pose proof (Z.mod_pos_bound code (2 ^ 5)). lia.
Qed.

(** ** The reference ledger of the boundary

    [ev_delta e p] is the change a call makes to the number of references at
    [p] that libhrx must still give back: [+1] for an object, error status or
    buffer it receives, [-1] for a release, a free or an ownership transfer. *)
Definition ok_cnt (s : Z) (q p : ptr) : Z := if status_is_ok s then cnt q p else 0.

Definition consumed (c : status_call) (s : Z) (p : ptr) : Z :=
  match c with
  | iree_hal_buffer_unmap_range mapping => cnt mapping p
  | iree_hal_allocator_virtual_memory_release _ buffer => cnt buffer p
  | iree_hal_allocator_physical_memory_free _ physical => cnt physical p
  | iree_vm_list_push_ref_move _ ref => ok_cnt s ref p
  | _ => 0
  end.

Definition delta {A : Set} (c : ffi A) : A -> ptr -> Z :=
  match c in ffi A return A -> ptr -> Z with
  | ffi_create _ => fun r p => cnt (c_status r) p + ok_cnt (c_status r) (c_ptr r) p
  | ffi_status c => fun s p => cnt s p - consumed c s p
  | ffi_read _ => fun r p => cnt r.1 p
  | ffi_get (libc_fopen _) => fun file p => cnt file p
  | ffi_get (libc_fclose file) => fun _ p => - cnt file p
  | ffi_get _ => fun _ _ => 0
  | ffi_void (pool_destroy_invoked base) => fun _ p => cnt base p
  | ffi_void _ => fun _ _ => 0
  | ffi_retain _ q => fun _ p => cnt q p
  | ffi_release _ q => fun _ p => - cnt q p
  | iree_hal_buffer_map_range _ _ _ _ =>
      fun '(s, m, _) p => cnt s p + ok_cnt s m p
  | iree_status_to_string _ => fun '(ok, msg, _) p => if ok : bool then cnt msg p else 0
  | iree_hal_create_all_available_executable_loaders _ =>
      fun '(s, ls) p => cnt s p + (if status_is_ok s then lsum (fun l => cnt l p) ls else 0)
  | iree_hal_driver_query_available_devices _ => fun '(s, infos, _) p => cnt s p + ok_cnt s infos p
  | iree_hal_allocator_query_buffer_compatibility _ _ _ => fun _ _ => 0
  | iree_hal_allocator_virtual_memory_query_granularity _ _ => fun '(s, _, _) p => cnt s p
  | iree_vm_list_get_value_as _ _ _ => fun '(s, _) p => cnt s p
  | iree_hal_executable_function_info _ _ => fun '(s, _) p => cnt s p
  | iree_allocator_realloc _ old _ | iree_allocator_realloc_aligned _ old _ _ _ =>
      fun '(s, new) p => cnt s p + (if status_is_ok s then cnt new p - cnt old p else 0)
  | iree_allocator_free _ q | iree_allocator_free_aligned _ q => fun _ p => - cnt q p
  | iree_status_allocate_f _ _ => fun s p => cnt s p
  | libc_malloc_succeeds _ => fun _ _ => 0
  | host_callback _ _ => fun _ _ => 0
  end.

Definition ev_delta (e : event) (p : ptr) : Z := let '(Ev c r) := e in delta c r p.

(** References libhrx has received and not yet given back. *)
Definition refs (tr : list event) (p : ptr) : Z := lsum (fun e => ev_delta e p) tr.

Lemma refs_cons {A : Set} (c : ffi A) r tr p : refs (Ev c r :: tr) p = delta c r p + refs tr p.
Proof. done. Qed.

(** ** A concrete environment

    Every call succeeds, every constructor returns a new address, semaphores
    and accessors read [0].  It is the environment of the examples. *)
Definition mock_addr (tr : list event) : ptr := 4096 + 16 * Z.of_nat (length tr).

Definition mock_respond (A : Set) (tr : list event) (c : ffi A) : A :=
  match c in ffi A return A with
  | ffi_create _ => Created 0 (mock_addr tr)
  | ffi_status _ => 0
  | ffi_read _ => (0, 0)
  | ffi_get (iree_hal_device_allocator d) => Z.abs d + 8
  | ffi_get _ => 0
  | ffi_void _ => tt
  | ffi_retain _ _ => tt
  | ffi_release _ _ => tt
  | iree_hal_buffer_map_range _ _ _ _ => (0, mock_addr tr, mock_addr tr + 8)
  | iree_status_to_string _ => (true, mock_addr tr, "error"%string)
  | iree_hal_create_all_available_executable_loaders _ => (0, [mock_addr tr])
  | iree_hal_driver_query_available_devices _ =>
      (0, mock_addr tr, [DeviceInfo 0 []; DeviceInfo 4 [71; 80; 85]])
  | iree_hal_allocator_query_buffer_compatibility _ params _ => (1, params)
  | iree_hal_allocator_virtual_memory_query_granularity _ _ => (0, 4096, 65536)
  | iree_vm_list_get_value_as _ _ _ => (0, [0; 0; 0; 0; 0; 0; 0; 0])
  | iree_hal_executable_function_info _ _ => (0, FunctionInfo 0 0 0 0 0 [1; 1; 1])
  | iree_allocator_realloc _ _ _ | iree_allocator_realloc_aligned _ _ _ _ _ => (0, mock_addr tr)
  | iree_allocator_free _ _ | iree_allocator_free_aligned _ _ => tt
  | iree_status_allocate_f code _ => 32 * mock_addr tr + status_code code
  | libc_malloc_succeeds _ => true
  | host_callback _ _ => None
  end.

Definition mock_iree : IREE := mock_respond.

Lemma mock_creates : @IreeCreates mock_iree.
Proof.
  split; intros tr c; unfold iree_respond, mock_iree, mock_respond, mock_addr; simpl; lia.
Qed.

Lemma mock_libc : @LibcAlloc mock_iree.
Proof. done. Qed.
