(* ===== verification/Objects.v ===== *)
(** * The object model of libhrx

    The structs behind the opaque [hrx_*_t] handles, the process-wide state of
    [runtime.rs], and what each of them holds: [owns] counts the foreign
    references an object keeps (its [Hal*] fields), [links] lists the handles
    it keeps alive ([DeviceRef], [SemaphoreGuard], [ModuleRef]). *)

From S2P Require Import Prelude Iree.

(** [HrxAllocatorInline] (device.rs). *)
Record HrxAllocatorInline := AllocatorInline {
  al_ref_count : Z;
  al_hal_allocator : ptr;
  al_device : ptr;
}.

(** [HrxDeviceS] (device.rs). *)
Record HrxDeviceS := Device {
  dev_type : Z;
  dev_ordinal : Z;
  dev_allocator : HrxAllocatorInline;
  dev_hal_device_group : ptr;
  dev_hal_device : ptr;
  dev_name : list Z;
  dev_architecture : list Z;
}.

(** [HrxSemaphoreS] (semaphore.rs). *)
Record HrxSemaphoreS := Semaphore { sem_hal : ptr; sem_device : ptr }.

(** [HrxFenceS] (fence.rs). *)
Record HrxFenceS := Fence { fence_hal : ptr }.

(** [MappedRange] (buffer.rs). *)
Record MappedRange := Mapped { mr_mapping : ptr; mr_ptr : ptr }.

(** [HrxBufferS] (buffer.rs). *)
Record HrxBufferS := Buffer {
  buf_map : option MappedRange;
  buf_hal_buffer : ptr;
  buf_hal_pool : option ptr;
  buf_device : ptr;
  buf_mem_type : Z;
  buf_size : Z;
}.

(** [HrxBufferViewS] (buffer_view.rs). *)
Record HrxBufferViewS := BufferView { view_hal : ptr }.

(** [HrxStreamS] (stream.rs). *)
Record HrxStreamS := Stream {
  st_timepoint : Z;
  st_pending_cb : ptr;
  st_has_pending_work : bool;
  st_flags : Z;
  st_semaphore : ptr;
  st_device : ptr;
}.

(** [HrxExecutableS] (executable.rs). *)
Record HrxExecutableS := Executable {
  exe_hal_executable : ptr;
  exe_hal_executable_cache : ptr;
  exe_device : ptr;
}.

(** [HrxModuleS] (module.rs). *)
Record HrxModuleS := VmModule {
  mod_context : ptr;
  mod_hal_module : ptr;
  mod_bytecode_module : ptr;
  mod_device : ptr;
}.

(** [HrxFunctionS] (module.rs). *)
Record HrxFunctionS := VmFunction { fn_module : ptr; fn_vm_function : Z }.

(** [HrxValueListS] (value_list.rs). *)
Record HrxValueListS := ValueList { vl_vm_list : ptr }.

(** [HrxExactPool] (pool.rs), without the constant vtable pointer. *)
Record HrxExactPool := ExactPool {
  pool_ref_count : Z;
  pool_host_allocator : iree_allocator_t;
  pool_allocator : ptr;
  pool_params : iree_hal_buffer_params_t;
  pool_notification : ptr;
}.

(** The object behind a handle. *)
Inductive obj :=
  | ODevice (d : HrxDeviceS)
  | OSemaphore (s : HrxSemaphoreS)
  | OFence (f : HrxFenceS)
  | OBuffer (b : HrxBufferS)
  | OBufferView (v : HrxBufferViewS)
  | OStream (s : HrxStreamS)
  | OExecutable (e : HrxExecutableS)
  | OModule (m : HrxModuleS)
  | OFunction (f : HrxFunctionS)
  | OValueList (l : HrxValueListS).

Inductive kind :=
  | KDevice | KSemaphore | KFence | KBuffer | KBufferView | KStream
  | KExecutable | KModule | KFunction | KValueList.

#[export] Instance kind_eq_dec : EqDecision kind.
Proof. solve_decision. Defined.

Definition okind (o : obj) : kind :=
  match o with
  | ODevice _ => KDevice | OSemaphore _ => KSemaphore | OFence _ => KFence
  | OBuffer _ => KBuffer | OBufferView _ => KBufferView | OStream _ => KStream
  | OExecutable _ => KExecutable | OModule _ => KModule | OFunction _ => KFunction
  | OValueList _ => KValueList
  end.

(** A Rust struct type that lives behind a handle. *)
Class Boxed (T : Type) := {
  box : T -> obj;
  unbox : obj -> option T;
  box_kind : kind;
  unbox_box t : unbox (box t) = Some t;
  unbox_Some o t : unbox o = Some t -> o = box t;
  unbox_kind o : okind o = box_kind -> is_Some (unbox o);
  box_okind t : okind (box t) = box_kind;
}.

Ltac solve_boxed := first [ done | intros []; simpl; intros; simplify_eq; eauto; done ].

#[export, refine] Instance boxed_device : Boxed HrxDeviceS :=
  {| box := ODevice; unbox o := match o with ODevice d => Some d | _ => None end;
     box_kind := KDevice |}.
Proof. all: solve_boxed. Defined.

#[export, refine] Instance boxed_semaphore : Boxed HrxSemaphoreS :=
  {| box := OSemaphore; unbox o := match o with OSemaphore s => Some s | _ => None end;
     box_kind := KSemaphore |}.
Proof. all: solve_boxed. Defined.

#[export, refine] Instance boxed_fence : Boxed HrxFenceS :=
  {| box := OFence; unbox o := match o with OFence f => Some f | _ => None end;
     box_kind := KFence |}.
Proof. all: solve_boxed. Defined.

#[export, refine] Instance boxed_buffer : Boxed HrxBufferS :=
  {| box := OBuffer; unbox o := match o with OBuffer b => Some b | _ => None end;
     box_kind := KBuffer |}.
Proof. all: solve_boxed. Defined.

#[export, refine] Instance boxed_buffer_view : Boxed HrxBufferViewS :=
  {| box := OBufferView; unbox o := match o with OBufferView v => Some v | _ => None end;
     box_kind := KBufferView |}.
Proof. all: solve_boxed. Defined.

#[export, refine] Instance boxed_stream : Boxed HrxStreamS :=
  {| box := OStream; unbox o := match o with OStream s => Some s | _ => None end;
     box_kind := KStream |}.
Proof. all: solve_boxed. Defined.

#[export, refine] Instance boxed_executable : Boxed HrxExecutableS :=
  {| box := OExecutable; unbox o := match o with OExecutable e => Some e | _ => None end;
     box_kind := KExecutable |}.
Proof. all: solve_boxed. Defined.

#[export, refine] Instance boxed_module : Boxed HrxModuleS :=
  {| box := OModule; unbox o := match o with OModule m => Some m | _ => None end;
     box_kind := KModule |}.
Proof. all: solve_boxed. Defined.

#[export, refine] Instance boxed_function : Boxed HrxFunctionS :=
  {| box := OFunction; unbox o := match o with OFunction f => Some f | _ => None end;
     box_kind := KFunction |}.
Proof. all: solve_boxed. Defined.

#[export, refine] Instance boxed_value_list : Boxed HrxValueListS :=
  {| box := OValueList; unbox o := match o with OValueList l => Some l | _ => None end;
     box_kind := KValueList |}.
Proof. all: solve_boxed. Defined.

(** ** What an object holds *)

Definition owned_by_map (m : option MappedRange) (p : ptr) : Z :=
  match m with Some r => cnt (mr_mapping r) p | None => 0 end.

Definition owned_by_pool_field (m : option ptr) (p : ptr) : Z :=
  match m with Some q => cnt q p | None => 0 end.

(** Foreign references kept by an object. *)
Definition owns (o : obj) (p : ptr) : Z :=
  match o with
  | ODevice d =>
      cnt (al_hal_allocator (dev_allocator d)) p + cnt (dev_hal_device_group d) p
      + cnt (dev_hal_device d) p
  | OSemaphore s => cnt (sem_hal s) p
  | OFence f => cnt (fence_hal f) p
  | OBuffer b =>
      owned_by_map (buf_map b) p + cnt (buf_hal_buffer b) p
      + owned_by_pool_field (buf_hal_pool b) p
  | OBufferView v => cnt (view_hal v) p
  | OStream s => cnt (st_pending_cb s) p
  | OExecutable e => cnt (exe_hal_executable e) p + cnt (exe_hal_executable_cache e) p
  | OModule m => cnt (mod_context m) p + cnt (mod_hal_module m) p + cnt (mod_bytecode_module m) p
  | OFunction _ => 0
  | OValueList l => cnt (vl_vm_list l) p
  end.

(** Handles kept alive by an object, with the kind of object they name. *)
Definition links (o : obj) : list (kind * ptr) :=
  match o with
  | ODevice _ | OFence _ | OBufferView _ | OValueList _ => []
  | OSemaphore s => [(KDevice, sem_device s)]
  | OBuffer b => [(KDevice, buf_device b)]
  | OStream s => [(KSemaphore, st_semaphore s); (KDevice, st_device s)]
  | OExecutable e => [(KDevice, exe_device e)]
  | OModule m => [(KDevice, mod_device m)]
  | OFunction f => [(KModule, fn_module f)]
  end.

Definition link_cnt (o : obj) (h : ptr) : Z := lsum (fun l => one l.2 h) (links o).

Lemma owns_nonneg o p : 0 <= owns o p.
Proof.
  destruct o; simpl; try apply Z.le_refl; repeat apply Z.add_nonneg_nonneg;
    auto with hrx; unfold owned_by_map, owned_by_pool_field;
    case_match; auto with hrx; lia.
Qed.

Lemma link_cnt_nonneg o h : 0 <= link_cnt o h.
Proof. apply lsum_nonneg. intros. apply one_nonneg. Qed.

Lemma link_cnt_pos o h : 0 < link_cnt o h -> exists k, (k, h) ∈ links o.
Proof.
  unfold link_cnt. induction (links o) as [|[k q] l IH]; simpl; [lia|].
  intros Hpos. unfold one at 1 in Hpos. destruct (Z.eqb_spec q h) as [->|].
  - exists k. left.
  - destruct IH as [k' Hk]; [lia|]. exists k'. by right.
Qed.

Lemma link_cnt_elem o k h : (k, h) ∈ links o -> 1 <= link_cnt o h.
Proof.
  intros Hin. transitivity (one h h); [by rewrite one_eq|].
  apply (lsum_elem (fun l => one l.2 h) (links o) (k, h)); [|done].
  intros. apply one_nonneg.
Qed.
#[export] Hint Resolve owns_nonneg link_cnt_nonneg : hrx.

(** [cstr_len] (device.rs): the bytes before the first NUL, or all of them. *)
Fixpoint cstr_len (buf : list Z) : Z :=
  match buf with
  | [] => 0
  | c :: rest => if c =? 0 then 0 else 1 + cstr_len rest
  end.

(** A NUL-terminated array. *)
Definition cstr_ok (buf : list Z) : Prop := cstr_len buf < Z.of_nat (length buf).

(** The allocator back-pointer of a device is the device's own address
    ([into_handle_cyclic]), and its fixed-size strings are terminated. *)
Definition self_ok (h : ptr) (o : obj) : Prop :=
  match o with
  | ODevice d =>
      al_device (dev_allocator d) = h /\ cstr_ok (dev_name d) /\ cstr_ok (dev_architecture d)
  | _ => True
  end.

(** ** Process-wide state (runtime.rs) *)

(** [SharedState]. *)
Record SharedState := Shared {
  sh_vm_instance : ptr;
  sh_proactor_pool : ptr;
  sh_host_allocator : iree_allocator_t;
  sh_init_count : Z;
  sh_initialized : bool;
}.

(** [CpuState] and [GpuState], which have the same shape. *)
Record AccelState := Accel {
  ac_devices : list ptr;
  ac_device_count : Z;
  ac_initialized : bool;
  ac_driver : ptr;
}.

(** [Globals] plus the [POOL_FOR_DEVICE] static. *)
Record Globals := MkGlobals {
  g_shared : SharedState;
  g_cpu : AccelState;
  g_gpu : AccelState;
  g_pool_for_device : ptr;
}.

Definition globals_initial : Globals :=
  MkGlobals (Shared null null allocator_null 0 false)
            (Accel [] 0 false null) (Accel [] 0 false null) null.

Definition accel_owns (a : AccelState) (p : ptr) : Z := cnt (ac_driver a) p.

Definition globals_own (g : Globals) (p : ptr) : Z :=
  cnt (sh_vm_instance (g_shared g)) p + cnt (sh_proactor_pool (g_shared g)) p
  + accel_owns (g_cpu g) p + accel_owns (g_gpu g) p.

Definition device_links (ds : list ptr) (h : ptr) : Z := lsum (fun d => one d h) ds.

Definition globals_link (g : Globals) (h : ptr) : Z :=
  device_links (ac_devices (g_cpu g)) h + device_links (ac_devices (g_gpu g)) h.

Lemma device_links_nonneg ds h : 0 <= device_links ds h.
Proof. apply lsum_nonneg. intros. apply one_nonneg. Qed.

Lemma globals_own_nonneg g p : 0 <= globals_own g p.
Proof. unfold globals_own, accel_owns. repeat apply Z.add_nonneg_nonneg; auto with hrx. Qed.

Lemma globals_link_nonneg g h : 0 <= globals_link g h.
Proof. apply Z.add_nonneg_nonneg; apply device_links_nonneg. Qed.

(** References kept by an exact pool: its allocator and its notification.  Its
    storage travels with the reference count: it belongs to whoever holds the
    pool (a buffer, then IREE) and comes back with the destroy callback. *)
Definition pool_owns (e : ptr * HrxExactPool) (p : ptr) : Z :=
  cnt (pool_notification e.2) p + cnt (pool_allocator e.2) p.

Lemma pool_owns_nonneg e p : 0 <= pool_owns e p.
Proof. unfold pool_owns. repeat apply Z.add_nonneg_nonneg; auto with hrx. Qed.
#[export] Hint Resolve device_links_nonneg globals_own_nonneg globals_link_nonneg pool_owns_nonneg : hrx.
