(* ===== verification/Machine.v ===== *)
(** * The machine libhrx runs on

    The state of a process that has loaded libhrx ([world]), a state-and-failure
    monad [M] in which every function of the crate is written, and the program
    logic the theorems use: [wp] (the call returns and its result satisfies a
    postcondition: no panic, no undefined behaviour) and [eff], the effect of a
    call on the two reference ledgers. *)

From S2P Require Import Prelude Iree Objects.

(** ** State *)

(** A block of the C heap: an [hrx_status_s] payload, a [strdup]'d string or a
    host-call thunk. *)
Inductive cblock :=
  | CStatus (code : Z) (message : ptr)
  | CString (s : string)
  | CThunk (callback user_data : ptr).

Record world := World {
  w_next : ptr;                              (** next unused heap address *)
  w_heap : gmap Z (Z * obj);                 (** [Arc] blocks: strong count, object *)
  w_cheap : gmap Z cblock;                   (** libc heap *)
  w_mem : gmap Z Z;                          (** client memory: out-parameters, arrays *)
  w_pools : list (ptr * HrxExactPool);       (** live exact pools *)
  w_glob : Globals;                          (** [runtime.rs] statics *)
  w_trace : list event;                      (** foreign calls, latest first *)
}.

Definition set_next (w : world) n :=
  World n (w_heap w) (w_cheap w) (w_mem w) (w_pools w) (w_glob w) (w_trace w).
Definition set_heap (w : world) h :=
  World (w_next w) h (w_cheap w) (w_mem w) (w_pools w) (w_glob w) (w_trace w).
Definition set_cheap (w : world) c :=
  World (w_next w) (w_heap w) c (w_mem w) (w_pools w) (w_glob w) (w_trace w).
Definition set_mem (w : world) m :=
  World (w_next w) (w_heap w) (w_cheap w) m (w_pools w) (w_glob w) (w_trace w).
Definition set_pools (w : world) l :=
  World (w_next w) (w_heap w) (w_cheap w) (w_mem w) l (w_glob w) (w_trace w).
Definition set_glob (w : world) g :=
  World (w_next w) (w_heap w) (w_cheap w) (w_mem w) (w_pools w) g (w_trace w).
Definition set_trace (w : world) t :=
  World (w_next w) (w_heap w) (w_cheap w) (w_mem w) (w_pools w) (w_glob w) t.

(** Distance between heap blocks; leaves room for interior pointers. *)
Definition BLOCK : Z := 4096.

Definition world_initial : world := World (2 ^ 40) ∅ ∅ ∅ [] globals_initial [].

(** ** The monad *)

Inductive outcome (A : Type) :=
  | Done (a : A) (w : world)
  | Panicked (message : string)
  | Undefined.
Arguments Done {A} _ _.
Arguments Panicked {A} _.
Arguments Undefined {A}.

Definition M (A : Type) : Type := world -> outcome A.

#[export] Instance M_ret : MRet M := fun A a w => Done a w.
#[export] Instance M_bind : MBind M := fun A B f m w =>
  match m w with
  | Done a w' => f a w'
  | Panicked s => Panicked s
  | Undefined => Undefined
  end.

Definition panic {A} (message : string) : M A := fun _ => Panicked message.
Definition undefined {A} : M A := fun _ => Undefined.

(** [Option::expect]. *)
Definition expect {A} (o : option A) (message : string) : M A :=
  match o with Some a => mret a | None => panic message end.

(** [NonNull::new(ptr)] behind every [Hal*::from_owned]. *)
Definition nonnull_new (p : ptr) : option ptr := if is_null p then None else Some p.

Section Foreign.
Context `{IREE}.

(** A call across the boundary: the answer is recorded with the call. *)
Definition call {A : Set} (c : ffi A) : M A := fun w =>
  let r := iree_respond (w_trace w) c in
  Done r (set_trace w (Ev c r :: w_trace w)).
End Foreign.

(** Client memory: writing through a valid out-pointer, reading an argument. *)
Definition write_out (p : ptr) (v : Z) : M unit := fun w =>
  if is_null p then Undefined else Done tt (set_mem w (<[p := v]> (w_mem w))).

Definition read_in (p : ptr) : M Z := fun w =>
  match w_mem w !! p with Some v => Done v w | None => Undefined end.

(** A stack local whose address is passed to [body]: the slot exists only
    during the call and its final value is returned with the result. *)
Definition with_local {A} (init : Z) (body : ptr -> M A) : M (A * Z) := fun w =>
  let slot := w_next w in
  match body slot (set_mem (set_next w (slot + BLOCK)) (<[slot := init]> (w_mem w))) with
  | Done a w' =>
      match w_mem w' !! slot with
      | Some v =>
          Done (a, v) (set_mem w' (partial_alter (fun _ => w_mem w !! slot) slot (w_mem w')))
      | None => Undefined
      end
  | Panicked s => Panicked s
  | Undefined => Undefined
  end.

Definition get_globals : M Globals := fun w => Done (w_glob w) w.
Definition put_globals (g : Globals) : M unit := fun w => Done tt (set_glob w g).

(** A fresh address. *)
Definition fresh_addr : M ptr := fun w => Done (w_next w) (set_next w (w_next w + BLOCK)).

(** ** The libc heap *)
Definition c_alloc (b : cblock) : M ptr := fun w =>
  Done (w_next w)
    (set_cheap (set_next w (w_next w + BLOCK)) (<[w_next w := b]> (w_cheap w))).

Definition c_load (p : ptr) : M cblock := fun w =>
  match w_cheap w !! p with Some b => Done b w | None => Undefined end.

(** [libc::free]: null is a no-op, freeing anything but a live block is undefined. *)
Definition libc_free (p : ptr) : M unit := fun w =>
  if is_null p then Done tt w
  else match w_cheap w !! p with
       | Some _ => Done tt (set_cheap w (delete p (w_cheap w)))
       | None => Undefined
       end.

(** ** Weakest preconditions *)

Definition wp {A} (m : M A) (Q : A -> world -> Prop) (w : world) : Prop :=
  match m w with Done a w' => Q a w' | _ => False end.

Lemma wp_ret {A} (a : A) Q w : Q a w -> wp (mret a) Q w.
Proof. done. Qed.

Lemma wp_bind {A B} (m : M A) (f : A -> M B) Q w :
  wp m (fun a w' => wp (f a) Q w') w -> wp (m ≫= f) Q w.
Proof. unfold wp, mbind, M_bind. by destruct (m w). Qed.

Lemma wp_mono {A} (m : M A) (Q Q' : A -> world -> Prop) w :
  wp m Q w -> (forall a w', Q a w' -> Q' a w') -> wp m Q' w.
Proof. unfold wp. destruct (m w); auto. Qed.

Lemma wp_Done {A} (m : M A) Q w :
  wp m Q w <-> exists a w', m w = Done a w' /\ Q a w'.
Proof.
  unfold wp. split.
  - destruct (m w) as [a w'| |]; [eauto|done|done].
  - by intros (a & w' & -> & HQ).
Qed.

Lemma bind_Done {A B} (m : M A) (f : A -> M B) w a w' :
  m w = Done a w' -> (m ≫= f) w = f a w'.
Proof. intros Hm. unfold mbind, M_bind. by rewrite Hm. Qed.

(** ** Ledgers *)

(** Foreign references held by the live objects, pools and statics. *)
Definition owned (w : world) (p : ptr) : Z :=
  msum (fun e => owns e.2 p) (w_heap w)
  + lsum (fun e => pool_owns e p) (w_pools w) + globals_own (w_glob w) p.

(** Foreign references that nothing in the process accounts for. *)
Definition imb (w : world) (p : ptr) : Z := refs (w_trace w) p - owned w p.

Definition strong (w : world) (h : ptr) : Z :=
  match w_heap w !! h with Some e => e.1 | None => 0 end.

(** [Arc] references held by other objects and by the statics. *)
Definition internal (w : world) (h : ptr) : Z :=
  msum (fun e => link_cnt e.2 h) (w_heap w) + globals_link (w_glob w) h.

(** [Arc] references held from outside: by the client or by a running call. *)
Definition ext (w : world) (h : ptr) : Z := strong w h - internal w h.

Definition usable (w : world) (k : kind) (h : ptr) : Prop :=
  exists n o, w_heap w !! h = Some (n, o) /\ okind o = k.

Record wf (w : world) : Prop := {
  wf_next : 2 ^ 40 <= w_next w;
  wf_heap_fresh : forall h, w_next w <= h -> w_heap w !! h = None;
  wf_cheap_fresh : forall h, w_next w <= h -> w_cheap w !! h = None;
  wf_heap_low : forall h, h < 2 ^ 40 -> w_heap w !! h = None;
  wf_strong : forall h n o, w_heap w !! h = Some (n, o) -> 1 <= n;
  wf_ext : forall h, 0 <= ext w h;
  wf_links : forall h n o k q,
    w_heap w !! h = Some (n, o) -> (k, q) ∈ links o -> usable w k q;
  wf_self : forall h n o, w_heap w !! h = Some (n, o) -> self_ok h o;
  wf_globals : forall d,
    d ∈ ac_devices (g_cpu (w_glob w)) \/ d ∈ ac_devices (g_gpu (w_glob w)) -> usable w KDevice d;
}.

(** The effect of a call: [F] on the foreign ledger, [G] on the handle ledger. *)
Record eff (w w' : world) (F G : ptr -> Z) : Prop := {
  eff_next : w_next w <= w_next w';
  eff_gone : forall h, h < w_next w -> w_heap w !! h = None -> w_heap w' !! h = None;
  eff_kind : forall h n o n' o',
    w_heap w !! h = Some (n, o) -> w_heap w' !! h = Some (n', o') -> okind o' = okind o;
  eff_imb : forall p, imb w' p = imb w p + F p;
  eff_ext : forall h, ext w' h = ext w h + G h;
}.

(** No handle lost a reference. *)
Definition grow (w w' : world) : Prop := forall h, strong w h <= strong w' h.

Definition none : ptr -> Z := fun _ => 0.

(** A call that may add references but takes none away. *)
Record safe (w w' : world) (F G : ptr -> Z) : Prop := Safe {
  safe_wf : wf w';
  safe_eff : eff w w' F G;
  safe_grow : grow w w';
}.

(** ** Algebra of effects *)

Lemma eff_refl w : eff w w none none.
Proof. split; unfold none; intros; try lia; try done. congruence. Qed.

Lemma eff_trans w1 w2 w3 F1 G1 F2 G2 :
  wf w1 -> eff w1 w2 F1 G1 -> eff w2 w3 F2 G2 ->
  eff w1 w3 (fun p => F1 p + F2 p) (fun h => G1 h + G2 h).
Proof.
  intros Hwf E1 E2. pose proof (eff_next _ _ _ _ E1). pose proof (eff_next _ _ _ _ E2). split.
  - lia.
  - intros h Hh Hn. apply (eff_gone _ _ _ _ E2); [lia|]. by apply (eff_gone _ _ _ _ E1).
  - intros h n o n' o' H1 H3.
    destruct (w_heap w2 !! h) as [[n2 o2]|] eqn:H2.
    + rewrite (eff_kind _ _ _ _ E2 _ _ _ _ _ H2 H3). by eapply (eff_kind _ _ _ _ E1).
    + destruct (decide (w_next w1 <= h)) as [Hge|Hlt].
      * by rewrite (wf_heap_fresh _ Hwf h Hge) in H1.
      * rewrite (eff_gone _ _ _ _ E2 h) in H3; [done|lia|done].
  - intros p. rewrite (eff_imb _ _ _ _ E2), (eff_imb _ _ _ _ E1). lia.
  - intros h. rewrite (eff_ext _ _ _ _ E2), (eff_ext _ _ _ _ E1). lia.
Qed.

Lemma eff_equiv w w' F G F' G' :
  eff w w' F G -> (forall p, F' p = F p) -> (forall h, G' h = G h) -> eff w w' F' G'.
Proof.
  intros E HF HG. split.
  - by apply (eff_next _ _ _ _ E).
  - by apply (eff_gone _ _ _ _ E).
  - by apply (eff_kind _ _ _ _ E).
  - intros p. rewrite HF. by apply (eff_imb _ _ _ _ E).
  - intros h. rewrite HG. by apply (eff_ext _ _ _ _ E).
Qed.

#[export] Instance grow_preorder : PreOrder grow.
Proof.
  split.
  - intros w h. lia.
  - intros w1 w2 w3 H12 H23 h. specialize (H12 h). specialize (H23 h). lia.
Qed.

Lemma safe_refl w : wf w -> safe w w none none.
Proof. intros. split; [done|apply eff_refl|done]. Qed.

Lemma safe_trans w1 w2 w3 F1 G1 F2 G2 :
  wf w1 -> safe w1 w2 F1 G1 -> safe w2 w3 F2 G2 ->
  safe w1 w3 (fun p => F1 p + F2 p) (fun h => G1 h + G2 h).
Proof.
  intros Hwf [_ E1 G12] [Hwf3 E2 G23]. split; [done|by eapply eff_trans|].
  by transitivity w2.
Qed.

Lemma safe_equiv w w' F G F' G' :
  safe w w' F G -> (forall p, F' p = F p) -> (forall h, G' h = G h) -> safe w w' F' G'.
Proof. intros [? E ?] HF HG. split; [done|by eapply eff_equiv|done]. Qed.

(** ** Liveness *)

Lemma strong_nonneg w h : wf w -> 0 <= strong w h.
Proof.
  intros Hwf. unfold strong. destruct (w_heap w !! h) as [[n o]|] eqn:E; [|done].
  pose proof (wf_strong _ Hwf _ _ _ E). simpl. lia.
Qed.

Lemma internal_nonneg w h : 0 <= internal w h.
Proof. apply Z.add_nonneg_nonneg; [apply msum_nonneg; intros; auto with hrx|auto with hrx]. Qed.

Lemma usable_strong w k h : wf w -> usable w k h -> 1 <= strong w h.
Proof.
  intros Hwf (n & o & E & _). unfold strong. rewrite E. by apply (wf_strong _ Hwf _ _ _ E).
Qed.

Lemma usable_high w k h : wf w -> usable w k h -> 2 ^ 40 <= h < w_next w.
Proof.
  intros Hwf (n & o & E & _).
  destruct (decide (h < 2 ^ 40)) as [Hl|]; [by rewrite (wf_heap_low _ Hwf h Hl) in E|].
  destruct (decide (w_next w <= h)) as [Hg|]; [by rewrite (wf_heap_fresh _ Hwf h Hg) in E|].
  lia.
Qed.

Lemma usable_nonnull w k h : wf w -> usable w k h -> is_null h = false.
Proof. intros Hwf Hu. pose proof (usable_high _ _ _ Hwf Hu). apply is_null_false. lia. Qed.

(** A handle somebody still holds stays usable, with the same kind. *)
Lemma usable_strong_after w w' F G k h :
  eff w w' F G -> usable w k h -> 1 <= strong w' h -> usable w' k h.
Proof.
  intros E (n & o & Eh & Ek) Hs. unfold strong in Hs.
  destruct (w_heap w' !! h) as [[n' o']|] eqn:Eh'; [|lia].
  exists n', o'. split; [done|]. rewrite (eff_kind _ _ _ _ E _ _ _ _ _ Eh Eh'). done.
Qed.

Lemma usable_safe w w' F G k h : wf w -> safe w w' F G -> usable w k h -> usable w' k h.
Proof.
  intros Hwf [_ E Hg] Hu. eapply usable_strong_after; [done|done|].
  pose proof (usable_strong _ _ _ Hwf Hu). specialize (Hg h). lia.
Qed.

Lemma usable_held w w' F G k h :
  eff w w' F G -> usable w k h -> 1 <= ext w' h -> usable w' k h.
Proof.
  intros E Hu He. eapply usable_strong_after; [done|done|].
  unfold ext in He. pose proof (internal_nonneg w' h). lia.
Qed.

Lemma usable_heap w w' k h : w_heap w' = w_heap w -> usable w k h -> usable w' k h.
Proof. unfold usable. by intros ->. Qed.
#[export] Hint Resolve usable_nonnull usable_safe : hrx.

(** ** Steps that leave the handles alone *)

Section Quiet.
Context (w w' : world).
Hypothesis Hheap : w_heap w' = w_heap w.
Hypothesis Hlinks : forall h, globals_link (w_glob w') h = globals_link (w_glob w) h.

Lemma quiet_ext h : ext w' h = ext w h.
Proof. unfold ext, strong, internal. by rewrite Hheap, Hlinks. Qed.

Lemma quiet_grow : grow w w'.
Proof. intros h. unfold strong. by rewrite Hheap. Qed.
End Quiet.

(** A step that changes the trace, the libc heap or client memory only. *)
Lemma safe_quiet w w' F :
  wf w -> w_heap w' = w_heap w -> w_glob w' = w_glob w -> w_pools w' = w_pools w ->
  w_next w <= w_next w' -> (forall h, w_next w' <= h -> w_cheap w' !! h = None) ->
  (forall p, refs (w_trace w') p = refs (w_trace w) p + F p) ->
  safe w w' F none.
Proof.
  intros Hwf Hheap Hglob Hpools Hnext Hc Htr.
  assert (forall h, ext w' h = ext w h) as Hext.
  { intros. apply quiet_ext; [done|]. by rewrite Hglob. }
  split.
  - split.
    + pose proof (wf_next _ Hwf). lia.
    + intros h Hh. rewrite Hheap. apply (wf_heap_fresh _ Hwf). lia.
    + done.
    + intros h Hh. rewrite Hheap. by apply (wf_heap_low _ Hwf).
    + rewrite Hheap. by apply (wf_strong _ Hwf).
    + intros h. rewrite Hext. by apply (wf_ext _ Hwf).
    + intros h n o k q. rewrite Hheap. intros. apply (usable_heap w); [done|].
      by eapply (wf_links _ Hwf).
    + rewrite Hheap. by apply (wf_self _ Hwf).
    + intros d. rewrite Hglob. intros. apply (usable_heap w); [done|].
      by apply (wf_globals _ Hwf).
  - split.
    + done.
    + intros h _. by rewrite Hheap.
    + intros h n o n' o'. rewrite Hheap. congruence.
    + intros p. unfold imb, owned. rewrite Htr, Hheap, Hpools, Hglob. lia.
    + intros h. rewrite Hext. unfold none. lia.
  - intros h. unfold strong. by rewrite Hheap.
Qed.

(** ** Specifications of the primitives *)

Lemma call_spec `{IREE} {A : Set} (c : ffi A) w :
  wf w ->
  wp (call c) (fun r w' =>
    safe w w' (delta c r) none /\ r = iree_respond (w_trace w) c
    /\ w' = set_trace w (Ev c r :: w_trace w)) w.
Proof.
  intros Hwf. unfold wp, call. split; [|done].
  apply safe_quiet; simpl; try done.
  - by apply (wf_cheap_fresh _ Hwf).
  - intros p. by rewrite Z.add_comm.
Qed.

Lemma write_out_spec p v w :
  wf w -> is_null p = false ->
  wp (write_out p v) (fun _ w' =>
    safe w w' none none /\ w' = set_mem w (<[p := v]> (w_mem w))) w.
Proof.
  intros Hwf Hp. unfold wp, write_out. rewrite Hp. split; [|done].
  apply safe_quiet; simpl; try done.
  - by apply (wf_cheap_fresh _ Hwf).
  - intros. unfold none. lia.
Qed.

Lemma c_alloc_spec b w :
  wf w ->
  wp (c_alloc b) (fun p w' =>
    safe w w' none none /\ p = w_next w
    /\ w' = set_cheap (set_next w (w_next w + BLOCK)) (<[p := b]> (w_cheap w))) w.
Proof.
  intros Hwf. unfold wp, c_alloc. split; [|done].
  apply safe_quiet; simpl; try done; unfold BLOCK.
  - lia.
  - intros h Hh. rewrite lookup_insert_ne by lia. apply (wf_cheap_fresh _ Hwf). lia.
  - intros. unfold none. lia.
Qed.

Lemma libc_free_spec p w :
  wf w -> p = 0 \/ is_Some (w_cheap w !! p) ->
  wp (libc_free p) (fun _ w' => safe w w' none none) w.
Proof.
  intros Hwf Hp. unfold wp, libc_free. destruct (is_null p) eqn:E.
  - by apply safe_refl.
  - bool_to_prop. destruct Hp as [|[b Hb]]; [done|]. rewrite Hb.
    apply safe_quiet; simpl; try done.
    + intros h Hh. apply lookup_delete_None. right. by apply (wf_cheap_fresh _ Hwf).
    + intros. unfold none. lia.
Qed.

(** Client memory carries no reference. *)
Lemma safe_set_mem w m : wf w -> safe w (set_mem w m) none none.
Proof.
  intros Hwf. apply safe_quiet; simpl; try done.
  - by apply (wf_cheap_fresh _ Hwf).
  - intros. unfold none. lia.
Qed.

(** Cells of client memory that hold a value keep holding one. *)
Definition mem_grow (w w' : world) : Prop :=
  forall a, is_Some (w_mem w !! a) -> is_Some (w_mem w' !! a).

Lemma with_local_spec {A} init (body : ptr -> M A) (R : A -> Z -> world -> Prop) w :
  wf w ->
  (forall w1, w1 = set_mem (set_next w (w_next w + BLOCK)) (<[w_next w := init]> (w_mem w)) ->
     safe w w1 none none -> is_null (w_next w) = false ->
     wp (body (w_next w)) (fun a w2 => exists v, w_mem w2 !! w_next w = Some v /\ R a v w2) w1) ->
  wp (with_local init body) (fun av w3 => exists w2 m, R av.1 av.2 w2 /\ w3 = set_mem w2 m /\
    (mem_grow (set_mem (set_next w (w_next w + BLOCK)) (<[w_next w := init]> (w_mem w))) w2 ->
     mem_grow w w3)) w.
Proof.
  intros Hwf Hbody. pose proof (wf_next _ Hwf).
  specialize (Hbody _ eq_refl). unfold wp, with_local in *. cbv zeta.
  assert (is_null (w_next w) = false) as Hn by (apply is_null_false; lia).
  match type of Hbody with safe _ ?w1 _ _ -> _ =>
    assert (safe w w1 none none) as HS end.
  { apply safe_quiet; simpl; try done; unfold BLOCK; [lia| |intros; unfold none; lia].
    intros h Hh. apply (wf_cheap_fresh _ Hwf). lia. }
  specialize (Hbody HS Hn).
  destruct (body _ _) as [a w2| |]; [|done|done]. destruct Hbody as (v & Hv & HR).
  rewrite Hv. eexists _, _. split; [done|]. split; [done|]. intros Hg b Hb. simpl.
  destruct (decide (w_next w = b)) as [<-|Hne].
  - by rewrite lookup_partial_alter_eq.
  - rewrite lookup_partial_alter_ne by done. apply Hg. simpl. by rewrite lookup_insert_ne.
Qed.

Lemma expect_spec {A} (o : option A) msg Q w :
  (forall a, o = Some a -> Q a w) -> o <> None -> wp (expect o msg) Q w.
Proof. destruct o as [a|]; intros HQ Hn; [by apply HQ|done]. Qed.

Lemma expect_nonnull_spec p msg Q w : p <> 0 -> Q p w -> wp (expect (nonnull_new p) msg) Q w.
Proof.
  intros Hp HQ. unfold nonnull_new. by rewrite (proj2 (is_null_false p)).
Qed.

(** ** Proof automation for the logic

    A proof about a function keeps one fact [safe w0 w F G] about everything
    done so far.  [wp_use spec] runs the next step with its specification and
    [merge_safe] adds its effect to that fact; [ledger] proves that the
    accumulated effect is the one announced. *)
Tactic Notation "wp_use" uconstr(spec) :=
  lazymatch goal with
  | |- wp (mbind _ _) _ _ => apply wp_bind
  | _ => idtac
  end; eapply wp_mono;
  [ eapply spec; lazymatch goal with |- @IreeCreates _ => assumption | |- _ => idtac end | cbv beta ].

Ltac merge_safe :=
  match goal with
  | H0 : wf ?w0, H1 : safe ?w0 ?w1 ?F1 ?G1, H2 : safe ?w1 ?w2 ?F2 ?G2 |- _ =>
      let H := fresh "HS" in
      pose proof (safe_trans _ _ _ _ _ _ _ H0 H1 H2) as H; clear H1;
      let Hw := fresh "Hwf" in pose proof (safe_wf _ _ _ _ H2) as Hw; clear H2
  end.

Ltac start_safe w := match goal with H : wf w |- _ => pose proof (safe_refl w H) end.

(** Run one foreign call. *)
Ltac wp_call :=
  wp_use call_spec; [assumption|];
  let r := fresh "r" in let w' := fresh "w" in
  intros r w' (? & ?Hresp & ?Hw); merge_safe.

Ltac ledger :=
  intros; unfold none, link_cnt in *; simpl in *; unfold ok_cnt, status_is_ok in *;
  repeat match goal with
  | H : negb _ = true |- _ => apply negb_true_iff in H
  | H : negb _ = false |- _ => apply negb_false_iff in H
  | H : is_null ?s = _ |- context [is_null ?s] => rewrite H
  | H : ?x = Some _ |- context [?x] => rewrite H
  | H : ?x = None |- context [?x] => rewrite H
  end; simpl in *;
  repeat match goal with
  | H : is_null ?s = true |- context [cnt ?s _] => rewrite (proj1 (is_null_true s) H)
  end; rewrite ?cnt_null; try lia.

Ltac close_safe :=
  match goal with
  | H : safe ?w ?w' _ _ |- safe ?w ?w' _ _ => eapply safe_equiv; [exact H|ledger|ledger]
  end.

Ltac close_eff :=
  match goal with
  | H : eff ?w ?w' _ _ |- eff ?w ?w' _ _ => eapply eff_equiv; [exact H|ledger|ledger]
  end.

Ltac merge_eff :=
  match goal with
  | H0 : wf ?w0, H1 : eff ?w0 ?w1 ?F1 ?G1, H2 : eff ?w1 ?w2 ?F2 ?G2 |- _ =>
      let H := fresh "HE" in
      pose proof (eff_trans _ _ _ _ _ _ _ H0 H1 H2) as H; clear H1 H2
  end.

(** The parts of the state a status conversion leaves alone. *)
Definition frame (w w' : world) : Prop :=
  w_heap w' = w_heap w /\ w_mem w' = w_mem w /\ w_pools w' = w_pools w /\ w_glob w' = w_glob w.

Lemma frame_refl w : frame w w.
Proof. by repeat split. Qed.

Lemma frame_trans w1 w2 w3 : frame w1 w2 -> frame w2 w3 -> frame w1 w3.
Proof. intros (?&?&?&?) (?&?&?&?). repeat split; congruence. Qed.

Lemma frame_trace w t : frame w (set_trace w t).
Proof. by repeat split. Qed.
#[export] Hint Resolve frame_refl frame_trace : hrx.

(** [mem_grow] through the steps collected by a proof. *)
Ltac mem_tac :=
  let a := fresh "a" in let Ha := fresh "Ha" in
  intros a Ha; simpl;
  repeat (match goal with
  | H : frame ?x ?y |- context [w_mem ?y] => rewrite (proj1 (proj2 H))
  | H : ?y = set_mem _ _ |- context [w_mem ?y] => rewrite H
  | H : ?y = set_heap _ _ |- context [w_mem ?y] => rewrite H
  | |- context [<[_ := _]> _ !! _] => rewrite lookup_insert; case_decide; [by eauto|]
  end; simpl); assumption.
