(* ===== verification/Handle.v ===== *)
(** * Handles: crates/hrx-libhrx/src/handle.rs

    A handle is the data pointer of an [Arc<T>].  The heap keeps the strong
    count next to the object; the last release takes the object out of the heap
    and runs its drop glue.  [Boxed] is the Rust type behind a handle and
    [DropGlue] its (implicit or explicit) [Drop]. *)

From S2P Require Import Prelude Iree Objects Machine.

(** What dropping a value of type [T] does. *)
Class DropGlue (T : Type) := drop_glue : T -> M unit.

Section Handle.
Context {T : Type} `{Boxed T}.

(** [into_handle]: [Arc::into_raw(Arc::new(obj))]. *)
Definition into_handle (t : T) : M ptr := fun w =>
  Done (w_next w)
    (set_heap (set_next w (w_next w + BLOCK)) (<[w_next w := (1, box t)]> (w_heap w))).

(** [into_handle_cyclic]: the object is built knowing its own address. *)
Definition into_handle_cyclic (build : ptr -> T) : M ptr := fun w =>
  into_handle (build (w_next w)) w.

(** [handle_ref]. *)
Definition handle_ref (h : ptr) : M T := fun w =>
  match w_heap w !! h with
  | Some (_, o) => match unbox o with Some t => Done t w | None => Undefined end
  | None => Undefined
  end.

(** Writing a [Cell] or [RefCell] field of the object behind a handle. *)
Definition handle_set (h : ptr) (t : T) : M unit := fun w =>
  match w_heap w !! h with
  | Some (n, o) =>
      match unbox o with
      | Some _ => Done tt (set_heap w (<[h := (n, box t)]> (w_heap w)))
      | None => Undefined
      end
  | None => Undefined
  end.

(** [handle_retain]: [Arc::increment_strong_count]. *)
Definition handle_retain (h : ptr) : M unit := fun w =>
  match w_heap w !! h with
  | Some (n, o) =>
      match unbox o with
      | Some _ => Done tt (set_heap w (<[h := (n + 1, o)]> (w_heap w)))
      | None => Undefined
      end
  | None => Undefined
  end.

(** [handle_release]: [Arc::decrement_strong_count]. *)
Definition handle_release `{DropGlue T} (h : ptr) : M unit := fun w =>
  match w_heap w !! h with
  | Some (n, o) =>
      match unbox o with
      | Some t =>
          if n =? 1 then drop_glue t (set_heap w (delete h (w_heap w)))
          else Done tt (set_heap w (<[h := (n - 1, o)]> (w_heap w)))
      | None => Undefined
      end
  | None => Undefined
  end.

(** [into_inner_handle]: [Arc::into_inner(Arc::from_raw(h))]. *)
Definition into_inner_handle (h : ptr) : M (option T) := fun w =>
  match w_heap w !! h with
  | Some (n, o) =>
      match unbox o with
      | Some t =>
          if n =? 1 then Done (Some t) (set_heap w (delete h (w_heap w)))
          else Done None (set_heap w (<[h := (n - 1, o)]> (w_heap w)))
      | None => Undefined
      end
  | None => Undefined
  end.
End Handle.

(** ** Effect of the heap updates on the ledgers *)

Lemma imb_set_heap w hp p :
  imb (set_heap w hp) p
  = imb w p + msum (fun e => owns e.2 p) (w_heap w) - msum (fun e => owns e.2 p) hp.
Proof. unfold imb, owned. simpl. lia. Qed.

Lemma ext_set_heap w hp h :
  ext (set_heap w hp) h
  = ext w h + (strong (set_heap w hp) h - strong w h)
    + msum (fun e => link_cnt e.2 h) (w_heap w) - msum (fun e => link_cnt e.2 h) hp.
Proof. unfold ext, internal. simpl. lia. Qed.

Lemma strong_lookup w h n o : w_heap w !! h = Some (n, o) -> strong w h = n.
Proof. unfold strong. by intros ->. Qed.

Lemma strong_insert w h e h' :
  strong (set_heap w (<[h := e]> (w_heap w))) h'
  = if decide (h = h') then e.1 else strong w h'.
Proof. unfold strong. simpl. rewrite lookup_insert. by case_decide. Qed.

(** Handles counted in [internal] are usable, so a count of zero means that
    nobody names the handle. *)
Lemma internal_zero_link w h h' n o k :
  internal w h = 0 -> w_heap w !! h' = Some (n, o) -> (k, h) ∈ links o -> False.
Proof.
  intros Hi Hl Hin. unfold internal in Hi.
  pose proof (msum_lookup_le (fun e => link_cnt e.2 h) _ _ _
                (fun e => link_cnt_nonneg e.2 h) Hl) as Hle.
  pose proof (link_cnt_elem _ _ _ Hin). pose proof (globals_link_nonneg (w_glob w) h).
  simpl in Hle. lia.
Qed.

Lemma device_links_elem ds d : d ∈ ds -> 1 <= device_links ds d.
Proof.
  intros Hin. transitivity (one d d); [by rewrite one_eq|].
  by apply (lsum_elem (fun e => one e d)); [intros; apply one_nonneg|].
Qed.

Lemma internal_zero_global w h :
  internal w h = 0 ->
  (h ∉ ac_devices (g_cpu (w_glob w))) /\ (h ∉ ac_devices (g_gpu (w_glob w))).
Proof.
  intros Hi. unfold internal in Hi.
  pose proof (msum_nonneg (fun e => link_cnt e.2 h) (w_heap w)
                (fun e => link_cnt_nonneg e.2 h)).
  unfold globals_link in Hi.
  pose proof (device_links_nonneg (ac_devices (g_cpu (w_glob w))) h).
  pose proof (device_links_nonneg (ac_devices (g_gpu (w_glob w))) h).
  split; intros Hin; apply device_links_elem in Hin; lia.
Qed.

(** An update of a block that keeps the kind and the links of its object. *)
Lemma update_wf_eff w h n o n' o' :
  wf w -> w_heap w !! h = Some (n, o) -> 1 <= n' -> links o' = links o -> okind o' = okind o ->
  (self_ok h o -> self_ok h o') ->
  0 <= ext w h + (n' - n) ->
  let w' := set_heap w (<[h := (n', o')]> (w_heap w)) in
  wf w' /\ eff w w' (fun p => owns o p - owns o' p) (fun q => (n' - n) * one h q).
Proof.
  intros Hwf Hh Hn' Hl Hk Hself He w'.
  assert (forall k q, usable w k q -> usable w' k q) as Hus.
  { intros k q (m & b & Hb & Hbk). unfold usable. simpl.
    destruct (decide (h = q)) as [<-|Hne].
    - exists n', o'. rewrite lookup_insert_eq. split; [done|]. congruence.
    - exists m, b. by rewrite lookup_insert_ne. }
  assert (forall q, ext w' q = ext w q + (n' - n) * one h q) as Hext.
  { intros q. unfold w'. rewrite ext_set_heap, strong_insert.
    rewrite (msum_insert_Some _ _ _ _ _ Hh). unfold link_cnt. simpl. rewrite Hl.
    case_decide as Hq.
    - subst q. rewrite (strong_lookup _ _ _ _ Hh), one_eq. lia.
    - rewrite one_ne by done. lia. }
  split; split.
  - apply (wf_next _ Hwf).
  - intros q Hq. simpl in *. rewrite lookup_insert_ne; [by apply (wf_heap_fresh _ Hwf)|].
    intros ->. by rewrite (wf_heap_fresh _ Hwf q Hq) in Hh.
  - apply (wf_cheap_fresh _ Hwf).
  - intros q Hq. simpl. rewrite lookup_insert_ne; [by apply (wf_heap_low _ Hwf)|].
    intros ->. by rewrite (wf_heap_low _ Hwf q Hq) in Hh.
  - intros q m b. simpl. rewrite lookup_insert. case_decide; intros; simplify_eq; [done|].
    by eapply (wf_strong _ Hwf).
  - intros q. rewrite Hext. unfold one. destruct (Z.eqb_spec h q); [subst; lia|].
    pose proof (wf_ext _ Hwf q). lia.
  - intros q m b k r. simpl. rewrite lookup_insert. case_decide; intros; simplify_eq.
    + apply Hus. eapply (wf_links _ Hwf); [done|]. by rewrite <- Hl.
    + apply Hus. by eapply (wf_links _ Hwf).
  - intros q m b. simpl. rewrite lookup_insert. case_decide; intros; simplify_eq.
    + apply Hself. by eapply (wf_self _ Hwf).
    + by eapply (wf_self _ Hwf).
  - intros d Hd. apply Hus. by apply (wf_globals _ Hwf).
  - simpl. lia.
  - intros q Hq Hnone. simpl. rewrite lookup_insert_ne; [done|]. congruence.
  - intros q m b m' b' Hb. simpl. rewrite lookup_insert. case_decide; intros; simplify_eq; [congruence|].
    congruence.
  - intros p. unfold w'. rewrite imb_set_heap, (msum_insert_Some _ _ _ _ _ Hh). simpl. lia.
  - done.
Qed.

(** Taking an object nobody else names out of the heap. *)
Definition floats (w : world) (o : obj) : Prop :=
  (forall k q, (k, q) ∈ links o -> usable w k q) /\ (forall q, link_cnt o q <= ext w q).

Lemma remove_wf_eff w h o :
  wf w -> w_heap w !! h = Some (1, o) -> 1 <= ext w h ->
  let w' := set_heap w (delete h (w_heap w)) in
  wf w' /\ eff w w' (owns o) (fun q => link_cnt o q - one h q) /\ floats w' o.
Proof.
  intros Hwf Hh He w'.
  assert (internal w h = 0) as Hi.
  { unfold ext in He. rewrite (strong_lookup _ _ _ _ Hh) in He.
    pose proof (internal_nonneg w h). lia. }
  assert (forall k q, usable w k q -> q <> h -> usable w' k q) as Hus.
  { intros k q (m & b & Hb & Hbk) Hne. exists m, b. simpl. by rewrite lookup_delete_ne. }
  assert (link_cnt o h = 0) as Hlo.
  { unfold internal in Hi.
    pose proof (msum_lookup_le (fun e => link_cnt e.2 h) _ _ _
                  (fun e => link_cnt_nonneg e.2 h) Hh) as Hle. simpl in Hle.
    pose proof (link_cnt_nonneg o h). pose proof (globals_link_nonneg (w_glob w) h). lia. }
  assert (forall q, ext w' q = ext w q + (link_cnt o q - one h q)) as Hext.
  { intros q. unfold w'. rewrite ext_set_heap.
    rewrite (msum_delete _ _ _ _ Hh). simpl. unfold strong. simpl. rewrite lookup_delete.
    case_decide as Hq.
    - subst q. rewrite Hh, one_eq. simpl. lia.
    - rewrite one_ne by done. lia. }
  assert (forall q, one h q <= ext w q) as Hone.
  { intros q. unfold one. destruct (Z.eqb_spec h q); [by subst|by apply (wf_ext _ Hwf)]. }
  split; [split|split; [split|split]].
  - apply (wf_next _ Hwf).
  - intros q Hq. simpl in *. apply lookup_delete_None. right. by apply (wf_heap_fresh _ Hwf).
  - apply (wf_cheap_fresh _ Hwf).
  - intros q Hq. simpl. apply lookup_delete_None. right. by apply (wf_heap_low _ Hwf).
  - intros q m b. simpl. rewrite lookup_delete_Some. intros [_ ?]. by eapply (wf_strong _ Hwf).
  - intros q. rewrite Hext. pose proof (link_cnt_nonneg o q). specialize (Hone q). lia.
  - intros q m b k r. simpl. rewrite lookup_delete_Some. intros [_ Hb] Hin.
    apply Hus; [by eapply (wf_links _ Hwf)|]. intros ->. by eapply internal_zero_link.
  - intros q m b. simpl. rewrite lookup_delete_Some. intros [_ ?]. by eapply (wf_self _ Hwf).
  - intros d Hd. apply Hus; [by apply (wf_globals _ Hwf)|]. intros ->.
    destruct (internal_zero_global _ _ Hi). simpl in Hd. tauto.
  - simpl. lia.
  - intros q Hq Hnone. simpl. apply lookup_delete_None. by right.
  - intros q m b m' b' Hb. simpl. rewrite lookup_delete_Some. intros [_ ?]. congruence.
  - intros p. unfold w'. rewrite imb_set_heap, (msum_delete _ _ _ _ Hh). simpl. lia.
  - done.
  - intros k q Hin. apply Hus; [by eapply (wf_links _ Hwf)|]. intros ->.
    pose proof (link_cnt_elem _ _ _ Hin). lia.
  - intros q. rewrite Hext. specialize (Hone q). lia.
Qed.

(** Placing a new object at the next address. *)
Lemma insert_wf_safe w o :
  wf w -> floats w o -> self_ok (w_next w) o ->
  let h := w_next w in
  let w' := set_heap (set_next w (w_next w + BLOCK)) (<[h := (1, o)]> (w_heap w)) in
  safe w w' (fun p => - owns o p) (fun q => one h q - link_cnt o q).
Proof.
  intros Hwf [Hu Hf] Hself h w'.
  assert (w_heap w !! h = None) as Hnone by (apply (wf_heap_fresh _ Hwf); unfold h; lia).
  assert (forall k q, usable w k q -> usable w' k q) as Hus.
  { intros k q (m & b & Hb & Hbk). exists m, b. simpl.
    rewrite lookup_insert_ne; [done|]. congruence. }
  assert (internal w h = 0 /\ ext w h = 0) as [Hint He0].
  { pose proof (wf_ext _ Hwf h). pose proof (internal_nonneg w h).
    unfold ext, strong in *. rewrite Hnone in *. lia. }
  assert (forall q, ext w' q = ext w q + (one h q - link_cnt o q)) as Hext.
  { intros q. unfold ext, internal, strong, w'. simpl.
    rewrite (msum_insert_None _ _ _ _ Hnone), lookup_insert. simpl. case_decide as Hq.
    - subst q. rewrite Hnone, one_eq. simpl. lia.
    - rewrite one_ne by done. lia. }
  pose proof (wf_next _ Hwf). unfold BLOCK in *.
  split; [split|split|].
  - simpl. lia.
  - intros q Hq. simpl in *. rewrite lookup_insert_ne by (unfold h; lia).
    apply (wf_heap_fresh _ Hwf). lia.
  - intros q Hq. simpl in *. apply (wf_cheap_fresh _ Hwf). lia.
  - intros q Hq. simpl. rewrite lookup_insert_ne by (unfold h; lia).
    by apply (wf_heap_low _ Hwf).
  - intros q m b. simpl. rewrite lookup_insert. case_decide; intros; simplify_eq; [lia|].
    by eapply (wf_strong _ Hwf).
  - intros q. rewrite Hext. specialize (Hf q). pose proof (one_nonneg h q). lia.
  - intros q m b k r. simpl. rewrite lookup_insert. case_decide; intros; simplify_eq.
    + apply Hus. by apply Hu.
    + apply Hus. by eapply (wf_links _ Hwf).
  - intros q m b. simpl. rewrite lookup_insert. case_decide; intros; simplify_eq; [done|].
    by eapply (wf_self _ Hwf).
  - intros d Hd. apply Hus. by apply (wf_globals _ Hwf).
  - simpl. lia.
  - intros q Hq Hn. simpl. rewrite lookup_insert_ne by (unfold h; lia). done.
  - intros q m b m' b' Hb. simpl. rewrite lookup_insert. case_decide; intros; simplify_eq; congruence.
  - intros p. unfold imb, owned, w'. simpl. rewrite (msum_insert_None _ _ _ _ Hnone). simpl. lia.
  - done.
  - intros q. unfold strong. simpl. rewrite lookup_insert. case_decide; [|done].
    subst q. rewrite Hnone. simpl. lia.
Qed.

(** ** Specifications of the handle operations *)

(** The contract of a drop glue: it gives back exactly what the object held. *)
Class DropOk (T : Type) `{Boxed T, DropGlue T} := drop_ok :
  forall (t : T) w, wf w -> floats w (box t) ->
    wp (drop_glue t) (fun _ w' =>
      wf w' /\ eff w w' (fun p => - owns (box t) p) (fun q => - link_cnt (box t) q)) w.

Section HandleSpecs.
Context {T : Type} `{Boxed T}.
Implicit Types (t : T) (w : world).

Lemma usable_unbox w h :
  usable w box_kind h -> exists n t, w_heap w !! h = Some (n, box t).
Proof.
  intros (n & o & E & Ek). destruct (unbox_kind o Ek) as [t Ht].
  exists n, t. by rewrite <- (unbox_Some _ _ Ht).
Qed.

Lemma usable_box w h n t : w_heap w !! h = Some (n, box t) -> usable w box_kind h.
Proof. intros E. exists n, (box t). split; [done|apply box_okind]. Qed.

Lemma handle_ref_spec w h :
  usable w box_kind h ->
  wp (handle_ref h) (fun t w' => w' = w /\ exists n, w_heap w !! h = Some (n, box t)) w.
Proof.
  intros (n & t & E)%usable_unbox. unfold wp, handle_ref. rewrite E, unbox_box. eauto.
Qed.

Lemma into_handle_spec w t :
  wf w -> floats w (box t) -> self_ok (w_next w) (box t) ->
  wp (into_handle t) (fun h w' =>
    safe w w' (fun p => - owns (box t) p) (fun q => one h q - link_cnt (box t) q)
    /\ h = w_next w /\ w_heap w' !! h = Some (1, box t)) w.
Proof.
  intros Hwf Hf Hself. unfold wp, into_handle. split; [by apply insert_wf_safe|].
  simpl. by rewrite lookup_insert_eq.
Qed.

Lemma handle_retain_spec w h :
  wf w -> usable w box_kind h ->
  wp (handle_retain h) (fun _ w' => safe w w' none (one h)) w.
Proof.
  intros Hwf (n & t & E)%usable_unbox. unfold wp, handle_retain. rewrite E, unbox_box.
  pose proof (wf_strong _ Hwf _ _ _ E). pose proof (wf_ext _ Hwf h).
  destruct (update_wf_eff w h n (box t) (n + 1) (box t)) as [Hwf' Heff]; try done; [lia..|].
  split; [done| |].
  - eapply eff_equiv; [done|..]; unfold none; intros; lia.
  - intros q. rewrite strong_insert. case_decide; [|done]. subst q.
    rewrite (strong_lookup _ _ _ _ E). simpl. lia.
Qed.

Lemma handle_set_spec w h n t t' :
  wf w -> w_heap w !! h = Some (n, box t) -> links (box t') = links (box t) ->
  (self_ok h (box t) -> self_ok h (box t')) ->
  wp (handle_set h t') (fun _ w' =>
    safe w w' (fun p => owns (box t) p - owns (box t') p) none
    /\ w' = set_heap w (<[h := (n, box t')]> (w_heap w))) w.
Proof.
  intros Hwf E Hl Hself. unfold wp, handle_set. rewrite E, unbox_box.
  pose proof (wf_strong _ Hwf _ _ _ E). pose proof (wf_ext _ Hwf h).
  destruct (update_wf_eff w h n (box t) n (box t')) as [Hwf' Heff]; try done; [by rewrite !box_okind|lia|].
  split; [|done]. split; [done| |].
  - eapply eff_equiv; [done|..]; unfold none; intros; lia.
  - intros q. rewrite strong_insert. case_decide; [|done]. subst q.
    by rewrite (strong_lookup _ _ _ _ E).
Qed.

(** A release by someone who holds a reference never touches a dead object,
    takes exactly that reference, and on the last one gives back everything
    the object held. *)
Lemma handle_release_spec `{!DropGlue T, !DropOk T} w h :
  wf w -> usable w box_kind h -> 1 <= ext w h ->
  wp (handle_release h) (fun _ w' => wf w' /\ eff w w' none (fun q => - one h q)) w.
Proof.
  intros Hwf (n & t & E)%usable_unbox He. unfold wp, handle_release. rewrite E, unbox_box.
  pose proof (wf_strong _ Hwf _ _ _ E). destruct (Z.eqb_spec n 1) as [->|Hn].
  - destruct (remove_wf_eff w h (box t) Hwf E He) as (Hwf' & Heff & Hfl).
    pose proof (drop_ok t _ Hwf' Hfl) as Hd. unfold wp in Hd.
    destruct (drop_glue t _) as [u w2| |]; [|done|done]. destruct Hd as [Hwf2 Heff2].
    split; [done|]. eapply eff_equiv; [by eapply eff_trans|..]; intros; unfold none; simpl; lia.
  - destruct (update_wf_eff w h n (box t) (n - 1) (box t)) as [Hwf' Heff]; try done; [lia..|].
    split; [done|]. eapply eff_equiv; [done|..]; unfold none; intros; lia.
Qed.

(** The last release frees the block. *)
Lemma handle_release_last `{!DropGlue T, !DropOk T} w h n o :
  wf w -> w_heap w !! h = Some (n, o) -> okind o = box_kind -> 1 <= ext w h ->
  wp (handle_release h) (fun _ w' =>
    w_heap w' !! h = (if n =? 1 then None else Some (n - 1, o))
    /\ (1 < n -> w_trace w' = w_trace w)) w.
Proof.
  intros Hwf E Ek He. assert (usable w box_kind h) as (n' & t & E')%usable_unbox by (by eexists _, _).
  rewrite E in E'. simplify_eq. unfold wp, handle_release. rewrite E, unbox_box.
  destruct (Z.eqb_spec n' 1) as [->|Hn].
  - destruct (remove_wf_eff w h (box t) Hwf E He) as (Hwf' & Heff & Hfl).
    pose proof (drop_ok t _ Hwf' Hfl) as Hd. unfold wp in Hd.
    destruct (drop_glue t _) as [u w2| |]; [|done|done]. destruct Hd as [_ Heff2].
    split; [|lia]. apply (eff_gone _ _ _ _ Heff2); simpl; [|apply lookup_delete_eq].
    eapply (usable_high w box_kind h Hwf). by eexists _, _.
  - simpl. by rewrite lookup_insert_eq.
Qed.

Lemma into_inner_handle_spec w h t :
  wf w -> w_heap w !! h = Some (1, box t) -> 1 <= ext w h ->
  wp (into_inner_handle h) (fun r w' =>
    r = Some t /\ wf w' /\ floats w' (box t)
    /\ eff w w' (owns (box t)) (fun q => link_cnt (box t) q - one h q)
    /\ w' = set_heap w (delete h (w_heap w))) w.
Proof.
  intros Hwf E He. unfold wp, into_inner_handle. rewrite E, unbox_box. simpl.
  destruct (remove_wf_eff w h (box t) Hwf E He) as (Hwf' & Heff & Hfl).
  by repeat split; try apply Hfl; try apply Hwf'; try apply Heff.
Qed.
End HandleSpecs.

(** ** Balance of retains and releases *)

Section Balance.
Context {T : Type} `{Boxed T, DropGlue T}.

(** [n] consecutive calls of an operation. *)
Fixpoint repeat_m (n : nat) (m : M unit) : M unit :=
  match n with O => mret tt | S n => m ;; repeat_m n m end.

Lemma repeat_retain (t : T) k : forall n w h,
  w_heap w !! h = Some (n, box t) ->
  repeat_m k (handle_retain (T:=T) h) w
  = Done tt (set_heap w (<[h := (n + Z.of_nat k, box t)]> (w_heap w))).
Proof.
  induction k as [|k IH]; intros n w h E; simpl.
  - rewrite Z.add_0_r, insert_id by done. by destruct w.
  - erewrite bind_Done by (unfold handle_retain; rewrite E, unbox_box; done).
    rewrite (IH (n + 1)) by (simpl; by rewrite lookup_insert_eq).
    assert (n + 1 + Z.of_nat k = n + Z.of_nat (S k)) as -> by lia.
    simpl. rewrite insert_insert_eq. done.
Qed.

Lemma repeat_release (t : T) k : forall n w h,
  Z.of_nat k < n -> w_heap w !! h = Some (n, box t) ->
  repeat_m k (handle_release (T:=T) h) w
  = Done tt (set_heap w (<[h := (n - Z.of_nat k, box t)]> (w_heap w))).
Proof.
  induction k as [|k IH]; intros n w h Hk E; simpl.
  - rewrite Z.sub_0_r, insert_id by done. by destruct w.
  - erewrite bind_Done.
    2:{ unfold handle_release. rewrite E, unbox_box.
        destruct (Z.eqb_spec n 1); [lia|done]. }
    rewrite (IH (n - 1)); [|lia|simpl; by rewrite lookup_insert_eq].
    assert (n - 1 - Z.of_nat k = n - Z.of_nat (S k)) as -> by lia.
    simpl. rewrite insert_insert_eq. done.
Qed.
End Balance.

(** ** Objects under construction *)

Lemma floats_nil w o : wf w -> links o = [] -> floats w o.
Proof.
  intros Hwf Hl. split.
  - rewrite Hl. intros k q Hin. by apply elem_of_nil in Hin.
  - intros q. unfold link_cnt. rewrite Hl. by apply (wf_ext _ Hwf).
Qed.

Lemma floats_one w o k d :
  links o = [(k, d)] -> usable w k d -> (forall q, one d q <= ext w q) -> floats w o.
Proof.
  intros Hl Hu He. split.
  - rewrite Hl. intros k' q Hin. apply list_elem_of_singleton in Hin. by simplify_eq.
  - intros q. unfold link_cnt. rewrite Hl. simpl. specialize (He q). lia.
Qed.

Lemma floats_two w o k1 d1 k2 d2 :
  links o = [(k1, d1); (k2, d2)] -> usable w k1 d1 -> usable w k2 d2 ->
  (forall q, one d1 q + one d2 q <= ext w q) -> floats w o.
Proof.
  intros Hl Hu1 Hu2 He. split.
  - rewrite Hl. intros k' q Hin. apply elem_of_cons in Hin as [?|Hin]; [by simplify_eq|].
    apply list_elem_of_singleton in Hin. by simplify_eq.
  - intros q. unfold link_cnt. rewrite Hl. simpl. specialize (He q). lia.
Qed.

(** References taken during a call are there to be given away. *)
Lemma ext_after w w' F G h : wf w -> eff w w' F G -> G h <= ext w' h.
Proof. intros Hwf E. rewrite (eff_ext _ _ _ _ E). pose proof (wf_ext _ Hwf h). lia. Qed.

(** Result of an entry point that stores a new handle at [out]. *)
Definition creates (w w' : world) (out : ptr) (k : kind) : Prop :=
  exists h, w_mem w' !! out = Some h /\ w_next w <= h /\ usable w' k h /\ safe w w' none (one h).

(** Destroying a member: what is left of the ledgers after a release. *)
Lemma ext_held w w' F G q n :
  eff w w' F G -> n <= ext w q + G q -> n <= ext w' q.
Proof. intros E ?. by rewrite (eff_ext _ _ _ _ E). Qed.

Ltac ext_tac :=
  match goal with
  | E : safe ?w ?w' _ _ |- _ <= ext ?w' ?q =>
      rewrite (eff_ext _ _ _ _ (safe_eff _ _ _ _ E));
      match goal with Hwf : wf w |- _ => pose proof (wf_ext _ Hwf q) end
  | E : eff ?w ?w' _ _ |- _ <= ext ?w' ?q =>
      rewrite (eff_ext _ _ _ _ E);
      match goal with Hwf : wf w |- _ => pose proof (wf_ext _ Hwf q) end
  end; unfold none; simpl; rewrite ?one_eq; try lia.

(** [usable w' k h] from the same fact about the start of the call. *)
Ltac usable_tac :=
  match goal with
  | E : safe ?w ?w' _ _, H : usable ?w ?k ?h |- usable ?w' ?k ?h =>
      eapply usable_safe; [|exact E|exact H]; assumption
  | |- usable _ _ _ => eassumption
  end.

Ltac wp_use_ref spec :=
  wp_use spec; [usable_tac|];
  let t := fresh "t" in intros t ?w' [-> (?n & ?Hobj)].

(** Place a new object: the address is at least the one at the start. *)
Ltac wp_into_handle :=
  match goal with
  | Hwf : wf ?w, E : safe ?w ?w' _ _ |- wp _ _ ?w' =>
      let Hn := fresh "Hnext" in pose proof (eff_next _ _ _ _ (safe_eff _ _ _ _ E)) as Hn
  end;
  wp_use into_handle_spec; [assumption| |exact I|];
  [|let h := fresh "h" in let w' := fresh "w" in
    intros h w' (? & ?Hh & ?Hobj); merge_safe].

Ltac wp_write :=
  wp_use write_out_spec; [assumption|assumption|];
  let w' := fresh "w" in let Hw := fresh "Hw" in
  intros ?u w' (? & Hw); merge_safe.

Ltac obj_usable :=
  match goal with
  | H : w_heap _ !! ?h = Some _ |- usable _ _ ?h =>
      eexists _, _; split; [simpl; exact H|reflexivity]
  end.
