(* ===== verification/Status.v ===== *)
(** * Statuses: crates/hrx-libhrx/src/{common,status}.rs

    An [hrx_status_t] is null for OK and otherwise a libc-heap payload with a
    code and a [strdup]'d message.  The conversions from and to IREE statuses
    consume their argument. *)

From S2P Require Import Prelude Iree Objects Machine.

(** [HrxStatusCode] (common.rs). *)
Inductive HrxStatusCode :=
  | Ok | Cancelled | Unknown | InvalidArgument | DeadlineExceeded | NotFound
  | AlreadyExists | PermissionDenied | OutOfMemory | FailedPrecondition | Aborted
  | OutOfRange | Unimplemented | Internal | Unavailable | DataLoss.

Definition code_i32 (c : HrxStatusCode) : Z :=
  match c with
  | Ok => 0 | Cancelled => 1 | Unknown => 2 | InvalidArgument => 3 | DeadlineExceeded => 4
  | NotFound => 5 | AlreadyExists => 6 | PermissionDenied => 7 | OutOfMemory => 8
  | FailedPrecondition => 9 | Aborted => 10 | OutOfRange => 11 | Unimplemented => 12
  | Internal => 13 | Unavailable => 14 | DataLoss => 15
  end.

Definition HRX_STATUS_OK : Z := 0.

Definition hrx_ok_status : ptr := null.
Definition hrx_status_is_ok (s : ptr) : bool := is_null s.

(** [hrx_code_from_iree]. *)
Definition hrx_code_from_iree (iree_code : Z) : Z :=
  match iree_code with
  | 3 => code_i32 InvalidArgument
  | 5 => code_i32 NotFound
  | 6 => code_i32 AlreadyExists
  | 11 => code_i32 OutOfRange
  | 12 => code_i32 Unimplemented
  | 14 => code_i32 Unavailable
  | 8 => code_i32 OutOfMemory
  | 4 => code_i32 DeadlineExceeded
  | _ => code_i32 Internal
  end.

Lemma hrx_code_from_iree_nonzero c : hrx_code_from_iree c <> 0.
Proof. unfold hrx_code_from_iree. repeat case_match; done. Qed.

Section Status.
Context `{IREE}.

(** [libc::strdup]. *)
Definition libc_strdup (s : string) : M ptr :=
  ok ← call (libc_malloc_succeeds (Z.of_nat (String.length s) + 1));
  if (ok : bool) then c_alloc (CString s) else mret null.

(** Storing the payload fields of a freshly allocated status. *)
Definition c_store (p : ptr) (b : cblock) : M unit := fun w =>
  match w_cheap w !! p with
  | Some _ => Done tt (set_cheap w (<[p := b]> (w_cheap w)))
  | None => Undefined
  end.

(** [hrx_make_status] (common.rs, re-exported by status.rs). *)
Definition hrx_make_status (code : Z) (message : option string) : M ptr :=
  if code =? HRX_STATUS_OK then mret hrx_ok_status
  else
    ok ← call (libc_malloc_succeeds 16);
    if negb ok then mret null
    else
      s ← c_alloc (CStatus code null);
      m ← match message with None => mret null | Some str => libc_strdup str end;
      c_store s (CStatus code m) ;;
      mret s.

(** [hrx_status_drop] / [hrx_status_ignore]. *)
Definition hrx_status_drop (s : ptr) : M unit :=
  if is_null s then mret tt
  else
    b ← c_load s;
    match b with
    | CStatus _ message => libc_free message ;; libc_free s
    | _ => undefined
    end.

Definition hrx_status_ignore (s : ptr) : M unit :=
  if hrx_status_is_ok s then mret tt
  else
    b ← c_load s;
    match b with
    | CStatus _ message => libc_free message ;; libc_free s
    | _ => undefined
    end.

(** [hrx_status_code]. *)
Definition hrx_status_code (s : ptr) : M Z :=
  if hrx_status_is_ok s then mret HRX_STATUS_OK
  else
    b ← c_load s;
    match b with CStatus code _ => mret code | _ => undefined end.

(** The C string behind a message pointer. *)
Definition c_string (p : ptr) : M string :=
  b ← c_load p; match b with CString s => mret s | _ => undefined end.

(** [hrx_status_to_string]. *)
Definition hrx_status_to_string (status out_message out_length : ptr) : M ptr :=
  if is_null out_message
  then hrx_make_status (code_i32 InvalidArgument) (Some "out_message is NULL"%string)
  else if hrx_status_is_ok status then
    m ← libc_strdup "OK"%string;
    write_out out_message m ;;
    (if negb (is_null out_length) then write_out out_length 2 else mret tt) ;;
    mret hrx_ok_status
  else
    b ← c_load status;
    match b with
    | CStatus _ msg =>
        src ← (if is_null msg then mret "(no message)"%string else c_string msg);
        m ← libc_strdup src;
        write_out out_message m ;;
        (if negb (is_null out_length)
         then write_out out_length (Z.of_nat (String.length src)) else mret tt) ;;
        mret hrx_ok_status
    | _ => undefined
    end.

(** [hrx_status_free_message]. *)
Definition hrx_status_free_message (message : ptr) : M unit := libc_free message.

(** [hrx_status_from_iree]. *)
Definition hrx_status_from_iree (s : Z) : M ptr :=
  if status_is_ok s then mret hrx_ok_status
  else
    let hrx_code := hrx_code_from_iree (status_code s) in
    '(ok, msg, text) ← call (iree_status_to_string s);
    if negb ok then
      call (ffi_release iree_status s) ;;
      hrx_make_status hrx_code (Some "IREE error (could not format message)"%string)
    else
      result ← hrx_make_status hrx_code (if is_null msg then None else Some text);
      call (iree_allocator_free allocator_system msg) ;;
      call (ffi_release iree_status s) ;;
      mret result.

(** [hrx_status_to_iree]. *)
Definition hrx_status_to_iree (status : ptr) : M Z :=
  if hrx_status_is_ok status then mret 0
  else
    b ← c_load status;
    match b with
    | CStatus code0 message =>
        let code := if code0 =? code_i32 OutOfMemory then 8 else code0 in
        text ← (if is_null message then mret "(no message)"%string else c_string message);
        result ← call (iree_status_allocate_f code text);
        libc_free message ;;
        libc_free status ;;
        mret result
    | _ => undefined
    end.
End Status.

(** ** Specifications *)

Section StatusSpecs.
Context `{IREE}.

(** [r] points to a live payload with this code, and its message, if any, is
    another live string. *)
Definition valid_status (w : world) (r code : Z) : Prop :=
  r <> 0 /\ exists m, w_cheap w !! r = Some (CStatus code m)
                      /\ (m = 0 \/ (m <> r /\ exists str, w_cheap w !! m = Some (CString str))).

(** Libc-heap steps only add blocks at new addresses. *)
Definition cheap_grow (w w' : world) : Prop :=
  w_next w <= w_next w' /\
  forall a, a < w_next w -> w_cheap w' !! a = w_cheap w !! a.

Lemma cheap_grow_trans w1 w2 w3 : cheap_grow w1 w2 -> cheap_grow w2 w3 -> cheap_grow w1 w3.
Proof. intros [? H12] [? H23]. split; [lia|]. intros a Ha. rewrite H23, H12 by lia. done. Qed.

(** A step confined to the trace and to new libc-heap blocks. *)
Definition status_step (w w' : world) (F : ptr -> Z) : Prop :=
  safe w w' F none /\ frame w w' /\ cheap_grow w w'.

Lemma status_step_trans w1 w2 w3 F1 F2 :
  wf w1 -> status_step w1 w2 F1 -> status_step w2 w3 F2 ->
  status_step w1 w3 (fun p => F1 p + F2 p).
Proof.
  intros Hwf (S1 & R1 & C1) (S2 & R2 & C2). split; [|split].
  - eapply safe_equiv; [by eapply safe_trans|done|done].
  - by eapply frame_trans.
  - by eapply cheap_grow_trans.
Qed.

Lemma status_step_refl w : wf w -> status_step w w none.
Proof. intros. split; [by apply safe_refl|]. split; [apply frame_refl|]. split; [lia|done]. Qed.

Lemma status_step_equiv w w' F F' :
  status_step w w' F -> (forall p, F' p = F p) -> status_step w w' F'.
Proof. intros (S & R & C) HF. split; [|done]. by eapply safe_equiv. Qed.

Lemma call_status {A : Set} (c : ffi A) w :
  wf w -> wp (call c) (fun r w' => status_step w w' (delta c r) /\ w_cheap w' = w_cheap w
                                   /\ w_next w' = w_next w
                                   /\ r = iree_respond (w_trace w) c) w.
Proof.
  intros Hwf. wp_use call_spec; [done|]. intros r w' (? & ? & ->).
  split; [|done]. split; [done|]. split; [apply frame_trace|]. split; simpl; [lia|done].
Qed.

Lemma c_alloc_status b w :
  wf w -> wp (c_alloc b) (fun p w' => status_step w w' none /\ p = w_next w
                                      /\ w_next w' = w_next w + BLOCK
                                      /\ w_cheap w' = <[p := b]> (w_cheap w)) w.
Proof.
  intros Hwf. wp_use c_alloc_spec; [done|]. intros p w' (? & -> & ->).
  split; [|done]. split; [done|]. split; [by repeat split|].
  split; simpl; unfold BLOCK; [lia|]. intros. rewrite lookup_insert_ne by lia. done.
Qed.

Lemma libc_strdup_spec s w :
  wf w ->
  wp (libc_strdup s) (fun m w' =>
    status_step w w' none /\
    (m = 0 \/ (w_next w <= m /\ w_cheap w' !! m = Some (CString s)))) w.
Proof.
  intros Hwf. unfold libc_strdup. wp_use call_status; [done|].
  intros ok w1 (HS & HC & HN & _). destruct ok.
  - wp_use c_alloc_status; [by apply HS|]. intros m w2 (HS2 & -> & HN2 & HC2). split.
    + eapply status_step_equiv; [by eapply status_step_trans|]. done.
    + right. split; [lia|]. by rewrite HC2, lookup_insert_eq.
  - apply wp_ret. split; [|by left]. by eapply status_step_equiv.
Qed.

(** A made status is null (OK code, or libc out of memory) or a new payload
    with the requested code. *)
Lemma hrx_make_status_spec code msg w :
  wf w ->
  wp (hrx_make_status code msg) (fun r w' =>
    status_step w w' none /\ (LibcAlloc -> code <> 0 -> r <> 0) /\
    (r = 0 \/ (code <> 0 /\ w_next w <= r /\ valid_status w' r code))) w.
Proof.
  intros Hwf. unfold hrx_make_status, HRX_STATUS_OK. destruct (Z.eqb_spec code 0) as [->|Hc].
  { apply wp_ret. split; [by apply status_step_refl|]. split; [done|by left]. }
  wp_use call_status; [done|]. intros ok w1 (HS1 & HC1 & HN1 & Hok).
  destruct ok; simpl.
  2:{ apply wp_ret. split; [by eapply status_step_equiv|]. split; [|by left].
      intros HL. by rewrite HL in Hok. }
  wp_use c_alloc_status; [by apply HS1|]. intros s w2 (HS2 & -> & HN2 & HC2).
  assert (wf w2) as Hwf2 by apply HS2.
  assert (wp (match msg with Some str => libc_strdup str | None => mret null end)
            (fun m w' => status_step w2 w' none /\
               (m = 0 \/ (w_next w2 <= m /\ exists str, w_cheap w' !! m = Some (CString str)))) w2) as Hm.
  { destruct msg as [str|]; [|split; [by apply status_step_refl|by left]].
    wp_use libc_strdup_spec; [done|]. intros ? ? [? [|[? Hm]]]; (split; [done|]); [by left|right].
    rewrite Hm. eauto. }
  apply wp_bind. eapply wp_mono; [exact Hm|]. intros m w3 [HS3 Hlive]. apply wp_bind.
  assert (is_Some (w_cheap w3 !! w_next w1)) as [b Hb].
  { destruct HS3 as (_ & _ & _ & ->); [|unfold BLOCK in *; lia].
    rewrite HC2, lookup_insert_eq. eauto. }
  unfold wp at 1, c_store. rewrite Hb. apply wp_ret.
  assert (status_step w w3 none) as HS.
  { eapply status_step_equiv; [eapply status_step_trans;
      [done|eapply status_step_trans; [done|exact HS1|exact HS2]|exact HS3]|done]. }
  pose proof (wf_next _ Hwf). split.
  - destruct HS as (Hsafe & Hfr & Hcg). assert (wf w3) as Hwf3 by apply Hsafe.
    split; [|split].
    + eapply safe_equiv; [eapply safe_trans; [done|exact Hsafe|eapply (safe_quiet _ _ none)]|..];
        simpl; try done; unfold none; try lia.
      intros h Hh. rewrite lookup_insert_ne; [by apply (wf_cheap_fresh _ Hwf3)|].
      intros <-. by rewrite (wf_cheap_fresh _ Hwf3 _ Hh) in Hb.
    + eapply frame_trans; [done|]. by repeat split.
    + destruct Hcg as [Hn Hcg]. split; simpl; [done|]. intros a Ha.
      rewrite lookup_insert_ne by lia. by apply Hcg.
  - split; [lia|]. right. split; [done|]. split; [lia|]. split; [lia|]. exists m. simpl.
    rewrite lookup_insert_eq. split; [done|]. destruct Hlive as [|[? ?]]; [by left|right].
    unfold BLOCK in *. split; [lia|]. rewrite lookup_insert_ne by lia. done.
Qed.

(** The IREE status is consumed: its reference and the text buffer IREE
    allocated for it are both given back. *)
Lemma hrx_status_from_iree_spec s w :
  wf w ->
  wp (hrx_status_from_iree s) (fun r w' =>
    status_step w w' (fun p => - cnt s p)
    /\ (s = 0 -> r = 0) /\ (LibcAlloc -> s <> 0 -> r <> 0)
    /\ (r = 0 \/ (w_next w <= r /\
          valid_status w' r (hrx_code_from_iree (status_code s))))) w.
Proof.
  intros Hwf. unfold hrx_status_from_iree, status_is_ok.
  destruct (is_null s) eqn:Es; bool_to_prop.
  { subst s. apply wp_ret. split; [|by auto 10].
    eapply status_step_equiv; [by apply status_step_refl|]. ledger. }
  wp_use call_status; [done|]. intros [[ok msg] text] w1 (HS1 & HC1 & HN1 & _).
  assert (wf w1) as Hwf1 by apply HS1. destruct ok; simpl.
  - wp_use hrx_make_status_spec; [done|]. intros r w2 (HS2 & Hnz & Hr).
    assert (wf w2) as Hwf2 by apply HS2.
    wp_use call_status; [done|]. intros ? w3 (HS3 & HC3 & HN3 & _).
    assert (wf w3) as Hwf3 by apply HS3.
    wp_use call_status; [done|]. intros ? w4 (HS4 & HC4 & HN4 & _). apply wp_ret.
    split; [|split; [done|split; [eauto using hrx_code_from_iree_nonzero|]]].
    + eapply status_step_equiv.
      * eapply status_step_trans; [done|eapply status_step_trans;
          [done|eapply status_step_trans; [done|exact HS1|exact HS2]|exact HS3]|exact HS4].
      * ledger.
    + unfold valid_status. rewrite HC4, HC3. destruct Hr as [|(_ & ? & ?)]; [by left|right].
      split; [lia|done].
  - wp_use call_status; [done|]. intros ? w2 (HS2 & HC2 & HN2 & _).
    assert (wf w2) as Hwf2 by apply HS2.
    wp_use hrx_make_status_spec; [done|]. intros r w3 (HS3 & Hnz & Hr).
    split; [|split; [done|split; [eauto using hrx_code_from_iree_nonzero|]]].
    + eapply status_step_equiv.
      * eapply status_step_trans; [done|eapply status_step_trans;
          [done|exact HS1|exact HS2]|exact HS3].
      * ledger.
    + destruct Hr as [|(_ & ? & ?)]; [by left|right]. split; [lia|done].
Qed.

Lemma hrx_status_drop_spec r w :
  wf w -> r = 0 \/ (exists code, valid_status w r code) ->
  wp (hrx_status_drop r) (fun _ w' => safe w w' none none /\ frame w w') w.
Proof.
  intros Hwf Hr. unfold hrx_status_drop. destruct (is_null r) eqn:E; bool_to_prop.
  { apply wp_ret. split; [by apply safe_refl|apply frame_refl]. }
  destruct Hr as [|(code & _ & m & Hm & Hlive)]; [done|].
  apply wp_bind. unfold wp at 1, c_load. rewrite Hm.
  assert (forall v, wf v -> w_cheap v !! r = Some (CStatus code m) ->
            wp (libc_free r) (fun _ w' => safe v w' none none /\ frame v w') v) as Hfree.
  { intros v Hv Hc. pose proof (libc_free_spec r v Hv) as Hs. unfold wp, libc_free in *.
    destruct (is_null r); [split; [by apply safe_refl|apply frame_refl]|]. rewrite Hc in *.
    split; [apply Hs; eauto|by repeat split]. }
  destruct (is_null m) eqn:Em.
  - apply wp_bind. unfold wp at 1, libc_free at 1. rewrite Em. by apply Hfree.
  - bool_to_prop. destruct Hlive as [|[Hne [b Hb]]]; [done|].
    pose proof (libc_free_spec m w Hwf) as Hs. apply wp_bind. unfold wp at 1, libc_free at 1.
    unfold wp, libc_free in Hs. rewrite (proj2 (is_null_false m)) in * by done.
    rewrite Hb in *. specialize (Hs (or_intror (ex_intro _ _ eq_refl))).
    eapply wp_mono; [apply Hfree; [apply Hs|simpl; rewrite lookup_delete_ne; done]|].
    intros _ w' [Hs' Hf']. split.
    + eapply safe_equiv; [by eapply safe_trans|done|done].
    + eapply frame_trans; [|exact Hf']. by repeat split.
Qed.
End StatusSpecs.

(** ** Derived forms used by every entry point *)

Section StatusDerived.
Context `{IREE}.

(** A returned status is null or a live payload the caller may inspect and free. *)
Definition status_value (w : world) (r : ptr) : Prop :=
  r = 0 \/ exists code, valid_status w r code.

(** A status stays readable while the libc heap is untouched. *)
Lemma status_value_cheap w w' r : w_cheap w' = w_cheap w -> status_value w r -> status_value w' r.
Proof. unfold status_value, valid_status. by intros ->. Qed.

Lemma make_status_safe code msg w :
  wf w -> wp (hrx_make_status code msg) (fun r w' => safe w w' none none /\ frame w w'
    /\ (LibcAlloc -> code <> 0 -> r <> 0) /\ status_value w' r) w.
Proof.
  intros Hwf. wp_use hrx_make_status_spec; [done|]. intros r w' [(? & ? & _) [? Hr]].
  split; [done|]. split; [done|]. split; [done|]. destruct Hr as [|(_ & _ & ?)]; [by left|right; eauto].
Qed.

Lemma from_iree_safe s w :
  wf w -> wp (hrx_status_from_iree s) (fun r w' =>
    safe w w' (fun p => - cnt s p) none /\ frame w w' /\ (s = 0 -> r = 0)
    /\ (LibcAlloc -> s <> 0 -> r <> 0) /\ status_value w' r) w.
Proof.
  intros Hwf. wp_use hrx_status_from_iree_spec; [done|].
  intros r w' [(? & ? & _) (? & ? & Hr)].
  split; [done|]. split; [done|]. split; [done|]. split; [done|]. destruct Hr as [|(_ & ?)]; [by left|right; eauto].
Qed.

Lemma call_frame {A : Set} (c : ffi A) w :
  wf w -> wp (call c) (fun r w' => safe w w' (delta c r) none /\ frame w w'
    /\ r = iree_respond (w_trace w) c /\ w_cheap w' = w_cheap w) w.
Proof.
  intros Hwf. wp_use call_spec; [done|]. intros r w' (? & ? & ->).
  split; [done|]. split; [apply frame_trace|done].
Qed.

Lemma libc_free_frame p b w :
  wf w -> w_cheap w !! p = Some b ->
  wp (libc_free p) (fun _ w' => safe w w' none none /\ frame w w' /\
    (forall q, q <> p -> w_cheap w' !! q = w_cheap w !! q) /\
    (p <> 0 -> w_cheap w' !! p = None)) w.
Proof.
  intros Hwf Hb. pose proof (libc_free_spec p w Hwf) as Hs. unfold wp, libc_free in *.
  destruct (is_null p) eqn:E; bool_to_prop.
  - split; [by apply safe_refl|]. split; [apply frame_refl|done].
  - rewrite Hb in *. split; [apply Hs; eauto|]. split; [by repeat split|]. simpl. split.
    + intros q Hq. by rewrite lookup_delete_ne.
    + by rewrite lookup_delete_eq.
Qed.

(** The conversion to IREE frees the payload and its message, and hands over
    the IREE status built from them. *)
Lemma hrx_status_to_iree_spec r w :
  wf w -> status_value w r ->
  wp (hrx_status_to_iree r) (fun s w' => safe w w' (cnt s) none /\ frame w w' /\
    (r <> 0 -> w_cheap w' !! r = None)) w.
Proof.
  intros Hwf Hr. unfold hrx_status_to_iree, hrx_status_is_ok.
  destruct (is_null r) eqn:Er; bool_to_prop.
  { apply wp_ret. split; [|split; [apply frame_refl|done]].
    eapply safe_equiv; [by apply safe_refl|ledger|done]. }
  destruct Hr as [|(code & _ & m & Hm & Hlive)]; [done|].
  apply wp_bind. unfold wp at 1, c_load. rewrite Hm.
  assert (exists text, (if is_null m then mret "(no message)"%string else c_string m) w
                       = Done text w) as [text Htext].
  { destruct (is_null m) eqn:Em; [by eexists|]. bool_to_prop.
    destruct Hlive as [|(_ & str & Hstr)]; [done|]. exists str. unfold c_string.
    erewrite bind_Done; [|by unfold c_load; rewrite Hstr]. done. }
  apply wp_bind. unfold wp at 1. rewrite Htext.
  wp_use call_frame; [done|]. intros s w1 (HS1 & Hfr1 & _ & Hc1).
  pose proof (safe_wf _ _ _ _ HS1) as Hwf1.
  assert (wp (libc_free m) (fun _ w' => safe w1 w' none none /\ frame w1 w' /\
            w_cheap w' !! r = Some (CStatus code m)) w1) as Hfree.
  { destruct Hlive as [->|(Hne & str & Hstr)].
    - unfold wp, libc_free. simpl. split; [by apply safe_refl|]. split; [apply frame_refl|].
      by rewrite Hc1.
    - wp_use (libc_free_frame m (CString str)); [done|by rewrite Hc1|].
      intros _ w2 (? & ? & Hq & _). split; [done|]. split; [done|]. rewrite Hq by done.
      by rewrite Hc1. }
  apply wp_bind. eapply wp_mono; [exact Hfree|]. intros _ w2 (HS2 & Hfr2 & Hc2).
  wp_use (libc_free_frame r); [apply HS2|exact Hc2|]. intros _ w3 (HS3 & Hfr3 & _ & Hgone).
  apply wp_ret. split; [|split; [|done]].
  - eapply safe_equiv; [eapply safe_trans; [done|eapply safe_trans; [done|exact HS1|exact HS2]|
      exact HS3]|..]; ledger.
  - eapply frame_trans; [eapply frame_trans; [exact Hfr1|exact Hfr2]|exact Hfr3].
Qed.

(** The exported accessors. *)
Lemma hrx_status_ignore_spec r w :
  wf w -> status_value w r -> wp (hrx_status_ignore r) (fun _ w' => safe w w' none none) w.
Proof.
  intros Hwf Hr. change (wp (hrx_status_drop r) (fun _ w' => safe w w' none none) w).
  eapply wp_mono; [by apply hrx_status_drop_spec|]. by intros ? ? [? _].
Qed.

Lemma hrx_status_code_spec r w :
  wf w -> status_value w r -> wp (hrx_status_code r) (fun _ w' => w' = w) w.
Proof.
  intros Hwf Hr. unfold hrx_status_code, hrx_status_is_ok. destruct (is_null r) eqn:E; [done|].
  bool_to_prop. destruct Hr as [|(code & _ & m & Hm & _)]; [done|].
  apply wp_bind. unfold wp at 1, c_load. by rewrite Hm.
Qed.

(** The text behind a status, copied for the caller. *)
Lemma text_out_spec text out len w :
  wf w -> is_null out = false ->
  wp (m ← libc_strdup text;
      write_out out m ;;
      (if negb (is_null len) then write_out len (Z.of_nat (String.length text)) else mret tt) ;;
      mret hrx_ok_status)
     (fun r w' => r = 0 /\ safe w w' none none) w.
Proof.
  intros Hwf Ho. start_safe w. wp_use libc_strdup_spec; [done|]. intros m w1 ((? & _ & _) & _). merge_safe.
  wp_use write_out_spec; [done|done|]. intros _ w2 [? _]. merge_safe.
  destruct (is_null len) eqn:El; simpl; [|wp_use write_out_spec; [done|done|]; intros _ w3 [? _]; merge_safe].
  - apply wp_bind, wp_ret, wp_ret. split; [done|close_safe].
  - apply wp_ret. split; [done|close_safe].
Qed.

Lemma hrx_status_to_string_spec r out len w :
  wf w -> status_value w r ->
  wp (hrx_status_to_string r out len) (fun s w' => safe w w' none none /\ (is_null out = false -> s = 0)) w.
Proof.
  intros Hwf Hr. unfold hrx_status_to_string, hrx_status_is_ok. destruct (is_null out) eqn:Eo.
  { eapply wp_mono; [by apply make_status_safe|]. by intros ? ? (? & _). }
  destruct (is_null r) eqn:Er.
  { eapply wp_mono; [by apply (text_out_spec "OK"%string)|]. by intros s w' [-> ?]. }
  destruct Hr as [->|(code & _ & m & Hm & Hlive)]; [done|].
  apply wp_bind. unfold wp at 1, c_load. rewrite Hm.
  assert (exists text, (if is_null m then mret "(no message)"%string else c_string m) w
                       = Done text w) as [text Htext].
  { destruct (is_null m) eqn:Em; [by eexists|]. bool_to_prop.
    destruct Hlive as [|(_ & str & Hstr)]; [done|]. exists str. unfold c_string.
    erewrite bind_Done; [|by unfold c_load; rewrite Hstr]. done. }
  apply wp_bind. unfold wp at 1. rewrite Htext.
  eapply wp_mono; [by apply (text_out_spec text)|]. by intros s w' [-> ?].
Qed.
End StatusDerived.

(** Run a foreign call whose heap is untouched, keeping the merged ledger. *)
Ltac wp_ffi r :=
  wp_use call_frame; [assumption|];
  let w' := fresh "w" in let HF := fresh "Hfr" in
  intros r w' (? & HF & ?Hresp & ?Hch); merge_safe.

Ltac status_live :=
  repeat match goal with
  | H : w_cheap ?b = w_cheap ?a |- status_value ?b _ => apply (status_value_cheap a); [exact H|]
  end; assumption.

(** Return an error made by [hrx_make_status]. *)
Ltac wp_error :=
  wp_use make_status_safe; [assumption|];
  let w' := fresh "w" in let HF := fresh "Hfr" in
  intros ?r w' (? & HF & ?Hnz & ?Hst); merge_safe.

(** Return the conversion of an IREE status. *)
Ltac wp_iree_error :=
  wp_use from_iree_safe; [assumption|];
  let w' := fresh "w" in let HF := fresh "Hfr" in
  intros ?r w' (? & HF & ?Hok & ?Hnz & ?Hst); merge_safe.
