(* ===== verification/IreeHal.v ===== *)
(** * Owned IREE references: crates/iree-hal/src/lib.rs

    A [Hal*] wrapper is a non-null pointer that owns one reference.  The
    constructors below turn the answer of an IREE constructor into a wrapper or
    into the error status; dropping a wrapper is a release call. *)

From S2P Require Import Prelude Iree Objects Machine Handle Status.

Section IreeHal.
Context `{IREE}.

(** [Result<Hal*, iree_status_t>]: an error status or an owned pointer. *)
Definition hal_result : Type := (Z + ptr)%type.

(** Create, check the status, [from_owned(..).expect(..)]. *)
Definition hal_create (c : create_call) (message : string) : M hal_result :=
  r ← call (ffi_create c);
  if status_is_ok (c_status r)
  then p ← expect (nonnull_new (c_ptr r)) message; mret (inr p)
  else mret (inl (c_status r)).

Definition fence_create (capacity : Z) : M hal_result :=
  hal_create (iree_hal_fence_create capacity) "OK status with null fence"%string.

Definition fence_create_at (semaphore : ptr) (value : Z) : M hal_result :=
  hal_create (iree_hal_fence_create_at semaphore value) "OK status with null fence"%string.

Definition semaphore_create (device : ptr) (affinity initial_value flags : Z) : M hal_result :=
  hal_create (iree_hal_semaphore_create device affinity initial_value flags)
    "OK status with null semaphore"%string.

Definition buffer_view_create (buffer : ptr) (shape : list Z) (element_type encoding_type : Z)
  : M hal_result :=
  hal_create (iree_hal_buffer_view_create buffer shape element_type encoding_type)
    "OK status with null buffer_view"%string.

(** ** Methods of the wrappers *)

(** [HalFence::{insert, extend, signal, wait}]. *)
Definition HalFence_insert (fence semaphore : ptr) (value : Z) : M Z :=
  call (ffi_status (iree_hal_fence_insert fence semaphore value)).
Definition HalFence_extend (into_fence from : ptr) : M Z :=
  call (ffi_status (iree_hal_fence_extend into_fence from)).
Definition HalFence_signal (fence : ptr) : M Z := call (ffi_status (iree_hal_fence_signal fence)).
Definition HalFence_wait (fence : ptr) (timeout : iree_timeout_t) : M Z :=
  call (ffi_status (iree_hal_fence_wait fence timeout)).

(** [HalSemaphore::{query_into, wait, signal}]; a query answers the status and the
    value it writes. *)
Definition HalSemaphore_query_into (semaphore : ptr) : M (Z * Z) :=
  call (ffi_read (iree_hal_semaphore_query semaphore)).
Definition HalSemaphore_wait (semaphore : ptr) (value : Z) (timeout : iree_timeout_t) : M Z :=
  call (ffi_status (iree_hal_semaphore_wait semaphore value timeout)).
Definition HalSemaphore_signal (semaphore : ptr) (value : Z) : M Z :=
  call (ffi_status (iree_hal_semaphore_signal semaphore value)).

(** [HalBufferView::{shape_rank, shape_dim}]. *)
Definition HalBufferView_shape_rank (view : ptr) : M Z :=
  call (ffi_get (iree_hal_buffer_view_shape_rank view)).
Definition HalBufferView_shape_dim (view : ptr) (index : Z) : M Z :=
  call (ffi_get (iree_hal_buffer_view_shape_dim view index)).

(** [Drop] of a wrapper: one release of the kind of object it owns. *)
Definition hal_drop (k : rkind) (p : ptr) : M unit := call (ffi_release k p).

Definition HalFence_drop : ptr -> M unit := hal_drop iree_hal_fence.
Definition HalSemaphore_drop : ptr -> M unit := hal_drop iree_hal_semaphore.
Definition HalBufferView_drop : ptr -> M unit := hal_drop iree_hal_buffer_view.
Definition HalDevice_drop : ptr -> M unit := hal_drop iree_hal_device.
Definition HalDeviceGroup_drop : ptr -> M unit := hal_drop iree_hal_device_group.
Definition HalAllocator_drop : ptr -> M unit := hal_drop iree_hal_allocator.
Definition HalBuffer_drop : ptr -> M unit := hal_drop iree_hal_buffer.
Definition HalPool_drop : ptr -> M unit := hal_drop iree_hal_pool.
Definition HalExecutable_drop : ptr -> M unit := hal_drop iree_hal_executable.
Definition HalExecutableCache_drop : ptr -> M unit := hal_drop iree_hal_executable_cache.
Definition HalVmModule_drop : ptr -> M unit := hal_drop iree_vm_module.
Definition HalVmContext_drop : ptr -> M unit := hal_drop iree_vm_context.
Definition HalVmList_drop : ptr -> M unit := hal_drop iree_vm_list.

(** [Clone] of a wrapper: one retain, and a second owner of the pointer. *)
Definition hal_clone (k : rkind) (p : ptr) : M ptr := call (ffi_retain k p) ;; mret p.

Definition HalFence_clone : ptr -> M ptr := hal_clone iree_hal_fence.
Definition HalSemaphore_clone : ptr -> M ptr := hal_clone iree_hal_semaphore.
Definition HalBufferView_clone : ptr -> M ptr := hal_clone iree_hal_buffer_view.

(** [HalBuffer::into_raw]: the pointer without a release. *)
Definition hal_into_raw (p : ptr) : M ptr := mret p.
End IreeHal.

Section IreeHalSpecs.
Context `{IREE}.

Lemma call_create_spec (c : create_call) w `{!IreeCreates} :
  wf w ->
  wp (call (ffi_create c)) (fun r w' =>
    safe w w' (fun p => cnt (c_status r) p + ok_cnt (c_status r) (c_ptr r) p) none
    /\ frame w w' /\ w_cheap w' = w_cheap w /\ (c_status r = 0 -> c_ptr r <> 0)) w.
Proof.
  intros Hwf. wp_use call_frame; [done|]. intros r w' (? & ? & -> & ?).
  split; [done|]. split; [done|]. split; [done|]. apply iree_create_nonnull.
Qed.

(** Either an error status to be freed, or one new reference to be kept. *)
Lemma hal_create_spec c msg w `{!IreeCreates} :
  wf w ->
  wp (hal_create c msg) (fun r w' =>
    frame w w' /\
    match r with
    | inl s => s <> 0 /\ safe w w' (cnt s) none
    | inr p => p <> 0 /\ safe w w' (cnt p) none
    end) w.
Proof.
  intros Hwf. unfold hal_create. wp_use (call_create_spec c); [done|].
  intros [s q] w1 (HS & HF & _ & Hnn). simpl in *. destruct (status_is_ok s) eqn:Es.
  - apply wp_bind, expect_spec; unfold nonnull_new, status_is_ok in *; bool_to_prop; subst s.
    + intros p Hp. destruct (is_null q) eqn:Eq; simplify_eq. apply wp_ret.
      split; [done|]. split; [by bool_to_prop|]. eapply safe_equiv; [exact HS|ledger|done].
    + destruct (is_null q) eqn:Eq; [|done]. bool_to_prop. by specialize (Hnn eq_refl).
  - apply wp_ret. split; [done|]. unfold status_is_ok in *. split; [by bool_to_prop|].
    eapply safe_equiv; [exact HS|ledger|done].
Qed.

Lemma hal_drop_spec k q w :
  wf w -> wp (hal_drop k q) (fun _ w' => safe w w' (fun p => - cnt q p) none /\ frame w w'
    /\ w_cheap w' = w_cheap w) w.
Proof. intros. unfold hal_drop. wp_use call_frame; [done|]. by intros ? ? (? & ? & _ & ?). Qed.
End IreeHalSpecs.

(** Run a constructor: leaves the error case and the success case. *)
Ltac wp_create :=
  wp_use hal_create_spec; [assumption|];
  let s := fresh "s" in let q := fresh "q" in let w' := fresh "w" in
  intros [s|q] w' (?Hfr & ?Hne & ?); merge_safe.

Ltac wp_drop :=
  wp_use hal_drop_spec; [assumption|];
  let w' := fresh "w" in intros ?u w' (? & ?Hfr & ?Hch); merge_safe.

(** A raw constructor call, keeping what is known about the new object. *)
Ltac wp_ffi_create :=
  wp_use call_create_spec; [assumption|];
  let r := fresh "r" in let w' := fresh "w" in
  intros r w' (? & ?Hfr & ?Hch & ?Hnn); merge_safe.

(** The constructor reported OK, so its object is there. *)
Ltac created_nonnull :=
  match goal with Hnn : c_status ?r = 0 -> c_ptr ?r <> 0 |- c_ptr ?r <> 0 =>
    apply Hnn, is_null_true, negb_false_iff; assumption
  end.
