(* ===== verification/Device.v ===== *)
(** * Devices: crates/hrx-libhrx/src/device.rs and the allocator handle of buffer.rs *)

From S2P Require Import Prelude Iree Objects Machine Handle Status IreeHal.

Definition HRX_ACCELERATOR_GPU : Z := 0.
Definition HRX_ACCELERATOR_CPU : Z := 1.

(** Offset of the inline allocator inside the device block.  The layout is the
    compiler's; only that the interior pointer determines the device matters. *)
Definition ALLOCATOR_OFFSET : Z := 8.

Section Device.
Context `{IREE}.

(** Field drops of [HrxDeviceS]: allocator, device group, device. *)
#[export] Instance drop_device : DropGlue HrxDeviceS := fun d =>
  HalAllocator_drop (al_hal_allocator (dev_allocator d)) ;;
  HalDeviceGroup_drop (dev_hal_device_group d) ;;
  HalDevice_drop (dev_hal_device d).

Definition hrx_device_retain (device : ptr) : M unit := handle_retain (T:=HrxDeviceS) device.
Definition hrx_device_release (device : ptr) : M unit := handle_release (T:=HrxDeviceS) device.

(** [DeviceRef::retain]. *)
Definition device_ref_retain (device : ptr) : M ptr :=
  hrx_device_retain device ;; mret device.

(** [impl Drop for DeviceRef]. *)
Definition device_ref_drop (device : ptr) : M unit := hrx_device_release device.

Definition device_deref (device : ptr) : M HrxDeviceS := handle_ref device.

(** [hrx_device_allocator]: a reference to the [allocator] field of the device,
    which must be a live device. *)
Definition hrx_device_allocator (device : ptr) : M ptr :=
  device_deref device ;; mret (device + ALLOCATOR_OFFSET).

Definition allocator_deref (allocator : ptr) : M HrxAllocatorInline :=
  d ← device_deref (allocator - ALLOCATOR_OFFSET);
  mret (dev_allocator d).

(** [hrx_allocator_retain] / [hrx_allocator_release]. *)
Definition hrx_allocator_retain (allocator : ptr) : M unit :=
  a ← allocator_deref allocator;
  call (ffi_retain iree_hal_allocator (al_hal_allocator a)) ;;
  hrx_device_retain (al_device a).

Definition hrx_allocator_release (allocator : ptr) : M unit :=
  a ← allocator_deref allocator;
  call (ffi_release iree_hal_allocator (al_hal_allocator a)) ;;
  hrx_device_release (al_device a).

(** [copy_nonoverlapping(src, value, n)] out of a fixed array. *)
Fixpoint write_bytes (p : ptr) (bytes : list Z) : M unit :=
  match bytes with
  | [] => mret tt
  | b :: rest => write_out p b ;; write_bytes (p + 1) rest
  end.

Definition copy_array (src : list Z) (value : ptr) (n : Z) : M unit :=
  if Z.of_nat (length src) <? n then undefined
  else write_bytes value (take (Z.to_nat n) src).

Definition HRX_DEVICE_PROPERTY_NAME : Z := 0.
Definition HRX_DEVICE_PROPERTY_ARCHITECTURE : Z := 1.
Definition HRX_DEVICE_PROPERTY_TOTAL_MEMORY : Z := 2.
Definition HRX_DEVICE_PROPERTY_COMPUTE_UNITS : Z := 3.
Definition HRX_DEVICE_PROPERTY_MAX_WORKGROUP_SIZE : Z := 4.

(** [hrx_device_get_property]. *)
Definition hrx_device_get_property (device : ptr) (prop : Z) (value : ptr) (value_size : Z)
  : M ptr :=
  if is_null device || is_null value
  then hrx_make_status (code_i32 InvalidArgument) (Some "device or value is NULL"%string)
  else
    dev ← device_deref device;
    if prop =? HRX_DEVICE_PROPERTY_NAME then
      let len := cstr_len (dev_name dev) in
      if value_size <? len + 1
      then hrx_make_status (code_i32 OutOfRange) (Some "buffer too small for device name"%string)
      else copy_array (dev_name dev) value (len + 1) ;; mret hrx_ok_status
    else if prop =? HRX_DEVICE_PROPERTY_ARCHITECTURE then
      let len := cstr_len (dev_architecture dev) in
      if value_size <? len + 1
      then hrx_make_status (code_i32 OutOfRange)
             (Some "buffer too small for architecture string"%string)
      else copy_array (dev_architecture dev) value (len + 1) ;; mret hrx_ok_status
    else if prop =? HRX_DEVICE_PROPERTY_TOTAL_MEMORY then
      if value_size <? 8
      then hrx_make_status (code_i32 OutOfRange) (Some "buffer too small for uint64_t"%string)
      else
        '(s, mem_size) ← call (ffi_read (iree_hal_device_query_i64 (dev_hal_device dev)
                                           "hal.device" "memory.total"));
        mem ← (if negb (status_is_ok s)
               then call (ffi_release iree_status s) ;; mret 0
               else mret mem_size);
        write_out value (wrap_u64 mem) ;;
        mret hrx_ok_status
    else if (prop =? HRX_DEVICE_PROPERTY_COMPUTE_UNITS)
            || (prop =? HRX_DEVICE_PROPERTY_MAX_WORKGROUP_SIZE) then
      if value_size <? 4
      then hrx_make_status (code_i32 OutOfRange) (Some "buffer too small for uint32_t"%string)
      else write_out value 0 ;; mret hrx_ok_status
    else hrx_make_status (code_i32 InvalidArgument) (Some "unknown device property"%string).

(** [hrx_device_synchronize]: waits on an empty semaphore list. *)
Definition hrx_device_synchronize (device : ptr) : M ptr :=
  if is_null device
  then hrx_make_status (code_i32 InvalidArgument) (Some "device is NULL"%string)
  else
    dev ← device_deref device;
    s ← call (ffi_status (iree_hal_device_wait_semaphores (dev_hal_device dev) []));
    hrx_status_from_iree s.

(** [hrx_device_get_type]. *)
Definition hrx_device_get_type (device type_ : ptr) : M ptr :=
  if is_null device || is_null type_
  then hrx_make_status (code_i32 InvalidArgument) (Some "device or type is NULL"%string)
  else
    dev ← device_deref device;
    write_out type_ (dev_type dev) ;;
    mret hrx_ok_status.
End Device.

(** ** Specifications *)

Section DeviceSpecs.
Context `{IREE}.

#[export] Instance drop_device_ok : DropOk HrxDeviceS.
Proof.
  intros d w Hwf _. unfold drop_glue, drop_device. start_safe w.
  wp_ffi r1. wp_ffi r2. wp_ffi r3. split; [done|].
  match goal with H : safe w _ _ _ |- _ => apply safe_eff in H end. close_eff.
Qed.

Lemma hrx_device_retain_spec w d :
  wf w -> usable w KDevice d -> wp (hrx_device_retain d) (fun _ w' => safe w w' none (one d)) w.
Proof. exact (handle_retain_spec (T:=HrxDeviceS) w d). Qed.

Lemma hrx_device_release_spec w d :
  wf w -> usable w KDevice d -> 1 <= ext w d ->
  wp (hrx_device_release d) (fun _ w' => wf w' /\ eff w w' none (fun q => - one d q)) w.
Proof. exact (handle_release_spec (T:=HrxDeviceS) w d). Qed.

Lemma device_deref_spec w d :
  usable w KDevice d ->
  wp (device_deref d) (fun dev w' => w' = w /\ exists n, w_heap w !! d = Some (n, ODevice dev)) w.
Proof. exact (handle_ref_spec (T:=HrxDeviceS) w d). Qed.

Lemma device_ref_retain_spec w d :
  wf w -> usable w KDevice d ->
  wp (device_ref_retain d) (fun r w' => r = d /\ safe w w' none (one d)) w.
Proof.
  intros. unfold device_ref_retain. wp_use hrx_device_retain_spec; [done|done|].
  intros. by apply wp_ret.
Qed.

(** [hrx_allocator_retain] and [hrx_allocator_release]: one reference to the HAL
    allocator and one to the device. *)
Definition hal_allocator_of (w : world) (a : ptr) : ptr :=
  match w_heap w !! (a - ALLOCATOR_OFFSET) with
  | Some (_, ODevice d) => al_hal_allocator (dev_allocator d)
  | _ => null
  end.

Lemma allocator_names_spec w a :
  wf w -> usable w KDevice (a - ALLOCATOR_OFFSET) ->
  wp (allocator_deref a) (fun al w' => w' = w /\ al_hal_allocator al = hal_allocator_of w a
    /\ al_device al = a - ALLOCATOR_OFFSET) w.
Proof.
  intros Hwf Hu. unfold allocator_deref. wp_use device_deref_spec; [exact Hu|].
  intros d w' [-> (n & Hd)]. apply wp_ret. split; [done|]. unfold hal_allocator_of. rewrite Hd.
  split; [done|]. apply (wf_self _ Hwf _ _ _ Hd).
Qed.

Lemma hrx_allocator_retain_spec w a :
  wf w -> usable w KDevice (a - ALLOCATOR_OFFSET) ->
  wp (hrx_allocator_retain a) (fun _ w' =>
    safe w w' (cnt (hal_allocator_of w a)) (one (a - ALLOCATOR_OFFSET))) w.
Proof.
  intros Hwf Hu. unfold hrx_allocator_retain. start_safe w.
  wp_use allocator_names_spec; [done|done|]. intros al ? (-> & Ha & Hd).
  wp_ffi r. rewrite Hd. wp_use hrx_device_retain_spec; [done|eapply usable_safe; [exact Hwf|eassumption|done]|].
  intros _ w2 ?. merge_safe. rewrite <- Ha. close_safe.
Qed.

Lemma hrx_allocator_release_spec w a :
  wf w -> usable w KDevice (a - ALLOCATOR_OFFSET) -> 1 <= ext w (a - ALLOCATOR_OFFSET) ->
  wp (hrx_allocator_release a) (fun _ w' => wf w' /\
    eff w w' (fun p => - cnt (hal_allocator_of w a) p) (fun q => - one (a - ALLOCATOR_OFFSET) q)) w.
Proof.
  intros Hwf Hu He. unfold hrx_allocator_release. start_safe w.
  wp_use allocator_names_spec; [done|done|]. intros al ? (-> & Ha & Hd).
  wp_ffi r. rewrite Hd.
  match goal with H : safe w ?w1 _ _ |- _ =>
    pose proof (eff_ext _ _ _ _ (safe_eff _ _ _ _ H) (a - ALLOCATOR_OFFSET)) as Hx;
    wp_use hrx_device_release_spec; [done|eapply usable_safe; [exact Hwf|eassumption|done]|unfold none in Hx; lia|] end.
  intros _ w2 [? ?]. split; [done|].
  match goal with H : safe w _ _ _ |- _ => apply safe_eff in H end. merge_eff. rewrite <- Ha. close_eff.
Qed.
End DeviceSpecs.

(** ** Running an entry point

    [run] executes the straight-line parts of an entry point: tests, foreign
    calls, status conversions, out-parameter writes and borrows of handles that
    are usable.  Later files extend it through [run_hook]. *)
Definition nullable (w : world) (k : kind) (h : ptr) : Prop := h = 0 \/ usable w k h.

(** What every entry point that creates nothing guarantees. *)
Definition entry_ok (w w' : world) (r : ptr) : Prop :=
  safe w w' none none /\ status_value w' r.

Ltac run_hook := fail.

Ltac run_step :=
  lazymatch goal with
  | |- wp (if ?b then _ else _) _ _ => destruct b eqn:?; simpl
  | |- wp (mret _) _ _ => apply wp_ret; cbv beta
  | |- wp ((_ ≫= _) ≫= _) _ _ => apply wp_bind
  | |- wp (mret _ ≫= _) _ _ => apply wp_bind, wp_ret
  | |- wp ((if ?b then _ else _) ≫= _) _ _ => destruct b eqn:?; simpl
  | |- wp (call _) _ _ => let r := fresh "r" in wp_ffi r
  | |- wp (call (ffi_create _) ≫= _) _ _ => first [wp_ffi_create | let r := fresh "r" in wp_ffi r]
  | |- wp (call _ ≫= _) _ _ => let r := fresh "r" in wp_ffi r
  | |- wp (hrx_make_status _ _) _ _ => wp_error
  | |- wp (hrx_status_from_iree _) _ _ => wp_iree_error
  | |- wp (write_out _ _ ≫= _) _ _ => wp_write
  | |- wp (hal_create _ _ ≫= _) _ _ => wp_create
  | |- wp (HalVmModule_drop _ ≫= _) _ _ => wp_drop
  | |- wp (device_deref _ ≫= _) _ _ => wp_use_ref device_deref_spec
  | |- wp (match ?r with (_, _) => _ end) _ _ => destruct r; simpl
  | |- wp (match ?o with Some _ => _ | None => _ end) _ _ => destruct o eqn:?; simpl
  | _ => run_hook
  end.

Ltac null_args :=
  repeat match goal with
  | H : _ || _ = false |- _ => apply orb_false_iff in H as [? ?]
  | H : nullable ?w ?k ?h, E : is_null ?h = false |- _ =>
      destruct H as [H|H]; [rewrite H in E; discriminate E|]
  end.

Ltac run := repeat (run_step; null_args).

Ltac close_entry := split; [close_safe|first [assumption | by left]].

Section DeviceEntries.
Context `{IREE}.

Lemma write_bytes_spec bytes : forall w p,
  wf w -> 0 < p ->
  wp (write_bytes p bytes) (fun _ w' => safe w w' none none /\
    (forall i b, bytes !! i = Some b -> w_mem w' !! (p + Z.of_nat i) = Some b) /\
    (forall a, (a < p \/ p + Z.of_nat (length bytes) <= a) -> w_mem w' !! a = w_mem w !! a) /\
    w_heap w' = w_heap w) w.
Proof.
  induction bytes as [|b bytes IH]; intros w p Hwf Hp; simpl.
  - apply wp_ret. split; [by apply safe_refl|]. done.
  - wp_use write_out_spec; [done|apply is_null_false; lia|]. intros _ w1 [HS ->].
    assert (wf (set_mem w (<[p:=b]> (w_mem w)))) as Hwf1 by apply HS.
    wp_use IH; [done|lia|]. intros _ w2 (HS2 & Hin & Hout & Hheap).
    split; [eapply safe_equiv; [by eapply safe_trans|done|done]|]. split; [|split].
    + intros [|i] c Hc; simpl in *.
      * simplify_eq. rewrite Z.add_0_r, Hout by lia. simpl. by rewrite lookup_insert_eq.
      * rewrite <- (Hin i c Hc). f_equal. lia.
    + intros a Ha. rewrite Hout by lia. simpl. rewrite lookup_insert_ne; [done|lia].
    + done.
Qed.

Lemma hrx_device_synchronize_spec w d :
  wf w -> nullable w KDevice d ->
  wp (hrx_device_synchronize d) (fun r w' => entry_ok w w' r) w.
Proof. intros Hwf Hd. unfold hrx_device_synchronize. start_safe w. run; close_entry. Qed.

Lemma hrx_device_get_type_spec w d out :
  wf w -> nullable w KDevice d ->
  wp (hrx_device_get_type d out) (fun r w' => entry_ok w w' r) w.
Proof. intros Hwf Hd. unfold hrx_device_get_type. start_safe w. run; close_entry. Qed.

Lemma cstr_len_nonneg l : 0 <= cstr_len l.
Proof. induction l as [|c l IH]; simpl; [lia|]. destruct (c =? 0); lia. Qed.

Lemma copy_array_spec src value w :
  wf w -> 0 < value -> cstr_ok src ->
  wp (copy_array src value (cstr_len src + 1)) (fun _ w' => safe w w' none none /\
    (forall i b, (i <= Z.to_nat (cstr_len src))%nat -> src !! i = Some b ->
       w_mem w' !! (value + Z.of_nat i) = Some b)) w.
Proof.
  intros Hwf Hv Hok. unfold copy_array, cstr_ok in *. pose proof (cstr_len_nonneg src).
  destruct (Z.ltb_spec (Z.of_nat (length src)) (cstr_len src + 1)); [lia|].
  wp_use write_bytes_spec; [done|done|]. intros _ w' (HS & Hin & _ & _). split; [done|].
  intros i b Hi Hb. apply Hin. rewrite lookup_take_lt; [done|lia].
Qed.

(** No read past the fixed name and architecture arrays of the device. *)
Lemma hrx_device_get_property_spec w d prop value size :
  wf w -> nullable w KDevice d -> 0 <= value ->
  wp (hrx_device_get_property d prop value size) (fun r w' => entry_ok w w' r) w.
Proof.
  intros Hwf Hd Hval. unfold hrx_device_get_property. start_safe w.
  destruct (is_null d || is_null value) eqn:E; [run; close_entry|]. null_args.
  assert (0 < value) as Hpos by (bool_to_prop; lia).
  wp_use_ref device_deref_spec.
  destruct (wf_self _ Hwf _ _ _ Hobj) as (_ & Hname & Harch).
  run; try close_entry.
  - wp_use copy_array_spec; [done|done|done|]. intros _ w1 [? _]. merge_safe. run. close_entry.
  - wp_use copy_array_spec; [done|done|done|]. intros _ w1 [? _]. merge_safe. run. close_entry.
Qed.
End DeviceEntries.
