(* ===== verification/Semaphore.v ===== *)
(** * Timeline semaphores and fences: crates/hrx-libhrx/src/{semaphore,fence}.rs *)

From S2P Require Import Prelude Iree Objects Machine Handle Status IreeHal Device.

Section Semaphore.
Context `{IREE}.

(** Field drops of [HrxSemaphoreS]: the IREE semaphore, then the device. *)
#[export] Instance drop_semaphore : DropGlue HrxSemaphoreS := fun s =>
  HalSemaphore_drop (sem_hal s) ;;
  device_ref_drop (sem_device s).

(** Field drop of [HrxFenceS]. *)
#[export] Instance drop_fence : DropGlue HrxFenceS := fun f => HalFence_drop (fence_hal f).

(** [semaphore_hal_ptr]. *)
Definition semaphore_hal_ptr (sem : ptr) : M ptr :=
  s ← handle_ref (T:=HrxSemaphoreS) sem; mret (sem_hal s).

Definition hrx_semaphore_retain (semaphore : ptr) : M unit :=
  handle_retain (T:=HrxSemaphoreS) semaphore.
Definition hrx_semaphore_release (semaphore : ptr) : M unit :=
  handle_release (T:=HrxSemaphoreS) semaphore.

(** [impl Drop for SemaphoreGuard]. *)
Definition semaphore_guard_drop (sem : ptr) : M unit := hrx_semaphore_release sem.

(** [hrx_semaphore_create]. *)
Definition hrx_semaphore_create (device : ptr) (initial_value : Z) (semaphore : ptr) : M ptr :=
  if is_null device || is_null semaphore
  then hrx_make_status (code_i32 InvalidArgument) (Some "device or semaphore is NULL"%string)
  else
    dev ← device_deref device;
    r ← semaphore_create (dev_hal_device dev) IREE_HAL_QUEUE_AFFINITY_ANY initial_value 0;
    match r with
    | inr hal =>
        d ← device_ref_retain device;
        h ← into_handle (Semaphore hal d);
        write_out semaphore h ;;
        mret hrx_ok_status
    | inl s => hrx_status_from_iree s
    end.

(** The [timeout_ns] argument of the wait functions. *)
Definition timeout_from_ns (timeout_ns : Z) : iree_timeout_t :=
  if timeout_ns =? U64_MAX then timeout_infinite
  else if timeout_ns =? 0 then timeout_immediate
  else timeout_relative_ns (wrap_i64 timeout_ns).

(** [hrx_semaphore_query]: IREE writes the caller's storage in every case. *)
Definition hrx_semaphore_query (semaphore value : ptr) : M ptr :=
  if is_null semaphore || is_null value
  then hrx_make_status (code_i32 InvalidArgument) (Some "semaphore or value is NULL"%string)
  else
    hal ← semaphore_hal_ptr semaphore;
    '(s, v) ← HalSemaphore_query_into hal;
    write_out value v ;;
    hrx_status_from_iree s.

(** [hrx_semaphore_wait]. *)
Definition hrx_semaphore_wait (semaphore : ptr) (value timeout_ns : Z) : M ptr :=
  if is_null semaphore
  then hrx_make_status (code_i32 InvalidArgument) (Some "semaphore is NULL"%string)
  else
    hal ← semaphore_hal_ptr semaphore;
    s ← HalSemaphore_wait hal value (timeout_from_ns timeout_ns);
    hrx_status_from_iree s.

(** [hrx_semaphore_signal]. *)
Definition hrx_semaphore_signal (semaphore : ptr) (value : Z) : M ptr :=
  if is_null semaphore
  then hrx_make_status (code_i32 InvalidArgument) (Some "semaphore is NULL"%string)
  else
    hal ← semaphore_hal_ptr semaphore;
    s ← HalSemaphore_signal hal value;
    hrx_status_from_iree s.

(** ** fence.rs *)

(** [fence_hal_ptr]. *)
Definition fence_hal_ptr (fence : ptr) : M ptr :=
  f ← handle_ref (T:=HrxFenceS) fence; mret (fence_hal f).

Definition hrx_fence_retain (fence : ptr) : M unit := handle_retain (T:=HrxFenceS) fence.
Definition hrx_fence_release (fence : ptr) : M unit := handle_release (T:=HrxFenceS) fence.

(** [hrx_fence_create]. *)
Definition hrx_fence_create (capacity : Z) (fence : ptr) : M ptr :=
  if is_null fence
  then hrx_make_status (code_i32 InvalidArgument) (Some "fence is NULL"%string)
  else
    write_out fence null ;;
    r ← fence_create capacity;
    match r with
    | inr hal => h ← into_handle (Fence hal); write_out fence h ;; mret hrx_ok_status
    | inl s => hrx_status_from_iree s
    end.

(** [hrx_fence_create_at]. *)
Definition hrx_fence_create_at (semaphore : ptr) (value : Z) (fence : ptr) : M ptr :=
  if is_null semaphore || is_null fence
  then hrx_make_status (code_i32 InvalidArgument) (Some "semaphore or fence is NULL"%string)
  else
    write_out fence null ;;
    sem ← semaphore_hal_ptr semaphore;
    r ← fence_create_at sem value;
    match r with
    | inr hal => h ← into_handle (Fence hal); write_out fence h ;; mret hrx_ok_status
    | inl s => hrx_status_from_iree s
    end.

(** [hrx_fence_insert]. *)
Definition hrx_fence_insert (fence semaphore : ptr) (value : Z) : M ptr :=
  if is_null fence || is_null semaphore
  then hrx_make_status (code_i32 InvalidArgument) (Some "fence or semaphore is NULL"%string)
  else
    f ← fence_hal_ptr fence;
    sem ← semaphore_hal_ptr semaphore;
    s ← HalFence_insert f sem value;
    hrx_status_from_iree s.

(** [hrx_fence_extend]. *)
Definition hrx_fence_extend (into_fence from_fence : ptr) : M ptr :=
  if is_null into_fence || is_null from_fence
  then hrx_make_status (code_i32 InvalidArgument) (Some "into_fence or from_fence is NULL"%string)
  else
    i ← fence_hal_ptr into_fence;
    f ← fence_hal_ptr from_fence;
    s ← HalFence_extend i f;
    hrx_status_from_iree s.

(** [hrx_fence_signal]. *)
Definition hrx_fence_signal (fence : ptr) : M ptr :=
  if is_null fence
  then hrx_make_status (code_i32 InvalidArgument) (Some "fence is NULL"%string)
  else
    f ← fence_hal_ptr fence;
    s ← HalFence_signal f;
    hrx_status_from_iree s.

(** [hrx_fence_wait]. *)
Definition hrx_fence_wait (fence : ptr) (timeout_ns : Z) : M ptr :=
  if is_null fence
  then hrx_make_status (code_i32 InvalidArgument) (Some "fence is NULL"%string)
  else
    f ← fence_hal_ptr fence;
    s ← HalFence_wait f (timeout_from_ns timeout_ns);
    hrx_status_from_iree s.
End Semaphore.

(** ** Specifications *)

Section SemaphoreSpecs.
Context `{IREE}.

(** Outcome of a creating entry point: a new object and OK, or no new object. *)
Definition create_post (w w' : world) (r out : ptr) (k : kind) : Prop :=
  (r = 0 /\ creates w w' out k)
  \/ (status_value w' r /\ (LibcAlloc -> r <> 0) /\ safe w w' none none /\ w_heap w' = w_heap w
      /\ mem_grow w w').

#[export] Instance drop_semaphore_ok : DropOk HrxSemaphoreS.
Proof.
  intros s w Hwf [Hu Hf]. simpl in *. unfold drop_glue, drop_semaphore.
  assert (usable w KDevice (sem_device s)) as Hd by (apply Hu; left).
  specialize (Hf (sem_device s)). unfold link_cnt in Hf. simpl in Hf. rewrite one_eq in Hf.
  start_safe w. wp_drop. wp_use hrx_device_release_spec; [done|usable_tac|ext_tac|].
  intros _ w2 [Hwf2 HE]. split; [done|].
  match goal with H : safe w _ _ _ |- _ => apply safe_eff in H end. merge_eff. close_eff.
Qed.

#[export] Instance drop_fence_ok : DropOk HrxFenceS.
Proof.
  intros f w Hwf _. unfold drop_glue, drop_fence. start_safe w. wp_drop. split; [done|].
  match goal with H : safe w _ _ _ |- _ => apply safe_eff in H end. close_eff.
Qed.

Lemma semaphore_hal_ptr_spec w h :
  usable w KSemaphore h ->
  wp (semaphore_hal_ptr h) (fun p w' => w' = w /\
    exists n s, w_heap w !! h = Some (n, OSemaphore s) /\ p = sem_hal s) w.
Proof.
  intros Hu. unfold semaphore_hal_ptr.
  wp_use (handle_ref_spec (T:=HrxSemaphoreS) w h); [done|]. intros s w' [-> (n & Hs)].
  apply wp_ret. eauto.
Qed.

Lemma hrx_semaphore_release_spec w h :
  wf w -> usable w KSemaphore h -> 1 <= ext w h ->
  wp (hrx_semaphore_release h) (fun _ w' => wf w' /\ eff w w' none (fun q => - one h q)) w.
Proof. exact (handle_release_spec (T:=HrxSemaphoreS) w h). Qed.

Lemma fence_hal_ptr_spec w h :
  usable w KFence h ->
  wp (fence_hal_ptr h) (fun p w' => w' = w /\
    exists n f, w_heap w !! h = Some (n, OFence f) /\ p = fence_hal f) w.
Proof.
  intros Hu. unfold fence_hal_ptr.
  wp_use (handle_ref_spec (T:=HrxFenceS) w h); [done|]. intros f w' [-> (n & Hf)].
  apply wp_ret. eauto.
Qed.
End SemaphoreSpecs.

Ltac wp_hal_ptr spec :=
  wp_use spec; [usable_tac|];
  let p := fresh "p" in intros p ?w' [-> (?n & ?t & ?Hobj & ?Hp)].

Ltac run_hook ::=
  lazymatch goal with
  | |- wp (semaphore_hal_ptr _ ≫= _) _ _ => wp_hal_ptr semaphore_hal_ptr_spec
  | |- wp (fence_hal_ptr _ ≫= _) _ _ => wp_hal_ptr fence_hal_ptr_spec
  end.

(** The heap is the one at the start of the call. *)
Ltac same_heap :=
  repeat match goal with H : frame _ _ |- _ => destruct H as (? & _) end;
  subst; simpl in *; congruence.

(** The status returned on a failure path is an error. *)
Ltac nonzero_status :=
  let HL := fresh in intros HL;
  match goal with H : LibcAlloc -> _ -> ?r <> 0 |- ?r <> 0 => apply (H HL) end;
  first [ assumption | done | unfold status_is_ok in *; bool_to_prop; done ].

Ltac close_failed :=
  right; split; [status_live|]; split; [nonzero_status|]; split; [close_safe|];
  split; [|mem_tac]; same_heap.

Section SemaphoreEntries.
Context `{IREE}.

Lemma hrx_semaphore_create_spec `{!IreeCreates} w device v out :
  wf w -> nullable w KDevice device ->
  wp (hrx_semaphore_create device v out) (fun r w' => create_post w w' r out KSemaphore) w.
Proof.
  intros Hwf Hd. unfold hrx_semaphore_create, semaphore_create. start_safe w. run; try close_failed.
  wp_use device_ref_retain_spec; [done|usable_tac|]. intros d w2 [-> ?]. merge_safe.
  wp_into_handle; [eapply floats_one; [done|usable_tac|intros p; ext_tac]|]. run. subst.
  left. split; [done|]. exists (w_next w2).
  split; [simpl; by rewrite lookup_insert_eq|]. split; [done|]. split; [|close_safe]. obj_usable.
Qed.

Lemma hrx_semaphore_query_spec w h out :
  wf w -> nullable w KSemaphore h ->
  wp (hrx_semaphore_query h out) (fun r w' => entry_ok w w' r /\ mem_grow w w') w.
Proof.
  intros Hwf Hd. unfold hrx_semaphore_query, HalSemaphore_query_into. start_safe w. run; (split; [close_entry|mem_tac]).
Qed.

Lemma hrx_semaphore_wait_spec w h v t :
  wf w -> nullable w KSemaphore h ->
  wp (hrx_semaphore_wait h v t) (fun r w' => entry_ok w w' r /\ frame w w') w.
Proof.
  intros Hwf Hd. unfold hrx_semaphore_wait, HalSemaphore_wait. start_safe w.
  run; (split; [close_entry|eauto using frame_trans]).
Qed.

Lemma hrx_semaphore_signal_spec w h v :
  wf w -> nullable w KSemaphore h ->
  wp (hrx_semaphore_signal h v) (fun r w' => entry_ok w w' r) w.
Proof. intros Hwf Hd. unfold hrx_semaphore_signal, HalSemaphore_signal. start_safe w. run; close_entry. Qed.

Lemma hrx_fence_create_spec `{!IreeCreates} w capacity out :
  wf w -> wp (hrx_fence_create capacity out) (fun r w' => create_post w w' r out KFence) w.
Proof.
  intros Hwf. unfold hrx_fence_create, fence_create. start_safe w. run; subst; try close_failed.
  wp_into_handle; [by apply floats_nil|]. run. subst. left. split; [done|].
  eexists. split; [simpl; by rewrite lookup_insert_eq|]. split; [simpl in *; lia|]. split; [|close_safe].
  obj_usable.
Qed.

Lemma hrx_fence_create_at_spec `{!IreeCreates} w sem v out :
  wf w -> nullable w KSemaphore sem ->
  wp (hrx_fence_create_at sem v out) (fun r w' => create_post w w' r out KFence) w.
Proof.
  intros Hwf Hs. unfold hrx_fence_create_at, fence_create_at. start_safe w.
  run; subst; try close_failed.
  wp_into_handle; [by apply floats_nil|]. run. subst. left. split; [done|].
  eexists. split; [simpl; by rewrite lookup_insert_eq|]. split; [simpl in *; lia|]. split; [|close_safe].
  obj_usable.
Qed.

Lemma hrx_fence_insert_spec w f sem v :
  wf w -> nullable w KFence f -> nullable w KSemaphore sem ->
  wp (hrx_fence_insert f sem v) (fun r w' => entry_ok w w' r) w.
Proof. intros. unfold hrx_fence_insert, HalFence_insert. start_safe w. run; close_entry. Qed.

Lemma hrx_fence_extend_spec w into from :
  wf w -> nullable w KFence into -> nullable w KFence from ->
  wp (hrx_fence_extend into from) (fun r w' => entry_ok w w' r) w.
Proof. intros. unfold hrx_fence_extend, HalFence_extend. start_safe w. run; close_entry. Qed.

Lemma hrx_fence_signal_spec w f :
  wf w -> nullable w KFence f -> wp (hrx_fence_signal f) (fun r w' => entry_ok w w' r) w.
Proof. intros. unfold hrx_fence_signal, HalFence_signal. start_safe w. run; close_entry. Qed.

Lemma hrx_fence_wait_spec w f t :
  wf w -> nullable w KFence f -> wp (hrx_fence_wait f t) (fun r w' => entry_ok w w' r) w.
Proof. intros. unfold hrx_fence_wait, HalFence_wait. start_safe w. run; close_entry. Qed.
End SemaphoreEntries.
