(* ===== verification/Buffer.v ===== *)
(** * Buffers: crates/hrx-libhrx/src/buffer.rs

    Allocation, import, mapping, synchronous transfers and virtual memory.  The
    stream-ordered [hrx_buffer_allocate] is in [StreamAlloc]. *)

From S2P Require Import Prelude Iree Objects Machine Handle Status IreeHal Device Semaphore.

Definition HRX_MAP_READ : Z := IREE_HAL_MEMORY_ACCESS_READ.
Definition HRX_MAP_WRITE : Z := IREE_HAL_MEMORY_ACCESS_WRITE.
Definition HRX_MAP_DISCARD : Z := IREE_HAL_MEMORY_ACCESS_DISCARD.

(** [HrxBufferParams]. *)
Record HrxBufferParams := HrxParams {
  hp_type : Z;
  hp_access : Z;
  hp_usage : Z;
  hp_queue_affinity : Z;
}.

(** The [iree_hal_buffer_params_t] literal built from the public params. *)
Definition hal_params (p : HrxBufferParams) : iree_hal_buffer_params_t :=
  BufferParams (hp_usage p) (hp_access p) (hp_type p) (hp_queue_affinity p) 0.

(** The literal of the virtual-memory entry points: usage 0xC03, access ALL. *)
Definition vm_params (mem_type : Z) : iree_hal_buffer_params_t :=
  BufferParams 3075 IREE_HAL_MEMORY_ACCESS_ALL mem_type 0 0.

Section Buffer.
Context `{IREE}.

(** [impl Drop for MappedRange] under the [RefCell<Option<_>>] field. *)
Definition map_drop (m : option MappedRange) : M unit :=
  match m with
  | None => mret tt
  | Some r =>
      s ← call (ffi_status (iree_hal_buffer_unmap_range (mr_mapping r)));
      call (ffi_release iree_status s)
  end.

Definition pool_drop (p : option ptr) : M unit :=
  match p with None => mret tt | Some q => HalPool_drop q end.

(** Field drops of [HrxBufferS]: map, hal_buffer, hal_pool, device. *)
#[export] Instance drop_buffer : DropGlue HrxBufferS := fun b =>
  map_drop (buf_map b) ;;
  HalBuffer_drop (buf_hal_buffer b) ;;
  pool_drop (buf_hal_pool b) ;;
  device_ref_drop (buf_device b).

Definition hrx_buffer_retain (buffer : ptr) : M unit := handle_retain (T:=HrxBufferS) buffer.
Definition hrx_buffer_release (buffer : ptr) : M unit := handle_release (T:=HrxBufferS) buffer.

Definition buffer_ref (buffer : ptr) : M HrxBufferS := handle_ref buffer.

(** [buffer_hal]. *)
Definition buffer_hal (buffer : ptr) : M ptr :=
  b ← buffer_ref buffer; mret (buf_hal_buffer b).

(** [hrx_allocator_allocate_buffer]. *)
Definition hrx_allocator_allocate_buffer (allocator : ptr) (params : HrxBufferParams) (size : Z)
  (buffer : ptr) : M ptr :=
  if is_null allocator || is_null buffer
  then hrx_make_status (code_i32 InvalidArgument) (Some "allocator or buffer is NULL"%string)
  else
    a ← allocator_deref allocator;
    r ← hal_create (iree_hal_allocator_allocate_buffer (al_hal_allocator a) (hal_params params) size)
          "OK alloc with null buffer"%string;
    match r with
    | inl s => hrx_status_from_iree s
    | inr hal =>
        d ← device_ref_retain (al_device a);
        h ← into_handle (Buffer None hal None d (hp_type params) size);
        write_out buffer h ;;
        mret hrx_ok_status
    end.

(** [hrx_allocator_import_buffer]. *)
Definition hrx_allocator_import_buffer (allocator : ptr) (params : HrxBufferParams)
  (host_ptr : ptr) (size : Z) (buffer : ptr) : M ptr :=
  if is_null allocator || is_null host_ptr || is_null buffer
  then hrx_make_status (code_i32 InvalidArgument)
         (Some "allocator, host_ptr, or buffer is NULL"%string)
  else
    a ← allocator_deref allocator;
    r ← hal_create (iree_hal_allocator_import_buffer (al_hal_allocator a) (hal_params params)
                      size host_ptr) "OK import with null buffer"%string;
    match r with
    | inl s => hrx_status_from_iree s
    | inr hal =>
        d ← device_ref_retain (al_device a);
        h ← into_handle (Buffer None hal None d (hp_type params) size);
        write_out buffer h ;;
        mret hrx_ok_status
    end.

(** The access bits requested from IREE for a set of map flags. *)
Definition map_access (flags : Z) : Z :=
  let access := 0 in
  let access := if negb (Z.land flags HRX_MAP_READ =? 0)
                then Z.lor access IREE_HAL_MEMORY_ACCESS_READ else access in
  let access := if negb (Z.land flags HRX_MAP_WRITE =? 0)
                then Z.lor access IREE_HAL_MEMORY_ACCESS_WRITE else access in
  if negb (Z.land flags HRX_MAP_DISCARD =? 0)
  then Z.lor access IREE_HAL_MEMORY_ACCESS_DISCARD_WRITE else access.

Definition set_map (b : HrxBufferS) (m : option MappedRange) : HrxBufferS :=
  Buffer m (buf_hal_buffer b) (buf_hal_pool b) (buf_device b) (buf_mem_type b) (buf_size b).

(** [hrx_buffer_map]. *)
Definition hrx_buffer_map (buffer : ptr) (flags offset size : Z) (mapped_ptr : ptr) : M ptr :=
  if is_null buffer || is_null mapped_ptr
  then hrx_make_status (code_i32 InvalidArgument) (Some "buffer or mapped_ptr is NULL"%string)
  else
    buf ← buffer_ref buffer;
    match buf_map buf with
    | Some _ =>
        hrx_make_status (code_i32 FailedPrecondition) (Some "buffer is already mapped"%string)
    | None =>
        '(s, mapping, data) ← call (iree_hal_buffer_map_range (buf_hal_buffer buf)
                                      (map_access flags) offset size);
        if negb (status_is_ok s) then hrx_status_from_iree s
        else
          handle_set buffer (set_map buf (Some (Mapped mapping data))) ;;
          write_out mapped_ptr data ;;
          mret hrx_ok_status
    end.

(** [hrx_buffer_unmap]. *)
Definition hrx_buffer_unmap (buffer : ptr) : M ptr :=
  if is_null buffer
  then hrx_make_status (code_i32 InvalidArgument) (Some "buffer is NULL"%string)
  else
    buf ← buffer_ref buffer;
    handle_set buffer (set_map buf None) ;;
    match buf_map buf with
    | None => mret hrx_ok_status
    | Some m =>
        s ← call (ffi_status (iree_hal_buffer_unmap_range (mr_mapping m)));
        hrx_status_from_iree s
    end.

(** [hrx_buffer_get_device_ptr]. *)
Definition hrx_buffer_get_device_ptr (buffer device_ptr : ptr) : M ptr :=
  if is_null buffer || is_null device_ptr
  then hrx_make_status (code_i32 InvalidArgument) (Some "buffer or device_ptr is NULL"%string)
  else
    buf ← buffer_ref buffer;
    match buf_map buf with
    | Some m => write_out device_ptr (mr_ptr m) ;; mret hrx_ok_status
    | None =>
        '(s, mapping, data) ← call (iree_hal_buffer_map_range (buf_hal_buffer buf)
                                      IREE_HAL_MEMORY_ACCESS_ALL 0 (buf_size buf));
        if status_is_ok s then
          handle_set buffer (set_map buf (Some (Mapped mapping data))) ;;
          write_out device_ptr data ;;
          mret hrx_ok_status
        else
          call (ffi_release iree_status s) ;;
          write_out device_ptr null ;;
          hrx_make_status (code_i32 Unavailable)
            (Some "cannot get device pointer for this buffer type"%string)
    end.

(** [hrx_buffer_get_size]. *)
Definition hrx_buffer_get_size (buffer size : ptr) : M ptr :=
  if is_null buffer || is_null size
  then hrx_make_status (code_i32 InvalidArgument) (Some "buffer or size is NULL"%string)
  else
    buf ← buffer_ref buffer;
    write_out size (buf_size buf) ;;
    mret hrx_ok_status.

(** [hrx_synchronous_h2d]; the bound is computed in [usize] arithmetic. *)
Definition hrx_synchronous_h2d (device host_src dst : ptr) (dst_offset size : Z) : M ptr :=
  if is_null device || is_null host_src || is_null dst
  then hrx_make_status (code_i32 InvalidArgument) (Some "NULL argument"%string)
  else
    dst_buf ← buffer_ref dst;
    if buf_size dst_buf <? wrap_u64 (dst_offset + size)
    then hrx_make_status (code_i32 OutOfRange) (Some "transfer exceeds buffer size"%string)
    else
      dev ← device_deref device;
      s ← call (ffi_status (iree_hal_device_transfer_h2d (dev_hal_device dev) host_src
                              (buf_hal_buffer dst_buf) dst_offset size));
      hrx_status_from_iree s.

(** [hrx_synchronous_d2h]. *)
Definition hrx_synchronous_d2h (device src : ptr) (src_offset : Z) (host_dst : ptr) (size : Z)
  : M ptr :=
  if is_null device || is_null src || is_null host_dst
  then hrx_make_status (code_i32 InvalidArgument) (Some "NULL argument"%string)
  else
    src_buf ← buffer_ref src;
    if buf_size src_buf <? wrap_u64 (src_offset + size)
    then hrx_make_status (code_i32 OutOfRange) (Some "transfer exceeds buffer size"%string)
    else
      dev ← device_deref device;
      s ← call (ffi_status (iree_hal_device_transfer_d2h (dev_hal_device dev)
                              (buf_hal_buffer src_buf) src_offset host_dst size));
      hrx_status_from_iree s.

(** Optional out-parameter. *)
Definition write_opt (p : ptr) (v : Z) : M unit :=
  if negb (is_null p) then write_out p v else mret tt.

(** [hrx_allocator_query_virtual_memory]. *)
Definition hrx_allocator_query_virtual_memory (allocator : ptr) (mem_type : Z)
  (supported min_page_size recommended_page_size : ptr) : M ptr :=
  if is_null allocator || is_null supported
  then hrx_make_status (code_i32 InvalidArgument) (Some "allocator or supported is NULL"%string)
  else
    a ← allocator_deref allocator;
    sup ← call (ffi_get (iree_hal_allocator_supports_virtual_memory (al_hal_allocator a)));
    write_out supported sup ;;
    if sup =? 0 then
      write_opt min_page_size 0 ;; write_opt recommended_page_size 0 ;; mret hrx_ok_status
    else
      '(s, mn, rec) ← call (iree_hal_allocator_virtual_memory_query_granularity
                              (al_hal_allocator a) (vm_params mem_type));
      if negb (status_is_ok s) then
        write_out supported 0 ;;
        write_opt min_page_size 0 ;; write_opt recommended_page_size 0 ;;
        call (ffi_release iree_status s) ;;
        mret hrx_ok_status
      else
        write_opt min_page_size mn ;; write_opt recommended_page_size rec ;;
        mret hrx_ok_status.

(** [hrx_allocator_virtual_memory_reserve]; 0x30 is DEVICE_LOCAL. *)
Definition hrx_allocator_virtual_memory_reserve (allocator : ptr) (affinity size : Z)
  (virtual_buffer : ptr) : M ptr :=
  if is_null allocator || is_null virtual_buffer
  then hrx_make_status (code_i32 InvalidArgument) (Some "NULL argument"%string)
  else
    a ← allocator_deref allocator;
    r ← hal_create (iree_hal_allocator_virtual_memory_reserve (al_hal_allocator a) affinity size)
          "OK reserve with null buffer"%string;
    match r with
    | inl s => hrx_status_from_iree s
    | inr hal =>
        d ← device_ref_retain (al_device a);
        h ← into_handle (Buffer None hal None d 48 size);
        write_out virtual_buffer h ;;
        mret hrx_ok_status
    end.

(** [hrx_allocator_virtual_memory_release]: takes the object apart by field. *)
Definition hrx_allocator_virtual_memory_release (allocator virtual_buffer : ptr) : M ptr :=
  if is_null allocator || is_null virtual_buffer
  then hrx_make_status (code_i32 InvalidArgument) (Some "NULL argument"%string)
  else
    inner ← into_inner_handle (T:=HrxBufferS) virtual_buffer;
    b ← expect inner "virtual buffer released with outstanding references"%string;
    hal_ptr ← hal_into_raw (buf_hal_buffer b);
    map_drop (buf_map b) ;;
    pool_drop (buf_hal_pool b) ;;
    a ← allocator_deref allocator;
    s ← call (ffi_status (iree_hal_allocator_virtual_memory_release (al_hal_allocator a) hal_ptr));
    device_ref_drop (buf_device b) ;;
    hrx_status_from_iree s.

(** [hrx_allocator_physical_memory_allocate]: IREE fills the out-parameter. *)
Definition hrx_allocator_physical_memory_allocate (allocator : ptr) (mem_type size : Z)
  (physical : ptr) : M ptr :=
  if is_null allocator || is_null physical
  then hrx_make_status (code_i32 InvalidArgument) (Some "NULL argument"%string)
  else
    a ← allocator_deref allocator;
    r ← call (ffi_create (iree_hal_allocator_physical_memory_allocate (al_hal_allocator a)
                            (vm_params mem_type) size));
    write_out physical (c_ptr r) ;;
    hrx_status_from_iree (c_status r).

(** [hrx_allocator_physical_memory_free]. *)
Definition hrx_allocator_physical_memory_free (allocator physical : ptr) : M ptr :=
  if is_null allocator || is_null physical
  then hrx_make_status (code_i32 InvalidArgument) (Some "NULL argument"%string)
  else
    a ← allocator_deref allocator;
    s ← call (ffi_status (iree_hal_allocator_physical_memory_free (al_hal_allocator a) physical));
    hrx_status_from_iree s.

(** [hrx_allocator_virtual_memory_map]. *)
Definition hrx_allocator_virtual_memory_map (allocator virtual_buffer : ptr) (virtual_offset : Z)
  (physical : ptr) (physical_offset size : Z) : M ptr :=
  if is_null allocator || is_null virtual_buffer || is_null physical
  then hrx_make_status (code_i32 InvalidArgument) (Some "NULL argument"%string)
  else
    a ← allocator_deref allocator;
    b ← buffer_hal virtual_buffer;
    s ← call (ffi_status (iree_hal_allocator_virtual_memory_map (al_hal_allocator a) b
                            virtual_offset physical physical_offset size));
    hrx_status_from_iree s.

(** [hrx_allocator_virtual_memory_unmap]. *)
Definition hrx_allocator_virtual_memory_unmap (allocator virtual_buffer : ptr)
  (virtual_offset size : Z) : M ptr :=
  if is_null allocator || is_null virtual_buffer
  then hrx_make_status (code_i32 InvalidArgument) (Some "NULL argument"%string)
  else
    a ← allocator_deref allocator;
    b ← buffer_hal virtual_buffer;
    s ← call (ffi_status (iree_hal_allocator_virtual_memory_unmap (al_hal_allocator a) b
                            virtual_offset size));
    hrx_status_from_iree s.

(** [hrx_allocator_virtual_memory_protect]. *)
Definition hrx_allocator_virtual_memory_protect (allocator virtual_buffer : ptr)
  (virtual_offset size protection : Z) : M ptr :=
  if is_null allocator || is_null virtual_buffer
  then hrx_make_status (code_i32 InvalidArgument) (Some "NULL argument"%string)
  else
    a ← allocator_deref allocator;
    b ← buffer_hal virtual_buffer;
    s ← call (ffi_status (iree_hal_allocator_virtual_memory_protect (al_hal_allocator a) b
                            virtual_offset size IREE_HAL_QUEUE_AFFINITY_ANY protection));
    hrx_status_from_iree s.
End Buffer.

(** ** Specifications *)

(** An allocator handle: null, or the interior pointer of a usable device. *)
Definition nullable_alloc (w : world) (a : ptr) : Prop :=
  a = 0 \/ usable w KDevice (a - ALLOCATOR_OFFSET).

Ltac null_args ::=
  repeat match goal with
  | H : _ || _ = false |- _ => apply orb_false_iff in H as [? ?]
  | H : nullable ?w ?k ?h, E : is_null ?h = false |- _ =>
      destruct H as [H|H]; [rewrite H in E; discriminate E|]
  | H : nullable_alloc ?w ?h, E : is_null ?h = false |- _ =>
      destruct H as [H|H]; [rewrite H in E; discriminate E|]
  end.

(** Read a block through the frames collected so far. *)
Ltac heap_lookup :=
  repeat match goal with
  | H : frame ?a ?b |- context [w_heap ?b] => rewrite (proj1 H)
  end; simpl; eassumption.

(** The object behind a handle written back with one field changed. *)
Ltac wp_set T :=
  wp_use (handle_set_spec (T:=T)); [assumption|heap_lookup|done|done|];
  let w' := fresh "w" in let Hw := fresh "Hw" in
  intros ?u w' (? & Hw); merge_safe.

Section BufferSpecs.
Context `{IREE}.

Lemma map_drop_spec m w :
  wf w -> wp (map_drop m) (fun _ w' => safe w w' (fun p => - owned_by_map m p) none) w.
Proof. intros Hwf. destruct m as [r|]; simpl; start_safe w; run; close_safe. Qed.

Lemma pool_drop_spec m w :
  wf w -> wp (pool_drop m) (fun _ w' => safe w w' (fun p => - owned_by_pool_field m p) none) w.
Proof.
  intros Hwf. destruct m as [r|]; simpl; start_safe w; [wp_drop|run]; close_safe.
Qed.

#[export] Instance drop_buffer_ok : DropOk HrxBufferS.
Proof.
  intros b w Hwf [Hu Hf]. simpl in *. unfold drop_glue, drop_buffer.
  assert (usable w KDevice (buf_device b)) as Hd by (apply Hu; left).
  specialize (Hf (buf_device b)). unfold link_cnt in Hf. simpl in Hf. rewrite one_eq in Hf.
  start_safe w. wp_use map_drop_spec; [done|]. intros _ w1 ?. merge_safe.
  wp_drop. wp_use pool_drop_spec; [done|]. intros _ w3 ?. merge_safe.
  wp_use hrx_device_release_spec; [done|usable_tac|ext_tac|].
  intros _ w4 [Hwf4 HE]. split; [done|].
  match goal with H : safe w _ _ _ |- _ => apply safe_eff in H end. merge_eff. close_eff.
Qed.

Lemma buffer_ref_spec w h :
  usable w KBuffer h ->
  wp (buffer_ref h) (fun b w' => w' = w /\ exists n, w_heap w !! h = Some (n, OBuffer b)) w.
Proof. exact (handle_ref_spec (T:=HrxBufferS) w h). Qed.

Lemma buffer_hal_spec w h :
  usable w KBuffer h ->
  wp (buffer_hal h) (fun p w' => w' = w /\
    exists n b, w_heap w !! h = Some (n, OBuffer b) /\ p = buf_hal_buffer b) w.
Proof.
  intros Hu. unfold buffer_hal. wp_use buffer_ref_spec; [done|]. intros b w' [-> (n & Hb)].
  apply wp_ret. eauto.
Qed.

(** The back-pointer of the inline allocator names the device it sits in. *)
Lemma allocator_deref_spec w a :
  wf w -> usable w KDevice (a - ALLOCATOR_OFFSET) ->
  wp (allocator_deref a) (fun al w' => w' = w /\ exists n d,
    w_heap w !! (a - ALLOCATOR_OFFSET) = Some (n, ODevice d) /\ al = dev_allocator d
    /\ al_device al = a - ALLOCATOR_OFFSET) w.
Proof.
  intros Hwf Hu. unfold allocator_deref. wp_use device_deref_spec; [done|].
  intros d w' [-> (n & Hd)]. apply wp_ret. split; [done|]. exists n, d.
  split; [done|]. split; [done|]. exact (proj1 (wf_self _ Hwf _ _ _ Hd)).
Qed.

Lemma write_opt_spec p v w :
  wf w -> wp (write_opt p v) (fun _ w' => safe w w' none none) w.
Proof. intros Hwf. unfold write_opt. start_safe w. destruct (is_null p) eqn:?; simpl.
  - apply wp_ret. close_safe.
  - wp_use write_out_spec; [done|done|]. intros _ w' [? _]. done.
Qed.
End BufferSpecs.

Ltac wp_alloc :=
  wp_use allocator_deref_spec; [assumption|usable_tac|];
  let al := fresh "al" in intros al ?w' [-> (?n & ?d & ?Hobj & ?Hal & ?Hback)].

Ltac run_hook ::=
  lazymatch goal with
  | |- wp (semaphore_hal_ptr _ ≫= _) _ _ => wp_hal_ptr semaphore_hal_ptr_spec
  | |- wp (fence_hal_ptr _ ≫= _) _ _ => wp_hal_ptr fence_hal_ptr_spec
  | |- wp (buffer_hal _ ≫= _) _ _ => wp_hal_ptr buffer_hal_spec
  | |- wp (buffer_ref _ ≫= _) _ _ => wp_use_ref buffer_ref_spec
  | |- wp (allocator_deref _ ≫= _) _ _ => wp_alloc
  | |- wp (write_opt _ _ ≫= _) _ _ =>
      wp_use write_opt_spec; [assumption|]; let w' := fresh "w" in intros ?u w' ?; merge_safe
  | |- wp (handle_set (T:=?T) _ _ ≫= _) _ _ => wp_set T
  end.

(** A new object that holds one reference to a device, stored at [out]. *)
Ltac wp_device_object :=
  wp_use device_ref_retain_spec; [assumption|usable_tac|];
  let d := fresh "d" in let w' := fresh "w" in
  intros d w' [-> ?]; merge_safe;
  wp_into_handle; [eapply floats_one; [done|usable_tac|intros ?q; ext_tac]|]; run; subst;
  left; split; [done|]; eexists;
  split; [simpl; by rewrite lookup_insert_eq|]; split; [simpl in *; lia|];
  split; [obj_usable|close_safe].

Section BufferEntries.
Context `{IREE}.

Lemma hrx_allocator_allocate_buffer_spec `{!IreeCreates} w a params size out :
  wf w -> nullable_alloc w a ->
  wp (hrx_allocator_allocate_buffer a params size out)
     (fun r w' => create_post w w' r out KBuffer) w.
Proof.
  intros Hwf Ha. unfold hrx_allocator_allocate_buffer. start_safe w.
  run; try close_failed. rewrite Hback. wp_device_object.
Qed.

Lemma hrx_allocator_import_buffer_spec `{!IreeCreates} w a params host size out :
  wf w -> nullable_alloc w a ->
  wp (hrx_allocator_import_buffer a params host size out)
     (fun r w' => create_post w w' r out KBuffer) w.
Proof.
  intros Hwf Ha. unfold hrx_allocator_import_buffer. start_safe w.
  run; try close_failed. rewrite Hback. wp_device_object.
Qed.

Lemma hrx_allocator_virtual_memory_reserve_spec `{!IreeCreates} w a aff size out :
  wf w -> nullable_alloc w a ->
  wp (hrx_allocator_virtual_memory_reserve a aff size out)
     (fun r w' => create_post w w' r out KBuffer) w.
Proof.
  intros Hwf Ha. unfold hrx_allocator_virtual_memory_reserve. start_safe w.
  run; try close_failed. rewrite Hback. wp_device_object.
Qed.

Lemma hrx_buffer_map_spec w h flags off size out :
  wf w -> nullable w KBuffer h ->
  wp (hrx_buffer_map h flags off size out) (fun r w' => entry_ok w w' r) w.
Proof.
  intros Hwf Hh. unfold hrx_buffer_map. start_safe w. run; close_entry.
Qed.

Lemma hrx_buffer_unmap_spec w h :
  wf w -> nullable w KBuffer h ->
  wp (hrx_buffer_unmap h) (fun r w' => entry_ok w w' r) w.
Proof. intros Hwf Hh. unfold hrx_buffer_unmap. start_safe w. run; close_entry. Qed.

Lemma hrx_buffer_get_device_ptr_spec w h out :
  wf w -> nullable w KBuffer h ->
  wp (hrx_buffer_get_device_ptr h out) (fun r w' => entry_ok w w' r) w.
Proof. intros Hwf Hh. unfold hrx_buffer_get_device_ptr. start_safe w. run; close_entry. Qed.

Lemma hrx_buffer_get_size_spec w h out :
  wf w -> nullable w KBuffer h ->
  wp (hrx_buffer_get_size h out) (fun r w' => entry_ok w w' r) w.
Proof. intros Hwf Hh. unfold hrx_buffer_get_size. start_safe w. run; close_entry. Qed.

Lemma hrx_synchronous_h2d_spec w d src dst off size :
  wf w -> nullable w KDevice d -> nullable w KBuffer dst ->
  wp (hrx_synchronous_h2d d src dst off size) (fun r w' => entry_ok w w' r) w.
Proof. intros. unfold hrx_synchronous_h2d. start_safe w. run; close_entry. Qed.

Lemma hrx_synchronous_d2h_spec w d src off dst size :
  wf w -> nullable w KDevice d -> nullable w KBuffer src ->
  wp (hrx_synchronous_d2h d src off dst size) (fun r w' => entry_ok w w' r) w.
Proof. intros. unfold hrx_synchronous_d2h. start_safe w. run; close_entry. Qed.

Lemma hrx_allocator_query_virtual_memory_spec w a ty o1 o2 o3 :
  wf w -> nullable_alloc w a ->
  wp (hrx_allocator_query_virtual_memory a ty o1 o2 o3) (fun r w' => entry_ok w w' r) w.
Proof. intros. unfold hrx_allocator_query_virtual_memory. start_safe w. run; close_entry. Qed.

Lemma hrx_allocator_virtual_memory_map_spec w a b off ph poff size :
  wf w -> nullable_alloc w a -> nullable w KBuffer b ->
  wp (hrx_allocator_virtual_memory_map a b off ph poff size) (fun r w' => entry_ok w w' r) w.
Proof. intros. unfold hrx_allocator_virtual_memory_map. start_safe w. run; close_entry. Qed.

Lemma hrx_allocator_virtual_memory_unmap_spec w a b off size :
  wf w -> nullable_alloc w a -> nullable w KBuffer b ->
  wp (hrx_allocator_virtual_memory_unmap a b off size) (fun r w' => entry_ok w w' r) w.
Proof. intros. unfold hrx_allocator_virtual_memory_unmap. start_safe w. run; close_entry. Qed.

Lemma hrx_allocator_virtual_memory_protect_spec w a b off size prot :
  wf w -> nullable_alloc w a -> nullable w KBuffer b ->
  wp (hrx_allocator_virtual_memory_protect a b off size prot) (fun r w' => entry_ok w w' r) w.
Proof. intros. unfold hrx_allocator_virtual_memory_protect. start_safe w. run; close_entry. Qed.

(** Releasing a reserved range takes the last reference apart: the HAL buffer
    goes to the virtual-memory release call instead of a plain release, and
    every other field is given back. *)
Lemma hrx_allocator_virtual_memory_release_spec w a vb b :
  wf w -> is_null a = false -> usable w KDevice (a - ALLOCATOR_OFFSET) ->
  w_heap w !! vb = Some (1, OBuffer b) -> 1 <= ext w vb ->
  wp (hrx_allocator_virtual_memory_release a vb)
     (fun r w' => wf w' /\ eff w w' none (fun q => - one vb q) /\ status_value w' r) w.
Proof.
  intros Hwf Ha Hu Hb He. unfold hrx_allocator_virtual_memory_release.
  rewrite Ha, (usable_nonnull w KBuffer vb) by (done || obj_usable). simpl.
  wp_use (into_inner_handle_spec (T:=HrxBufferS)); [done|exact Hb|done|].
  intros ? w1 (-> & Hwf1 & [Hlu Hlf] & HE1 & Hw1). apply wp_bind, wp_ret.
  assert (usable w1 KDevice (a - ALLOCATOR_OFFSET)) as Hu1.
  { destruct Hu as (n & o & Ho & Hk). exists n, o. split; [|done]. subst w1. simpl.
    rewrite lookup_delete_ne; [done|]. intros Heq. rewrite <- Heq, Hb in Ho. by simplify_eq. }
  assert (usable w1 KDevice (buf_device b)) as Hd by (apply Hlu; left).
  specialize (Hlf (buf_device b)). unfold link_cnt in Hlf. simpl in Hlf. rewrite one_eq in Hlf.
  unfold hal_into_raw. apply wp_bind, wp_ret. start_safe w1.
  wp_use map_drop_spec; [done|]. intros _ w2 ?. merge_safe.
  wp_use pool_drop_spec; [done|]. intros _ w3 ?. merge_safe. run.
  wp_use hrx_device_release_spec; [done|usable_tac|ext_tac|]. intros _ w5 [Hwf5 HE5].
  match goal with H : safe w1 _ _ _ |- _ => apply safe_eff in H end. merge_eff. merge_eff.
  wp_use from_iree_safe; [done|]. intros st w6 (HS6 & _ & _ & _ & Hst).
  split; [apply HS6|]. split; [|done]. apply safe_eff in HS6. merge_eff. close_eff.
Qed.

(** Physical memory belongs to the caller: allocation hands it one reference,
    freeing takes it back. *)
Lemma hrx_allocator_physical_memory_allocate_spec w a ty size out :
  wf w -> nullable_alloc w a ->
  wp (hrx_allocator_physical_memory_allocate a ty size out) (fun r w' =>
    status_value w' r /\
    (((LibcAlloc -> r <> 0) /\ safe w w' none none) \/
     (r = 0 /\ exists p, w_mem w' !! out = Some p /\ safe w w' (cnt p) none))) w.
Proof.
  intros Hwf Ha. unfold hrx_allocator_physical_memory_allocate. start_safe w. run.
  - split; [done|]. left. split; [nonzero_status|close_safe].
  - destruct r as [s q]; simpl in *. split; [done|].
    destruct (is_null s) eqn:Es; [right|left].
    + split; [bool_to_prop; auto|].
      exists q. split; [|close_safe]. destruct Hfr0 as (_ & -> & _). subst. simpl.
      by rewrite lookup_insert_eq.
    + split; [nonzero_status|close_safe].
Qed.

Lemma hrx_allocator_physical_memory_free_spec w a ph :
  wf w -> nullable_alloc w a ->
  wp (hrx_allocator_physical_memory_free a ph) (fun r w' =>
    status_value w' r /\ safe w w' (if is_null a then none else fun p => - cnt ph p) none) w.
Proof.
  intros Hwf Ha. unfold hrx_allocator_physical_memory_free. start_safe w.
  destruct (is_null a) eqn:Hn; [simpl; run; split; [done|close_safe]|].
  null_args. destruct (is_null ph) eqn:Hp; simpl; run; (split; [done|close_safe]).
Qed.
End BufferEntries.
