(* ===== verification/HostAllocator.v ===== *)
(** * The host-allocator ABI: crates/hrx-libhrx/src/host_allocator.rs *)

From S2P Require Import Prelude Iree Objects Machine Handle Status IreeHal Device Semaphore Buffer.

Section HostAllocator.
Context `{IREE}.

(** [host_allocator_init]: the load-time constructor fills the exported global. *)
Definition host_allocator_init : iree_allocator_t :=
  let sys := allocator_system in Allocator (al_self sys) (al_ctl sys).

(** [HrxHostAllocator::to_iree] (common.rs). *)
Definition to_iree (a : iree_allocator_t) : iree_allocator_t := Allocator (al_self a) (al_ctl a).

Definition hrx_host_allocator_malloc (allocator : iree_allocator_t) (byte_length : Z)
  (out_ptr : ptr) : M ptr :=
  r ← call (ffi_create (iree_allocator_malloc (to_iree allocator) byte_length));
  write_out out_ptr (c_ptr r) ;;
  hrx_status_from_iree (c_status r).

Definition hrx_host_allocator_malloc_uninitialized (allocator : iree_allocator_t)
  (byte_length : Z) (out_ptr : ptr) : M ptr :=
  r ← call (ffi_create (iree_allocator_malloc_uninitialized (to_iree allocator) byte_length));
  write_out out_ptr (c_ptr r) ;;
  hrx_status_from_iree (c_status r).

Definition hrx_host_allocator_realloc (allocator : iree_allocator_t) (byte_length : Z)
  (inout_ptr : ptr) : M ptr :=
  old ← read_in inout_ptr;
  '(s, new) ← call (iree_allocator_realloc (to_iree allocator) old byte_length);
  write_out inout_ptr (if status_is_ok s then new else old) ;;
  hrx_status_from_iree s.

Definition hrx_host_allocator_clone (allocator : iree_allocator_t) (src : ptr)
  (byte_length : Z) (out_ptr : ptr) : M ptr :=
  r ← call (ffi_create (iree_allocator_clone (to_iree allocator) src byte_length));
  write_out out_ptr (c_ptr r) ;;
  hrx_status_from_iree (c_status r).

Definition hrx_host_allocator_free (allocator : iree_allocator_t) (p : ptr) : M unit :=
  call (iree_allocator_free (to_iree allocator) p).

Definition hrx_host_allocator_malloc_aligned (allocator : iree_allocator_t)
  (byte_length min_alignment offset : Z) (out_ptr : ptr) : M ptr :=
  r ← call (ffi_create (iree_allocator_malloc_aligned (to_iree allocator) byte_length
                          min_alignment offset));
  write_out out_ptr (c_ptr r) ;;
  hrx_status_from_iree (c_status r).

Definition hrx_host_allocator_realloc_aligned (allocator : iree_allocator_t)
  (byte_length min_alignment offset : Z) (inout_ptr : ptr) : M ptr :=
  old ← read_in inout_ptr;
  '(s, new) ← call (iree_allocator_realloc_aligned (to_iree allocator) old byte_length
                      min_alignment offset);
  write_out inout_ptr (if status_is_ok s then new else old) ;;
  hrx_status_from_iree s.

Definition hrx_host_allocator_free_aligned (allocator : iree_allocator_t) (p : ptr) : M unit :=
  call (iree_allocator_free_aligned (to_iree allocator) p).
End HostAllocator.

(** ** Specifications *)

Section HostAllocatorSpecs.
Context `{IREE}.

(** A new block handed to the caller through [out]: on success exactly one
    reference, which [out] names; on failure none. *)
Definition block_post (w w' : world) (r out : ptr) : Prop :=
  frame w (set_mem w' (w_mem w)) /\ status_value w' r /\ mem_grow w w' /\
  exists p, w_mem w' !! out = Some p /\
    ((r = 0 /\ safe w w' (cnt p) none)
     \/ ((LibcAlloc -> r <> 0) /\ safe w w' none none)).

Lemma block_create_spec (c : create_call) out w :
  wf w -> is_null out = false ->
  wp (r ← call (ffi_create c); write_out out (c_ptr r) ;; hrx_status_from_iree (c_status r))
     (fun r w' => block_post w w' r out) w.
Proof.
  intros Hwf Ho. start_safe w. run. destruct r as [s q]; simpl in *.
  split; [|split; [done|split; [mem_tac|]]].
  { destruct Hfr as (?&?&?&?), Hfr0 as (?&?&?&?). subst w1. by repeat split; simpl in *; congruence. }
  exists q. split; [destruct Hfr0 as (_ & -> & _); subst w1; simpl; by rewrite lookup_insert_eq|].
  destruct (is_null s) eqn:Es; [left|right].
  - bool_to_prop. split; [by apply Hok|]. subst s. close_safe.
  - split; [nonzero_status|close_safe].
Qed.

Lemma hrx_host_allocator_malloc_spec a n out w :
  wf w -> is_null out = false ->
  wp (hrx_host_allocator_malloc a n out) (fun r w' => block_post w w' r out) w.
Proof. apply block_create_spec. Qed.

Lemma hrx_host_allocator_malloc_uninitialized_spec a n out w :
  wf w -> is_null out = false ->
  wp (hrx_host_allocator_malloc_uninitialized a n out) (fun r w' => block_post w w' r out) w.
Proof. apply block_create_spec. Qed.

Lemma hrx_host_allocator_clone_spec a src n out w :
  wf w -> is_null out = false ->
  wp (hrx_host_allocator_clone a src n out) (fun r w' => block_post w w' r out) w.
Proof. apply block_create_spec. Qed.

Lemma hrx_host_allocator_malloc_aligned_spec a n al off out w :
  wf w -> is_null out = false ->
  wp (hrx_host_allocator_malloc_aligned a n al off out) (fun r w' => block_post w w' r out) w.
Proof. apply block_create_spec. Qed.

Lemma hrx_host_allocator_free_spec a q w :
  wf w -> wp (hrx_host_allocator_free a q) (fun _ w' =>
    safe w w' (fun p => - cnt q p) none /\ frame w w' /\ w_cheap w' = w_cheap w) w.
Proof.
  intros Hwf. unfold hrx_host_allocator_free. wp_use call_frame; [done|].
  by intros ? ? (? & ? & _ & ?).
Qed.

Lemma hrx_host_allocator_free_aligned_spec a q w :
  wf w -> wp (hrx_host_allocator_free_aligned a q) (fun _ w' =>
    safe w w' (fun p => - cnt q p) none /\ frame w w' /\ w_cheap w' = w_cheap w) w.
Proof.
  intros Hwf. unfold hrx_host_allocator_free_aligned. wp_use call_frame; [done|].
  by intros ? ? (? & ? & _ & ?).
Qed.

(** Reallocation keeps exactly one block alive behind the pointer. *)
Lemma realloc_spec (c : ptr -> ffi (Z * ptr)%type) io old w :
  wf w -> is_null io = false -> w_mem w !! io = Some old ->
  (forall q s new p, delta (c q) (s, new) p
     = cnt s p + (if status_is_ok s then cnt new p - cnt q p else 0)) ->
  wp (old ← read_in io; '(s, new) ← call (c old);
      write_out io (if status_is_ok s then new else old) ;; hrx_status_from_iree s)
     (fun r w' => status_value w' r /\
        exists new, w_mem w' !! io = Some new /\
          safe w w' (fun p => cnt new p - cnt old p) none) w.
Proof.
  intros Hwf Ho Hold Hdelta. apply wp_bind. unfold wp at 1, read_in. rewrite Hold.
  wp_use call_frame; [done|]. intros [s new] w1 (HS & Hfr & _ & _).
  pose proof (safe_wf _ _ _ _ HS). wp_write. wp_iree_error. split; [done|].
  exists (if status_is_ok s then new else old).
  split; [destruct Hfr0 as (_ & -> & _); subst; simpl; by rewrite lookup_insert_eq|].
  eapply safe_equiv; [done| |done]. intros p. simpl. rewrite Hdelta. unfold status_is_ok.
  destruct (is_null s) eqn:?; ledger.
Qed.

Lemma hrx_host_allocator_realloc_spec a n io old w :
  wf w -> is_null io = false -> w_mem w !! io = Some old ->
  wp (hrx_host_allocator_realloc a n io) (fun r w' => status_value w' r /\
    exists new, w_mem w' !! io = Some new /\
      safe w w' (fun p => cnt new p - cnt old p) none) w.
Proof. intros. by apply (realloc_spec (fun q => iree_allocator_realloc _ q n)). Qed.

Lemma hrx_host_allocator_realloc_aligned_spec a n al off io old w :
  wf w -> is_null io = false -> w_mem w !! io = Some old ->
  wp (hrx_host_allocator_realloc_aligned a n al off io) (fun r w' => status_value w' r /\
    exists new, w_mem w' !! io = Some new /\
      safe w w' (fun p => cnt new p - cnt old p) none) w.
Proof. intros. by apply (realloc_spec (fun q => iree_allocator_realloc_aligned _ q n al off)). Qed.
End HostAllocatorSpecs.
