(* ===== verification/Executable.v ===== *)
(** * HAL executables: crates/hrx-libhrx/src/executable.rs *)

From S2P Require Import Prelude Iree Objects Machine Handle Status IreeHal Device Semaphore Buffer HostAllocator.

Section Executable.
Context `{IREE}.

(** Field drops of [HrxExecutableS]: executable, cache, device. *)
#[export] Instance drop_executable : DropGlue HrxExecutableS := fun e =>
  HalExecutable_drop (exe_hal_executable e) ;;
  HalExecutableCache_drop (exe_hal_executable_cache e) ;;
  device_ref_drop (exe_device e).

(** [executable_hal]. *)
Definition executable_hal (executable : ptr) : M ptr :=
  e ← handle_ref (T:=HrxExecutableS) executable; mret (exe_hal_executable e).

(** [wrap]. *)
Definition wrap (device cache exe out : ptr) : M ptr :=
  hal_executable ← expect (nonnull_new exe) "prepared executable is non-null"%string;
  hal_executable_cache ← expect (nonnull_new cache) "created cache is non-null"%string;
  d ← device_ref_retain device;
  h ← into_handle (Executable hal_executable hal_executable_cache d);
  write_out out h ;;
  mret hrx_ok_status.

(** [executable_format.is_null() || *executable_format == 0]. *)
Definition format_missing (format : ptr) : M bool :=
  if is_null format then mret true else c ← read_in format; mret (c =? 0).

(** [hrx_executable_load_data]. *)
Definition hrx_executable_load_data (device executable_data : ptr) (executable_data_size : Z)
  (executable_format executable : ptr) : M ptr :=
  if is_null device || is_null executable || is_null executable_data
     || (executable_data_size =? 0)
  then hrx_make_status (code_i32 InvalidArgument)
         (Some "device, executable_data, or executable is invalid"%string)
  else
    write_out executable null ;;
    dev ← device_deref device;
    cache ← call (ffi_create (iree_hal_executable_cache_create (dev_hal_device dev)));
    if negb (status_is_ok (c_status cache)) then hrx_status_from_iree (c_status cache)
    else
      missing ← format_missing executable_format;
      if (missing : bool) then
        call (ffi_release iree_hal_executable_cache (c_ptr cache)) ;;
        hrx_make_status (code_i32 InvalidArgument) (Some "executable_format is required"%string)
      else
        exe ← call (ffi_create (iree_hal_executable_cache_prepare_executable (c_ptr cache)
                      executable_format executable_data executable_data_size));
        if negb (status_is_ok (c_status exe)) then
          call (ffi_release iree_hal_executable_cache (c_ptr cache)) ;;
          hrx_status_from_iree (c_status exe)
        else wrap device (c_ptr cache) (c_ptr exe) executable.

Definition hrx_executable_retain (executable : ptr) : M unit :=
  if is_null executable then mret tt else handle_retain (T:=HrxExecutableS) executable.

Definition hrx_executable_release (executable : ptr) : M unit :=
  if is_null executable then mret tt else handle_release (T:=HrxExecutableS) executable.

(** [hrx_executable_export_count]. *)
Definition hrx_executable_export_count (executable count : ptr) : M ptr :=
  if is_null executable || is_null count
  then hrx_make_status (code_i32 InvalidArgument) (Some "executable or count is NULL"%string)
  else
    e ← executable_hal executable;
    n ← call (ffi_get (iree_hal_executable_function_count e));
    write_out count n ;;
    mret hrx_ok_status.

(** [hrx_executable_export_info]: fields at offsets 0, 8, 12, 16, 20 and 24. *)
Definition hrx_executable_export_info (executable : ptr) (export_ordinal : Z) (out_info : ptr)
  : M ptr :=
  if is_null executable || is_null out_info
  then hrx_make_status (code_i32 InvalidArgument) (Some "executable or out_info is NULL"%string)
  else
    e ← executable_hal executable;
    '(s, info) ← call (iree_hal_executable_function_info e export_ordinal);
    if negb (status_is_ok s) then hrx_status_from_iree s
    else
      write_out out_info (fi_name info) ;;
      write_out (out_info + 8) (fi_flags info) ;;
      write_out (out_info + 12) (wrap_u32 (fi_constant_count info)) ;;
      write_out (out_info + 16) (wrap_u32 (fi_binding_count info)) ;;
      write_out (out_info + 20) (wrap_u32 (fi_parameter_count info)) ;;
      write_out (out_info + 24) (fi_workgroup_size info !!! 0%nat) ;;
      write_out (out_info + 28) (fi_workgroup_size info !!! 1%nat) ;;
      write_out (out_info + 32) (fi_workgroup_size info !!! 2%nat) ;;
      mret hrx_ok_status.

(** [hrx_executable_lookup_export_by_name]. *)
Definition hrx_executable_lookup_export_by_name (executable name export_ordinal : ptr) : M ptr :=
  if is_null executable || is_null name || is_null export_ordinal
  then hrx_make_status (code_i32 InvalidArgument)
         (Some "executable, name, or export_ordinal is NULL"%string)
  else
    e ← executable_hal executable;
    '(s, func) ← call (ffi_read (iree_hal_executable_lookup_function_by_name e name));
    if negb (status_is_ok s) then hrx_status_from_iree s
    else if U32_MAX <? func
    then hrx_make_status (code_i32 Unimplemented)
           (Some "executable function is not a dense ordinal"%string)
    else write_out export_ordinal (wrap_u32 func) ;; mret hrx_ok_status.

(** [libc::fclose] on an early return, then the error. *)
Definition close_and_fail (file code : Z) (message : string) : M ptr :=
  call (ffi_get (libc_fclose file)) ;; hrx_make_status code (Some message).

(** [hrx_executable_load_file]. *)
Definition hrx_executable_load_file (device path executable_format executable : ptr) : M ptr :=
  if is_null device || is_null path || is_null executable
  then hrx_make_status (code_i32 InvalidArgument)
         (Some "device, path, or executable is NULL"%string)
  else
    write_out executable null ;;
    file ← call (ffi_get (libc_fopen path));
    if is_null file
    then hrx_make_status (code_i32 NotFound) (Some "failed to open executable file"%string)
    else
    e1 ← call (ffi_get (libc_fseek_end file));
    if negb (e1 =? 0)
    then close_and_fail file (code_i32 Internal) "failed to seek executable file"%string
    else
    file_size ← call (ffi_get (libc_ftell file));
    if file_size <=? 0
    then close_and_fail file (code_i32 InvalidArgument) "empty executable file"%string
    else
    e2 ← call (ffi_get (libc_fseek_set file));
    if negb (e2 =? 0)
    then close_and_fail file (code_i32 Internal) "failed to rewind executable file"%string
    else
    let ha := allocator_system in
    '(status, file_data) ←
      with_local null (fun slot =>
        hrx_host_allocator_malloc_uninitialized ha (wrap_u64 file_size) slot);
    if negb (hrx_status_is_ok status)
    then call (ffi_get (libc_fclose file)) ;; mret status
    else
    read_size ← call (ffi_get (libc_fread file_data file (wrap_u64 file_size)));
    call (ffi_get (libc_fclose file)) ;;
    if negb (read_size =? wrap_u64 file_size) then
      hrx_host_allocator_free ha file_data ;;
      hrx_make_status (code_i32 DataLoss) (Some "short read while loading executable file"%string)
    else
    status ← hrx_executable_load_data device file_data (wrap_u64 file_size) executable_format
               executable;
    hrx_host_allocator_free ha file_data ;;
    mret status.
End Executable.

(** ** Specifications *)

Section ExecutableSpecs.
Context `{IREE}.

#[export] Instance drop_executable_ok : DropOk HrxExecutableS.
Proof.
  intros e w Hwf [Hu Hf]. simpl in *. unfold drop_glue, drop_executable.
  assert (usable w KDevice (exe_device e)) as Hd by (apply Hu; left).
  specialize (Hf (exe_device e)). unfold link_cnt in Hf. simpl in Hf. rewrite one_eq in Hf.
  start_safe w. wp_drop. wp_drop. wp_use hrx_device_release_spec; [done|usable_tac|ext_tac|].
  intros _ w4 [Hwf4 HE]. split; [done|].
  match goal with H : safe w _ _ _ |- _ => apply safe_eff in H end. merge_eff. close_eff.
Qed.

Lemma executable_hal_spec w h :
  usable w KExecutable h ->
  wp (executable_hal h) (fun p w' => w' = w /\
    exists n e, w_heap w !! h = Some (n, OExecutable e) /\ p = exe_hal_executable e) w.
Proof.
  intros Hu. unfold executable_hal. wp_use (handle_ref_spec (T:=HrxExecutableS) w h); [done|].
  intros e w' [-> (n & He)]. apply wp_ret. eauto.
Qed.

(** The format argument is null or a readable C string. *)
Definition readable (w : world) (p : ptr) : Prop := p = 0 \/ is_Some (w_mem w !! p).

Lemma format_missing_spec w p :
  readable w p -> wp (format_missing p) (fun _ w' => w' = w) w.
Proof.
  intros Hp. unfold format_missing. destruct (is_null p) eqn:E; [by apply wp_ret|].
  bool_to_prop. destruct Hp as [|[v Hv]]; [done|]. apply wp_bind.
  unfold wp at 1, read_in. rewrite Hv. by apply wp_ret.
Qed.
End ExecutableSpecs.

Ltac run_hook2 := fail.

Ltac run_hook ::=
  lazymatch goal with
  | |- wp (semaphore_hal_ptr _ ≫= _) _ _ => wp_hal_ptr semaphore_hal_ptr_spec
  | |- wp (fence_hal_ptr _ ≫= _) _ _ => wp_hal_ptr fence_hal_ptr_spec
  | |- wp (buffer_hal _ ≫= _) _ _ => wp_hal_ptr buffer_hal_spec
  | |- wp (buffer_ref _ ≫= _) _ _ => wp_use_ref buffer_ref_spec
  | |- wp (executable_hal _ ≫= _) _ _ => wp_hal_ptr executable_hal_spec
  | |- wp (allocator_deref _ ≫= _) _ _ => wp_alloc
  | |- wp (write_opt _ _ ≫= _) _ _ =>
      wp_use write_opt_spec; [assumption|]; let w' := fresh "w" in intros ?u w' ?; merge_safe
  | |- wp (handle_set (T:=?T) _ _ ≫= _) _ _ => wp_set T
  | _ => run_hook2
  end.

Section ExecutableEntries.
Context `{IREE}.

Lemma hrx_executable_load_data_spec `{!IreeCreates} w device data size format out :
  wf w -> nullable w KDevice device -> readable w format ->
  wp (hrx_executable_load_data device data size format out)
     (fun r w' => create_post w w' r out KExecutable) w.
Proof.
  intros Hwf Hd Hfmt. unfold hrx_executable_load_data. start_safe w.
  run; try close_failed.
  assert (readable w1 format) as Hfmt1.
  { destruct Hfmt as [|Hm]; [by left|right]. clear - Hm Hw Hfr. revert format Hm. mem_tac. }
  wp_use format_missing_spec; [done|]. intros missing ? ->. run; try close_failed.
  unfold wrap. do 2 (apply wp_bind, expect_nonnull_spec; [created_nonnull|]).
  wp_device_object.
Qed.

Lemma hrx_executable_export_count_spec w h out :
  wf w -> nullable w KExecutable h ->
  wp (hrx_executable_export_count h out) (fun r w' => entry_ok w w' r) w.
Proof. intros. unfold hrx_executable_export_count. start_safe w. run; close_entry. Qed.

Lemma hrx_executable_export_info_spec w h ordinal out :
  wf w -> nullable w KExecutable h -> 0 <= out ->
  wp (hrx_executable_export_info h ordinal out) (fun r w' => entry_ok w w' r) w.
Proof.
  intros Hwf Hh Hout. unfold hrx_executable_export_info. start_safe w.
  assert (forall k, 0 < k -> is_null (out + k) = false) as Hoff.
  { intros. apply is_null_false. lia. }
  pose proof (Hoff 8 ltac:(lia)). pose proof (Hoff 12 ltac:(lia)). pose proof (Hoff 16 ltac:(lia)).
  pose proof (Hoff 20 ltac:(lia)). pose proof (Hoff 24 ltac:(lia)). pose proof (Hoff 28 ltac:(lia)).
  pose proof (Hoff 32 ltac:(lia)). run; close_entry.
Qed.

Lemma hrx_executable_lookup_export_by_name_spec w h name out :
  wf w -> nullable w KExecutable h ->
  wp (hrx_executable_lookup_export_by_name h name out) (fun r w' => entry_ok w w' r) w.
Proof. intros. unfold hrx_executable_lookup_export_by_name. start_safe w. run; close_entry. Qed.

Lemma close_and_fail_spec w file code msg :
  wf w -> wp (close_and_fail file code msg) (fun r w' =>
    safe w w' (fun p => - cnt file p) none /\ frame w w' /\ (LibcAlloc -> code <> 0 -> r <> 0)
    /\ status_value w' r) w.
Proof.
  intros Hwf. unfold close_and_fail. start_safe w. run.
  split; [close_safe|]. split; [by eapply frame_trans|done].
Qed.

(** The block allocated for the file contents, as a scoped local. *)
Lemma file_block_spec w ha n :
  wf w ->
  wp (with_local null (fun slot => hrx_host_allocator_malloc_uninitialized ha n slot))
     (fun sp w' => mem_grow w w' /\ w_heap w' = w_heap w /\ status_value w' sp.1 /\
        ((sp.1 = 0 /\ safe w w' (cnt sp.2) none)
         \/ ((LibcAlloc -> sp.1 <> 0) /\ safe w w' none none))) w.
Proof.
  intros Hwf.
  eapply wp_mono; [apply (with_local_spec _ _ (fun r v w2 =>
    let w1 := set_mem (set_next w (w_next w + BLOCK)) (<[w_next w := null]> (w_mem w)) in
    mem_grow w1 w2 /\ w_heap w2 = w_heap w /\ status_value w2 r /\
    ((r = 0 /\ safe w w2 (cnt v) none)
     \/ ((LibcAlloc -> r <> 0) /\ safe w w2 none none))))|]; [done|..].
  - intros w1 Hw1 HS1 Hn. wp_use hrx_host_allocator_malloc_uninitialized_spec; [apply HS1|done|].
    intros r w2 (Hfr & Hst & Hg & v & Hv & Hcase). exists v. split; [done|].
    rewrite <- Hw1. split; [done|]. split; [by rewrite Hw1 in Hfr; destruct Hfr as (? & _)|].
    split; [done|].
    destruct Hcase as [[-> HS2]|[Hr HS2]]; [left|right]; (split; [done|]);
      (eapply safe_equiv; [by eapply safe_trans|..]; ledger).
  - intros [r v] w3 (w2 & m & (Hg & Hh & Hst & Hcase) & -> & Hgrow). simpl in *.
    split; [by apply Hgrow|]. split; [done|]. split; [done|].
    destruct Hcase as [[-> HS2]|[Hr HS2]]; [left|right]; (split; [done|]);
      (eapply safe_equiv; [eapply safe_trans; [done|exact HS2|apply safe_set_mem, HS2]|..]; ledger).
Qed.

(** A creating call between two halves that cancel: what was held before it is
    given back after it. *)
Lemma create_post_between w w1 w2 w3 r out k F1 F3 :
  wf w -> mem_grow w w1 -> w_heap w1 = w_heap w ->
  safe w w1 F1 none -> create_post w1 w2 r out k -> safe w2 w3 F3 none -> frame w2 w3 ->
  w_cheap w3 = w_cheap w2 -> (forall p, F1 p + F3 p = 0) ->
  create_post w w3 r out k.
Proof.
  intros Hwf Hg Hh HS1 Hpost HS3 (Hh3 & Hm3 & _) Hc3 HF.
  pose proof (eff_next _ _ _ _ (safe_eff _ _ _ _ HS1)).
  destruct Hpost as [[-> (h & Hm & Hn & Hu & HS2)]|(Hst & Hnz & HS2 & Hh2 & Hg2)].
  - left. split; [done|]. exists h. rewrite Hm3. split; [done|]. split; [lia|].
    split; [by eapply usable_heap|].
    eapply safe_equiv; [eapply safe_trans; [done|eapply safe_trans; [done|exact HS1|exact HS2]|
      exact HS3]|..]; intros q; unfold none; simpl; [specialize (HF q); lia|lia].
  - right. unfold status_value, valid_status in *. rewrite Hc3. split; [done|]. split; [done|].
    split; [|split; [congruence|]].
    + eapply safe_equiv; [eapply safe_trans; [done|eapply safe_trans; [done|exact HS1|exact HS2]|
        exact HS3]|..]; intros q; unfold none; simpl; [specialize (HF q); lia|lia].
    + intros a Ha. rewrite Hm3. by apply Hg2, Hg.
Qed.
End ExecutableEntries.

Ltac run_hook2 ::=
  lazymatch goal with
  | |- wp (close_and_fail _ _ _) _ _ =>
      wp_use close_and_fail_spec; [assumption|];
      let w' := fresh "w" in intros ?r w' (? & ?Hfr & ?Hnz & ?Hst); merge_safe
  | |- wp (hrx_host_allocator_free _ _ ≫= _) _ _ =>
      wp_use hrx_host_allocator_free_spec; [assumption|];
      let w' := fresh "w" in intros ?u w' (? & ?Hfr & ?Hch); merge_safe
  end.

Ltac mem_frame :=
  match goal with H : frame ?x ?y |- context [w_mem ?y] => rewrite (proj1 (proj2 H)) end.

Section ExecutableFile.
Context `{IREE}.

(** The file is closed and its contents freed on every path. *)
Lemma hrx_executable_load_file_spec `{!IreeCreates, !LibcAlloc} w device path format out :
  wf w -> nullable w KDevice device -> readable w format ->
  wp (hrx_executable_load_file device path format out)
     (fun r w' => create_post w w' r out KExecutable) w.
Proof.
  intros Hwf Hd Hfmt. unfold hrx_executable_load_file. start_safe w.
  run; try close_failed.
  assert (mem_grow w w4) as Hg4 by mem_tac.
  assert (w_heap w4 = w_heap w) as Hh4 by same_heap.
  clear Hw Hfr Hfr0 Hfr1 Hfr2 Hch Hch0 Hch1 Hch2.
  wp_use file_block_spec; [done|]. intros [st blk] w5 (Hg & Hh & Hst & Hcase). simpl in *.
  destruct Hcase as [[-> ?]|[Hnz ?]]; merge_safe; run; unfold hrx_status_is_ok in *;
    try discriminate; try (exfalso; bool_to_prop; by apply Hnz).
  - right. split; [done|]. split; [nonzero_status|]. split; [close_safe|]. split; [same_heap|].
    intros a Ha. do 4 mem_frame. by apply Hg, Hg4.
  - assert (w_heap w7 = w_heap w) as Hh7 by same_heap.
    assert (mem_grow w w7) as Hg7.
    { intros a Ha. do 2 mem_frame. by apply Hg, Hg4. }
    wp_use hrx_executable_load_data_spec; [done|right; usable_tac| |].
    { destruct Hfmt as [|Hm]; [by left|right; by apply Hg7]. }
    intros st8 w8 Hpost. wp_use hrx_host_allocator_free_spec; [|].
    { destruct Hpost as [[_ (? & _ & _ & _ & HS8)]|(_ & _ & HS8 & _)]; apply HS8. }
    intros _ w9 (HS9 & Hfr9 & Hch9). apply wp_ret.
    eapply create_post_between; [done|done|done| |exact Hpost|exact HS9|done|done|].
    { eapply safe_equiv; [exact HS0|reflexivity|ledger]. }
    ledger.
  - right. split; [unfold status_value, valid_status in *; by rewrite Hch|]. split; [done|].
    split; [close_safe|]. split; [same_heap|].
    intros a Ha. mem_frame. by apply Hg, Hg4.
Qed.
End ExecutableFile.
