(* ===== verification/BufferView.v ===== *)
(** * Buffer views: crates/hrx-libhrx/src/buffer_view.rs *)

From S2P Require Import Prelude Iree Objects Machine Handle Status IreeHal Device Semaphore Buffer HostAllocator Executable.

Section BufferView.
Context `{IREE}.

(** Field drop of [HrxBufferViewS]. *)
#[export] Instance drop_buffer_view : DropGlue HrxBufferViewS := fun v =>
  HalBufferView_drop (view_hal v).

(** [buffer_view_hal_ptr]. *)
Definition buffer_view_hal_ptr (bv : ptr) : M ptr :=
  v ← handle_ref (T:=HrxBufferViewS) bv; mret (view_hal v).

Definition hrx_buffer_view_retain (bv : ptr) : M unit := handle_retain (T:=HrxBufferViewS) bv.
Definition hrx_buffer_view_release (bv : ptr) : M unit := handle_release (T:=HrxBufferViewS) bv.

(** The shape loop over a growing heap vector; [None] on a negative dimension. *)
Fixpoint heap_dims (shape : ptr) (i n : nat) (acc : list Z) : M (option (list Z)) :=
  match n with
  | O => mret (Some acc)
  | S n =>
      dim ← read_in (shape + 8 * Z.of_nat i);
      if dim <? 0 then mret None else heap_dims shape (S i) n (acc ++ [wrap_u64 dim])
  end.

(** The shape loop over the fixed stack array; indexing is bounds-checked. *)
Fixpoint stack_dims (shape : ptr) (i n : nat) (arr : list Z) : M (option (list Z)) :=
  match n with
  | O => mret (Some arr)
  | S n =>
      dim ← read_in (shape + 8 * Z.of_nat i);
      if dim <? 0 then mret None
      else if (length arr <=? i)%nat then panic "index out of bounds"%string
      else stack_dims shape (S i) n (<[i := wrap_u64 dim]> arr)
  end.

Definition STACK_SHAPE : nat := 8.

(** Storage selection: the first [shape_rank] words IREE reads. *)
Definition convert_shape (shape : ptr) (shape_rank : nat) : M (option (list Z)) :=
  if (STACK_SHAPE <? shape_rank)%nat then heap_dims shape 0 shape_rank []
  else
    arr ← stack_dims shape 0 shape_rank (replicate STACK_SHAPE 0);
    mret (take shape_rank <$> arr).

(** [hrx_buffer_view_create]. *)
Definition hrx_buffer_view_create (buffer : ptr) (shape_rank : nat) (shape : ptr)
  (element_type encoding_type : Z) (buffer_view : ptr) : M ptr :=
  if is_null buffer || is_null buffer_view
  then hrx_make_status (code_i32 InvalidArgument) (Some "buffer or buffer_view is NULL"%string)
  else
    write_out buffer_view null ;;
    if (0 <? shape_rank)%nat && is_null shape
    then hrx_make_status (code_i32 InvalidArgument)
           (Some "shape is NULL for non-zero rank"%string)
    else
      dims ← convert_shape shape shape_rank;
      match dims with
      | None => hrx_make_status (code_i32 InvalidArgument)
                  (Some "shape dimensions must be non-negative"%string)
      | Some iree_shape =>
          b ← buffer_hal buffer;
          r ← buffer_view_create b iree_shape element_type encoding_type;
          match r with
          | inr hal =>
              h ← into_handle (BufferView hal);
              write_out buffer_view h ;;
              mret hrx_ok_status
          | inl s => hrx_status_from_iree s
          end
      end.

(** [hrx_buffer_view_rank]. *)
Definition hrx_buffer_view_rank (buffer_view rank : ptr) : M ptr :=
  if is_null buffer_view || is_null rank
  then hrx_make_status (code_i32 InvalidArgument) (Some "buffer_view or rank is NULL"%string)
  else
    v ← buffer_view_hal_ptr buffer_view;
    n ← HalBufferView_shape_rank v;
    write_out rank n ;;
    mret hrx_ok_status.

(** [hrx_buffer_view_dim]. *)
Definition hrx_buffer_view_dim (buffer_view : ptr) (dim : Z) (value : ptr) : M ptr :=
  if is_null buffer_view || is_null value
  then hrx_make_status (code_i32 InvalidArgument) (Some "buffer_view or value is NULL"%string)
  else
    v ← buffer_view_hal_ptr buffer_view;
    rank ← HalBufferView_shape_rank v;
    if rank <=? dim
    then hrx_make_status (code_i32 OutOfRange) (Some "buffer_view dim out of range"%string)
    else
      d ← HalBufferView_shape_dim v dim;
      write_out value (wrap_i64 d) ;;
      mret hrx_ok_status.
End BufferView.

(** ** Specifications *)

(** [n] readable words of client memory. *)
Definition words (w : world) (p : ptr) (vs : list Z) : Prop :=
  forall i v, vs !! i = Some v -> w_mem w !! (p + 8 * Z.of_nat i) = Some v.

(** What the shape argument denotes: the dimensions as unsigned words, unless
    one of them is negative. *)
Fixpoint shape_value (vs : list Z) : option (list Z) :=
  match vs with
  | [] => Some []
  | v :: vs => if v <? 0 then None else cons (wrap_u64 v) <$> shape_value vs
  end.

Section BufferViewSpecs.
Context `{IREE}.

#[export] Instance drop_buffer_view_ok : DropOk HrxBufferViewS.
Proof.
  intros v w Hwf _. unfold drop_glue, drop_buffer_view. start_safe w. wp_drop. split; [done|].
  match goal with H : safe w _ _ _ |- _ => apply safe_eff in H end. close_eff.
Qed.

Lemma buffer_view_hal_ptr_spec w h :
  usable w KBufferView h ->
  wp (buffer_view_hal_ptr h) (fun p w' => w' = w /\
    exists n v, w_heap w !! h = Some (n, OBufferView v) /\ p = view_hal v) w.
Proof.
  intros Hu. unfold buffer_view_hal_ptr.
  wp_use (handle_ref_spec (T:=HrxBufferViewS) w h); [done|]. intros v w' [-> (n & Hv)].
  apply wp_ret. eauto.
Qed.

Lemma read_in_word w p v : w_mem w !! p = Some v -> read_in p w = Done v w.
Proof. unfold read_in. by intros ->. Qed.

Lemma heap_dims_spec w shape vs : forall i acc,
  (forall j v, vs !! j = Some v -> w_mem w !! (shape + 8 * Z.of_nat (i + j)) = Some v) ->
  heap_dims shape i (length vs) acc w = Done (app acc <$> shape_value vs) w.
Proof.
  induction vs as [|v vs IH]; intros i acc Hm; simpl; [by rewrite app_nil_r|].
  erewrite bind_Done; [|by apply read_in_word; rewrite <- (Hm 0%nat v), Nat.add_0_r].
  destruct (v <? 0); [done|]. rewrite IH.
  - destruct (shape_value vs); simpl; [|done]. by rewrite <- app_assoc.
  - intros j u Hj. rewrite <- (Hm (S j) u Hj). do 2 f_equal. lia.
Qed.

Lemma stack_dims_spec w shape vs : forall arr done,
  (forall j v, vs !! j = Some v ->
     w_mem w !! (shape + 8 * Z.of_nat (length done + j)) = Some v) ->
  take (length done) arr = done -> (length done + length vs <= length arr)%nat ->
  exists r, stack_dims shape (length done) (length vs) arr w = Done r w /\
    take (length done + length vs) <$> r = app done <$> shape_value vs.
Proof.
  induction vs as [|v vs IH]; intros arr done Hm Hd Hlen; simpl in *.
  { eexists. split; [done|]. simpl. by rewrite Nat.add_0_r, app_nil_r, Hd. }
  erewrite bind_Done; [|by apply read_in_word; rewrite <- (Hm 0%nat v), Nat.add_0_r].
  destruct (v <? 0); [by exists None|].
  destruct (Nat.leb_spec (length arr) (length done)); [lia|].
  set (arr' := <[length done := wrap_u64 v]> arr).
  assert (length (done ++ [wrap_u64 v]) = S (length done)) as Hl by (rewrite length_app; simpl; lia).
  destruct (IH arr' (done ++ [wrap_u64 v])) as (r & Hr & Ht).
  - intros j u Hj. rewrite Hl, <- (Hm (S j) u Hj). do 2 f_equal. lia.
  - rewrite Hl. unfold arr'. rewrite (take_S_r _ _ (wrap_u64 v)).
    + rewrite take_insert_ge by lia. by rewrite Hd.
    + rewrite list_lookup_insert_eq by lia. done.
  - rewrite Hl. unfold arr'. rewrite length_insert. lia.
  - rewrite Hl in Hr, Ht. exists r. split; [done|].
    replace (length done + S (length vs))%nat with (S (length done) + length vs)%nat by lia.
    rewrite Ht. destruct (shape_value vs); simpl; [|done]. by rewrite <- app_assoc.
Qed.

(** Both storage choices hand IREE the dimensions the caller passed. *)
Lemma convert_shape_spec w shape vs :
  words w shape vs -> convert_shape shape (length vs) w = Done (shape_value vs) w.
Proof.
  intros Hm. unfold convert_shape. destruct (Nat.ltb_spec STACK_SHAPE (length vs)) as [|Hle].
  - rewrite heap_dims_spec; [|done]. by destruct (shape_value vs).
  - destruct (stack_dims_spec w shape vs (replicate STACK_SHAPE 0) []) as (r & Hr & Ht);
      [done|done|by rewrite length_replicate|].
    erewrite bind_Done; [|exact Hr]. unfold mret, M_ret. simpl in Ht. f_equal. rewrite Ht.
    by destruct (shape_value vs).
Qed.
End BufferViewSpecs.

Ltac run_hook3 := fail.

Ltac run_hook2 ::=
  lazymatch goal with
  | |- wp (buffer_view_hal_ptr _ ≫= _) _ _ => wp_hal_ptr buffer_view_hal_ptr_spec
  | _ => run_hook3
  end.

Section BufferViewEntries.
Context `{IREE}.

Lemma hrx_buffer_view_create_spec `{!IreeCreates} w b shape vs et enc out :
  wf w -> nullable w KBuffer b ->
  (shape <> 0 -> words (set_mem w (<[out := 0]> (w_mem w))) shape vs) ->
  wp (hrx_buffer_view_create b (length vs) shape et enc out)
     (fun r w' => create_post w w' r out KBufferView) w.
Proof.
  intros Hwf Hb Hm. unfold hrx_buffer_view_create. start_safe w. run; try close_failed.
  assert (words w0 shape vs) as Hw0.
  { destruct (is_null shape) eqn:E; bool_to_prop; [|subst w0; by apply Hm].
    rewrite andb_true_r in *. bool_to_prop. intros i v Hi.
    apply lookup_lt_Some in Hi. apply Nat.ltb_ge in Heqb0. lia. }
  apply wp_bind. unfold wp at 1. rewrite (convert_shape_spec _ _ _ Hw0).
  destruct (shape_value vs) as [dims|]; unfold buffer_view_create; run; subst; try close_failed.
  wp_into_handle; [by apply floats_nil|]. run. subst. left. split; [done|].
  eexists. split; [simpl; by rewrite lookup_insert_eq|]. split; [simpl in *; lia|].
  split; [obj_usable|close_safe].
Qed.

Lemma hrx_buffer_view_rank_spec w h out :
  wf w -> nullable w KBufferView h ->
  wp (hrx_buffer_view_rank h out) (fun r w' => entry_ok w w' r) w.
Proof. intros. unfold hrx_buffer_view_rank, HalBufferView_shape_rank. start_safe w. run; close_entry. Qed.

Lemma hrx_buffer_view_dim_spec w h dim out :
  wf w -> nullable w KBufferView h ->
  wp (hrx_buffer_view_dim h dim out) (fun r w' => entry_ok w w' r) w.
Proof. intros. unfold hrx_buffer_view_dim, HalBufferView_shape_rank, HalBufferView_shape_dim. start_safe w. run; close_entry. Qed.
End BufferViewEntries.
