(* ===== verification/ValueList.v ===== *)
(** * VM value lists: crates/hrx-libhrx/src/value_list.rs and the
      [iree_vm_value_t] accessors of crates/iree-sys/src/lib.rs *)

From S2P Require Import Prelude Iree Objects Machine Handle Status IreeHal Device Semaphore Buffer HostAllocator Executable BufferView.

(** [i64::to_ne_bytes] on the little-endian targets the crate builds for. *)
Definition to_ne_bytes (v : Z) : list Z :=
  (fun i : nat => Z.land (Z.shiftr (wrap_u64 v) (8 * Z.of_nat i)) 255) <$> seq 0 8.

(** [i64::from_ne_bytes]. *)
Definition from_ne_bytes (bytes : list Z) : Z :=
  wrap_i64 (foldr (fun b acc => Z.lor b (Z.shiftl acc 8)) 0 bytes).

(** [iree_vm_value_t]: the type tag and the storage bytes. *)
Record iree_vm_value_t := VmValue { v_type : Z; v_storage : list Z }.

Definition make_i64 (v : Z) : iree_vm_value_t := VmValue IREE_VM_VALUE_TYPE_I64 (to_ne_bytes v).
Definition as_i64 (v : iree_vm_value_t) : Z := from_ne_bytes (v_storage v).

Section ValueList.
Context `{IREE}.

(** Field drop of [HrxValueListS]. *)
#[export] Instance drop_value_list : DropGlue HrxValueListS := fun l =>
  HalVmList_drop (vl_vm_list l).

(** [value_list_vm]. *)
Definition value_list_vm (list_ : ptr) : M ptr :=
  l ← handle_ref (T:=HrxValueListS) list_; mret (vl_vm_list l).

(** [hrx_value_list_create]. *)
Definition hrx_value_list_create (capacity : Z) (list_ : ptr) : M ptr :=
  if is_null list_
  then hrx_make_status (code_i32 InvalidArgument) (Some "list is NULL"%string)
  else
    write_out list_ null ;;
    r ← hal_create (iree_vm_list_create capacity) "OK create with null vm_list"%string;
    match r with
    | inl s => hrx_status_from_iree s
    | inr vm_list =>
        h ← into_handle (ValueList vm_list);
        write_out list_ h ;;
        mret hrx_ok_status
    end.

Definition hrx_value_list_retain (l : ptr) : M unit := handle_retain (T:=HrxValueListS) l.
Definition hrx_value_list_release (l : ptr) : M unit := handle_release (T:=HrxValueListS) l.

(** [hrx_value_list_size]. *)
Definition hrx_value_list_size (list_ size : ptr) : M ptr :=
  if is_null list_ || is_null size
  then hrx_make_status (code_i32 InvalidArgument) (Some "list or size is NULL"%string)
  else
    l ← value_list_vm list_;
    n ← call (ffi_get (iree_vm_list_size l));
    write_out size n ;;
    mret hrx_ok_status.

(** [hrx_value_list_push_i64]. *)
Definition hrx_value_list_push_i64 (list_ : ptr) (value : Z) : M ptr :=
  if is_null list_
  then hrx_make_status (code_i32 InvalidArgument) (Some "list is NULL"%string)
  else
    let vm_value := make_i64 value in
    l ← value_list_vm list_;
    s ← call (ffi_status (iree_vm_list_push_value l (v_type vm_value) (v_storage vm_value)));
    hrx_status_from_iree s.

(** [hrx_value_list_push_null_ref]. *)
Definition hrx_value_list_push_null_ref (list_ : ptr) : M ptr :=
  if is_null list_
  then hrx_make_status (code_i32 InvalidArgument) (Some "list is NULL"%string)
  else
    l ← value_list_vm list_;
    s ← call (ffi_status (iree_vm_list_push_ref_move l null));
    hrx_status_from_iree s.

(** [hrx_value_list_push_buffer]: [iree_hal_buffer_retain_ref], then a move. *)
Definition hrx_value_list_push_buffer (list_ buffer : ptr) : M ptr :=
  if is_null list_ || is_null buffer
  then hrx_make_status (code_i32 InvalidArgument) (Some "list or buffer is NULL"%string)
  else
    b ← buffer_hal buffer;
    call (ffi_retain iree_hal_buffer b) ;;
    l ← value_list_vm list_;
    s ← call (ffi_status (iree_vm_list_push_ref_move l b));
    hrx_status_from_iree s.

(** [hrx_value_list_push_buffer_view]. *)
Definition hrx_value_list_push_buffer_view (list_ buffer_view : ptr) : M ptr :=
  if is_null list_ || is_null buffer_view
  then hrx_make_status (code_i32 InvalidArgument) (Some "list or buffer_view is NULL"%string)
  else
    v ← buffer_view_hal_ptr buffer_view;
    call (ffi_retain iree_hal_buffer_view v) ;;
    l ← value_list_vm list_;
    s ← call (ffi_status (iree_vm_list_push_ref_move l v));
    hrx_status_from_iree s.

(** [hrx_value_list_push_fence]. *)
Definition hrx_value_list_push_fence (list_ fence : ptr) : M ptr :=
  if is_null list_ || is_null fence
  then hrx_make_status (code_i32 InvalidArgument) (Some "list or fence is NULL"%string)
  else
    f ← fence_hal_ptr fence;
    call (ffi_retain iree_hal_fence f) ;;
    l ← value_list_vm list_;
    s ← call (ffi_status (iree_vm_list_push_ref_move l f));
    hrx_status_from_iree s.

(** [hrx_value_list_get_i64]. *)
Definition hrx_value_list_get_i64 (list_ : ptr) (index : Z) (value : ptr) : M ptr :=
  if is_null list_ || is_null value
  then hrx_make_status (code_i32 InvalidArgument) (Some "list or value is NULL"%string)
  else
    l ← value_list_vm list_;
    '(s, storage) ← call (iree_vm_list_get_value_as l index IREE_VM_VALUE_TYPE_I64);
    if negb (status_is_ok s) then hrx_status_from_iree s
    else
      write_out value (as_i64 (VmValue IREE_VM_VALUE_TYPE_I64 storage)) ;;
      mret hrx_ok_status.
End ValueList.

(** ** The byte encoding *)

Lemma byte_split x n :
  0 <= n -> Z.lor (Z.land (Z.shiftr x n) 255) (Z.shiftl (Z.shiftr x (n + 8)) 8) = Z.shiftr x n.
Proof.
  intros Hn. apply Z.bits_inj'. intros i Hi.
  rewrite Z.lor_spec, Z.land_spec, Z.shiftl_spec by lia. change 255 with (Z.ones 8).
  destruct (decide (i < 8)).
  - rewrite Z.ones_spec_low by lia. rewrite (Z.testbit_neg_r _ (i - 8)) by lia.
    by rewrite andb_true_r, orb_false_r.
  - rewrite Z.ones_spec_high by lia. rewrite andb_false_r. simpl.
    rewrite !Z.shiftr_spec by lia. f_equal. lia.
Qed.

Lemma shiftr_u64 v : Z.shiftr (wrap_u64 v) 64 = 0.
Proof.
  pose proof (wrap_u64_range v). rewrite Z.shiftr_div_pow2 by lia. apply Z.div_small.
  unfold U64_MAX in *. lia.
Qed.

Lemma ne_bytes_fold v :
  foldr (fun b acc => Z.lor b (Z.shiftl acc 8)) 0 (to_ne_bytes v) = wrap_u64 v.
Proof.
  pose proof (shiftr_u64 v) as H0. unfold to_ne_bytes. cbn [fmap list_fmap seq foldr Z.of_nat].
  rewrite <- H0.
  repeat match goal with |- context [Z.lor (Z.land (Z.shiftr ?x ?n) 255) (Z.shiftl (Z.shiftr ?x ?m) 8)] =>
    change m with (n + 8); rewrite (byte_split x n) by lia end.
  by rewrite Z.shiftr_0_r.
Qed.

Lemma ne_bytes_roundtrip v : I64_MIN <= v <= I64_MAX -> from_ne_bytes (to_ne_bytes v) = v.
Proof. intros Hv. unfold from_ne_bytes. rewrite ne_bytes_fold. by apply wrap_i64_u64. Qed.

Lemma to_ne_bytes_bytes v : Forall (fun b => 0 <= b <= 255) (to_ne_bytes v).
Proof.
  apply Forall_fmap, Forall_forall. intros i _. simpl. change 255 with (Z.ones 8).
  rewrite Z.land_ones by lia. pose proof (Z.mod_pos_bound (Z.shiftr (wrap_u64 v) (8 * Z.of_nat i)) (2 ^ 8)).
  change (Z.ones 8) with (2 ^ 8 - 1). lia.
Qed.

(** ** Specifications *)

Section ValueListSpecs.
Context `{IREE}.

#[export] Instance drop_value_list_ok : DropOk HrxValueListS.
Proof.
  intros l w Hwf _. unfold drop_glue, drop_value_list. start_safe w. wp_drop. split; [done|].
  match goal with H : safe w _ _ _ |- _ => apply safe_eff in H end. close_eff.
Qed.

Lemma value_list_vm_spec w h :
  usable w KValueList h ->
  wp (value_list_vm h) (fun p w' => w' = w /\
    exists n l, w_heap w !! h = Some (n, OValueList l) /\ p = vl_vm_list l) w.
Proof.
  intros Hu. unfold value_list_vm. wp_use (handle_ref_spec (T:=HrxValueListS) w h); [done|].
  intros l w' [-> (n & Hl)]. apply wp_ret. eauto.
Qed.
End ValueListSpecs.

Ltac run_hook4 := fail.

Ltac run_hook3 ::=
  lazymatch goal with
  | |- wp (value_list_vm _ ≫= _) _ _ => wp_hal_ptr value_list_vm_spec
  | _ => run_hook4
  end.

Section ValueListEntries.
Context `{IREE}.

Lemma hrx_value_list_create_spec `{!IreeCreates} w capacity out :
  wf w ->
  wp (hrx_value_list_create capacity out) (fun r w' => create_post w w' r out KValueList) w.
Proof.
  intros Hwf. unfold hrx_value_list_create. start_safe w. run; subst; try close_failed.
  wp_into_handle; [by apply floats_nil|]. run. subst. left. split; [done|].
  eexists. split; [simpl; by rewrite lookup_insert_eq|]. split; [simpl in *; lia|].
  split; [obj_usable|close_safe].
Qed.

Lemma hrx_value_list_size_spec w h out :
  wf w -> nullable w KValueList h ->
  wp (hrx_value_list_size h out) (fun r w' => entry_ok w w' r) w.
Proof. intros. unfold hrx_value_list_size. start_safe w. run; close_entry. Qed.

Lemma hrx_value_list_push_i64_spec w h v :
  wf w -> nullable w KValueList h ->
  wp (hrx_value_list_push_i64 h v) (fun r w' => entry_ok w w' r) w.
Proof. intros. unfold hrx_value_list_push_i64. start_safe w. run; close_entry. Qed.

Lemma hrx_value_list_push_null_ref_spec w h :
  wf w -> nullable w KValueList h ->
  wp (hrx_value_list_push_null_ref h) (fun r w' => entry_ok w w' r) w.
Proof.
  intros. unfold hrx_value_list_push_null_ref. start_safe w. run; [close_entry|].
  split; [|done]. destruct (is_null r) eqn:?; close_safe.
Qed.

Lemma hrx_value_list_get_i64_spec w h i out :
  wf w -> nullable w KValueList h ->
  wp (hrx_value_list_get_i64 h i out) (fun r w' => entry_ok w w' r) w.
Proof. intros. unfold hrx_value_list_get_i64. start_safe w. run; close_entry. Qed.

(** The foreign object behind a handle that a reference push hands over. *)
Definition hal_ref (w : world) (h : ptr) : ptr :=
  match w_heap w !! h with
  | Some (_, OBuffer b) => buf_hal_buffer b
  | Some (_, OBufferView v) => view_hal v
  | Some (_, OFence f) => fence_hal f
  | _ => null
  end.

(** A reference push: the list takes over the reference retained for it when
    the push succeeds; a refused push leaves that one reference behind. *)
Definition push_post (w w' : world) (r l h : ptr) : Prop :=
  status_value w' r /\
  ((is_null l || is_null h = true /\ (LibcAlloc -> r <> 0) /\ safe w w' none none)
   \/ (r = 0 /\ safe w w' none none)
   \/ (is_null l || is_null h = false /\ (LibcAlloc -> r <> 0) /\ safe w w' (cnt (hal_ref w h)) none)).

Lemma hal_ref_at w h n o : w_heap w !! h = Some (n, o) ->
  hal_ref w h = match o with
                | OBuffer b => buf_hal_buffer b | OBufferView v => view_hal v
                | OFence f => fence_hal f | _ => null
                end.
Proof. unfold hal_ref. by intros ->. Qed.

Ltac close_push :=
  split; [done|];
  lazymatch goal with
  | H : is_null ?l || is_null ?b = true |- _ => left; split; [done|]; split; [nonzero_status|close_safe]
  | H : ?r0 = iree_respond _ (ffi_status (iree_vm_list_push_ref_move _ _)) |- _ =>
      destruct (is_null r0) eqn:?;
      [ right; left; split; [bool_to_prop; auto|close_safe]
      | right; right; split; [by apply orb_false_iff|]; split; [nonzero_status|];
        erewrite hal_ref_at by eassumption; cbn [okind];
        match goal with Hp : ?p = ?x |- context [cnt ?x] => rewrite <- Hp end; close_safe ]
  end.

Lemma hrx_value_list_push_buffer_spec w h b :
  wf w -> nullable w KValueList h -> nullable w KBuffer b ->
  wp (hrx_value_list_push_buffer h b) (fun r w' => push_post w w' r h b) w.
Proof. intros. unfold hrx_value_list_push_buffer. start_safe w. run; close_push. Qed.

Lemma hrx_value_list_push_buffer_view_spec w h b :
  wf w -> nullable w KValueList h -> nullable w KBufferView b ->
  wp (hrx_value_list_push_buffer_view h b) (fun r w' => push_post w w' r h b) w.
Proof. intros. unfold hrx_value_list_push_buffer_view. start_safe w. run; close_push. Qed.

Lemma hrx_value_list_push_fence_spec w h b :
  wf w -> nullable w KValueList h -> nullable w KFence b ->
  wp (hrx_value_list_push_fence h b) (fun r w' => push_post w w' r h b) w.
Proof. intros. unfold hrx_value_list_push_fence. start_safe w. run; close_push. Qed.

End ValueListEntries.
