(* ===== verification/Modules.v ===== *)
(** * VM modules and functions: crates/hrx-libhrx/src/module.rs *)

From S2P Require Import Prelude Iree Objects Machine Handle Status IreeHal Device Semaphore Buffer HostAllocator Executable BufferView ValueList.

Section Modules.
Context `{IREE}.

(** [shared_vm_instance] (runtime.rs). *)
Definition shared_vm_instance : M (ptr * bool) :=
  g ← get_globals;
  mret (sh_vm_instance (g_shared g), sh_initialized (g_shared g)).

(** Field drops of [HrxModuleS]: context, HAL module, bytecode module, device. *)
#[export] Instance drop_module : DropGlue HrxModuleS := fun m =>
  HalVmContext_drop (mod_context m) ;;
  HalVmModule_drop (mod_hal_module m) ;;
  HalVmModule_drop (mod_bytecode_module m) ;;
  device_ref_drop (mod_device m).

Definition hrx_module_retain (module : ptr) : M unit := handle_retain (T:=HrxModuleS) module.
Definition hrx_module_release (module : ptr) : M unit := handle_release (T:=HrxModuleS) module.

(** [ModuleRef::retain] and its [Drop]. *)
Definition module_ref_retain (module : ptr) : M ptr := hrx_module_retain module ;; mret module.
Definition module_ref_drop (module : ptr) : M unit := hrx_module_release module.

(** Field drop of [HrxFunctionS]. *)
#[export] Instance drop_function : DropGlue HrxFunctionS := fun f => module_ref_drop (fn_module f).

Definition hrx_function_retain (f : ptr) : M unit := handle_retain (T:=HrxFunctionS) f.
Definition hrx_function_release (f : ptr) : M unit := handle_release (T:=HrxFunctionS) f.

(** [hrx_module_load_vmfb].  An early return evaluates its status and then
    drops the wrappers built so far, latest first. *)
Definition hrx_module_load_vmfb (device vmfb_data : ptr) (vmfb_size : Z) (module : ptr) : M ptr :=
  if is_null device || is_null vmfb_data || is_null module
  then hrx_make_status (code_i32 InvalidArgument)
         (Some "device, vmfb_data, or module is NULL"%string)
  else
    write_out module null ;;
    if vmfb_size =? 0
    then hrx_make_status (code_i32 InvalidArgument) (Some "vmfb_size must be > 0"%string)
    else
      '(vm_instance, initialized) ← shared_vm_instance;
      if negb initialized || is_null vm_instance
      then hrx_make_status (code_i32 Unavailable) (Some "runtime is not initialized"%string)
      else
        r ← hal_create (iree_vm_bytecode_module_create vm_instance vmfb_data vmfb_size)
              "created bytecode module is non-null"%string;
        match r with
        | inl s => hrx_status_from_iree s
        | inr bytecode_module =>
            dev ← device_deref device;
            let device_group := dev_hal_device_group dev in
            if is_null device_group then
              st ← hrx_make_status (code_i32 FailedPrecondition)
                     (Some "device is missing its HAL device group"%string);
              HalVmModule_drop bytecode_module ;;
              mret st
            else
              call (ffi_retain iree_hal_device_group device_group) ;;
              hm ← call (ffi_create (iree_hal_module_create vm_instance device_group));
              call (ffi_release iree_hal_device_group device_group) ;;
              if negb (status_is_ok (c_status hm)) then
                st ← hrx_status_from_iree (c_status hm);
                HalVmModule_drop bytecode_module ;;
                mret st
              else
                hal_module ← expect (nonnull_new (c_ptr hm)) "created HAL module is non-null"%string;
                cx ← call (ffi_create (iree_vm_context_create_with_modules vm_instance
                             [hal_module; bytecode_module]));
                if negb (status_is_ok (c_status cx)) then
                  st ← hrx_status_from_iree (c_status cx);
                  HalVmModule_drop hal_module ;;
                  HalVmModule_drop bytecode_module ;;
                  mret st
                else
                  context ← expect (nonnull_new (c_ptr cx)) "created context is non-null"%string;
                  d ← device_ref_retain device;
                  h ← into_handle (VmModule context hal_module bytecode_module d);
                  write_out module h ;;
                  mret hrx_ok_status
        end.

(** [hrx_module_lookup_function]. *)
Definition hrx_module_lookup_function (module name function : ptr) : M ptr :=
  if is_null module || is_null name || is_null function
  then hrx_make_status (code_i32 InvalidArgument)
         (Some "module, name, or function is NULL"%string)
  else
    write_out function null ;;
    m ← handle_ref (T:=HrxModuleS) module;
    '(s, vm_function) ← call (ffi_read (iree_vm_context_resolve_function (mod_context m) name));
    if negb (status_is_ok s) then hrx_status_from_iree s
    else
      module_ref ← module_ref_retain module;
      h ← into_handle (VmFunction module_ref vm_function);
      write_out function h ;;
      mret hrx_ok_status.

(** [if list.is_null() { null } else { value_list_vm(list) }]. *)
Definition optional_list (list_ : ptr) : M ptr :=
  if is_null list_ then mret null else value_list_vm list_.

(** [hrx_function_invoke]. *)
Definition hrx_function_invoke (module function args rets : ptr) : M ptr :=
  if is_null module || is_null function
  then hrx_make_status (code_i32 InvalidArgument) (Some "module or function is NULL"%string)
  else
    func ← handle_ref (T:=HrxFunctionS) function;
    if negb (fn_module func =? module)
    then hrx_make_status (code_i32 InvalidArgument)
           (Some "function does not belong to module"%string)
    else
      inputs ← optional_list args;
      outputs ← optional_list rets;
      m ← handle_ref (T:=HrxModuleS) module;
      s ← call (ffi_status (iree_vm_invoke (mod_context m) (fn_vm_function func) inputs outputs));
      hrx_status_from_iree s.
End Modules.

(** ** Specifications *)

Section ModuleSpecs.
Context `{IREE}.

#[export] Instance drop_module_ok : DropOk HrxModuleS.
Proof.
  intros m w Hwf [Hu Hf]. simpl in *. unfold drop_glue, drop_module.
  assert (usable w KDevice (mod_device m)) as Hd by (apply Hu; left).
  specialize (Hf (mod_device m)). unfold link_cnt in Hf. simpl in Hf. rewrite one_eq in Hf.
  start_safe w. do 3 wp_drop. wp_use hrx_device_release_spec; [done|usable_tac|ext_tac|].
  intros _ w4 [Hwf4 HE]. split; [done|].
  match goal with H : safe w _ _ _ |- _ => apply safe_eff in H end. merge_eff. close_eff.
Qed.

Lemma hrx_module_release_spec w h :
  wf w -> usable w KModule h -> 1 <= ext w h ->
  wp (hrx_module_release h) (fun _ w' => wf w' /\ eff w w' none (fun q => - one h q)) w.
Proof. exact (handle_release_spec (T:=HrxModuleS) w h). Qed.

#[export] Instance drop_function_ok : DropOk HrxFunctionS.
Proof.
  intros f w Hwf [Hu Hf]. simpl in *. unfold drop_glue, drop_function.
  assert (usable w KModule (fn_module f)) as Hd by (apply Hu; left).
  specialize (Hf (fn_module f)). unfold link_cnt in Hf. simpl in Hf. rewrite one_eq in Hf.
  wp_use hrx_module_release_spec; [done|done|lia|].
  intros _ w4 [Hwf4 HE]. split; [done|]. close_eff.
Qed.

Lemma module_ref_retain_spec w h :
  wf w -> usable w KModule h ->
  wp (module_ref_retain h) (fun r w' => r = h /\ safe w w' none (one h)) w.
Proof.
  intros. unfold module_ref_retain.
  wp_use (handle_retain_spec (T:=HrxModuleS) w h); [done|done|]. intros. by apply wp_ret.
Qed.

Lemma optional_list_spec w l :
  nullable w KValueList l -> wp (optional_list l) (fun _ w' => w' = w) w.
Proof.
  intros Hl. unfold optional_list. destruct (is_null l) eqn:E; [by apply wp_ret|].
  bool_to_prop. destruct Hl as [|Hl]; [done|]. wp_use value_list_vm_spec; [done|].
  by intros ? ? [-> _].
Qed.
End ModuleSpecs.

Ltac run_hook5 := fail.

Ltac run_hook4 ::=
  lazymatch goal with
  | |- wp (shared_vm_instance ≫= _) _ _ => apply wp_bind; unfold wp at 1; simpl
  | |- wp (expect (nonnull_new _) _ ≫= _) _ _ =>
      apply wp_bind, expect_nonnull_spec; [created_nonnull|]
  | |- wp (hrx_status_from_iree _ ≫= _) _ _ => wp_iree_error
  | |- wp (hrx_make_status _ _ ≫= _) _ _ => wp_error
  | |- wp (handle_ref (T:=?T) _ ≫= _) _ _ => wp_use_ref (handle_ref_spec (T:=T))
  | |- wp (optional_list _ ≫= _) _ _ => wp_use optional_list_spec; [assumption|]; intros ?l ? ->
  | _ => run_hook5
  end.

Section ModuleEntries.
Context `{IREE}.

Lemma hrx_module_load_vmfb_spec `{!IreeCreates} w device data size out :
  wf w -> nullable w KDevice device ->
  wp (hrx_module_load_vmfb device data size out) (fun r w' => create_post w w' r out KModule) w.
Proof.
  intros Hwf Hd. unfold hrx_module_load_vmfb. start_safe w.
  run; first [close_failed | wp_device_object].
Qed.

Lemma hrx_module_lookup_function_spec w module name out :
  wf w -> nullable w KModule module ->
  wp (hrx_module_lookup_function module name out)
     (fun r w' => create_post w w' r out KFunction) w.
Proof.
  intros Hwf Hm. unfold hrx_module_lookup_function. start_safe w. run; try close_failed.
  wp_use module_ref_retain_spec; [done|usable_tac|]. intros d w3 [-> ?]. merge_safe.
  wp_into_handle; [eapply floats_one; [done|usable_tac|intros ?q; ext_tac]|]. run. subst.
  left. split; [done|]. eexists.
  split; [simpl; by rewrite lookup_insert_eq|]. split; [simpl in *; lia|].
  split; [obj_usable|close_safe].
Qed.

Lemma hrx_function_invoke_spec w module function args rets :
  wf w -> nullable w KModule module -> nullable w KFunction function ->
  nullable w KValueList args -> nullable w KValueList rets ->
  wp (hrx_function_invoke module function args rets) (fun r w' => entry_ok w w' r) w.
Proof. intros. unfold hrx_function_invoke. start_safe w. run; close_entry. Qed.
End ModuleEntries.
