(* ===== verification/QueueOps.v ===== *)
(** * Direct queue operations: crates/hrx-libhrx/src/queue_ops.rs

    The structures a client passes by pointer ([hrx_semaphore_list_t],
    [hrx_buffer_ref_t], [hrx_dispatch_config_t]) are read out of client memory
    field by field, at their C offsets. *)

From S2P Require Import Prelude Iree Objects Machine Handle Status IreeHal Device Semaphore Buffer HostAllocator Executable BufferView ValueList Modules.

Definition HRX_MAX_QUEUE_SEMAPHORES : nat := 16.
Arguments HRX_MAX_QUEUE_SEMAPHORES : simpl never.

(** [normalize_affinity]. *)
Definition normalize_affinity (affinity : Z) : Z :=
  if affinity =? 0 then IREE_HAL_QUEUE_AFFINITY_ANY else affinity.

Section QueueOps.
Context `{IREE}.

(** The copy loop of [to_iree_sem_list].  The destination arrays live on the
    caller's stack and have [HRX_MAX_QUEUE_SEMAPHORES] entries; a write behind
    them is undefined behaviour. *)
Fixpoint sem_list_loop (semaphores values : ptr) (i n : nat) : M (list (ptr * Z)) :=
  match n with
  | O => mret []
  | S n =>
      sem ← read_in (semaphores + 8 * Z.of_nat i);
      hal ← semaphore_hal_ptr sem;
      if (HRX_MAX_QUEUE_SEMAPHORES <=? i)%nat then undefined
      else
        v ← read_in (values + 8 * Z.of_nat i);
        rest ← sem_list_loop semaphores values (S i) n;
        mret ((hal, v) :: rest)
  end.

(** [to_iree_sem_list]: fields of [HrxSemaphoreList] at 0, 8 and 16. *)
Definition to_iree_sem_list (list_ : ptr) : M (list (ptr * Z)) :=
  if is_null list_ then mret []
  else
    n ← read_in (list_ + 16);
    if n =? 0 then mret []
    else
      semaphores ← read_in list_;
      values ← read_in (list_ + 8);
      sem_list_loop semaphores values 0 (Z.to_nat n).

(** Early return after a failed command-buffer call. *)
Definition cb_fail (cb s : Z) : M ptr :=
  call (ffi_release iree_hal_command_buffer cb) ;;
  hrx_status_from_iree s.

Definition IREE_HAL_COMMAND_BUFFER_MODE_ONE_SHOT : Z := 1.

(** [hrx_queue_fill]. *)
Definition hrx_queue_fill (device : ptr) (affinity : Z) (wait_semaphores signal_semaphores : ptr)
  (buffer : ptr) (offset size : Z) (pattern : ptr) (pattern_size : Z) : M ptr :=
  if is_null device || is_null buffer || is_null pattern
  then hrx_make_status (code_i32 InvalidArgument)
         (Some "device, buffer, or pattern is NULL"%string)
  else
    let qa := normalize_affinity affinity in
    dev ← device_deref device;
    r ← call (ffi_create (iree_hal_command_buffer_create (dev_hal_device dev)
                IREE_HAL_COMMAND_BUFFER_MODE_ONE_SHOT IREE_HAL_COMMAND_CATEGORY_TRANSFER qa 0));
    if negb (status_is_ok (c_status r)) then hrx_status_from_iree (c_status r)
    else
      let cb := c_ptr r in
      s ← call (ffi_status (iree_hal_command_buffer_begin cb));
      if negb (status_is_ok s) then cb_fail cb s
      else
        target ← buffer_hal buffer;
        s ← call (ffi_status (iree_hal_command_buffer_fill_buffer cb
                                (BufferRef target offset size) pattern pattern_size));
        if negb (status_is_ok s) then cb_fail cb s
        else
          s ← call (ffi_status (iree_hal_command_buffer_end cb));
          if negb (status_is_ok s) then cb_fail cb s
          else
            wl ← to_iree_sem_list wait_semaphores;
            sl ← to_iree_sem_list signal_semaphores;
            s ← call (ffi_status (iree_hal_device_queue_execute (dev_hal_device dev) qa wl sl cb));
            cb_fail cb s.

(** [hrx_queue_copy]. *)
Definition hrx_queue_copy (device : ptr) (affinity : Z) (wait_semaphores signal_semaphores : ptr)
  (src : ptr) (src_offset : Z) (dst : ptr) (dst_offset size : Z) : M ptr :=
  if is_null device || is_null src || is_null dst
  then hrx_make_status (code_i32 InvalidArgument) (Some "device, src, or dst is NULL"%string)
  else
    let qa := normalize_affinity affinity in
    dev ← device_deref device;
    r ← call (ffi_create (iree_hal_command_buffer_create (dev_hal_device dev)
                IREE_HAL_COMMAND_BUFFER_MODE_ONE_SHOT IREE_HAL_COMMAND_CATEGORY_TRANSFER qa 0));
    if negb (status_is_ok (c_status r)) then hrx_status_from_iree (c_status r)
    else
      let cb := c_ptr r in
      s ← call (ffi_status (iree_hal_command_buffer_begin cb));
      if negb (status_is_ok s) then cb_fail cb s
      else
        b_src ← buffer_hal src;
        b_dst ← buffer_hal dst;
        s ← call (ffi_status (iree_hal_command_buffer_copy_buffer cb
                                (BufferRef b_src src_offset size)
                                (BufferRef b_dst dst_offset size)));
        if negb (status_is_ok s) then cb_fail cb s
        else
          s ← call (ffi_status (iree_hal_command_buffer_end cb));
          if negb (status_is_ok s) then cb_fail cb s
          else
            wl ← to_iree_sem_list wait_semaphores;
            sl ← to_iree_sem_list signal_semaphores;
            s ← call (ffi_status (iree_hal_device_queue_execute (dev_hal_device dev) qa wl sl cb));
            cb_fail cb s.

(** [hrx_queue_barrier]. *)
Definition hrx_queue_barrier (device : ptr) (affinity : Z)
  (wait_semaphores signal_semaphores : ptr) : M ptr :=
  if is_null device
  then hrx_make_status (code_i32 InvalidArgument) (Some "device is NULL"%string)
  else
    wl ← to_iree_sem_list wait_semaphores;
    sl ← to_iree_sem_list signal_semaphores;
    dev ← device_deref device;
    s ← call (ffi_status (iree_hal_device_queue_barrier (dev_hal_device dev)
                            (normalize_affinity affinity) wl sl));
    hrx_status_from_iree s.

(** [host_call_trampoline], called by the device when the host call runs. *)
Definition host_call_trampoline (user_data : ptr) : M Z :=
  b ← c_load user_data;
  match b with
  | CThunk callback data =>
      callback ← expect (nonnull_new callback) "called `Option::unwrap()` on a `None` value"%string;
      answer ← call (host_callback callback data);
      status ← match answer with
               | None => mret hrx_ok_status
               | Some (code, message) => hrx_make_status code message
               end;
      libc_free user_data ;;
      hrx_status_to_iree status
  | _ => undefined
  end.

(** [hrx_queue_host_call]. *)
Definition hrx_queue_host_call (device : ptr) (affinity : Z)
  (wait_semaphores signal_semaphores callback user_data : ptr) : M ptr :=
  if is_null device || is_null callback
  then hrx_make_status (code_i32 InvalidArgument) (Some "device or callback is NULL"%string)
  else
    ok ← call (libc_malloc_succeeds 16);
    if negb ok
    then hrx_make_status (code_i32 OutOfMemory) (Some "failed to allocate host call thunk"%string)
    else
      thunk ← c_alloc (CThunk callback user_data);
      wl ← to_iree_sem_list wait_semaphores;
      sl ← to_iree_sem_list signal_semaphores;
      dev ← device_deref device;
      s ← call (ffi_status (iree_hal_device_queue_host_call (dev_hal_device dev)
                              (normalize_affinity affinity) wl sl thunk));
      (if negb (status_is_ok s) then libc_free thunk else mret tt) ;;
      hrx_status_from_iree s.

(** The loop of [build_hal_bindings]; [HrxBufferRef] is 24 bytes. *)
Fixpoint bindings_loop (bindings : ptr) (i n : nat) : M (option (list iree_hal_buffer_ref_t)) :=
  match n with
  | O => mret (Some [])
  | S n =>
      let p := bindings + 24 * Z.of_nat i in
      buffer ← read_in p;
      if is_null buffer then mret None
      else
        hal ← buffer_hal buffer;
        offset ← read_in (p + 8);
        length ← read_in (p + 16);
        rest ← bindings_loop bindings (S i) n;
        mret (cons (BufferRef hal offset length) <$> rest)
  end.

(** [build_hal_bindings]. *)
Definition build_hal_bindings (bindings : ptr) (binding_count : nat)
  : M (option (list iree_hal_buffer_ref_t)) :=
  if (binding_count =? 0)%nat then mret (Some []) else bindings_loop bindings 0 binding_count.

(** Three consecutive [u32] of [HrxDispatchConfig]. *)
Definition read_u32x3 (p : ptr) : M (list Z) :=
  x ← read_in p; y ← read_in (p + 4); z ← read_in (p + 8); mret [x; y; z].

(** [hrx_queue_dispatch]. *)
Definition hrx_queue_dispatch (device : ptr) (affinity : Z)
  (wait_semaphores signal_semaphores executable : ptr) (export_ordinal : Z) (config constants : ptr)
  (constants_size : Z) (bindings : ptr) (binding_count : nat) (flags : Z) : M ptr :=
  if is_null device || is_null executable || is_null config
     || ((0 <? binding_count)%nat && is_null bindings)
     || ((0 <? constants_size) && is_null constants)
  then hrx_make_status (code_i32 InvalidArgument)
         (Some "device, executable, config, constants, or bindings are invalid"%string)
  else
    bl ← build_hal_bindings bindings binding_count;
    match bl with
    | None => hrx_make_status (code_i32 InvalidArgument) (Some "binding buffer is NULL"%string)
    | Some hal_binding_list =>
        wl ← to_iree_sem_list wait_semaphores;
        sl ← to_iree_sem_list signal_semaphores;
        size ← read_u32x3 (config + 12);
        count ← read_u32x3 config;
        dev ← device_deref device;
        exe ← executable_hal executable;
        s ← call (ffi_status (iree_hal_device_queue_dispatch (dev_hal_device dev)
                    (normalize_affinity affinity) wl sl exe export_ordinal size count
                    constants constants_size hal_binding_list flags));
        hrx_status_from_iree s
    end.
End QueueOps.

(** ** What the client passes *)

Section QueueArguments.
(** A readable semaphore list whose handles are usable: [ps] gives the
    semaphores and payload values it holds. *)
Definition sem_list_at (w : world) (list_ : ptr) (ps : list (ptr * Z)) : Prop :=
  w_mem w !! (list_ + 16) = Some (Z.of_nat (length ps)) /\
  exists sems vals, w_mem w !! list_ = Some sems /\ w_mem w !! (list_ + 8) = Some vals /\
    forall i s v, ps !! i = Some (s, v) ->
      w_mem w !! (sems + 8 * Z.of_nat i) = Some s /\
      w_mem w !! (vals + 8 * Z.of_nat i) = Some v /\ usable w KSemaphore s.

(** The room of the stack arrays: at most [HRX_MAX_QUEUE_SEMAPHORES] entries. *)
Definition sem_list_ok (w : world) (list_ : ptr) : Prop :=
  list_ = 0 \/ exists ps, sem_list_at w list_ ps /\ (length ps <= HRX_MAX_QUEUE_SEMAPHORES)%nat.

(** The IREE semaphore of each entry, in order. *)
Definition hal_entries (w : world) (ps : list (ptr * Z)) : list (ptr * Z) :=
  (fun p => (match w_heap w !! p.1 with Some (_, OSemaphore s) => sem_hal s | _ => 0 end, p.2))
    <$> ps.

Definition bindings_ok (w : world) (bindings : ptr) (n : nat) : Prop :=
  forall i, (i < n)%nat ->
    let p := bindings + 24 * Z.of_nat i in
    exists b off len, w_mem w !! p = Some b /\ w_mem w !! (p + 8) = Some off /\
      w_mem w !! (p + 16) = Some len /\ nullable w KBuffer b.

Definition config_ok (w : world) (config : ptr) : Prop :=
  config = 0 \/
  forall k, (k < 6)%nat -> is_Some (w_mem w !! (config + 4 * Z.of_nat k)).

Lemma sem_list_ok_same w w' l :
  w_heap w' = w_heap w -> w_mem w' = w_mem w -> sem_list_ok w l -> sem_list_ok w' l.
Proof.
  intros Hh Hm. unfold sem_list_ok, sem_list_at, usable. by rewrite Hh, Hm.
Qed.
End QueueArguments.

Section QueueArgumentSpecs.
Context `{IREE}.

Lemma sem_list_loop_spec w sems vals ps : forall i,
  (forall j s v, ps !! j = Some (s, v) ->
     w_mem w !! (sems + 8 * Z.of_nat (i + j)) = Some s /\
     w_mem w !! (vals + 8 * Z.of_nat (i + j)) = Some v /\ usable w KSemaphore s) ->
  (i + length ps <= HRX_MAX_QUEUE_SEMAPHORES)%nat ->
  sem_list_loop sems vals i (length ps) w = Done (hal_entries w ps) w.
Proof.
  induction ps as [|[s v] ps IH]; intros i Hm Hlen; cbn [sem_list_loop length] in *; [done|].
  destruct (Hm 0%nat s v) as (Hs & Hv & Hu); [done|]. rewrite Nat.add_0_r in *.
  erewrite bind_Done; [cbv beta|by apply read_in_word].
  pose proof (semaphore_hal_ptr_spec w s Hu) as (p & w' & Hp & -> & n & o & Ho & ->)%wp_Done.
  erewrite bind_Done; [cbv beta|exact Hp].
  destruct (Nat.leb_spec HRX_MAX_QUEUE_SEMAPHORES i); [lia|].
  erewrite bind_Done; [cbv beta|by apply read_in_word].
  erewrite bind_Done; [|apply IH; [|lia]].
  - simpl. by rewrite Ho.
  - intros j s' v' Hj. replace (S i + j)%nat with (i + S j)%nat by lia. by apply (Hm (S j)).
Qed.

Lemma to_iree_sem_list_entries w l ps :
  l <> 0 -> sem_list_at w l ps -> (length ps <= HRX_MAX_QUEUE_SEMAPHORES)%nat ->
  to_iree_sem_list l w = Done (hal_entries w ps) w.
Proof.
  intros Hl (Hn & sems & vals & Hs & Hv & Hm) Hlen. unfold to_iree_sem_list.
  rewrite (proj2 (is_null_false l)) by done.
  erewrite bind_Done; [cbv beta|by apply read_in_word].
  destruct (Z.eqb_spec (Z.of_nat (length ps)) 0) as [He|He].
  { by destruct ps. }
  erewrite bind_Done; [cbv beta|by apply read_in_word]. erewrite bind_Done; [cbv beta|by apply read_in_word].
  rewrite Nat2Z.id. by apply sem_list_loop_spec.
Qed.

Lemma to_iree_sem_list_spec w l :
  sem_list_ok w l -> wp (to_iree_sem_list l) (fun _ w' => w' = w) w.
Proof.
  intros Hl. destruct (decide (l = 0)) as [->|Hne].
  - done.
  - destruct Hl as [|(ps & Hat & Hlen)]; [done|]. unfold wp.
    by rewrite (to_iree_sem_list_entries _ _ _ Hne Hat Hlen).
Qed.

Lemma build_hal_bindings_spec w bindings n :
  bindings_ok w bindings n -> wp (build_hal_bindings bindings n) (fun _ w' => w' = w) w.
Proof.
  intros Hb. unfold build_hal_bindings. destruct (Nat.eqb_spec n 0); [done|].
  assert (forall k i, (i + k <= n)%nat ->
            wp (bindings_loop bindings i k) (fun _ w' => w' = w) w) as Hloop.
  { induction k as [|k IH]; intros i Hi; simpl; [done|].
    destruct (Hb i) as (b & off & len & Hp & Hoff & Hlen & Hnull); [lia|].
    apply wp_bind. unfold wp at 1. rewrite (read_in_word _ _ _ Hp).
    destruct (is_null b) eqn:E; [done|]. bool_to_prop. destruct Hnull as [|Hu]; [done|].
    wp_use buffer_hal_spec; [done|]. intros p w' [-> _].
    apply wp_bind. unfold wp at 1. rewrite (read_in_word _ _ _ Hoff).
    apply wp_bind. unfold wp at 1. rewrite (read_in_word _ _ _ Hlen).
    wp_use IH; [lia|]. intros rest ? ->. done. }
  apply Hloop. lia.
Qed.

Lemma read_u32x3_spec w p :
  is_Some (w_mem w !! p) -> is_Some (w_mem w !! (p + 4)) -> is_Some (w_mem w !! (p + 8)) ->
  wp (read_u32x3 p) (fun _ w' => w' = w) w.
Proof.
  intros [x Hx] [y Hy] [z Hz]. unfold read_u32x3, wp.
  do 3 (erewrite bind_Done; [cbv beta|by apply read_in_word]). done.
Qed.

Lemma cb_fail_spec w cb s :
  wf w -> wp (cb_fail cb s) (fun r w' =>
    safe w w' (fun p => - cnt cb p - cnt s p) none /\ status_value w' r) w.
Proof.
  intros Hwf. unfold cb_fail. start_safe w. run. split; [close_safe|done].
Qed.
End QueueArgumentSpecs.

(** A frame leaves the client's semaphore lists in place. *)
Ltac sem_list_tac :=
  first [ eassumption
        | repeat match goal with
          | H : frame ?a ?b |- sem_list_ok ?b _ =>
              apply (sem_list_ok_same a b); [exact (proj1 H)|exact (proj1 (proj2 H))|]
          end; eassumption ].

Ltac run_hook6 := fail.

Ltac run_hook5 ::=
  lazymatch goal with
  | |- wp (to_iree_sem_list _ ≫= _) _ _ => wp_use to_iree_sem_list_spec; [sem_list_tac|]; intros ?l ? ->
  | |- wp (cb_fail _ _) _ _ =>
      wp_use cb_fail_spec; [assumption|]; let w' := fresh "w" in intros ?r w' (? & ?Hst); merge_safe
  | _ => run_hook6
  end.

Section QueueEntries.
Context `{IREE}.

Lemma hrx_queue_fill_spec w d aff wl sl b off size pat n :
  wf w -> nullable w KDevice d -> nullable w KBuffer b -> sem_list_ok w wl -> sem_list_ok w sl ->
  wp (hrx_queue_fill d aff wl sl b off size pat n) (fun r w' => entry_ok w w' r) w.
Proof. intros. unfold hrx_queue_fill. start_safe w. run; close_entry. Qed.

Lemma hrx_queue_copy_spec w d aff wl sl src soff dst doff size :
  wf w -> nullable w KDevice d -> nullable w KBuffer src -> nullable w KBuffer dst ->
  sem_list_ok w wl -> sem_list_ok w sl ->
  wp (hrx_queue_copy d aff wl sl src soff dst doff size) (fun r w' => entry_ok w w' r) w.
Proof. intros. unfold hrx_queue_copy. start_safe w. run; close_entry. Qed.

Lemma hrx_queue_barrier_spec w d aff wl sl :
  wf w -> nullable w KDevice d -> sem_list_ok w wl -> sem_list_ok w sl ->
  wp (hrx_queue_barrier d aff wl sl) (fun r w' => entry_ok w w' r) w.
Proof. intros. unfold hrx_queue_barrier. start_safe w. run; close_entry. Qed.

Lemma hrx_queue_dispatch_spec w d aff wl sl exe ord config cst csize bs n flags :
  wf w -> nullable w KDevice d -> nullable w KExecutable exe -> sem_list_ok w wl ->
  sem_list_ok w sl -> config_ok w config -> bindings_ok w bs n ->
  wp (hrx_queue_dispatch d aff wl sl exe ord config cst csize bs n flags)
     (fun r w' => entry_ok w w' r) w.
Proof.
  intros Hwf Hd Hexe Hwl Hsl Hcfg Hb. unfold hrx_queue_dispatch. start_safe w. run; [close_entry|].
  destruct Hcfg as [->|Hcfg]; [done|].
  wp_use build_hal_bindings_spec; [done|]. intros bl ? ->. destruct bl as [bl|]; run; [|close_entry].
  assert (forall k : nat, (k < 6)%nat -> forall z, z = config + 4 * Z.of_nat k ->
            is_Some (w_mem w !! z)) as Hc by (intros k Hk z ->; by apply Hcfg).
  wp_use read_u32x3_spec; [apply (Hc 3%nat); lia|apply (Hc 4%nat); lia|apply (Hc 5%nat); lia|].
  intros ? ? ->.
  wp_use read_u32x3_spec; [apply (Hc 0%nat); lia|apply (Hc 1%nat); lia|apply (Hc 2%nat); lia|].
  intros ? ? ->. run. close_entry.
Qed.

(** The thunk is live exactly while the queue may still call it. *)
Lemma hrx_queue_host_call_spec w d aff wl sl cb ud :
  wf w -> nullable w KDevice d -> sem_list_ok w wl -> sem_list_ok w sl ->
  wp (hrx_queue_host_call d aff wl sl cb ud) (fun r w' => entry_ok w w' r) w.
Proof.
  intros Hwf Hd Hwl Hsl. unfold hrx_queue_host_call. start_safe w. run; try close_entry.
  wp_use c_alloc_spec; [done|]. intros thunk w1 (HS1 & -> & Hw1). merge_safe.
  assert (frame w0 w1) as Hfr1 by (subst w1; by repeat split).
  assert (w_cheap w1 !! w_next w0 = Some (CThunk cb ud)) as Hth.
  { subst w1. simpl. by rewrite lookup_insert_eq. }
  clear Hw1. run.
  - wp_use libc_free_frame; [done|by rewrite Hch0|]. intros _ w3 (HS3 & _). merge_safe.
    run. close_entry.
  - close_entry.
Qed.

(** Running the host call: the thunk is freed, and the status handed to IREE is
    the only reference left over. *)
Lemma host_call_trampoline_spec w thunk cb ud :
  wf w -> w_cheap w !! thunk = Some (CThunk cb ud) -> thunk <> 0 -> cb <> 0 ->
  wp (host_call_trampoline thunk)
     (fun s w' => safe w w' (cnt s) none /\ w_heap w' = w_heap w) w.
Proof.
  intros Hwf Hth Hnz Hcb. unfold host_call_trampoline. apply wp_bind.
  unfold wp at 1, c_load. rewrite Hth. apply wp_bind, expect_nonnull_spec; [done|].
  start_safe w. wp_ffi answer.
  assert (wp (match answer with
              | Some (code, message) => hrx_make_status code message
              | None => mret hrx_ok_status end)
            (fun r w' => safe w0 w' none none /\ frame w0 w' /\ status_value w' r /\
               w_cheap w' !! thunk = Some (CThunk cb ud)) w0) as Hans.
  { destruct answer as [[code message]|].
    - wp_use hrx_make_status_spec; [done|]. intros r w1 ((? & ? & [_ Hgrow]) & _ & Hr).
      split; [done|]. split; [done|]. split.
      + destruct Hr as [->|(_ & _ & Hv)]; [by left|right; eauto].
      + rewrite Hgrow; [by rewrite Hch|].
        destruct (decide (w_next w0 <= thunk)) as [Hge|]; [|lia].
        by rewrite <- Hch, (wf_cheap_fresh _ Hwf0 _ Hge) in Hth.
    - apply wp_ret. split; [by apply safe_refl|]. split; [apply frame_refl|].
      split; [by left|]. by rewrite Hch. }
  apply wp_bind. eapply wp_mono; [exact Hans|]. intros st w1 (HS1 & Hfr1 & Hst & Hth1). merge_safe.
  wp_use libc_free_frame; [done|exact Hth1|]. intros _ w2 (HS2 & Hfr2 & Hother & _). merge_safe.
  assert (status_value w2 st) as Hst2.
  { destruct Hst as [->|(code & Hne & m & Hm & Hlive)]; [by left|right].
    exists code. split; [done|]. exists m. rewrite Hother by congruence. split; [done|].
    destruct Hlive as [|(? & str & Hstr)]; [by left|right]. split; [done|].
    exists str. rewrite Hother; [done|congruence]. }
  wp_use hrx_status_to_iree_spec; [done|done|]. intros s w3 (HS3 & Hfr3 & _). merge_safe.
  split; [close_safe|same_heap].
Qed.

(** A list longer than the stack arrays is written past their end. *)
Lemma sem_list_loop_overflow w sems vals ps : forall i,
  (forall j s v, ps !! j = Some (s, v) ->
     w_mem w !! (sems + 8 * Z.of_nat (i + j)) = Some s /\
     w_mem w !! (vals + 8 * Z.of_nat (i + j)) = Some v /\ usable w KSemaphore s) ->
  (i <= HRX_MAX_QUEUE_SEMAPHORES < i + length ps)%nat ->
  sem_list_loop sems vals i (length ps) w = Undefined.
Proof.
  induction ps as [|[s v] ps IH]; intros i Hm Hlen; cbn [sem_list_loop length] in *; [lia|].
  destruct (Hm 0%nat s v) as (Hs & Hv & Hu); [done|]. rewrite Nat.add_0_r in *.
  erewrite bind_Done; [cbv beta|by apply read_in_word].
  pose proof (semaphore_hal_ptr_spec w s Hu) as (p & w' & Hp & -> & n & o & Ho & ->)%wp_Done.
  erewrite bind_Done; [cbv beta|exact Hp].
  destruct (Nat.leb_spec HRX_MAX_QUEUE_SEMAPHORES i); [done|].
  erewrite bind_Done; [cbv beta|by apply read_in_word].
  unfold mbind at 1, M_bind. rewrite IH; [done| |lia].
  intros j s' v' Hj. replace (S i + j)%nat with (i + S j)%nat by lia. by apply (Hm (S j)).
Qed.
End QueueEntries.
