(* ===== verification/Stream.v ===== *)
(** * Streams: crates/hrx-libhrx/src/stream.rs

    A stream owns a timeline semaphore and at most one pending command buffer.
    Recording operations open the command buffer lazily; a flush submits it,
    waiting on the current timeline value and signalling the next one. *)

From S2P Require Import Prelude Iree Objects Machine Handle Status IreeHal Device Semaphore Buffer HostAllocator Executable BufferView ValueList Modules QueueOps.

Definition set_pending (st : HrxStreamS) (cb : ptr) : HrxStreamS :=
  Stream (st_timepoint st) cb (st_has_pending_work st) (st_flags st) (st_semaphore st) (st_device st).
Definition set_work (st : HrxStreamS) (b : bool) : HrxStreamS :=
  Stream (st_timepoint st) (st_pending_cb st) b (st_flags st) (st_semaphore st) (st_device st).
Definition set_timepoint (st : HrxStreamS) (v : Z) : HrxStreamS :=
  Stream v (st_pending_cb st) (st_has_pending_work st) (st_flags st) (st_semaphore st) (st_device st).

Definition IREE_HAL_EXECUTION_STAGE_COMMAND_ISSUE : Z := 1.
Definition IREE_HAL_EXECUTION_STAGE_COMMAND_RETIRE : Z := 16.

Section Stream.
Context `{IREE}.

(** [HrxStreamS::begin_cb]: the status and the stream after the call. *)
Definition begin_cb (st : HrxStreamS) : M (ptr * HrxStreamS) :=
  if negb (is_null (st_pending_cb st)) then mret (hrx_ok_status, st)
  else
    dev ← device_deref (st_device st);
    r ← call (ffi_create (iree_hal_command_buffer_create (dev_hal_device dev)
                IREE_HAL_COMMAND_BUFFER_MODE_ONE_SHOT
                (Z.lor IREE_HAL_COMMAND_CATEGORY_TRANSFER IREE_HAL_COMMAND_CATEGORY_DISPATCH)
                IREE_HAL_QUEUE_AFFINITY_ANY 0));
    if negb (status_is_ok (c_status r)) then e ← hrx_status_from_iree (c_status r); mret (e, st)
    else
      let cb := c_ptr r in
      s ← call (ffi_status (iree_hal_command_buffer_begin cb));
      if negb (status_is_ok s) then
        call (ffi_release iree_hal_command_buffer cb) ;;
        e ← hrx_status_from_iree s;
        mret (e, set_pending st null)
      else mret (hrx_ok_status, set_pending st cb).

(** [HrxStreamS::record_ordering_barrier]. *)
Definition record_ordering_barrier (st : HrxStreamS) : M Z :=
  call (ffi_status (iree_hal_command_buffer_execution_barrier (st_pending_cb st)
          IREE_HAL_EXECUTION_STAGE_COMMAND_RETIRE IREE_HAL_EXECUTION_STAGE_COMMAND_ISSUE
          IREE_HAL_MEMORY_ACCESS_ALL IREE_HAL_MEMORY_ACCESS_ALL)).

(** [HrxStreamS::flush_inner]. *)
Definition flush_inner (st : HrxStreamS) : M (ptr * HrxStreamS) :=
  if negb (st_has_pending_work st) || is_null (st_pending_cb st) then mret (hrx_ok_status, st)
  else
    let cb := st_pending_cb st in
    s ← call (ffi_status (iree_hal_command_buffer_end cb));
    if negb (status_is_ok s) then e ← hrx_status_from_iree s; mret (e, st)
    else
      let tp := st_timepoint st in
      let signal_value := wrap_u64 (tp + 1) in
      sem ← semaphore_hal_ptr (st_semaphore st);
      dev ← device_deref (st_device st);
      s ← call (ffi_status (iree_hal_device_queue_execute (dev_hal_device dev)
                  IREE_HAL_QUEUE_AFFINITY_ANY
                  (if 0 <? tp then [(sem, tp)] else []) [(sem, signal_value)] cb));
      if negb (status_is_ok s) then e ← hrx_status_from_iree s; mret (e, st)
      else
        call (ffi_release iree_hal_command_buffer cb) ;;
        mret (hrx_ok_status, set_work (set_pending (set_timepoint st signal_value) null) false).

(** [impl Drop for HrxStreamS], then the field drops: semaphore, device. *)
#[export] Instance drop_stream : DropGlue HrxStreamS := fun st =>
  st ← (if st_has_pending_work st
        then '(r, st') ← flush_inner st; hrx_status_drop r ;; mret st'
        else mret st);
  (if 0 <? st_timepoint st
   then r ← hrx_semaphore_wait (st_semaphore st) (st_timepoint st) U64_MAX; hrx_status_drop r
   else mret tt) ;;
  (if negb (is_null (st_pending_cb st))
   then call (ffi_release iree_hal_command_buffer (st_pending_cb st)) else mret tt) ;;
  semaphore_guard_drop (st_semaphore st) ;;
  device_ref_drop (st_device st).

Definition stream_ref (stream : ptr) : M HrxStreamS := handle_ref stream.

(** The [&self] methods applied to the object behind a handle. *)
Definition stream_update (stream : ptr) (m : HrxStreamS -> M (ptr * HrxStreamS))
  : M (ptr * HrxStreamS) :=
  st ← stream_ref stream;
  '(r, st') ← m st;
  handle_set stream st' ;;
  mret (r, st').

Definition stream_device (stream : ptr) : M ptr := st ← stream_ref stream; mret (st_device st).
Definition stream_semaphore (stream : ptr) : M ptr := st ← stream_ref stream; mret (st_semaphore st).
Definition stream_timepoint (stream : ptr) : M Z := st ← stream_ref stream; mret (st_timepoint st).
Definition stream_set_timepoint (stream : ptr) (value : Z) : M unit :=
  st ← stream_ref stream; handle_set stream (set_timepoint st value).

(** [hrx_stream_create]. *)
Definition hrx_stream_create (device : ptr) (flags : Z) (stream : ptr) : M ptr :=
  if is_null device || is_null stream
  then hrx_make_status (code_i32 InvalidArgument) (Some "device or stream is NULL"%string)
  else
    device_ref ← device_ref_retain device;
    '(st, sem) ← with_local null (fun slot => hrx_semaphore_create device 0 slot);
    if negb (hrx_status_is_ok st) then device_ref_drop device_ref ;; mret st
    else
      h ← into_handle (Stream 0 null false flags sem device_ref);
      write_out stream h ;;
      mret hrx_ok_status.

Definition hrx_stream_retain (stream : ptr) : M unit := handle_retain (T:=HrxStreamS) stream.
Definition hrx_stream_release (stream : ptr) : M unit := handle_release (T:=HrxStreamS) stream.

(** [hrx_stream_flush]. *)
Definition hrx_stream_flush (stream : ptr) : M ptr :=
  if is_null stream
  then hrx_make_status (code_i32 InvalidArgument) (Some "stream is NULL"%string)
  else '(r, _) ← stream_update stream flush_inner; mret r.

(** [hrx_stream_wait]. *)
Definition hrx_stream_wait (stream : ptr) : M ptr :=
  if is_null stream
  then hrx_make_status (code_i32 InvalidArgument) (Some "stream is NULL"%string)
  else
    st ← stream_ref stream;
    if st_timepoint st =? 0 then mret hrx_ok_status
    else hrx_semaphore_wait (st_semaphore st) (st_timepoint st) U64_MAX.

(** [hrx_stream_synchronize]. *)
Definition hrx_stream_synchronize (stream : ptr) : M ptr :=
  if is_null stream
  then hrx_make_status (code_i32 InvalidArgument) (Some "stream is NULL"%string)
  else
    s ← hrx_stream_flush stream;
    if negb (hrx_status_is_ok s) then mret s else hrx_stream_wait stream.

(** [hrx_stream_query]. *)
Definition hrx_stream_query (stream complete : ptr) : M ptr :=
  if is_null stream || is_null complete
  then hrx_make_status (code_i32 InvalidArgument) (Some "stream or complete is NULL"%string)
  else
    st ← stream_ref stream;
    if st_timepoint st =? 0 then write_out complete 1 ;; mret hrx_ok_status
    else
      '(s, current) ← with_local 0 (fun slot => hrx_semaphore_query (st_semaphore st) slot);
      if negb (hrx_status_is_ok s) then mret s
      else
        write_out complete (if st_timepoint st <=? current then 1 else 0) ;;
        mret hrx_ok_status.

(** [hrx_stream_get_semaphore]. *)
Definition hrx_stream_get_semaphore (stream semaphore : ptr) : M ptr :=
  if is_null stream || is_null semaphore
  then hrx_make_status (code_i32 InvalidArgument) (Some "stream or semaphore is NULL"%string)
  else
    st ← stream_ref stream;
    write_out semaphore (st_semaphore st) ;;
    mret hrx_ok_status.

(** [hrx_stream_get_device]. *)
Definition hrx_stream_get_device (stream device : ptr) : M ptr :=
  if is_null stream || is_null device
  then hrx_make_status (code_i32 InvalidArgument) (Some "stream or device is NULL"%string)
  else
    st ← stream_ref stream;
    write_out device (st_device st) ;;
    mret hrx_ok_status.

(** [hrx_stream_get_timeline_position]: [HrxTimelinePoint] fields at 0 and 8. *)
Definition hrx_stream_get_timeline_position (stream position : ptr) : M ptr :=
  if is_null stream || is_null position
  then hrx_make_status (code_i32 InvalidArgument) (Some "stream or position is NULL"%string)
  else
    st ← stream_ref stream;
    write_out position (st_semaphore st) ;;
    write_out (position + 8) (st_timepoint st) ;;
    mret hrx_ok_status.

(** [hrx_stream_advance_timeline]. *)
Definition hrx_stream_advance_timeline (stream value : ptr) : M ptr :=
  if is_null stream || is_null value
  then hrx_make_status (code_i32 InvalidArgument) (Some "stream or value is NULL"%string)
  else
    st ← stream_ref stream;
    let tp := wrap_u64 (st_timepoint st + 1) in
    handle_set stream (set_timepoint st tp) ;;
    write_out value tp ;;
    mret hrx_ok_status.

(** [hrx_stream_wait_on]; the position is passed by value. *)
Definition hrx_stream_wait_on (stream position_semaphore : ptr) (position_value : Z) : M ptr :=
  if is_null stream
  then hrx_make_status (code_i32 InvalidArgument) (Some "stream is NULL"%string)
  else if is_null position_semaphore
  then hrx_make_status (code_i32 InvalidArgument) (Some "position semaphore is NULL"%string)
  else
    s ← hrx_stream_flush stream;
    if negb (hrx_status_is_ok s) then mret s
    else
      st ← stream_ref stream;
      let signal_value := wrap_u64 (st_timepoint st + 1) in
      wait_sem ← semaphore_hal_ptr position_semaphore;
      sig_sem ← semaphore_hal_ptr (st_semaphore st);
      dev ← device_deref (st_device st);
      s ← call (ffi_status (iree_hal_device_queue_barrier (dev_hal_device dev)
                  IREE_HAL_QUEUE_AFFINITY_ANY [(wait_sem, position_value)]
                  [(sig_sem, signal_value)]));
      if negb (status_is_ok s) then hrx_status_from_iree s
      else handle_set stream (set_timepoint st signal_value) ;; mret hrx_ok_status.

(** [hrx_stream_fill_buffer]. *)
Definition hrx_stream_fill_buffer (stream buffer : ptr) (offset size : Z) (pattern : ptr)
  (pattern_size : Z) : M ptr :=
  if is_null stream || is_null buffer || is_null pattern
  then hrx_make_status (code_i32 InvalidArgument)
         (Some "stream, buffer, or pattern is NULL"%string)
  else
    '(s, st) ← stream_update stream begin_cb;
    if negb (hrx_status_is_ok s) then mret s
    else
      b ← buffer_hal buffer;
      s ← call (ffi_status (iree_hal_command_buffer_fill_buffer (st_pending_cb st)
                              (BufferRef b offset size) pattern pattern_size));
      if negb (status_is_ok s) then hrx_status_from_iree s
      else
        s ← record_ordering_barrier st;
        if negb (status_is_ok s) then hrx_status_from_iree s
        else handle_set stream (set_work st true) ;; mret hrx_ok_status.

(** [hrx_stream_copy_buffer]. *)
Definition hrx_stream_copy_buffer (stream src : ptr) (src_offset : Z) (dst : ptr)
  (dst_offset size : Z) : M ptr :=
  if is_null stream || is_null src || is_null dst
  then hrx_make_status (code_i32 InvalidArgument) (Some "stream, src, or dst is NULL"%string)
  else
    '(s, st) ← stream_update stream begin_cb;
    if negb (hrx_status_is_ok s) then mret s
    else
      b_src ← buffer_hal src;
      b_dst ← buffer_hal dst;
      s ← call (ffi_status (iree_hal_command_buffer_copy_buffer (st_pending_cb st)
                              (BufferRef b_src src_offset size) (BufferRef b_dst dst_offset size)));
      if negb (status_is_ok s) then hrx_status_from_iree s
      else
        s ← record_ordering_barrier st;
        if negb (status_is_ok s) then hrx_status_from_iree s
        else handle_set stream (set_work st true) ;; mret hrx_ok_status.

(** [hrx_stream_update_buffer]. *)
Definition hrx_stream_update_buffer (stream host_data : ptr) (host_data_size : Z) (dst : ptr)
  (dst_offset : Z) : M ptr :=
  if is_null stream || is_null host_data || is_null dst
  then hrx_make_status (code_i32 InvalidArgument)
         (Some "stream, host_data, or dst is NULL"%string)
  else
    '(s, st) ← stream_update stream begin_cb;
    if negb (hrx_status_is_ok s) then mret s
    else
      b ← buffer_hal dst;
      s ← call (ffi_status (iree_hal_command_buffer_update_buffer (st_pending_cb st) host_data 0
                              (BufferRef b dst_offset host_data_size)));
      if negb (status_is_ok s) then hrx_status_from_iree s
      else
        s ← record_ordering_barrier st;
        if negb (status_is_ok s) then hrx_status_from_iree s
        else handle_set stream (set_work st true) ;; mret hrx_ok_status.

(** [hrx_stream_execution_barrier]. *)
Definition hrx_stream_execution_barrier (stream : ptr) : M ptr :=
  if is_null stream
  then hrx_make_status (code_i32 InvalidArgument) (Some "stream is NULL"%string)
  else
    '(s, st) ← stream_update stream begin_cb;
    if negb (hrx_status_is_ok s) then mret s
    else
      s ← call (ffi_status (iree_hal_command_buffer_execution_barrier (st_pending_cb st)
                  IREE_HAL_EXECUTION_STAGE_COMMAND_RETIRE IREE_HAL_EXECUTION_STAGE_COMMAND_ISSUE
                  IREE_HAL_MEMORY_ACCESS_ALL IREE_HAL_MEMORY_ACCESS_ALL));
      if negb (status_is_ok s) then hrx_status_from_iree s
      else handle_set stream (set_work st true) ;; mret hrx_ok_status.

(** [hrx_stream_dispatch]. *)
Definition hrx_stream_dispatch (stream executable : ptr) (export_ordinal : Z)
  (config constants : ptr) (constants_size : Z) (bindings : ptr) (binding_count : nat) (flags : Z)
  : M ptr :=
  if is_null stream || is_null executable || is_null config
     || ((0 <? binding_count)%nat && is_null bindings)
     || ((0 <? constants_size) && is_null constants)
  then hrx_make_status (code_i32 InvalidArgument)
         (Some "stream, executable, config, constants, or bindings are invalid"%string)
  else
    '(s, st) ← stream_update stream begin_cb;
    if negb (hrx_status_is_ok s) then mret s
    else
      bl ← build_hal_bindings bindings binding_count;
      match bl with
      | None => hrx_make_status (code_i32 InvalidArgument) (Some "binding buffer is NULL"%string)
      | Some hal_binding_list =>
          size ← read_u32x3 (config + 12);
          count ← read_u32x3 config;
          exe ← executable_hal executable;
          s ← call (ffi_status (iree_hal_command_buffer_dispatch (st_pending_cb st) exe
                      export_ordinal size count constants constants_size hal_binding_list flags));
          if negb (status_is_ok s) then hrx_status_from_iree s
          else
            s ← record_ordering_barrier st;
            if negb (status_is_ok s) then hrx_status_from_iree s
            else handle_set stream (set_work st true) ;; mret hrx_ok_status
      end.
End Stream.

(** ** Specifications *)

(** The effect of a stream method: the references it took or gave back are the
    change of the pending command buffer, and the stream keeps its identity. *)
Definition stream_step (w w' : world) (st st' : HrxStreamS) : Prop :=
  safe w w' (fun p => cnt (st_pending_cb st') p - cnt (st_pending_cb st) p) none
  /\ frame w w' /\ links (OStream st') = links (OStream st).

Section StreamMethods.
Context `{IREE}.

Lemma begin_cb_spec st w :
  wf w -> usable w KDevice (st_device st) ->
  wp (begin_cb st) (fun rs w' => stream_step w w' st rs.2 /\ status_value w' rs.1) w.
Proof.
  intros Hwf Hd. unfold begin_cb. start_safe w.
  run; (split; [split; [close_safe|split; [|done]]|first [done|by left]]);
    eauto using frame_trans, frame_refl.
Qed.

Lemma flush_inner_spec st w :
  wf w -> usable w KDevice (st_device st) -> usable w KSemaphore (st_semaphore st) ->
  wp (flush_inner st) (fun rs w' => stream_step w w' st rs.2 /\ status_value w' rs.1) w.
Proof.
  intros Hwf Hd Hs. unfold flush_inner. start_safe w.
  run; (split; [split; [close_safe|split; [|done]]|first [done|by left]]);
    eauto using frame_trans, frame_refl.
Qed.

Lemma hrx_status_drop_safe r w :
  wf w -> status_value w r ->
  wp (hrx_status_drop r) (fun _ w' => safe w w' none none /\ frame w w') w.
Proof. intros Hwf Hr. apply hrx_status_drop_spec; [done|]. destruct Hr; [by left|by right]. Qed.

(** The first part of the drop: flush what is pending, ignoring the status. *)
Lemma drop_flush_spec st w :
  wf w -> usable w KDevice (st_device st) -> usable w KSemaphore (st_semaphore st) ->
  wp (if st_has_pending_work st
      then '(r, st') ← flush_inner st; hrx_status_drop r ;; mret st'
      else mret st) (fun st' w' => stream_step w w' st st') w.
Proof.
  intros Hwf Hd Hs. destruct (st_has_pending_work st).
  - wp_use flush_inner_spec; [done|done|done|]. intros [r st'] w1 ((HS & Hfr & Hl) & Hst).
    simpl in *. wp_use hrx_status_drop_safe; [apply HS|done|]. intros _ w2 [HS2 Hfr2].
    apply wp_ret. split; [|split; [by eapply frame_trans|done]].
    eapply safe_equiv; [by eapply safe_trans|..]; ledger.
  - apply wp_ret. split; [|split; [apply frame_refl|done]].
    eapply safe_equiv; [by apply safe_refl|..]; ledger.
Qed.

Lemma drop_wait_spec st w :
  wf w -> usable w KSemaphore (st_semaphore st) ->
  wp (if 0 <? st_timepoint st
      then r ← hrx_semaphore_wait (st_semaphore st) (st_timepoint st) U64_MAX; hrx_status_drop r
      else mret tt) (fun _ w' => safe w w' none none /\ frame w w') w.
Proof.
  intros Hwf Hs. destruct (0 <? st_timepoint st).
  - wp_use hrx_semaphore_wait_spec; [done|by right|]. intros r w1 [[HS Hst] Hfr].
    wp_use hrx_status_drop_safe; [apply HS|done|]. intros _ w2 [HS2 Hfr2].
    split; [|by eapply frame_trans]. eapply safe_equiv; [by eapply safe_trans|..]; ledger.
  - apply wp_ret. split; [by apply safe_refl|apply frame_refl].
Qed.

Lemma drop_cb_spec cb w :
  wf w -> wp (if negb (is_null cb) then call (ffi_release iree_hal_command_buffer cb) else mret tt)
            (fun _ w' => safe w w' (fun p => - cnt cb p) none) w.
Proof. intros Hwf. start_safe w. run; close_safe. Qed.

#[export] Instance drop_stream_ok : DropOk HrxStreamS.
Proof.
  intros st w Hwf [Hu Hf]. unfold drop_glue, drop_stream.
  assert (usable w KSemaphore (st_semaphore st)) as Hs by (apply Hu; left).
  assert (usable w KDevice (st_device st)) as Hd by (apply Hu; right; left).
  unfold link_cnt in Hf. simpl in Hf.
  wp_use drop_flush_spec; [done|done|done|]. intros st' w1 (HS1 & _ & Hl). simpl in Hl. simplify_eq.
  start_safe w. merge_safe.
  assert (usable w1 KSemaphore (st_semaphore st)) as Hs1 by usable_tac.
  wp_use drop_wait_spec; [done|congruence|]. intros _ w2 [? _]. merge_safe.
  wp_use drop_cb_spec; [done|]. intros _ w3 ?. merge_safe.
  assert (forall q, one (st_semaphore st) q + one (st_device st) q <= ext w3 q) as He3.
  { intros q. specialize (Hf q). ext_tac. }
  wp_use hrx_semaphore_release_spec; [done| | |].
  { replace (st_semaphore st') with (st_semaphore st) by congruence. usable_tac. }
  { replace (st_semaphore st') with (st_semaphore st) by congruence.
    specialize (He3 (st_semaphore st)). rewrite one_eq in He3.
    pose proof (one_nonneg (st_device st) (st_semaphore st)). lia. }
  intros _ w4 [Hwf4 HE4].
  assert (usable w3 KDevice (st_device st)) as Hd3 by usable_tac.
  match goal with H : safe w _ _ _ |- _ => apply safe_eff in H end.
  replace (st_semaphore st') with (st_semaphore st) in HE4 by congruence.
  assert (1 <= ext w4 (st_device st)) as He4.
  { rewrite (eff_ext _ _ _ _ HE4). specialize (He3 (st_device st)). rewrite one_eq in He3. lia. }
  wp_use hrx_device_release_spec; [done| | |].
  { replace (st_device st') with (st_device st) by congruence. by eapply usable_held. }
  { by replace (st_device st') with (st_device st) by congruence. }
  intros _ w5 [Hwf5 HE5]. split; [done|].
  replace (st_device st') with (st_device st) in HE5 by congruence.
  merge_eff. merge_eff. eapply eff_equiv; [eassumption|..]; unfold link_cnt, none; simpl; intros; lia.
Qed.

Lemma stream_ref_spec w h :
  wf w -> usable w KStream h ->
  wp (stream_ref h) (fun st w' => w' = w /\ (exists n, w_heap w !! h = Some (n, OStream st)) /\
    usable w KSemaphore (st_semaphore st) /\ usable w KDevice (st_device st)) w.
Proof.
  intros Hwf Hu. wp_use (handle_ref_spec (T:=HrxStreamS) w h); [done|].
  intros st w' [-> (n & Hst)]. split; [done|]. split; [eauto|].
  split; apply (wf_links _ Hwf _ _ _ _ _ Hst); simpl; [left|right; left].
Qed.

(** A method applied through a handle: everything it took is now owned by the
    stream object. *)
Lemma stream_update_spec w h m :
  wf w -> usable w KStream h ->
  (forall st, usable w KSemaphore (st_semaphore st) -> usable w KDevice (st_device st) ->
     wp (m st) (fun rs w' => stream_step w w' st rs.2 /\ status_value w' rs.1) w) ->
  wp (stream_update h m) (fun rs w' =>
    safe w w' none none /\ status_value w' rs.1 /\ w_mem w' = w_mem w /\
    (exists n, w_heap w' !! h = Some (n, OStream rs.2)) /\
    usable w' KSemaphore (st_semaphore rs.2) /\ usable w' KDevice (st_device rs.2)) w.
Proof.
  intros Hwf Hu Hm. unfold stream_update. wp_use stream_ref_spec; [done|done|].
  intros st ? (-> & (n & Hst) & Hus & Hud). apply wp_bind.
  eapply wp_mono; [by apply Hm|]. intros [r st'] w1 ((HS1 & Hfr1 & Hl) & Hr). simpl in *.
  wp_use (handle_set_spec (T:=HrxStreamS) w1 h n st st'); [apply HS1| |done|done|].
  { by rewrite (proj1 Hfr1). }
  intros _ w2 (HS2 & Hw2). apply wp_ret. simpl. simplify_eq.
  assert (safe w (set_heap w1 (<[h := (n, OStream st')]> (w_heap w1))) none none) as HS.
  { eapply safe_equiv; [by eapply safe_trans|..]; ledger. }
  split; [done|]. split; [done|]. split; [apply Hfr1|].
  split; [simpl; rewrite lookup_insert_eq; eauto|].
  replace (st_semaphore st') with (st_semaphore st) by congruence.
  replace (st_device st') with (st_device st) by congruence.
  split; by eapply usable_safe.
Qed.
End StreamMethods.

Ltac wp_stream_ref :=
  wp_use stream_ref_spec; [assumption|usable_tac|];
  let st := fresh "st" in intros st ?w' (-> & (?n & ?Hst) & ?Hus & ?Hud).

Ltac wp_stream_update spec :=
  wp_use stream_update_spec;
  [assumption|usable_tac|intros; apply spec; [assumption|assumption..]|];
  let r := fresh "r" in let st := fresh "st" in let w' := fresh "w" in
  intros [r st] w' (? & ?Hstv & ?Hmem & (?n & ?Hst) & ?Hus & ?Hud); simpl in *; merge_safe.

Section StreamFlush.
Context `{IREE}.

Lemma hrx_stream_flush_spec w h :
  wf w -> nullable w KStream h ->
  wp (hrx_stream_flush h) (fun r w' => entry_ok w w' r /\ w_mem w' = w_mem w) w.
Proof.
  intros Hwf Hh. unfold hrx_stream_flush. start_safe w. run.
  - split; [close_entry|]. by destruct Hfr as (_ & -> & _).
  - wp_stream_update flush_inner_spec. run. split; [close_entry|done].
Qed.
End StreamFlush.

Ltac run_hook6 ::=
  lazymatch goal with
  | |- wp (stream_ref _ ≫= _) _ _ => wp_stream_ref
  | |- wp (stream_update _ begin_cb ≫= _) _ _ => wp_stream_update begin_cb_spec
  | |- wp (record_ordering_barrier _ ≫= _) _ _ => unfold record_ordering_barrier
  | |- wp (hrx_stream_flush _ ≫= _) _ _ =>
      wp_use hrx_stream_flush_spec; [assumption|right; usable_tac|];
      let w' := fresh "w" in intros ?r w' ([? ?Hst] & ?Hmem); merge_safe
  end.

Section StreamEntries.
Context `{IREE}.

Lemma hrx_stream_wait_spec w h :
  wf w -> nullable w KStream h -> wp (hrx_stream_wait h) (fun r w' => entry_ok w w' r) w.
Proof.
  intros Hwf Hh. unfold hrx_stream_wait. start_safe w. run; try close_entry.
  wp_use hrx_semaphore_wait_spec; [done|by right|]. by intros ? ? [? _].
Qed.

Lemma hrx_stream_synchronize_spec w h :
  wf w -> nullable w KStream h -> wp (hrx_stream_synchronize h) (fun r w' => entry_ok w w' r) w.
Proof.
  intros Hwf Hh. unfold hrx_stream_synchronize. start_safe w. run; try close_entry.
  wp_use hrx_stream_wait_spec; [done|right; usable_tac|]. intros ? ? [? ?]. merge_safe. close_entry.
Qed.

Lemma hrx_stream_get_semaphore_spec w h out :
  wf w -> nullable w KStream h ->
  wp (hrx_stream_get_semaphore h out) (fun r w' => entry_ok w w' r) w.
Proof. intros. unfold hrx_stream_get_semaphore. start_safe w. run; close_entry. Qed.

Lemma hrx_stream_get_device_spec w h out :
  wf w -> nullable w KStream h ->
  wp (hrx_stream_get_device h out) (fun r w' => entry_ok w w' r) w.
Proof. intros. unfold hrx_stream_get_device. start_safe w. run; close_entry. Qed.

Lemma hrx_stream_get_timeline_position_spec w h out :
  wf w -> nullable w KStream h -> 0 <= out ->
  wp (hrx_stream_get_timeline_position h out) (fun r w' => entry_ok w w' r) w.
Proof.
  intros. unfold hrx_stream_get_timeline_position. start_safe w.
  assert (is_null (out + 8) = false) by (apply is_null_false; lia). run; close_entry.
Qed.

Lemma hrx_stream_advance_timeline_spec w h out :
  wf w -> nullable w KStream h ->
  wp (hrx_stream_advance_timeline h out) (fun r w' => entry_ok w w' r) w.
Proof. intros. unfold hrx_stream_advance_timeline. start_safe w. run; close_entry. Qed.

Lemma hrx_stream_wait_on_spec w h sem v :
  wf w -> nullable w KStream h -> nullable w KSemaphore sem ->
  wp (hrx_stream_wait_on h sem v) (fun r w' => entry_ok w w' r) w.
Proof. intros. unfold hrx_stream_wait_on. start_safe w. run; close_entry. Qed.

Lemma hrx_stream_fill_buffer_spec w h b off size pat n :
  wf w -> nullable w KStream h -> nullable w KBuffer b ->
  wp (hrx_stream_fill_buffer h b off size pat n) (fun r w' => entry_ok w w' r) w.
Proof. intros. unfold hrx_stream_fill_buffer. start_safe w. run; close_entry. Qed.

Lemma hrx_stream_copy_buffer_spec w h src soff dst doff n :
  wf w -> nullable w KStream h -> nullable w KBuffer src -> nullable w KBuffer dst ->
  wp (hrx_stream_copy_buffer h src soff dst doff n) (fun r w' => entry_ok w w' r) w.
Proof. intros. unfold hrx_stream_copy_buffer. start_safe w. run; close_entry. Qed.

Lemma hrx_stream_update_buffer_spec w h data n dst doff :
  wf w -> nullable w KStream h -> nullable w KBuffer dst ->
  wp (hrx_stream_update_buffer h data n dst doff) (fun r w' => entry_ok w w' r) w.
Proof. intros. unfold hrx_stream_update_buffer. start_safe w. run; close_entry. Qed.

Lemma hrx_stream_execution_barrier_spec w h :
  wf w -> nullable w KStream h ->
  wp (hrx_stream_execution_barrier h) (fun r w' => entry_ok w w' r) w.
Proof. intros. unfold hrx_stream_execution_barrier. start_safe w. run; close_entry. Qed.

Lemma hrx_stream_dispatch_spec w h exe ord config cst csize bs n flags :
  wf w -> nullable w KStream h -> nullable w KExecutable exe -> config_ok w config ->
  bindings_ok w bs n ->
  wp (hrx_stream_dispatch h exe ord config cst csize bs n flags) (fun r w' => entry_ok w w' r) w.
Proof.
  intros Hwf Hh Hexe Hcfg Hb. unfold hrx_stream_dispatch. start_safe w. run; try close_entry.
  destruct Hcfg as [->|Hcfg]; [done|].
  wp_use build_hal_bindings_spec.
  { intros i Hi. destruct (Hb i Hi) as (b & off & len & ? & ? & ? & Hn).
    exists b, off, len. rewrite Hmem. repeat (split; [done|]).
    destruct Hn; [by left|right; usable_tac]. }
  intros bl ? ->. destruct bl as [bl|]; run; [|close_entry].
  assert (forall k : nat, (k < 6)%nat -> forall z, z = config + 4 * Z.of_nat k ->
            is_Some (w_mem w0 !! z)) as Hc by (intros k Hk z ->; rewrite Hmem; by apply Hcfg).
  wp_use read_u32x3_spec; [apply (Hc 3%nat); lia|apply (Hc 4%nat); lia|apply (Hc 5%nat); lia|].
  intros ? ? ->.
  wp_use read_u32x3_spec; [apply (Hc 0%nat); lia|apply (Hc 1%nat); lia|apply (Hc 2%nat); lia|].
  intros ? ? ->. run; close_entry.
Qed.

Lemma hrx_stream_query_spec w h out :
  wf w -> nullable w KStream h -> wp (hrx_stream_query h out) (fun r w' => entry_ok w w' r) w.
Proof.
  intros Hwf Hh. unfold hrx_stream_query. start_safe w. run; try close_entry.
  apply wp_bind. eapply wp_mono; [apply (with_local_spec _ _ (fun r v w2 => entry_ok w w2 r))|].
  - done.
  - intros w1 Hw1 HS1 Hn. wp_use hrx_semaphore_query_spec; [apply HS1|right; by eapply usable_safe|].
    intros r w2 [[HS2 Hr] Hg]. destruct (Hg (w_next w)) as [v Hv].
    { rewrite Hw1. simpl. rewrite lookup_insert_eq. eauto. }
    exists v. split; [done|]. split; [|done]. eapply safe_equiv; [by eapply safe_trans|..]; ledger.
  - intros [r v] w3 (w2 & m & [HS2 Hr] & -> & _). simpl in *.
    pose proof (safe_set_mem w2 m (safe_wf _ _ _ _ HS2)). merge_safe. run; close_entry.
Qed.
End StreamEntries.

Section StreamCreate.
Context `{IREE}.

(** The timeline semaphore, created into a local. *)
Lemma local_semaphore_spec `{!IreeCreates} w d v :
  wf w -> usable w KDevice d ->
  wp (with_local null (fun slot => hrx_semaphore_create d v slot)) (fun rs w' =>
    (rs.1 = 0 /\ w_next w <= rs.2 /\ usable w' KSemaphore rs.2 /\ safe w w' none (one rs.2))
    \/ (status_value w' rs.1 /\ (LibcAlloc -> rs.1 <> 0) /\ safe w w' none none
        /\ w_heap w' = w_heap w /\ mem_grow w w')) w.
Proof.
  intros Hwf Hd. eapply wp_mono; [apply (with_local_spec _ _ (fun r s w2 =>
    let w1 := set_mem (set_next w (w_next w + BLOCK)) (<[w_next w := null]> (w_mem w)) in
    (r = 0 /\ w_next w <= s /\ usable w2 KSemaphore s /\ safe w w2 none (one s))
    \/ (status_value w2 r /\ (LibcAlloc -> r <> 0) /\ safe w w2 none none
        /\ w_heap w2 = w_heap w /\ mem_grow w1 w2)))|]; [done|..].
  - intros w1 Hw1 HS1 Hn.
    wp_use hrx_semaphore_create_spec; [apply HS1|right; by eapply usable_safe|].
    pose proof (eff_next _ _ _ _ (safe_eff _ _ _ _ HS1)).
    intros r w2 [[-> (s & Hs & Hge & Hu & HS2)]|(Hst & Hnz & HS2 & Hh & Hg)].
    + exists s. split; [done|]. left. split; [done|]. split; [lia|]. split; [done|].
      eapply safe_equiv; [by eapply safe_trans|..]; ledger.
    + destruct (Hg (w_next w)) as [s Hs].
      { rewrite Hw1. simpl. rewrite lookup_insert_eq. eauto. }
      exists s. split; [done|]. right. rewrite <- Hw1. split; [done|]. split; [done|].
      split; [eapply safe_equiv; [by eapply safe_trans|..]; ledger|].
      split; [|done]. rewrite Hh, Hw1. done.
  - intros [r s] w3 (w2 & m & Hcase & -> & Hg). simpl in *.
    destruct Hcase as [(-> & Hge & Hu & HS2)|(Hst & Hnz & HS2 & Hh & Hg2)]; [left|right].
    + split; [done|]. split; [done|]. split; [done|].
      eapply safe_equiv; [eapply safe_trans; [done|exact HS2|apply safe_set_mem, HS2]|..]; ledger.
    + split; [done|]. split; [done|]. split; [|split; [done|by apply Hg]].
      eapply safe_equiv; [eapply safe_trans; [done|exact HS2|apply safe_set_mem, HS2]|..]; ledger.
Qed.

(** Giving back the device reference taken at the start of a failed call. *)
Lemma device_unretain w w1 d n o F :
  wf w -> w_heap w !! d = Some (n, ODevice o) -> safe w w1 F (one d) ->
  w_heap w1 = <[d := (n + 1, ODevice o)]> (w_heap w) ->
  exists w2, hrx_device_release d w1 = Done tt w2 /\ safe w w2 F none /\ w_heap w2 = w_heap w
             /\ w_mem w2 = w_mem w1 /\ w_cheap w2 = w_cheap w1.
Proof.
  intros Hwf Hd HS Hh. pose proof (wf_strong _ Hwf _ _ _ Hd).
  assert (w_heap w1 !! d = Some (n + 1, ODevice o)) as Hd1 by (by rewrite Hh, lookup_insert_eq).
  exists (set_heap w1 (w_heap w)). split; [|split; [|done]].
  - unfold hrx_device_release, handle_release. rewrite Hd1. simpl.
    destruct (Z.eqb_spec (n + 1) 1); [lia|]. rewrite Hh, insert_insert_eq.
    replace (n + 1 - 1) with n by lia. by rewrite insert_id.
  - assert (1 <= ext w1 d) as He.
    { rewrite (eff_ext _ _ _ _ (safe_eff _ _ _ _ HS)), one_eq.
      pose proof (wf_ext _ Hwf d). lia. }
    destruct (update_wf_eff w1 d (n + 1) (ODevice o) n (ODevice o)) as [Hwf2 HE2];
      try done; [apply HS|lia|].
    rewrite Hh, insert_insert_eq, (insert_id _ _ _ Hd) in Hwf2, HE2. split; [done| |].
    + eapply eff_equiv; [eapply eff_trans; [done|apply HS|exact HE2]|..]; ledger.
    + by apply quiet_grow.
Qed.

Lemma hrx_stream_create_spec `{!IreeCreates, !LibcAlloc} w d flags out :
  wf w -> nullable w KDevice d ->
  wp (hrx_stream_create d flags out) (fun r w' => create_post w w' r out KStream) w.
Proof.
  intros Hwf Hd. unfold hrx_stream_create. start_safe w. run; [close_failed|].
  assert (exists n o, w_heap w !! d = Some (n, ODevice o)) as (n & o & Ho)
    by exact (usable_unbox (T:=HrxDeviceS) w d Hd).
  unfold device_ref_retain.
  pose proof (hrx_device_retain_spec w d Hwf Hd) as HR. unfold wp in HR.
  assert (hrx_device_retain d w = Done tt (set_heap w (<[d := (n + 1, ODevice o)]> (w_heap w))))
    as Hret by (unfold hrx_device_retain, handle_retain; by rewrite Ho).
  rewrite Hret in HR. apply wp_bind. unfold wp at 1. erewrite bind_Done; [|exact Hret].
  set (w1 := set_heap w _) in *. pose proof (safe_wf _ _ _ _ HR) as Hwf1.
  assert (usable w1 KDevice d) as Hd1 by (by eapply (usable_safe w)).
  unfold mret, M_ret. cbn beta iota.
  wp_use local_semaphore_spec; [done|done|].
  intros [r sem] w2 Hcase. simpl in Hcase.
  destruct Hcase as [(-> & Hge & Hu & HS2)|(Hst & Hnz & HS2 & Hh & Hg)]; simpl in *.
  - pose proof (safe_trans _ _ _ _ _ _ _ Hwf HR HS2) as HS. pose proof (safe_wf _ _ _ _ HS2).
    wp_use (into_handle_spec (T:=HrxStreamS)); [done| |exact I|].
    { eapply floats_two; [done|done|by eapply (usable_safe w1)|]. intros q.
      rewrite (eff_ext _ _ _ _ (safe_eff _ _ _ _ HS)). pose proof (wf_ext _ Hwf q).
      unfold none. simpl. lia. }
    pose proof (eff_next _ _ _ _ (safe_eff _ _ _ _ HS)).
    intros h w3 (HS3 & -> & Hobj). pose proof (safe_wf _ _ _ _ HS3).
    pose proof (safe_trans _ _ _ _ _ _ _ Hwf HS HS3). clear HS HS3. run. subst.
    left. split; [done|]. eexists. split; [simpl; by rewrite lookup_insert_eq|].
    split; [done|]. split; [obj_usable|close_safe].
  - unfold hrx_status_is_ok. rewrite (proj2 (is_null_false r)) by auto. simpl.
    destruct (device_unretain w w2 d n o none) as (w3 & Hrel & HS3 & Hh3 & Hm3 & Hc3);
      [done|done| |by rewrite Hh|].
    { eapply safe_equiv; [by eapply safe_trans|..]; ledger. }
    unfold wp, device_ref_drop. erewrite bind_Done; [|exact Hrel].
    right. split; [by eapply status_value_cheap|]. split; [done|]. split; [done|]. split; [done|].
    intros a Ha. rewrite Hm3. by apply Hg.
Qed.
End StreamCreate.
