(* ===== verification/Pool.v ===== *)
(** * The exact pool: crates/hrx-libhrx/src/pool.rs

    An IREE pool implementation whose reservations are whole allocator buffers.
    [w_pools] lists the live pools by address; the vtable slots are the entry
    points IREE calls with a pool's address. *)

From S2P Require Import Prelude Iree Objects Machine Handle Status IreeHal Device Semaphore Buffer HostAllocator Executable BufferView ValueList Modules QueueOps Stream.

(** [IreeHalPoolReservation] (offset, length and block handle). *)
Record IreeHalPoolReservation := Reservation {
  res_offset : Z;
  res_length : Z;
  res_block_handle : ptr;
}.

(** [IreeHalPoolCapabilities]. *)
Record IreeHalPoolCapabilities := Capabilities {
  cap_memory_type : Z;
  cap_supported_usage : Z;
  cap_min_allocation_size : Z;
  cap_max_allocation_size : Z;
}.

Definition IREE_HAL_POOL_ACQUIRE_OK_FRESH : Z := 1.
Definition TRANSFER_RESERVATION_OWNERSHIP : Z := Z.shiftl 1 0.
Definition SIZEOF_EXACT_POOL : Z := 80.
Definition SIZEOF_POOL_STATS : nat := 104.

(** [params_match]. *)
Definition params_match (lhs rhs : iree_hal_buffer_params_t) : bool :=
  (p_type lhs =? p_type rhs) && (p_access lhs =? p_access rhs) && (p_usage lhs =? p_usage rhs)
  && (p_queue_affinity lhs =? p_queue_affinity rhs)
  && (p_min_alignment lhs =? p_min_alignment rhs).

(** First pool registered at an address. *)
Definition pool_find (base : ptr) (l : list (ptr * HrxExactPool)) : option HrxExactPool :=
  snd <$> List.find (fun e => e.1 =? base) l.

(** The list without the first pool at an address. *)
Fixpoint pool_remove (base : ptr) (l : list (ptr * HrxExactPool)) : list (ptr * HrxExactPool) :=
  match l with
  | [] => []
  | e :: l => if e.1 =? base then l else e :: pool_remove base l
  end.

Section Pool.
Context `{IREE}.

(** Dereference of the [base] argument of a vtable slot. *)
Definition pool_deref (base : ptr) : M HrxExactPool := fun w =>
  match pool_find base (w_pools w) with Some p => Done p w | None => Undefined end.

Definition pool_add (base : ptr) (p : HrxExactPool) : M unit := fun w =>
  Done tt (set_pools w ((base, p) :: w_pools w)).
Definition pool_del (base : ptr) : M unit := fun w =>
  Done tt (set_pools w (pool_remove base (w_pools w))).

(** [pool_destroy]. *)
Definition pool_destroy (base : ptr) : M unit :=
  call (ffi_void (pool_destroy_invoked base)) ;;
  pool ← pool_deref base;
  call (ffi_release iree_async_notification (pool_notification pool)) ;;
  call (ffi_release iree_hal_allocator (pool_allocator pool)) ;;
  pool_del base ;;
  call (iree_allocator_free (pool_host_allocator pool) base).

(** [pool_acquire_reservation]: the status and, when it wrote them, the
    reservation and the acquire result. *)
Definition pool_acquire_reservation (base : ptr) (size : Z)
  : M (Z * option (IreeHalPoolReservation * Z)) :=
  if size =? 0 then mret (iree_status_from_code IREE_STATUS_INVALID_ARGUMENT, None)
  else
    pool ← pool_deref base;
    r ← call (ffi_create (iree_hal_allocator_allocate_buffer (pool_allocator pool)
                            (pool_params pool) size));
    if negb (status_is_ok (c_status r)) then mret (c_status r, None)
    else
      len ← call (ffi_get (iree_hal_buffer_byte_length (c_ptr r)));
      mret (0, Some (Reservation 0 len (c_ptr r), IREE_HAL_POOL_ACQUIRE_OK_FRESH)).

(** [pool_release_reservation]. *)
Definition pool_release_reservation (base : ptr) (reservation : IreeHalPoolReservation) : M unit :=
  let buffer := res_block_handle reservation in
  if negb (is_null buffer) then
    call (ffi_release iree_hal_buffer buffer) ;;
    pool ← pool_deref base;
    call (ffi_void (iree_async_notification_signal (pool_notification pool) 1))
  else mret tt.

(** [pool_materialize_reservation]: the status and the out-buffer. *)
Definition pool_materialize_reservation (base : ptr) (params : iree_hal_buffer_params_t)
  (reservation : IreeHalPoolReservation) (flags : Z) : M (Z * ptr) :=
  pool ← pool_deref base;
  if negb (params_match (pool_params pool) params)
  then mret (iree_status_from_code IREE_STATUS_INVALID_ARGUMENT, null)
  else
    let buffer := res_block_handle reservation in
    if is_null buffer then mret (iree_status_from_code IREE_STATUS_INVALID_ARGUMENT, null)
    else
      (if Z.land flags TRANSFER_RESERVATION_OWNERSHIP =? 0
       then call (ffi_retain iree_hal_buffer buffer) else mret tt) ;;
      mret (0, buffer).

(** [pool_query_capabilities]. *)
Definition pool_query_capabilities (base : ptr) : M IreeHalPoolCapabilities :=
  pool ← pool_deref base;
  mret (Capabilities (p_type (pool_params pool)) (p_usage (pool_params pool)) 0 0).

(** [pool_query_stats]: the bytes written. *)
Definition pool_query_stats (base : ptr) : M (list Z) := mret (replicate SIZEOF_POOL_STATS 0).

(** [pool_trim]. *)
Definition pool_trim (base : ptr) : M Z := mret 0.

(** [pool_notification] (the vtable slot). *)
Definition pool_notification_slot (base : ptr) : M ptr :=
  pool ← pool_deref base; mret (pool_notification pool).

(** [shared_proactor_and_host_allocator] (runtime.rs). *)
Definition shared_proactor_and_host_allocator : M (ptr * iree_allocator_t) :=
  g ← get_globals;
  mret (sh_proactor_pool (g_shared g), sh_host_allocator (g_shared g)).

(** [hrx_iree_exact_pool_create]: an IREE status or the pool. *)
Definition hrx_iree_exact_pool_create (allocator : ptr) (params : iree_hal_buffer_params_t)
  : M (Z + ptr) :=
  '(proactor_pool, host_allocator) ← shared_proactor_and_host_allocator;
  if is_null proactor_pool
  then mret (inl (iree_status_from_code IREE_STATUS_FAILED_PRECONDITION))
  else
    '(s, proactor) ← call (ffi_read (iree_async_proactor_pool_get proactor_pool 0));
    if negb (status_is_ok s) then mret (inl s)
    else
      r ← call (ffi_create (iree_allocator_malloc host_allocator SIZEOF_EXACT_POOL));
      if negb (status_is_ok (c_status r)) then mret (inl (c_status r))
      else
        let pool := c_ptr r in
        if is_null pool then undefined
        else
          call (ffi_retain iree_hal_allocator allocator) ;;
          n ← call (ffi_create (iree_async_notification_create proactor));
          if negb (status_is_ok (c_status n)) then
            call (ffi_release iree_hal_allocator allocator) ;;
            call (iree_allocator_free host_allocator pool) ;;
            mret (inl (c_status n))
          else
            pool_add pool (ExactPool 1 host_allocator allocator params (c_ptr n)) ;;
            mret (inr pool).
End Pool.

(** ** Specifications *)

Section PoolSpecs.
Context `{IREE}.

Lemma safe_set_pools w l :
  wf w ->
  safe w (set_pools w l)
    (fun p => lsum (fun e => pool_owns e p) (w_pools w) - lsum (fun e => pool_owns e p) l) none.
Proof.
  intros Hwf. split; [|split|].
  - by destruct Hwf.
  - simpl. lia.
  - done.
  - simpl. congruence.
  - intros p. unfold imb, owned. simpl. lia.
  - intros h. unfold none. unfold ext, strong, internal. simpl. lia.
  - by intros h.
Qed.

Lemma pool_remove_sum f base l q :
  pool_find base l = Some q ->
  lsum f l = f (base, q) + lsum f (pool_remove base l).
Proof.
  intros Hf. unfold pool_find in Hf. induction l as [|[b p] l IH]; simpl in *; [done|].
  destruct (Z.eqb_spec b base) as [->|Hne]; simpl in *; simplify_eq; [done|].
  rewrite IH by done. lia.
Qed.

(** Creating a pool: one reference for the caller, or an IREE status and
    nothing kept. *)
Lemma hrx_iree_exact_pool_create_spec `{!IreeCreates} w a params :
  wf w ->
  wp (hrx_iree_exact_pool_create a params) (fun r w' =>
    w_heap w' = w_heap w /\ w_mem w' = w_mem w /\ w_glob w' = w_glob w /\
    match r with
    | inl s => s <> 0 /\ safe w w' (cnt s) none /\ w_pools w' = w_pools w
    | inr p => p <> 0 /\ safe w w' (cnt p) none
    end) w.
Proof.
  intros Hwf. unfold hrx_iree_exact_pool_create, shared_proactor_and_host_allocator.
  apply wp_bind. unfold wp at 1. simpl. destruct (is_null _) eqn:?.
  { apply wp_ret. do 4 (split; [done|]). split; [|done].
    eapply safe_equiv; [by apply safe_refl| |done]. intros p. unfold none.
    by rewrite cnt_small by apply iree_status_from_code_inline. }
  start_safe w. run.
  3:{ assert (c_ptr r <> 0) by created_nonnull. by apply is_null_true in Heqb2. }
  4:{ apply wp_bind. unfold wp at 1, pool_add. apply wp_ret.
      pose proof (safe_set_pools w3 ((c_ptr r, ExactPool 1 (sh_host_allocator (g_shared (w_glob w)))
                    a params (c_ptr r1)) :: w_pools w3) Hwf3).
      merge_safe. repeat match goal with H : frame _ _ |- _ => destruct H as (?&?&?&?) end.
      split; [simpl; congruence|]. split; [simpl; congruence|]. split; [simpl; congruence|].
      split; [by apply is_null_false|]. eapply safe_equiv; [eassumption| |done].
      intros p. unfold pool_owns. ledger. }
  all: repeat match goal with H : frame _ _ |- _ => destruct H as (?&?&?&?) end.
  all: split; [congruence|]; split; [congruence|]; split; [congruence|].
  all: split; [unfold status_is_ok in *; by bool_to_prop|]; split; [close_safe|congruence].
Qed.

Lemma pool_deref_spec w base pool :
  pool_find base (w_pools w) = Some pool ->
  wp (pool_deref base) (fun p w' => w' = w /\ p = pool) w.
Proof. intros Hp. unfold wp, pool_deref. by rewrite Hp. Qed.

(** The destroy slot gives back the notification, the allocator reference and
    the storage it was handed, and forgets the pool. *)
Lemma pool_destroy_spec w base pool :
  wf w -> pool_find base (w_pools w) = Some pool ->
  wp (pool_destroy base) (fun _ w' =>
    safe w w' none none /\ w_heap w' = w_heap w /\ w_pools w' = pool_remove base (w_pools w)) w.
Proof.
  intros Hwf Hp. unfold pool_destroy. start_safe w. run.
  wp_use pool_deref_spec; [by rewrite (proj1 (proj2 (proj2 Hfr)))|]. intros ? ? [-> ->]. run.
  apply wp_bind. unfold wp at 1, pool_del.
  pose proof (safe_set_pools w2 (pool_remove base (w_pools w2)) Hwf2). merge_safe. run.
  repeat match goal with H : frame _ _ |- _ => destruct H as (?&?&?&?) end. simpl in *.
  assert (w_pools w2 = w_pools w) as Hpl by congruence.
  split; [|split; congruence]. eapply safe_equiv; [eassumption| |done]. intros p.
  rewrite Hpl. pose proof (pool_remove_sum (fun e => pool_owns e p) _ _ _ Hp) as Hsum.
  unfold pool_owns in *. simpl in *. ledger.
Qed.

(** A reservation is one buffer reference of exactly the allocator's size, in
    IREE's hands. *)
Lemma pool_acquire_reservation_spec `{!IreeCreates} w base pool size :
  wf w -> pool_find base (w_pools w) = Some pool ->
  wp (pool_acquire_reservation base size) (fun r w' =>
    frame w w' /\
    match r.2 with
    | None => r.1 <> 0 /\ safe w w' (cnt r.1) none
    | Some (res, how) =>
        r.1 = 0 /\ size <> 0 /\ how = IREE_HAL_POOL_ACQUIRE_OK_FRESH
        /\ res_offset res = 0 /\ res_block_handle res <> 0
        /\ safe w w' (cnt (res_block_handle res)) none
    end) w.
Proof.
  intros Hwf Hp. unfold pool_acquire_reservation. start_safe w. run.
  { split; [apply frame_refl|]. split; [done|]. eapply safe_equiv; [eassumption| |done].
    intros p. unfold none. by rewrite cnt_small by apply iree_status_from_code_inline. }
  wp_use pool_deref_spec; [done|]. intros ? ? [-> ->]. run.
  - split; [done|]. split; [unfold status_is_ok in *; by bool_to_prop|close_safe].
  - split; [eauto using frame_trans|]. split; [done|]. split; [by bool_to_prop|].
    split; [done|]. split; [done|]. split; [simpl; created_nonnull|]. simpl. close_safe.
Qed.

Lemma pool_release_reservation_spec w base pool res :
  wf w -> pool_find base (w_pools w) = Some pool ->
  wp (pool_release_reservation base res) (fun _ w' =>
    frame w w' /\ safe w w' (fun p => - cnt (res_block_handle res) p) none) w.
Proof.
  intros Hwf Hp. unfold pool_release_reservation. start_safe w. run.
  - wp_use pool_deref_spec; [by rewrite (proj1 (proj2 (proj2 Hfr)))|]. intros ? ? [-> ->]. run.
    split; [eauto using frame_trans|close_safe].
  - split; [apply frame_refl|close_safe].
Qed.

(** Materializing hands out the reserved buffer: with the transfer flag the
    reservation's own reference, otherwise a new one. *)
Lemma pool_materialize_reservation_spec w base pool params res flags :
  wf w -> pool_find base (w_pools w) = Some pool ->
  wp (pool_materialize_reservation base params res flags) (fun r w' =>
    frame w w' /\
    if params_match (pool_params pool) params && negb (is_null (res_block_handle res))
    then r = (0, res_block_handle res) /\
         safe w w' (if Z.land flags TRANSFER_RESERVATION_OWNERSHIP =? 0
                    then cnt (res_block_handle res) else none) none
    else r = (IREE_STATUS_INVALID_ARGUMENT, 0) /\ safe w w' none none) w.
Proof.
  intros Hwf Hp. unfold pool_materialize_reservation.
  wp_use pool_deref_spec; [done|]. intros ? ? [-> ->].
  destruct (params_match _ _); simpl; [destruct (is_null (res_block_handle res)); simpl|].
  - apply wp_ret. split; [apply frame_refl|]. split; [done|by apply safe_refl].
  - start_safe w. run.
    + split; [done|]. split; [done|close_safe].
    + split; [apply frame_refl|]. split; [done|close_safe].
  - apply wp_ret. split; [apply frame_refl|]. split; [done|by apply safe_refl].
Qed.

Lemma params_match_eq a b : params_match a b = true <-> a = b.
Proof.
  unfold params_match. rewrite !andb_true_iff, !Z.eqb_eq. destruct a, b; simpl. split.
  - intros ((((-> & ->) & ->) & ->) & ->). done.
  - by intros [= -> -> -> -> ->].
Qed.
End PoolSpecs.
