(* ===== verification/StreamAlloc.v ===== *)
(** * Stream-ordered allocation: [hrx_buffer_allocate] of
      crates/hrx-libhrx/src/buffer.rs *)

From S2P Require Import Prelude Iree Objects Machine Handle Status IreeHal Device Semaphore Buffer HostAllocator Executable BufferView ValueList Modules QueueOps Stream Pool.

Section StreamAlloc.
Context `{IREE}.

(** The status ladder: pool creation, queue alloca, wait for the alloca.  It
    returns the final status and the two out-parameters as they are then. *)
Definition alloca_ladder (stream allocator sem : ptr) (params : iree_hal_buffer_params_t)
  (size tp signal_value : Z) : M (Z * ptr * ptr) :=
  r ← hrx_iree_exact_pool_create allocator params;
  match r with
  | inl status => mret (status, null, null)
  | inr raw_pool =>
      d ← stream_device stream;
      dev ← device_deref d;
      a ← call (ffi_create (iree_hal_device_queue_alloca (dev_hal_device dev)
                  IREE_HAL_QUEUE_AFFINITY_ANY (if 0 <? tp then [(sem, tp)] else [])
                  [(sem, signal_value)] raw_pool params size));
      if negb (status_is_ok (c_status a)) then mret (c_status a, raw_pool, null)
      else
        status ← call (ffi_status (iree_hal_semaphore_wait sem signal_value timeout_infinite));
        mret (status, raw_pool, c_ptr a)
  end.

(** [hrx_buffer_allocate]. *)
Definition hrx_buffer_allocate (stream : ptr) (size mem_type usage : Z) (buffer : ptr) : M ptr :=
  if is_null stream || is_null buffer
  then hrx_make_status (code_i32 InvalidArgument) (Some "stream or buffer is NULL"%string)
  else if size =? 0
  then hrx_make_status (code_i32 InvalidArgument) (Some "allocation size must be > 0"%string)
  else
    d ← stream_device stream;
    dev ← device_deref d;
    let allocator := al_hal_allocator (dev_allocator dev) in
    '(compatibility, params) ← call (iree_hal_allocator_query_buffer_compatibility allocator
                                (BufferParams usage IREE_HAL_MEMORY_ACCESS_ALL mem_type 0 0) size);
    if Z.land compatibility IREE_HAL_BUFFER_COMPATIBILITY_ALLOCATABLE =? 0
    then hrx_make_status (code_i32 InvalidArgument)
           (Some "buffer params are not allocatable on this device"%string)
    else
      flush_status ← hrx_stream_flush stream;
      if negb (hrx_status_is_ok flush_status) then mret flush_status
      else
        tp ← stream_timepoint stream;
        let signal_value := wrap_u64 (tp + 1) in
        sem_handle ← stream_semaphore stream;
        sem ← semaphore_hal_ptr sem_handle;
        '(status, raw_pool, raw_buffer) ←
          alloca_ladder stream allocator sem params size tp signal_value;
        if negb (status_is_ok status) then
          call (ffi_release iree_hal_buffer raw_buffer) ;;
          call (ffi_release iree_hal_pool raw_pool) ;;
          hrx_status_from_iree status
        else
          hal_buffer ← expect (nonnull_new raw_buffer) "OK alloca with null buffer"%string;
          let hal_pool := nonnull_new raw_pool in
          d ← stream_device stream;
          device ← device_ref_retain d;
          stream_set_timepoint stream signal_value ;;
          h ← into_handle (Buffer None hal_buffer hal_pool device mem_type size);
          write_out buffer h ;;
          mret hrx_ok_status.
End StreamAlloc.

(** ** Specifications *)

Section StreamAccessors.
Context `{IREE}.

Lemma stream_get_spec {A} (f : HrxStreamS -> A) w h :
  wf w -> usable w KStream h ->
  wp (st ← stream_ref h; mret (f st)) (fun x w' => w' = w /\ exists n st,
    w_heap w !! h = Some (n, OStream st) /\ x = f st /\
    usable w KSemaphore (st_semaphore st) /\ usable w KDevice (st_device st)) w.
Proof.
  intros Hwf Hu. wp_use stream_ref_spec; [done|done|]. intros st ? (-> & (n & Hst) & ? & ?).
  apply wp_ret. split; [done|]. eauto 10.
Qed.

Lemma stream_device_spec w h :
  wf w -> usable w KStream h ->
  wp (stream_device h) (fun d w' => w' = w /\ usable w KDevice d) w.
Proof.
  intros Hwf Hu. unfold stream_device.
  eapply wp_mono; [by apply (stream_get_spec st_device)|].
  by intros ? ? (-> & n & st & _ & -> & _ & ?).
Qed.

Lemma stream_set_timepoint_spec w h v :
  wf w -> usable w KStream h ->
  wp (stream_set_timepoint h v) (fun _ w' => safe w w' none none) w.
Proof.
  intros Hwf Hu. unfold stream_set_timepoint. start_safe w. wp_stream_ref.
  wp_use (handle_set_spec (T:=HrxStreamS)); [done|exact Hst|done|done|].
  intros _ w' (HS & _). eapply safe_equiv; [exact HS|..]; ledger.
Qed.

Lemma alloca_ladder_spec `{!IreeCreates} w h a sem params size tp sv :
  wf w -> usable w KStream h ->
  wp (alloca_ladder h a sem params size tp sv) (fun r w' =>
    let '(status, pool, buf) := r in
    w_heap w' = w_heap w /\ w_mem w' = w_mem w /\ (status = 0 -> buf <> 0) /\
    safe w w' (fun p => cnt status p + cnt pool p + cnt buf p) none) w.
Proof.
  intros Hwf Hu. unfold alloca_ladder. start_safe w.
  wp_use hrx_iree_exact_pool_create_spec; [done|]. intros [s|pool] w1 (Hh & Hm & Hg & Hcase).
  { destruct Hcase as (Hs & ? & _). merge_safe. apply wp_ret. split; [done|]. split; [done|].
    split; [done|]. close_safe. }
  destruct Hcase as (Hp & ?). merge_safe.
  wp_use stream_device_spec; [done|by eapply usable_heap|]. intros d ? [-> Hd]. run.
  all: repeat match goal with H : frame _ _ |- _ => destruct H as (?&?&?&?) end.
  all: split; [congruence|]; split; [congruence|]; split; [|close_safe].
  - unfold status_is_ok in *. by bool_to_prop.
  - intros _. created_nonnull.
Qed.
End StreamAccessors.

Section StreamAllocEntry.
Context `{IREE}.

Lemma hrx_buffer_allocate_spec `{!IreeCreates} w h size mt usage out :
  wf w -> nullable w KStream h ->
  wp (hrx_buffer_allocate h size mt usage out) (fun r w' =>
    (r = 0 /\ creates w w' out KBuffer) \/ (entry_ok w w' r /\ (LibcAlloc -> r <> 0))) w.
Proof.
  intros Hwf Hh. unfold hrx_buffer_allocate. start_safe w. run; try (right; split; [close_entry|nonzero_status]).
  wp_use stream_device_spec; [done|done|]. intros d ? [-> Hd]. run; try (right; split; [close_entry|nonzero_status]).
  { right. split; [close_entry|]. intros _. unfold hrx_status_is_ok in *. by bool_to_prop. }
  apply wp_bind. unfold stream_timepoint.
  eapply wp_mono; [apply (stream_get_spec st_timepoint); [done|usable_tac]|].
  intros tp ? (-> & n2 & st & Hst2 & -> & Hus & Hud).
  apply wp_bind. unfold stream_semaphore.
  eapply wp_mono; [apply (stream_get_spec st_semaphore); [done|usable_tac]|].
  intros sh ? (-> & n3 & st3 & Hst3 & -> & Hus3 & Hud3). run.
  wp_use alloca_ladder_spec; [done|usable_tac|].
  intros [[status pool] buf] w2 (Hh2 & Hm2 & Hnz & ?). merge_safe. run; [right; split; [close_entry|nonzero_status]|].
  assert (status = 0) as -> by (unfold status_is_ok in *; by bool_to_prop).
  apply wp_bind, expect_nonnull_spec; [by apply Hnz|].
  wp_use stream_device_spec; [done|usable_tac|]. intros d2 ? [-> Hd2].
  wp_use device_ref_retain_spec; [done|done|]. intros ? w3 [-> HS3].
  assert (usable w3 KDevice d2) as Hd3 by (by eapply (usable_safe w2)). merge_safe.
  wp_use stream_set_timepoint_spec; [done|usable_tac|]. intros _ w4 HS4.
  assert (usable w4 KDevice d2) as Hd4 by (by eapply (usable_safe w3)). merge_safe.
  wp_into_handle; [eapply floats_one; [done|done|intros q; ext_tac]|]. run. subst.
  left. split; [done|]. eexists. split; [simpl; by rewrite lookup_insert_eq|].
  split; [simpl in *; lia|]. split; [obj_usable|].
  eapply safe_equiv; [eassumption| |ledger]. intros p. unfold nonnull_new.
  destruct (is_null pool) eqn:Ep; ledger.
Qed.
End StreamAllocEntry.
