(* ===== verification/Runtime.v ===== *)
(** * Process-wide state: crates/hrx-libhrx/src/runtime.rs

    The [Globals] behind the mutex, the CPU and GPU accelerators built on it and
    their devices.  Every entry point holds the lock for its whole body. *)

From stdpp Require Import pretty.
From S2P Require Import Prelude Iree Objects Machine Handle Status IreeHal Device Semaphore Buffer HostAllocator Executable BufferView ValueList Modules QueueOps Stream Pool StreamAlloc.

Definition HRX_MAX_DEVICES : nat := 64.
Definition HRX_VERSION_MAJOR : Z := 0.
Definition HRX_VERSION_MINOR : Z := 1.
Definition HRX_VERSION_PATCH : Z := 0.

Definition with_shared (g : Globals) (s : SharedState) : Globals :=
  MkGlobals s (g_cpu g) (g_gpu g) (g_pool_for_device g).
Definition with_cpu (g : Globals) (a : AccelState) : Globals :=
  MkGlobals (g_shared g) a (g_gpu g) (g_pool_for_device g).
Definition with_gpu (g : Globals) (a : AccelState) : Globals :=
  MkGlobals (g_shared g) (g_cpu g) a (g_pool_for_device g).
Definition with_pool_for_device (g : Globals) (p : ptr) : Globals :=
  MkGlobals (g_shared g) (g_cpu g) (g_gpu g) p.

(** One of the two accelerators of the globals: how to read and replace it, and
    the other one. *)
Record accel_slot := Slot {
  acc : Globals -> AccelState;
  set_acc : Globals -> AccelState -> Globals;
  other : Globals -> AccelState;
}.

Definition cpu_slot : accel_slot := Slot g_cpu with_cpu g_gpu.
Definition gpu_slot : accel_slot := Slot g_gpu with_gpu g_cpu.

(** ** Fixed-size strings *)

Definition bytes_of (s : string) : list Z :=
  (fun a => Z.of_nat (Ascii.nat_of_ascii a)) <$> String.list_ascii_of_string s.

(** [as c_char] on a byte. *)
Definition as_c_char (b : Z) : Z := if 128 <=? b then b - 256 else b.

(** [cstr_array::<N>] and [cstr_array_from_raw::<N>]. *)
Definition cstr_array_bytes (N : nat) (bytes : list Z) : list Z :=
  let n := Nat.min (length bytes) (N - 1) in
  (as_c_char <$> take n bytes) ++ replicate (N - n) 0.

Definition cstr_array (N : nat) (s : string) : list Z := cstr_array_bytes N (bytes_of s).

Section Runtime.
Context `{IREE}.

(** [hrx_runtime_version]. *)
Definition hrx_runtime_version (major minor patch : ptr) : M unit :=
  write_opt major HRX_VERSION_MAJOR ;;
  write_opt minor HRX_VERSION_MINOR ;;
  write_opt patch HRX_VERSION_PATCH.

Lemma hrx_runtime_version_spec w a b c :
  wf w -> wp (hrx_runtime_version a b c) (fun _ w' => safe w w' none none) w.
Proof.
  intros Hwf. unfold hrx_runtime_version. start_safe w.
  do 2 (wp_use write_opt_spec; [assumption|]; intros _ ? ?; merge_safe).
  wp_use write_opt_spec; [assumption|]. intros _ ? ?. merge_safe. close_safe.
Qed.

(** Updates of the locked [SharedState]. *)
Definition update_shared (f : SharedState -> SharedState) : M unit :=
  g ← get_globals; put_globals (with_shared g (f (g_shared g))).

(** [ensure_shared_state]. *)
Definition ensure_shared_state : M ptr :=
  g ← get_globals;
  if sh_initialized (g_shared g) then
    update_shared (fun s => Shared (sh_vm_instance s) (sh_proactor_pool s) (sh_host_allocator s)
                              (wrap_i32 (sh_init_count s + 1)) (sh_initialized s)) ;;
    mret hrx_ok_status
  else
    update_shared (fun s => Shared (sh_vm_instance s) (sh_proactor_pool s) allocator_system
                              (sh_init_count s) (sh_initialized s)) ;;
    inst ← call (ffi_create iree_vm_instance_create);
    if negb (status_is_ok (c_status inst)) then hrx_status_from_iree (c_status inst)
    else
      s ← call (ffi_status (iree_hal_module_register_all_types (c_ptr inst)));
      if negb (status_is_ok s) then
        call (ffi_release iree_vm_instance (c_ptr inst)) ;;
        hrx_status_from_iree s
      else
        update_shared (fun s => Shared (c_ptr inst) (sh_proactor_pool s) (sh_host_allocator s)
                                  (sh_init_count s) (sh_initialized s)) ;;
        pool ← call (ffi_create (iree_async_proactor_pool_create 1));
        if negb (status_is_ok (c_status pool)) then
          call (ffi_release iree_vm_instance (c_ptr inst)) ;;
          update_shared (fun s => Shared null (sh_proactor_pool s) (sh_host_allocator s)
                                    (sh_init_count s) (sh_initialized s)) ;;
          hrx_status_from_iree (c_status pool)
        else
          update_shared (fun s => Shared (sh_vm_instance s) (c_ptr pool) (sh_host_allocator s)
                                    1 true) ;;
          mret hrx_ok_status.

(** [release_shared_state]. *)
Definition release_shared_state : M unit :=
  g ← get_globals;
  if negb (sh_initialized (g_shared g)) then mret tt
  else
    let count := wrap_i32 (sh_init_count (g_shared g) - 1) in
    update_shared (fun s => Shared (sh_vm_instance s) (sh_proactor_pool s) (sh_host_allocator s)
                              count (sh_initialized s)) ;;
    if 0 <? count then mret tt
    else
      (if negb (is_null (sh_proactor_pool (g_shared g))) then
         call (ffi_release iree_async_proactor_pool (sh_proactor_pool (g_shared g))) ;;
         update_shared (fun s => Shared (sh_vm_instance s) null (sh_host_allocator s)
                                   (sh_init_count s) (sh_initialized s))
       else mret tt) ;;
      (if negb (is_null (sh_vm_instance (g_shared g))) then
         call (ffi_release iree_vm_instance (sh_vm_instance (g_shared g))) ;;
         update_shared (fun s => Shared null (sh_proactor_pool s) (sh_host_allocator s)
                                   (sh_init_count s) (sh_initialized s))
       else mret tt) ;;
      update_shared (fun s => Shared (sh_vm_instance s) (sh_proactor_pool s) (sh_host_allocator s)
                                (sh_init_count s) false).

(** [create_single_device_group]: status and group. *)
Definition create_single_device_group (device : ptr) : M created :=
  tracker ← call (ffi_create iree_async_frontier_tracker_create);
  if negb (status_is_ok (c_status tracker)) then mret (Created (c_status tracker) null)
  else
    group ← call (ffi_create (iree_hal_device_group_create_from_device device (c_ptr tracker)));
    call (ffi_release iree_async_frontier_tracker (c_ptr tracker)) ;;
    mret group.

(** The array [loaders] of [create_local_task_device]. *)
Definition MAX_LOADERS : nat := 8.

(** [for i in 0..loader_count { release(loaders[i]) }]: an index behind the array
    panics. *)
Fixpoint release_loaders_from (i : nat) (loaders : list ptr) : M unit :=
  match loaders with
  | [] => mret tt
  | l :: rest =>
      if (MAX_LOADERS <=? i)%nat then panic "index out of bounds"%string
      else call (ffi_release iree_hal_executable_loader l) ;; release_loaders_from (S i) rest
  end.

Definition release_loaders (loaders : list ptr) : M unit := release_loaders_from 0 loaders.

Definition WORKER_STACK_SIZE : Z := 256 * 1024.

(** [create_local_task_device]: an [hrx_status_t], or the driver and device. *)
Definition create_local_task_device (group_count : Z) : M (ptr + ptr * ptr) :=
  executor ← call (ffi_create (iree_task_executor_create group_count WORKER_STACK_SIZE));
  if negb (status_is_ok (c_status executor))
  then e ← hrx_status_from_iree (c_status executor); mret (inl e)
  else
    '(s, loaders) ← call (iree_hal_create_all_available_executable_loaders (Z.of_nat MAX_LOADERS));
    if negb (status_is_ok s) then
      call (ffi_release iree_task_executor (c_ptr executor)) ;;
      e ← hrx_status_from_iree s; mret (inl e)
    else
      heap ← call (ffi_create iree_hal_allocator_create_heap);
      if negb (status_is_ok (c_status heap)) then
        release_loaders loaders ;;
        call (ffi_release iree_task_executor (c_ptr executor)) ;;
        e ← hrx_status_from_iree (c_status heap); mret (inl e)
      else
        driver ← call (ffi_create (iree_hal_task_driver_create (c_ptr executor) loaders
                                     (c_ptr heap)));
        call (ffi_release iree_task_executor (c_ptr executor)) ;;
        release_loaders loaders ;;
        call (ffi_release iree_hal_allocator (c_ptr heap)) ;;
        if negb (status_is_ok (c_status driver))
        then e ← hrx_status_from_iree (c_status driver); mret (inl e)
        else
          g ← get_globals;
          dev ← call (ffi_create (iree_hal_driver_create_default_device (c_ptr driver)
                                    (g_pool_for_device g)));
          if negb (status_is_ok (c_status dev)) then
            call (ffi_release iree_hal_driver (c_ptr driver)) ;;
            e ← hrx_status_from_iree (c_status dev); mret (inl e)
          else mret (inr (c_ptr driver, c_ptr dev)).

(** The [into_handle_cyclic] closure shared by the two accelerators. *)
Definition build_device (type_ ordinal : Z) (hal_device device_group hal_alloc : ptr)
  (name architecture : list Z) : M ptr :=
  hd ← expect (nonnull_new hal_device) "null hal_device"%string;
  gr ← expect (nonnull_new device_group) "null group"%string;
  al ← expect (nonnull_new hal_alloc) "null allocator"%string;
  into_handle_cyclic (fun self_ptr =>
    Device type_ ordinal (AllocatorInline 1 al self_ptr) gr hd name architecture).

(** [hrx_cpu_initialize] once the shared state is up. *)
Definition cpu_bring_up : M ptr :=
  r ← create_local_task_device 4;
  match r with
  | inl e => release_shared_state ;; mret e
  | inr (driver, hal_device) =>
      group ← create_single_device_group hal_device;
      if negb (status_is_ok (c_status group)) then
        call (ffi_release iree_hal_device hal_device) ;;
        call (ffi_release iree_hal_driver driver) ;;
        release_shared_state ;;
        hrx_status_from_iree (c_status group)
      else
        hal_alloc ← call (ffi_get (iree_hal_device_allocator hal_device));
        call (ffi_retain iree_hal_allocator hal_alloc) ;;
        dev ← build_device HRX_ACCELERATOR_CPU 0 hal_device (c_ptr group) hal_alloc
                (cstr_array 128 "CPU 0 (local-task)"%string) (cstr_array 64 "host"%string);
        g ← get_globals;
        put_globals (with_cpu g (Accel [dev] 1 true driver)) ;;
        mret hrx_ok_status
  end.

(** [hrx_cpu_initialize]. *)
Definition hrx_cpu_initialize (flags : Z) : M ptr :=
  g ← get_globals;
  if ac_initialized (g_cpu g)
  then hrx_make_status (code_i32 AlreadyExists) (Some "CPU accelerator already initialized"%string)
  else
    s ← ensure_shared_state;
    if negb (hrx_status_is_ok s) then mret s
    else
      g ← get_globals;
      put_globals (with_pool_for_device g (sh_proactor_pool (g_shared g))) ;;
      cpu_bring_up.

(** [for d in devices { hrx_device_release(d) }]. *)
Fixpoint release_devices (ds : list ptr) : M unit :=
  match ds with
  | [] => mret tt
  | d :: ds => hrx_device_release d ;; release_devices ds
  end.

(** [hrx_cpu_shutdown] and [hrx_gpu_shutdown] have the same body over their
    half of the globals. *)
Definition accel_shutdown (slot : accel_slot) (message : string) : M ptr :=
  g ← get_globals;
  let a := acc slot g in
  if negb (ac_initialized a)
  then hrx_make_status (code_i32 InvalidArgument) (Some message)
  else
    put_globals (set_acc slot g (Accel [] (ac_device_count a) (ac_initialized a) (ac_driver a))) ;;
    release_devices (ac_devices a) ;;
    (if negb (is_null (ac_driver a)) then call (ffi_release iree_hal_driver (ac_driver a))
     else mret tt) ;;
    g ← get_globals;
    put_globals (set_acc slot g (Accel [] 0 false null)) ;;
    release_shared_state ;;
    mret hrx_ok_status.

Definition hrx_cpu_shutdown : M ptr :=
  accel_shutdown cpu_slot "CPU accelerator not initialized"%string.

(** [hrx_cpu_device_count] / [hrx_gpu_device_count]. *)
Definition accel_device_count (slot : accel_slot) (message : string) (count : ptr) : M ptr :=
  if is_null count
  then hrx_make_status (code_i32 InvalidArgument) (Some "count is NULL"%string)
  else
    g ← get_globals;
    if negb (ac_initialized (acc slot g))
    then hrx_make_status (code_i32 Unavailable) (Some message)
    else write_out count (ac_device_count (acc slot g)) ;; mret hrx_ok_status.

Definition hrx_cpu_device_count (count : ptr) : M ptr :=
  accel_device_count cpu_slot "CPU accelerator not initialized"%string count.

(** [hrx_cpu_device_get] / [hrx_gpu_device_get]; the vector index is checked. *)
Definition accel_device_get (slot : accel_slot) (down range : string) (index : Z) (device : ptr)
  : M ptr :=
  if is_null device
  then hrx_make_status (code_i32 InvalidArgument) (Some "device is NULL"%string)
  else
    g ← get_globals;
    if negb (ac_initialized (acc slot g))
    then hrx_make_status (code_i32 Unavailable) (Some down)
    else if (index <? 0) || (ac_device_count (acc slot g) <=? index)
    then hrx_make_status (code_i32 OutOfRange) (Some range)
    else
      d ← expect (ac_devices (acc slot g) !! Z.to_nat index) "index out of bounds"%string;
      write_out device d ;;
      mret hrx_ok_status.

Definition hrx_cpu_device_get (index : Z) (device : ptr) : M ptr :=
  accel_device_get cpu_slot "CPU accelerator not initialized"%string
    "CPU device index out of range"%string index device.

(** [gpu_architecture]. *)
Definition gpu_architecture (hal_device : ptr) : M (list Z) :=
  '(s, gfxip) ← call (ffi_read (iree_hal_device_query_i64 hal_device "hal.device" "gfxip"));
  if negb (status_is_ok s) then
    call (ffi_release iree_status s) ;;
    mret (cstr_array 64 "unknown"%string)
  else
    let major := Z.land (Z.shiftr gfxip 16) 255 in
    let minor := Z.land (Z.shiftr gfxip 8) 255 in
    let stepping := Z.land gfxip 255 in
    mret (cstr_array 64 ("gfx" +:+ pretty major +:+ pretty minor +:+ pretty stepping)%string).

(** The device loop of [hrx_gpu_initialize]: the IREE status of the device that
    failed and the devices made before it, or all the devices. *)
Fixpoint gpu_devices (driver pool : ptr) (infos : list iree_hal_device_info_t) (info_index : Z)
  (count : nat) (devices : list ptr) : M (Z * list ptr + list ptr) :=
  match infos with
  | [] => mret (inr devices)
  | info :: rest =>
      if (length devices <? count)%nat then
        if di_path_size info =? 0
        then gpu_devices driver pool rest (info_index + 1) count devices
        else
          hal ← call (ffi_create (iree_hal_driver_create_device_by_ordinal driver info_index pool));
          if negb (status_is_ok (c_status hal)) then mret (inl (c_status hal, devices))
          else
            group ← create_single_device_group (c_ptr hal);
            if negb (status_is_ok (c_status group)) then
              call (ffi_release iree_hal_device (c_ptr hal)) ;;
              mret (inl (c_status group, devices))
            else
              hal_alloc ← call (ffi_get (iree_hal_device_allocator (c_ptr hal)));
              call (ffi_retain iree_hal_allocator hal_alloc) ;;
              arch ← gpu_architecture (c_ptr hal);
              dev ← build_device HRX_ACCELERATOR_GPU (wrap_i32 (Z.of_nat (length devices)))
                      (c_ptr hal) (c_ptr group) hal_alloc
                      (cstr_array_bytes 128 (di_name info)) arch;
              gpu_devices driver pool rest (info_index + 1) count (devices ++ [dev])
      else mret (inr devices)
  end.

Definition physical (infos : list iree_hal_device_info_t) : nat :=
  length (filter (fun i => di_path_size i <> 0) infos).

(** Failure after the driver exists: free the info array, release the driver
    and the shared state. *)
Definition gpu_abandon (alloc : iree_allocator_t) (infos driver : ptr) : M unit :=
  call (iree_allocator_free alloc infos) ;;
  call (ffi_release iree_hal_driver driver) ;;
  release_shared_state.

(** [hrx_gpu_initialize] once the driver exists: enumerate and build devices. *)
Definition gpu_enumerate (alloc : iree_allocator_t) (pool driver : ptr) : M ptr :=
  '(s, infos_ptr, infos) ← call (iree_hal_driver_query_available_devices driver);
  if negb (status_is_ok s) then
    call (ffi_release iree_hal_driver driver) ;;
    release_shared_state ;;
    hrx_status_from_iree s
  else if (length infos =? 0)%nat then
    gpu_abandon alloc infos_ptr driver ;;
    hrx_make_status (code_i32 Unavailable) (Some "no GPU devices found"%string)
  else if (physical infos =? 0)%nat then
    gpu_abandon alloc infos_ptr driver ;;
    hrx_make_status (code_i32 Unavailable) (Some "no physical GPU devices found"%string)
  else
    let count := Nat.min (physical infos) HRX_MAX_DEVICES in
    r ← gpu_devices driver pool infos 0 count [];
    match r with
    | inl (s, devices) =>
        release_devices devices ;;
        gpu_abandon alloc infos_ptr driver ;;
        hrx_status_from_iree s
    | inr devices =>
        call (iree_allocator_free alloc infos_ptr) ;;
        g ← get_globals;
        put_globals (with_gpu g (Accel devices (wrap_i32 (Z.of_nat (length devices))) true driver)) ;;
        mret hrx_ok_status
    end.

(** [hrx_gpu_initialize] once the shared state is up. *)
Definition gpu_bring_up : M ptr :=
  g ← get_globals;
  let alloc := sh_host_allocator (g_shared g) in
  let pool := sh_proactor_pool (g_shared g) in
  registry ← call (ffi_get iree_hal_driver_registry_default);
  s ← call (ffi_status (iree_hal_amdgpu_driver_module_register registry));
  if negb (status_is_ok s) && negb (status_code s =? 6)
  then release_shared_state ;; hrx_status_from_iree s
  else
    (if negb (status_is_ok s) then call (ffi_release iree_status s) else mret tt) ;;
    driver ← call (ffi_create (iree_hal_driver_registry_try_create registry));
    if negb (status_is_ok (c_status driver))
    then release_shared_state ;; hrx_status_from_iree (c_status driver)
    else gpu_enumerate alloc pool (c_ptr driver).

(** [hrx_gpu_initialize]. *)
Definition hrx_gpu_initialize (flags : Z) : M ptr :=
  g ← get_globals;
  if ac_initialized (g_gpu g)
  then hrx_make_status (code_i32 AlreadyExists) (Some "GPU accelerator already initialized"%string)
  else
    s ← ensure_shared_state;
    if negb (hrx_status_is_ok s) then mret s else gpu_bring_up.

Definition hrx_gpu_shutdown : M ptr :=
  accel_shutdown gpu_slot "GPU accelerator not initialized"%string.

Definition hrx_gpu_device_count (count : ptr) : M ptr :=
  accel_device_count gpu_slot "GPU accelerator not initialized"%string count.

Definition hrx_gpu_device_get (index : Z) (device : ptr) : M ptr :=
  accel_device_get gpu_slot "GPU accelerator not initialized"%string
    "GPU device index out of range"%string index device.
End Runtime.

(** ** Invariant of the process-wide state *)

Definition b2z (b : bool) : Z := if b then 1 else 0.

(** Shared state used by [n] accelerators. *)
Definition shared_inv (s : SharedState) (n : Z) : Prop :=
  sh_initialized s = (0 <? n)
  /\ (0 < n -> sh_init_count s = n /\ sh_vm_instance s <> 0 /\ sh_proactor_pool s <> 0)
  /\ (n <= 0 -> sh_vm_instance s = 0 /\ sh_proactor_pool s = 0).

Definition accel_inv (a : AccelState) : Prop :=
  ac_device_count a = Z.of_nat (length (ac_devices a))
  /\ (length (ac_devices a) <= HRX_MAX_DEVICES)%nat
  /\ (ac_initialized a = false -> ac_devices a = [] /\ ac_driver a = 0).

Definition accel_users (g : Globals) : Z :=
  b2z (ac_initialized (g_cpu g)) + b2z (ac_initialized (g_gpu g)).

Definition runtime_inv (g : Globals) : Prop :=
  shared_inv (g_shared g) (accel_users g) /\ accel_inv (g_cpu g) /\ accel_inv (g_gpu g).

Lemma runtime_inv_initial : runtime_inv globals_initial.
Proof. unfold runtime_inv, shared_inv, accel_inv, accel_users; simpl. repeat split; done || lia. Qed.

(** A call that touches only the shared part of the globals. *)
Definition shared_step (w w' : world) (s' : SharedState) : Prop :=
  w_heap w' = w_heap w /\ w_mem w' = w_mem w /\ w_pools w' = w_pools w
  /\ w_glob w' = with_shared (w_glob w) s'.

(** Replacing the globals: references and device handles move between the
    running call and the statics. *)
Lemma safe_set_glob_links w g :
  wf w -> (forall h, globals_link g h <= ext w h + globals_link (w_glob w) h) ->
  (forall d, d ∈ ac_devices (g_cpu g) \/ d ∈ ac_devices (g_gpu g) -> usable w KDevice d) ->
  safe w (set_glob w g) (fun p => globals_own (w_glob w) p - globals_own g p)
    (fun h => globals_link (w_glob w) h - globals_link g h).
Proof.
  intros Hwf Hl Hu.
  assert (forall h, ext (set_glob w g) h
            = ext w h + (globals_link (w_glob w) h - globals_link g h)) as Hext.
  { intros h. unfold ext, strong, internal. simpl. lia. }
  split; [split|split|by intros h].
  - apply (wf_next _ Hwf).
  - apply (wf_heap_fresh _ Hwf).
  - apply (wf_cheap_fresh _ Hwf).
  - apply (wf_heap_low _ Hwf).
  - apply (wf_strong _ Hwf).
  - intros h. rewrite Hext. specialize (Hl h). lia.
  - apply (wf_links _ Hwf).
  - apply (wf_self _ Hwf).
  - apply Hu.
  - simpl. lia.
  - done.
  - simpl. congruence.
  - intros p. unfold imb, owned. simpl. lia.
  - done.
Qed.

Lemma safe_set_glob w g :
  wf w -> (forall h, globals_link g h = globals_link (w_glob w) h) ->
  (forall d, d ∈ ac_devices (g_cpu g) \/ d ∈ ac_devices (g_gpu g) -> usable w KDevice d) ->
  safe w (set_glob w g) (fun p => globals_own (w_glob w) p - globals_own g p) none.
Proof.
  intros Hwf Hl Hu. eapply safe_equiv; [apply safe_set_glob_links; [done| |done]|done|].
  - intros h. rewrite Hl. pose proof (wf_ext _ Hwf h). lia.
  - intros h. cbv beta. rewrite Hl. unfold none. lia.
Qed.

Lemma wp_get_globals Q w : Q (w_glob w) w -> wp get_globals Q w.
Proof. done. Qed.

Section SharedSpecs.
Context `{IREE}.

Lemma update_shared_spec f w :
  wf w -> wp (update_shared f) (fun _ w' =>
    safe w w' (fun p => cnt (sh_vm_instance (g_shared (w_glob w))) p
                        + cnt (sh_proactor_pool (g_shared (w_glob w))) p
                        - cnt (sh_vm_instance (f (g_shared (w_glob w)))) p
                        - cnt (sh_proactor_pool (f (g_shared (w_glob w)))) p) none
    /\ w' = set_glob w (with_shared (w_glob w) (f (g_shared (w_glob w))))) w.
Proof.
  intros Hwf. unfold wp, update_shared. simpl. split; [|done].
  eapply safe_equiv; [apply safe_set_glob; [done|done|apply (wf_globals _ Hwf)]| |done].
  intros p. unfold globals_own. simpl. lia.
Qed.
End SharedSpecs.

(** The globals through the steps collected by a proof. *)
Ltac glob_step :=
  match goal with
  | H : frame ?x ?y |- context [w_glob ?y] => rewrite (proj2 (proj2 (proj2 H)))
  | H : frame ?x ?y |- context [w_heap ?y] => rewrite (proj1 H)
  | H : frame ?x ?y |- context [w_mem ?y] => rewrite (proj1 (proj2 H))
  | H : frame ?x ?y |- context [w_pools ?y] => rewrite (proj1 (proj2 (proj2 H)))
  | H : w_cheap ?y = w_cheap ?x |- context [w_cheap ?y] => rewrite H
  | H : ?y = set_glob _ _ |- context [?y] => rewrite H; simpl
  end.
Ltac glob_tac := repeat glob_step; simpl.

Ltac run_hook7 := fail.

Ltac run_hook6 ::=
  lazymatch goal with
  | |- wp (stream_ref _ ≫= _) _ _ => wp_stream_ref
  | |- wp (stream_update _ begin_cb ≫= _) _ _ => wp_stream_update begin_cb_spec
  | |- wp (record_ordering_barrier _ ≫= _) _ _ => unfold record_ordering_barrier
  | |- wp (get_globals ≫= _) _ _ => apply wp_bind, wp_get_globals; cbv beta
  | |- wp (update_shared _) _ _ =>
      wp_use update_shared_spec; [assumption|]; let w' := fresh "w" in
      intros ?u w' (? & ?Hg); merge_safe; cbv beta
  | |- wp (update_shared _ ≫= _) _ _ =>
      wp_use update_shared_spec; [assumption|]; let w' := fresh "w" in
      intros ?u w' (? & ?Hg); merge_safe
  | _ => run_hook7
  end.

Ltac shared_step_tac :=
  split; [by glob_tac|]; split; [by glob_tac|]; split; [by glob_tac|]; glob_tac; reflexivity.

Ltac close_glob_safe :=
  eapply safe_equiv; [eassumption|let p := fresh "p" in intros p; cbv beta; glob_tac; ledger|ledger].

Ltac close_shared :=
  split; [close_glob_safe|]; split; [first [assumption | by left]|];
  eexists; split; [shared_step_tac|].

Section SharedEntries.
Context `{IREE}.

Lemma ensure_shared_state_spec `{!IreeCreates} w n :
  wf w -> shared_inv (g_shared (w_glob w)) n -> 0 <= n < I32_MAX ->
  wp ensure_shared_state (fun r w' =>
    safe w w' none none /\ status_value w' r /\
    exists s', shared_step w w' s' /\
      ((r = 0 /\ shared_inv s' (n + 1)) \/ ((LibcAlloc -> r <> 0) /\ shared_inv s' n))) w.
Proof.
  intros Hwf (Hi & Hpos & Hzero) Hn. unfold ensure_shared_state.
  destruct (Z.ltb_spec 0 n) as [Hlt|Hle].
  - clear Hzero. destruct Hpos as (Hc & Hv & Hp); [done|]. start_safe w. run; [|congruence..].
    close_shared. left. split; [done|]. split; [|split; [|lia]]; simpl.
    + transitivity true; [congruence|]. symmetry. apply Z.ltb_lt. lia.
    + intros _. split; [|done]. rewrite Hc. unfold wrap_i32, I32_MAX in *.
      rewrite Z.mod_small; lia.
  - destruct Hzero as [Hv Hp]; [done|]. assert (n = 0) as -> by lia. clear Hpos.
    assert (is_null (sh_vm_instance (g_shared (w_glob w))) = true) by (by apply is_null_true).
    assert (is_null (sh_proactor_pool (g_shared (w_glob w))) = true) by (by apply is_null_true).
    start_safe w. run; [congruence|..]; close_shared.
    1-3: right; split; [nonzero_status|]; by repeat split.
    left. split; [done|]. split; [done|]. split; [|lia]. intros _. simpl.
    split; [done|]. split; created_nonnull.
Qed.

Lemma release_shared_state_spec w n :
  wf w -> shared_inv (g_shared (w_glob w)) n -> 1 <= n <= I32_MAX ->
  wp release_shared_state (fun _ w' =>
    safe w w' none none /\ w_cheap w' = w_cheap w /\
    exists s', shared_step w w' s' /\ shared_inv s' (n - 1)) w.
Proof.
  intros Hwf (Hi & Hpos & _) Hn. destruct Hpos as (Hc & Hv & Hp); [lia|].
  unfold release_shared_state.
  assert (wrap_i32 (sh_init_count (g_shared (w_glob w)) - 1) = n - 1) as Hcount.
  { rewrite Hc. unfold wrap_i32, I32_MAX in *. rewrite Z.mod_small; lia. }
  rewrite (proj2 (Z.ltb_lt 0 n)) in Hi by lia.
  assert (is_null (sh_vm_instance (g_shared (w_glob w))) = false) as Hvn by (by apply is_null_false).
  assert (is_null (sh_proactor_pool (g_shared (w_glob w))) = false) as Hpn by (by apply is_null_false).
  apply wp_bind, wp_get_globals. cbv beta.
  rewrite Hi, Hcount. cbn [negb]. start_safe w.
  run; rewrite ?Hvn, ?Hpn in *; try discriminate; run; try discriminate.
  all: split; [close_glob_safe|]; split; [by glob_tac|]; eexists; split; [shared_step_tac|].
  - bool_to_prop. split; [|split; [|lia]]; simpl.
    + rewrite Hi. symmetry. apply Z.ltb_lt. lia.
    + done.
  - bool_to_prop. assert (n = 1) as -> by lia. by repeat split.
Qed.
End SharedEntries.

(** ** Building devices *)

(** Every HAL device has an allocator. *)
Class IreeDeviceAllocator `{IREE} := iree_device_allocator_nonnull :
  forall tr d, iree_respond tr (ffi_get (iree_hal_device_allocator d)) <> 0.

Lemma cstr_array_bytes_length N bytes : (0 < N)%nat -> length (cstr_array_bytes N bytes) = N.
Proof.
  intros HN. unfold cstr_array_bytes. rewrite length_app, length_fmap, length_take, length_replicate.
  lia.
Qed.

Lemma cstr_len_app_zero l m : cstr_len (l ++ 0 :: m) <= Z.of_nat (length l).
Proof. induction l as [|c l IH]; simpl; [lia|]. destruct (c =? 0); lia. Qed.

(** The arrays are NUL-terminated whatever the source string. *)
Lemma cstr_array_bytes_ok N bytes : (0 < N)%nat -> cstr_ok (cstr_array_bytes N bytes).
Proof.
  intros HN. unfold cstr_ok. rewrite cstr_array_bytes_length by done. unfold cstr_array_bytes.
  set (n := Nat.min (length bytes) (N - 1)). destruct (N - n)%nat as [|k] eqn:E; [lia|].
  cbn [replicate]. eapply Z.le_lt_trans; [apply cstr_len_app_zero|].
  rewrite length_fmap, length_take. lia.
Qed.

Section DeviceBuild.
Context `{IREE}.

Lemma create_single_device_group_spec `{!IreeCreates} w d :
  wf w ->
  wp (create_single_device_group d) (fun r w' =>
    frame w w' /\ w_cheap w' = w_cheap w /\ (c_status r = 0 -> c_ptr r <> 0) /\
    safe w w' (fun p => cnt (c_status r) p + ok_cnt (c_status r) (c_ptr r) p) none) w.
Proof.
  intros Hwf. unfold create_single_device_group. start_safe w. run.
  - split; [done|]. split; [done|]. simpl.
    split; [unfold status_is_ok in *; by bool_to_prop|]. close_safe.
  - split; [eauto using frame_trans|]. split; [congruence|]. split; [done|].
    destruct (is_null (c_status r0)) eqn:?; close_safe.
Qed.

Lemma release_loaders_from_spec ls : forall i w,
  wf w -> (i + length ls <= MAX_LOADERS)%nat -> wp (release_loaders_from i ls) (fun _ w' =>
    safe w w' (fun p => - lsum (fun l => cnt l p) ls) none /\ frame w w'
    /\ w_cheap w' = w_cheap w) w.
Proof.
  induction ls as [|l ls IH]; intros i w Hwf Hi; cbn [release_loaders_from length] in *.
  - apply wp_ret. split; [|split; [apply frame_refl|done]].
    eapply safe_equiv; [by apply safe_refl|done|done].
  - destruct (Nat.leb_spec MAX_LOADERS i) as [|_]; [lia|].
    wp_use call_frame; [done|]. intros u1 w1 (HS1 & Hfr1 & _ & Hc1).
    wp_use IH; [apply HS1|lia|]. intros _ w2 (HS2 & Hfr2 & Hc2). split; [|split; [|congruence]].
    + eapply safe_equiv; [eapply safe_trans; [done|exact HS1|exact HS2]|..]; ledger.
    + by eapply frame_trans.
Qed.

Lemma release_loaders_spec tr s ls w :
  wf w -> (forall tr n, 0 < n -> Z.of_nat (length (iree_respond tr
             (iree_hal_create_all_available_executable_loaders n)).2) <= n) ->
  (s, ls) = iree_respond tr (iree_hal_create_all_available_executable_loaders (Z.of_nat MAX_LOADERS)) ->
  wp (release_loaders ls) (fun _ w' =>
    safe w w' (fun p => - lsum (fun l => cnt l p) ls) none /\ frame w w'
    /\ w_cheap w' = w_cheap w) w.
Proof.
  intros Hwf Hfit Hs. apply release_loaders_from_spec; [done|].
  specialize (Hfit tr (Z.of_nat MAX_LOADERS)). rewrite <- Hs in Hfit. unfold MAX_LOADERS in *.
  simpl in *. lia.
Qed.

Lemma build_device_spec w ty ord hd gr al name arch :
  wf w -> hd <> 0 -> gr <> 0 -> al <> 0 -> cstr_ok name -> cstr_ok arch ->
  wp (build_device ty ord hd gr al name arch) (fun h w' =>
    safe w w' (fun p => - (cnt al p + cnt gr p + cnt hd p)) (one h)
    /\ usable w' KDevice h /\ w_next w <= h
    /\ w_glob w' = w_glob w /\ w_cheap w' = w_cheap w /\ w_mem w' = w_mem w) w.
Proof.
  intros Hwf Hh Hg Ha Hn Har. unfold build_device.
  do 3 (apply wp_bind, expect_nonnull_spec; [done|]).
  unfold wp, into_handle_cyclic, into_handle.
  split; [|split; [|split; [simpl; lia|done]]].
  - eapply safe_equiv; [apply insert_wf_safe; [done|by apply floats_nil|done]|..]; ledger.
  - eexists _, _. split; [simpl; by rewrite lookup_insert_eq|done].
Qed.
End DeviceBuild.

Ltac run_hook8 := fail.

Ltac run_hook7 ::=
  lazymatch goal with
  | |- wp (create_single_device_group _ ≫= _) _ _ =>
      wp_use create_single_device_group_spec; [assumption|];
      let r := fresh "r" in let w' := fresh "w" in
      intros r w' (?Hfr & ?Hch & ?Hnn & ?); merge_safe
  | |- wp (release_loaders _ ≫= _) _ _ =>
      wp_use release_loaders_spec; [assumption|exact iree_loaders_fit|eassumption|];
      let w' := fresh "w" in intros ?u w' (? & ?Hfr & ?Hch); merge_safe
  | _ => run_hook8
  end.

Section LocalTask.
Context `{IREE}.

Definition local_task_post (w w' : world) (r : ptr + ptr * ptr) : Prop :=
  frame w w' /\
  match r with
  | inl e => status_value w' e /\ (LibcAlloc -> e <> 0) /\ safe w w' none none
  | inr (driver, dev) =>
      driver <> 0 /\ dev <> 0 /\ safe w w' (fun p => cnt driver p + cnt dev p) none
  end.

(** Everything made on the way is given back, whatever step fails. *)
Lemma create_local_task_device_spec `{!IreeCreates} w n :
  wf w -> wp (create_local_task_device n) (fun r w' => local_task_post w w' r) w.
Proof.
  intros Hwf. unfold create_local_task_device. start_safe w. run.
  all: split; [eauto 12 using frame_trans|].
  all: try (split; [status_live|]; split; [nonzero_status|]; close_safe).
  split; [created_nonnull|]. split; [created_nonnull|close_safe].
Qed.
End LocalTask.

Section CpuSpecs.
Context `{IREE}.

(** The end of a successful initialization: the device handle and the driver
    reference move into the globals. *)
Lemma put_cpu_spec w g dev driver :
  wf w -> w_glob w = g -> usable w KDevice dev -> 1 <= ext w dev ->
  ac_devices (g_cpu g) = [] -> ac_driver (g_cpu g) = 0 ->
  wp (put_globals (with_cpu g (Accel [dev] 1 true driver))) (fun _ w' =>
    safe w w' (fun p => - cnt driver p) (fun h => - one dev h) /\
    w_cheap w' = w_cheap w /\ w_glob w' = with_cpu g (Accel [dev] 1 true driver)) w.
Proof.
  intros Hwf <- Hu He Hd Hdr. unfold wp, put_globals. split; [|done].
  eapply safe_equiv; [apply safe_set_glob_links; [done|..]|..].
  - intros h. unfold globals_link. simpl. rewrite Hd. simpl.
    pose proof (wf_ext _ Hwf h). unfold one. destruct (Z.eqb_spec dev h); [subst|]; lia.
  - intros d [Hin|Hin]; simpl in Hin.
    + apply list_elem_of_singleton in Hin. by subst.
    + apply (wf_globals _ Hwf). by right.
  - intros p. unfold globals_own, accel_owns. simpl. rewrite Hdr, cnt_null. lia.
  - intros h. unfold globals_link. simpl. rewrite Hd. simpl. lia.
Qed.

Lemma put_pool_for_device_spec w p :
  wf w -> wp (put_globals (with_pool_for_device (w_glob w) p)) (fun _ w' =>
    safe w w' none none /\ w' = set_glob w (with_pool_for_device (w_glob w) p)) w.
Proof.
  intros Hwf. unfold wp, put_globals. split; [|done].
  eapply safe_equiv; [apply safe_set_glob; [done|done|apply (wf_globals _ Hwf)]| |done].
  intros q. unfold globals_own, none. simpl. lia.
Qed.

Lemma runtime_inv_cpu_down g s :
  runtime_inv g -> ac_initialized (g_cpu g) = false -> shared_inv s (accel_users g) ->
  runtime_inv (with_shared g s).
Proof. by intros (? & ? & ?) ? ?. Qed.

Lemma accel_users_bounds g : 0 <= accel_users g <= 2.
Proof. unfold accel_users, b2z. repeat case_match; lia. Qed.

(** What bringing up an accelerator guarantees, from a state where the shared
    state already counts it. *)
Definition bring_up_post (w w' : world) (r : ptr) (acc : Globals -> AccelState)
  (other : Globals -> AccelState) (n : Z) : Prop :=
  status_value w' r /\ other (w_glob w') = other (w_glob w) /\
  ((r = 0 /\ ac_initialized (acc (w_glob w')) = true /\ accel_inv (acc (w_glob w'))
    /\ shared_inv (g_shared (w_glob w')) n)
   \/ (r <> 0 /\ acc (w_glob w') = acc (w_glob w) /\ shared_inv (g_shared (w_glob w')) (n - 1))).

Lemma cpu_bring_up_spec `{!IreeCreates, !LibcAlloc, !IreeDeviceAllocator} w n :
  wf w -> shared_inv (g_shared (w_glob w)) n -> 1 <= n <= 2 ->
  ac_devices (g_cpu (w_glob w)) = [] -> ac_driver (g_cpu (w_glob w)) = 0 ->
  wp cpu_bring_up (fun r w' =>
    safe w w' none none /\ bring_up_post w w' r g_cpu g_gpu n) w.
Proof.
  intros Hwf Hsh Hn Hd Hdr. unfold cpu_bring_up. start_safe w.
  wp_use create_local_task_device_spec; [done|].
  intros [e|[driver hal]] w1 ((Hh1 & Hm1 & _ & Hg1) & Hcase).
  - destruct Hcase as (Hst & Hnz & ?). merge_safe.
    wp_use release_shared_state_spec; [done|by rewrite Hg1|unfold I32_MAX; lia|].
    intros _ w2 (? & Hc2 & s2 & (_ & _ & _ & Hg2) & Hs2). merge_safe. apply wp_ret.
    split; [close_safe|]. split; [by eapply status_value_cheap|]. rewrite Hg2, Hg1.
    split; [done|]. right. split; [by apply Hnz|done].
  - destruct Hcase as (Hdn & Hhn & ?). merge_safe. run.
    + wp_use release_shared_state_spec; [done|glob_tac; by rewrite Hg1|unfold I32_MAX; lia|].
      intros _ w5 (? & Hc5 & s5 & (_ & _ & _ & Hg5) & Hs5). merge_safe. run.
      split; [close_safe|]. split; [done|].
      glob_step. rewrite Hg5. glob_tac. rewrite Hg1. split; [done|]. right. split; [|done].
      revert H1. nonzero_status.
    + wp_use build_device_spec; [done|done|created_nonnull| | | |].
      { rewrite Hresp. apply iree_device_allocator_nonnull. }
      1-2: apply cstr_array_bytes_ok; lia.
      intros dev w4 (? & Hu & _ & Hg4 & _ & _). merge_safe. run.
      assert (w_glob w4 = w_glob w) as Hgw by (rewrite Hg4; glob_tac; done).
      wp_use put_cpu_spec; [done|done|done|ext_tac|by rewrite Hgw|by rewrite Hgw|].
      intros _ w5 (? & _ & Hg5). merge_safe. run.
      split; [close_safe|]. split; [by left|]. rewrite Hg5, Hgw. split; [done|]. left.
      split; [done|]. split; [done|]. split; [|done].
      split; [done|]. split; [simpl; unfold HRX_MAX_DEVICES; lia|done].
Qed.

(** Initializing the CPU accelerator keeps the globals consistent and leaks
    nothing on any path; on OK the accelerator is up. *)
Lemma hrx_cpu_initialize_spec `{!IreeCreates, !LibcAlloc, !IreeDeviceAllocator} w flags :
  wf w -> runtime_inv (w_glob w) ->
  wp (hrx_cpu_initialize flags) (fun r w' =>
    safe w w' none none /\ status_value w' r /\ runtime_inv (w_glob w')
    /\ (r = 0 -> ac_initialized (g_cpu (w_glob w')) = true)
    /\ (r <> 0 -> g_cpu (w_glob w') = g_cpu (w_glob w))
    /\ g_gpu (w_glob w') = g_gpu (w_glob w)) w.
Proof.
  intros Hwf Hinv. unfold hrx_cpu_initialize. start_safe w.
  apply wp_bind, wp_get_globals. destruct (ac_initialized (g_cpu (w_glob w))) eqn:Ecpu.
  { run. split; [close_safe|]. split; [done|]. rewrite (proj2 (proj2 (proj2 Hfr))). done. }
  destruct Hinv as (Hsh & Hcpu & Hgpu). pose proof (accel_users_bounds (w_glob w)).
  wp_use ensure_shared_state_spec; [done|done|unfold I32_MAX; lia|].
  intros s w1 (? & Hst & s1 & (Hh1 & Hm1 & _ & Hg1) & Hcase). merge_safe.
  destruct (hrx_status_is_ok s) eqn:Es; simpl; unfold hrx_status_is_ok in Es; bool_to_prop.
  2:{ apply wp_ret. destruct Hcase as [[-> _]|[_ Hsh1]]; [done|].
      split; [close_safe|]. split; [done|]. rewrite Hg1. done. }
  subst s. destruct Hcase as [[_ Hsh1]|[Hn _]]; [|by exfalso; apply Hn].
  apply wp_bind, wp_get_globals.
  wp_use put_pool_for_device_spec; [done|]. intros _ w2 (? & Hw2). merge_safe.
  assert (w_glob w2 = with_pool_for_device (with_shared (w_glob w) s1) (sh_proactor_pool s1)) as Hg2
    by (rewrite Hw2, Hg1; done).
  destruct Hcpu as (Hc1 & Hc2 & Hc3). destruct Hc3 as [Hc3 Hc4]; [done|].
  wp_use (cpu_bring_up_spec w2 (accel_users (w_glob w) + 1));
    [done|by rewrite Hg2| |by rewrite Hg2|by rewrite Hg2|].
  { unfold accel_users in *. rewrite Ecpu in *. unfold b2z in *. case_match; lia. }
  intros r w3 (? & Hst3 & Hother & Hup). merge_safe. rewrite Hg2 in Hother, Hup. simpl in *.
  split; [close_safe|]. split; [done|].
  destruct Hup as [(-> & Hi & Ha & Hs)|(Hr & Ha & Hs)].
  - split; [|done]. split; [|by rewrite Hother].
    unfold accel_users in *. rewrite Hi, Hother. rewrite Ecpu in Hs. simpl in Hs.
    by replace (b2z true + b2z (ac_initialized (g_gpu (w_glob w))))
      with (0 + b2z (ac_initialized (g_gpu (w_glob w))) + 1) by (simpl; lia).
  - split; [|done]. split; [|by rewrite Hother, Ha]. unfold accel_users in *. rewrite Ha, Hother.
    by rewrite Z.add_simpl_r in Hs.
Qed.
End CpuSpecs.

(** ** Shutting down *)

(** What holds of either accelerator slot. *)
Class SlotLaws (slot : accel_slot) := {
  slot_get_set g a : acc slot (set_acc slot g a) = a;
  slot_set_set g a b : set_acc slot (set_acc slot g a) b = set_acc slot g b;
  slot_other g a : other slot (set_acc slot g a) = other slot g;
  slot_shared g a : g_shared (set_acc slot g a) = g_shared g;
  slot_link g a h : globals_link (set_acc slot g a) h
    = globals_link g h - device_links (ac_devices (acc slot g)) h + device_links (ac_devices a) h;
  slot_own g a p : globals_own (set_acc slot g a) p
    = globals_own g p - accel_owns (acc slot g) p + accel_owns a p;
  slot_users g : accel_users g = b2z (ac_initialized (acc slot g)) + b2z (ac_initialized (other slot g));
  slot_inv g : runtime_inv g <->
    shared_inv (g_shared g) (accel_users g) /\ accel_inv (acc slot g) /\ accel_inv (other slot g);
  slot_devices g d : (d ∈ ac_devices (g_cpu g) \/ d ∈ ac_devices (g_gpu g))
    <-> (d ∈ ac_devices (acc slot g) \/ d ∈ ac_devices (other slot g));
  slot_with_shared g s : acc slot (with_shared g s) = acc slot g;
  slot_other_shared g s : other slot (with_shared g s) = other slot g;
}.

Ltac solve_slot :=
  intros; unfold runtime_inv, accel_users, globals_link, globals_own; simpl; first [done|lia|tauto].

#[export] Instance cpu_slot_laws : SlotLaws cpu_slot.
Proof. split; solve_slot. Qed.

#[export] Instance gpu_slot_laws : SlotLaws gpu_slot.
Proof. split; solve_slot. Qed.

Section ShutdownSpecs.
Context `{IREE}.

(** Releasing a device touches the heap and the trace only. *)
Lemma device_release_keeps d w w' :
  hrx_device_release d w = Done tt w' ->
  w_glob w' = w_glob w /\ w_cheap w' = w_cheap w /\ w_mem w' = w_mem w.
Proof.
  unfold hrx_device_release, handle_release. destruct (w_heap w !! d) as [[n o]|]; [|done].
  destruct o; simpl; try done. destruct (n =? 1).
  - unfold drop_glue, drop_device, call. simpl. unfold mbind, M_bind. by inversion 1.
  - by inversion 1.
Qed.

Lemma release_devices_spec ds : forall w,
  wf w -> (forall d, d ∈ ds -> usable w KDevice d) -> (forall h, device_links ds h <= ext w h) ->
  wp (release_devices ds) (fun _ w' =>
    wf w' /\ eff w w' none (fun h => - device_links ds h) /\
    w_glob w' = w_glob w /\ w_cheap w' = w_cheap w /\ w_mem w' = w_mem w) w.
Proof.
  induction ds as [|d ds IH]; intros w Hwf Hu He; simpl.
  - apply wp_ret. split; [done|]. split; [apply eff_refl|done].
  - assert (1 <= ext w d) as Hd.
    { specialize (He d). simpl in He. unfold device_links in *. simpl in He. rewrite one_eq in He.
      pose proof (device_links_nonneg ds d). unfold device_links in *. lia. }
    assert (usable w KDevice d) as Hud by (apply Hu; left).
    pose proof (hrx_device_release_spec w d Hwf Hud Hd) as ([] & w1 & Hr & Hwf1 & HE1)%wp_Done.
    destruct (device_release_keeps _ _ _ Hr) as (Hg1 & Hc1 & Hm1).
    assert (forall h, device_links ds h <= ext w1 h) as He1.
    { intros h. rewrite (eff_ext _ _ _ _ HE1). specialize (He h).
      unfold device_links in *. simpl in He. lia. }
    apply wp_bind. unfold wp at 1. rewrite Hr. cbv beta.
    eapply wp_mono; [apply IH; [done| |done]|].
    + intros d' Hin. eapply usable_held; [exact HE1|apply Hu; by right|].
      pose proof (device_links_elem _ _ Hin). specialize (He1 d'). lia.
    + cbv beta. intros _ w2 (Hwf2 & HE2 & Hg2 & Hc2 & Hm2). split; [done|]. split; [|split_and!; congruence].
      eapply eff_equiv; [eapply eff_trans; [exact Hwf|exact HE1|exact HE2]|..]; ledger.

Qed.

(** Taking the device list out of the statics. *)
Lemma take_devices_spec w g :
  wf w -> g_shared g = g_shared (w_glob w) ->
  (forall h, globals_link g h <= globals_link (w_glob w) h) ->
  (forall p, globals_own g p = globals_own (w_glob w) p) ->
  (forall d, d ∈ ac_devices (g_cpu g) \/ d ∈ ac_devices (g_gpu g) -> usable w KDevice d) ->
  wp (put_globals g) (fun _ w' =>
    safe w w' none (fun h => globals_link (w_glob w) h - globals_link g h) /\ w' = set_glob w g) w.
Proof.
  intros Hwf Hs Hl Ho Hu. unfold wp, put_globals. split; [|done].
  eapply safe_equiv; [apply safe_set_glob_links; [done| |done]|..].
  - intros h. specialize (Hl h). pose proof (wf_ext _ Hwf h). lia.
  - intros p. cbv beta. rewrite Ho. unfold none. lia.
  - done.
Qed.

(** Forgetting a driver whose reference was given back. *)
Lemma clear_accel_spec w g :
  wf w -> (forall h, globals_link g h = globals_link (w_glob w) h) ->
  (forall d, d ∈ ac_devices (g_cpu g) \/ d ∈ ac_devices (g_gpu g) -> usable w KDevice d) ->
  wp (put_globals g) (fun _ w' =>
    safe w w' (fun p => globals_own (w_glob w) p - globals_own g p) none /\ w' = set_glob w g) w.
Proof. intros. unfold wp, put_globals. split; [|done]. by apply safe_set_glob. Qed.

Lemma drop_driver_spec d w :
  wf w -> wp (if negb (is_null d) then call (ffi_release iree_hal_driver d) else mret tt)
    (fun _ w' => safe w w' (fun p => - cnt d p) none /\ frame w w' /\ w_cheap w' = w_cheap w) w.
Proof.
  intros Hwf. start_safe w. run.
  - split; [close_safe|done].
  - split; [close_safe|]. split; [apply frame_refl|done].
Qed.

Definition shutdown_post (w w' : world) (r : ptr) : Prop :=
  wf w' /\ eff w w' none none /\ status_value w' r /\ runtime_inv (w_glob w').

(** The device vector is taken out of the statics and released. *)
Lemma take_and_release_spec {B} slot `{!SlotLaws slot} (k : unit -> M B) Q w a' :
  wf w -> ac_devices a' = [] -> ac_driver a' = ac_driver (acc slot (w_glob w)) ->
  (forall w2, wf w2 -> eff w w2 none none -> w_glob w2 = set_acc slot (w_glob w) a' ->
     wp (k tt) Q w2) ->
  wp (put_globals (set_acc slot (w_glob w) a') ;;
      release_devices (ac_devices (acc slot (w_glob w))) ≫= k) Q w.
Proof.
  intros Hwf Hd Hdr Hk. set (a := acc slot (w_glob w)) in *.
  wp_use take_devices_spec; [done|apply slot_shared| | | |].
  { intros h. rewrite slot_link, Hd. simpl. pose proof (device_links_nonneg (ac_devices a) h).
    fold a. unfold device_links in *. simpl. lia. }
  { intros p. rewrite slot_own. unfold accel_owns. rewrite Hdr. fold a. lia. }
  { intros d Hin. apply slot_devices in Hin. rewrite slot_get_set, slot_other, Hd in Hin.
    destruct Hin as [Hin|Hin]; [by apply elem_of_nil in Hin|].
    apply (wf_globals _ Hwf), slot_devices. by right. }
  intros _ w1 (HS1 & Hw1). pose proof (safe_wf _ _ _ _ HS1) as Hwf1.
  wp_use release_devices_spec; [done| | |].
  { intros d Hin. eapply (usable_safe w); [done|exact HS1|].
    apply (wf_globals _ Hwf), slot_devices. by left. }
  { intros h. rewrite (eff_ext _ _ _ _ (safe_eff _ _ _ _ HS1)). pose proof (wf_ext _ Hwf h).
    rewrite slot_link, Hd. fold a. unfold device_links. simpl. lia. }
  intros [] w2 (Hwf2 & HE2 & Hg2 & _ & _). apply Hk; [done| |by rewrite Hg2, Hw1].
  apply safe_eff in HS1. eapply eff_equiv; [eapply eff_trans; [exact Hwf|exact HS1|exact HE2]|..].
  - done.
  - intros h. simpl. rewrite slot_link, Hd. fold a. unfold none, device_links. simpl. lia.
Qed.

Lemma accel_shutdown_spec slot `{!SlotLaws slot} msg w :
  wf w -> runtime_inv (w_glob w) ->
  wp (accel_shutdown slot msg) (fun r w' => shutdown_post w w' r
    /\ other slot (w_glob w') = other slot (w_glob w)
    /\ ac_initialized (acc slot (w_glob w')) = false) w.
Proof.
  intros Hwf Hinv. unfold accel_shutdown. apply wp_bind, wp_get_globals.
  destruct (ac_initialized (acc slot (w_glob w))) eqn:Einit; simpl.
  2:{ start_safe w. run. unfold shutdown_post. rewrite (proj2 (proj2 (proj2 Hfr))). split; [|done].
      split; [done|]. split; [apply safe_eff; close_safe|done]. }
  apply take_and_release_spec; [done..|]. intros w2 Hwf2 HE2 Hg2.
  wp_use drop_driver_spec; [done|]. intros _ w3 (HS3 & Hfr3 & _).
  pose proof (safe_wf _ _ _ _ HS3) as Hwf3. apply wp_bind, wp_get_globals.
  assert (w_glob w3 = w_glob w2) as Hg3 by apply Hfr3. rewrite Hg2 in Hg3.
  wp_use clear_accel_spec; [done| | |].
  { intros h. rewrite slot_link, Hg3, slot_get_set. simpl. lia. }
  { intros d Hin. apply slot_devices in Hin. rewrite slot_get_set, slot_other in Hin.
    destruct Hin as [Hin|Hin]; [by apply elem_of_nil in Hin|].
    apply (wf_globals _ Hwf3), slot_devices. by right. }
  intros _ w4 (HS4 & Hw4). pose proof (safe_wf _ _ _ _ HS4) as Hwf4. rewrite Hg3 in HS4, Hw4.
  assert (w_glob w4 = set_acc slot (w_glob w) (Accel [] 0 false null)) as Hg4
    by (rewrite Hw4; simpl; apply slot_set_set).
  pose proof (slot_users (w_glob w)) as Hus. rewrite Einit in Hus.
  assert (1 <= accel_users (w_glob w) <= 2) as Hub.
  { pose proof (accel_users_bounds (w_glob w)). unfold b2z in Hus. case_match; lia. }
  wp_use (release_shared_state_spec w4 (accel_users (w_glob w))); [done| |unfold I32_MAX; lia|].
  { rewrite Hg4, slot_shared. apply Hinv. }
  intros _ w5 (HS5 & _ & s5 & (_ & _ & _ & Hg5) & Hs5). apply wp_ret. rewrite Hg5, Hg4.
  split; [|rewrite slot_other_shared, slot_with_shared, slot_get_set, slot_other; done].
  split; [apply HS5|]. split; [|split; [by left|]].
  - apply safe_eff in HS3, HS4, HS5. do 3 merge_eff. eapply eff_equiv; [eassumption|..].
    + intros p. cbv beta. rewrite !slot_own, !slot_get_set. unfold accel_owns, none. simpl.
      rewrite cnt_null. lia.
    + intros h. unfold none. lia.
  - rewrite Hg5, Hg4. apply (slot_inv (slot:=slot)).
    rewrite slot_users, slot_with_shared, slot_other_shared, slot_get_set, slot_other. simpl.
    apply (slot_inv (slot:=slot)) in Hinv as (_ & _ & Ho).
    split; [|split; [|done]].
    + rewrite Hus in Hs5. simpl in Hs5. by rewrite (Z.add_comm 1), Z.add_simpl_r in Hs5.
    + repeat split; simpl; lia.
Qed.
End ShutdownSpecs.

Section AccelEntries.
Context `{IREE}.

Lemma accel_device_count_spec slot msg w out :
  wf w -> wp (accel_device_count slot msg out) (fun r w' => entry_ok w w' r) w.
Proof. intros. unfold accel_device_count. start_safe w. run; close_entry. Qed.

(** The index check rules out the vector panic, and the device is live. *)
Lemma accel_device_get_spec slot `{!SlotLaws slot} m1 m2 w i out :
  wf w -> runtime_inv (w_glob w) ->
  wp (accel_device_get slot m1 m2 i out) (fun r w' => entry_ok w w' r /\
    (LibcAlloc -> r = 0 -> exists d, w_mem w' !! out = Some d /\ usable w' KDevice d)) w.
Proof.
  intros Hwf Hinv. unfold accel_device_get. start_safe w. run.
  all: try (split; [close_entry|]; intros HL ->; by destruct (Hnz HL)).
  apply (slot_inv (slot:=slot)) in Hinv as (_ & (Hcount & _) & _).
  destruct (ac_devices (acc slot (w_glob w)) !! Z.to_nat i) as [d|] eqn:Ed.
  2:{ apply lookup_ge_None in Ed. bool_to_prop. lia. }
  apply wp_bind, wp_ret. run. split; [close_entry|]. intros _ _. exists d. subst.
  split; [simpl; by rewrite lookup_insert_eq|].
  apply (usable_heap w); [done|]. apply (wf_globals _ Hwf), (slot_devices (slot:=slot)). left.
  by eapply list_elem_of_lookup_2.
Qed.

Lemma gpu_architecture_spec w d :
  wf w -> wp (gpu_architecture d) (fun arch w' =>
    safe w w' none none /\ frame w w' /\ w_cheap w' = w_cheap w /\ cstr_ok arch) w.
Proof.
  intros Hwf. unfold gpu_architecture. start_safe w.
  run; (split; [close_safe|]; split; [eauto using frame_trans|]; split; [congruence|];
        apply cstr_array_bytes_ok; lia).
Qed.

Definition gpu_devices_post (w w' : world) (devs : list ptr) (count : nat)
  (r : Z * list ptr + list ptr) : Prop :=
  w_glob w' = w_glob w /\
  let ds := match r with inl (_, ds) | inr ds => ds end in
  (forall d, d ∈ ds -> usable w' KDevice d) /\ (length ds <= count)%nat /\
  safe w w' (match r with inl (s, _) => cnt s | inr _ => none end)
    (fun h => device_links ds h - device_links devs h) /\
  (match r with inl (s, _) => s <> 0 | inr _ => True end).

Lemma gpu_devices_spec `{!IreeCreates, !IreeDeviceAllocator} driver pool infos :
  forall w idx count devs,
  wf w -> (forall d, d ∈ devs -> usable w KDevice d) -> (length devs <= count)%nat ->
  wp (gpu_devices driver pool infos idx count devs)
     (fun r w' => gpu_devices_post w w' devs count r) w.
Proof.
  induction infos as [|info infos IH]; intros w idx count devs Hwf Hu Hlen; cbn [gpu_devices].
  { apply wp_ret. split; [done|]. split; [done|]. split; [done|]. split; [|done].
    eapply safe_equiv; [by apply safe_refl|..]; ledger. }
  destruct (Nat.ltb_spec (length devs) count) as [Hlt|_].
  2:{ apply wp_ret. split; [done|]. split; [done|]. split; [done|]. split; [|done].
      eapply safe_equiv; [by apply safe_refl|..]; ledger. }
  destruct (di_path_size info =? 0); [by apply IH|]. start_safe w. run.
  - split; [apply Hfr|]. split; [intros; eapply (usable_safe w); eauto|]. split; [done|].
    split; [close_safe|]. unfold status_is_ok in *. by bool_to_prop.
  - split; [by glob_tac|]. split; [intros; eapply (usable_safe w); eauto|]. split; [done|].
    split; [close_safe|]. unfold status_is_ok in *. by bool_to_prop.
  - wp_use gpu_architecture_spec; [done|]. intros arch w4 (? & Hfr4 & Hc4 & Harch). merge_safe.
    wp_use build_device_spec; [done|created_nonnull|created_nonnull| | |done|].
    { rewrite Hresp. apply iree_device_allocator_nonnull. }
    { apply cstr_array_bytes_ok. lia. }
    intros dev w5 (? & Hud & _ & Hg5 & _ & _). merge_safe.
    eapply wp_mono; [apply IH; [done| |rewrite length_app; simpl; lia]|].
    { intros d Hin. apply elem_of_app in Hin as [Hin|Hin%list_elem_of_singleton]; [|by subst].
      eapply (usable_safe w); eauto. }
    intros r' w6 (Hg6 & Hu6 & Hlen6 & ? & Hs6). merge_safe.
    split; [rewrite Hg6, Hg5; by glob_tac|]. split; [done|]. split; [done|]. split; [|done].
    eapply safe_equiv; [eassumption| |].
    + intros p. destruct r' as [[s ds]|ds]; ledger.
    + intros h. unfold device_links. rewrite lsum_app. simpl. unfold none. lia.
Qed.
End AccelEntries.

(** ** Bringing up the GPU accelerator *)

Section GpuSpecs.
Context `{IREE}.

(** The end of a successful initialization: device handles and the driver
    reference move into the statics. *)
Lemma put_gpu_spec w ds n driver :
  wf w -> (forall d, d ∈ ds -> usable w KDevice d) -> (forall h, device_links ds h <= ext w h) ->
  ac_devices (g_gpu (w_glob w)) = [] -> ac_driver (g_gpu (w_glob w)) = 0 ->
  wp (put_globals (with_gpu (w_glob w) (Accel ds n true driver))) (fun _ w' =>
    safe w w' (fun p => - cnt driver p) (fun h => - device_links ds h) /\
    w_glob w' = with_gpu (w_glob w) (Accel ds n true driver)) w.
Proof.
  intros Hwf Hu He Hd Hdr. unfold wp, put_globals. split; [|done].
  eapply safe_equiv; [apply safe_set_glob_links; [done|..]|..].
  - intros h. unfold globals_link. simpl. rewrite Hd. specialize (He h).
    unfold device_links in *. simpl. lia.
  - intros d [Hin|Hin]; simpl in Hin; [|by apply Hu]. apply (wf_globals _ Hwf). by left.
  - intros p. unfold globals_own, accel_owns. simpl. rewrite Hdr, cnt_null. lia.
  - intros h. unfold globals_link, device_links. simpl. rewrite Hd. simpl. lia.
Qed.

(** The common end of the failure paths. *)
Definition shared_down (w w' : world) (n : Z) : Prop :=
  w_cheap w' = w_cheap w /\ exists s', shared_step w w' s' /\ shared_inv s' (n - 1).

Lemma gpu_abandon_spec w alloc infos driver n :
  wf w -> shared_inv (g_shared (w_glob w)) n -> 1 <= n <= 2 ->
  wp (gpu_abandon alloc infos driver) (fun _ w' =>
    safe w w' (fun p => - cnt infos p - cnt driver p) none /\ shared_down w w' n) w.
Proof.
  intros Hwf Hs Hn. unfold gpu_abandon. start_safe w. run.
  wp_use release_shared_state_spec; [done|by glob_tac|unfold I32_MAX; lia|].
  intros _ w3 (? & Hc & s' & (Hh & Hm & Hp & Hg) & Hinv). merge_safe.
  split; [close_safe|]. split; [congruence|]. exists s'. split; [|done].
  split; [rewrite Hh; by glob_tac|]. split; [rewrite Hm; by glob_tac|].
  split; [rewrite Hp; by glob_tac|]. rewrite Hg. by glob_tac.
Qed.

(** Failing after the shared state is down again. *)
Lemma bring_up_failed w w' r n s' :
  w_glob w' = with_shared (w_glob w) s' -> shared_inv s' (n - 1) -> r <> 0 -> status_value w' r ->
  bring_up_post w w' r g_gpu g_cpu n.
Proof. intros Hg Hs Hr Hst. split; [done|]. rewrite Hg. split; [done|]. by right. Qed.

End GpuSpecs.

(** The status of a failure path is an error, since libc can allocate it. *)
Ltac now_nonzero :=
  match goal with HL : LibcAlloc |- _ => revert HL; nonzero_status end.

Ltac abandon n :=
  wp_use (gpu_abandon_spec _ _ _ _ n); [assumption|by glob_tac|assumption|];
  let w' := fresh "w" in intros ?u w' (? & _ & ?s' & (_ & _ & _ & ?Hg) & ?Hinv); merge_safe.

(** Give the shared state back and return the conversion of an IREE status. *)
Ltac shared_fail :=
  wp_use release_shared_state_spec; [assumption|by glob_tac|unfold I32_MAX; lia|];
  let w' := fresh "w" in let Hg := fresh "Hdown" in
  intros ?u w' (? & _ & ?s' & (_ & _ & _ & Hg) & ?Hinv); merge_safe; run;
  split; [assumption|]; split; [apply safe_eff; close_safe|];
  eapply bring_up_failed; [glob_step; rewrite Hg; by glob_tac|assumption|now_nonzero|assumption].

Section GpuBringUp.
Context `{IREE}.

Lemma gpu_enumerate_spec `{!IreeCreates, !LibcAlloc, !IreeDeviceAllocator} w alloc pool driver n :
  wf w -> shared_inv (g_shared (w_glob w)) n -> 1 <= n <= 2 ->
  ac_devices (g_gpu (w_glob w)) = [] -> ac_driver (g_gpu (w_glob w)) = 0 ->
  wp (gpu_enumerate alloc pool driver) (fun r w' =>
    wf w' /\ eff w w' (fun p => - cnt driver p) none /\ bring_up_post w w' r g_gpu g_cpu n) w.
Proof.
  intros Hwf Hs Hn Hd Hdr. unfold gpu_enumerate. start_safe w. run.
  - wp_use release_shared_state_spec; [done|by glob_tac|unfold I32_MAX; lia|].
    intros _ w2 (? & _ & s' & (_ & _ & _ & Hg) & Hinv). merge_safe. run.
    split; [done|]. split; [apply safe_eff; close_safe|].
    eapply bring_up_failed; [glob_step; rewrite Hg; by glob_tac|done|now_nonzero|done].
  - abandon n. run. split; [done|]. split; [apply safe_eff; close_safe|].
    eapply bring_up_failed; [glob_step; rewrite Hg; by glob_tac|done|now_nonzero|done].
  - abandon n. run. split; [done|]. split; [apply safe_eff; close_safe|].
    eapply bring_up_failed; [glob_step; rewrite Hg; by glob_tac|done|now_nonzero|done].
  - wp_use gpu_devices_spec; [done|intros d Hin; by apply elem_of_nil in Hin|simpl; lia|].
    intros r w1 (Hg1 & Hu1 & Hlen1 & HS1 & Hs1).
    assert (forall h, device_links (match r with inl (_, ds) | inr ds => ds end) h <= ext w1 h) as He1.
    { intros h. rewrite (eff_ext _ _ _ _ (safe_eff _ _ _ _ HS1)). pose proof (wf_ext _ Hwf0 h).
      unfold device_links at 3. simpl. lia. }
    merge_safe. destruct r as [[s ds]|ds].
    + wp_use release_devices_spec; [done|done|done|]. intros _ w2 (Hwf2 & HE2 & Hg2 & _).
      assert (w_glob w2 = w_glob w) as Hgw by (rewrite Hg2, Hg1; apply Hfr).
      wp_use (gpu_abandon_spec w2 alloc z0 driver n); [done|by rewrite Hgw|done|].
      intros _ w3 (HS3 & _ & s' & (_ & _ & _ & Hg3) & Hinv). rewrite Hgw in Hg3.
      wp_use from_iree_safe; [apply HS3|]. intros r w4 (HS4 & Hfr4 & _ & Hnz & Hst).
      split; [apply HS4|]. split; [|eapply bring_up_failed; [by glob_step|done|now_nonzero|done]].
      apply safe_eff in HS0, HS3, HS4. do 3 merge_eff.
      eapply eff_equiv; [eassumption|ledger|]. intros h. unfold none, device_links. simpl. lia.
    + run. assert (w_glob w2 = w_glob w) as Hgw by (glob_step; rewrite Hg1; apply Hfr).
      wp_use (put_gpu_spec w2 ds); [done| | |by rewrite Hgw|by rewrite Hgw|].
      { intros d Hin. apply (usable_heap w1); [apply Hfr0|by apply Hu1]. }
      { intros h. unfold ext, strong, internal.
        rewrite (proj1 Hfr0), (proj2 (proj2 (proj2 Hfr0))). apply He1. }
      intros _ w3 (? & Hg3). merge_safe. run. split; [done|]. rewrite Hgw in Hg3. split.
      * apply safe_eff. eapply safe_equiv; [eassumption|ledger|].
        intros h. unfold none, device_links. simpl. lia.
      * split; [by left|]. rewrite Hg3. split; [done|]. left. split; [done|]. split; [done|].
        split; [|done]. unfold HRX_MAX_DEVICES in *.
        split; [simpl; unfold wrap_i32; rewrite Z.mod_small; lia|]. split; [simpl; unfold HRX_MAX_DEVICES; lia|done].
Qed.

Lemma gpu_bring_up_spec `{!IreeCreates, !LibcAlloc, !IreeDeviceAllocator} w n :
  wf w -> shared_inv (g_shared (w_glob w)) n -> 1 <= n <= 2 ->
  ac_devices (g_gpu (w_glob w)) = [] -> ac_driver (g_gpu (w_glob w)) = 0 ->
  wp gpu_bring_up (fun r w' =>
    wf w' /\ eff w w' none none /\ bring_up_post w w' r g_gpu g_cpu n) w.
Proof.
  intros Hwf Hs Hn Hd Hdr. unfold gpu_bring_up. start_safe w. run.
  all: try shared_fail.
  all: wp_use gpu_enumerate_spec; [done|by glob_tac|done|by glob_tac|by glob_tac|];
    intros r' w' (Hwf' & HE' & Hst' & Hother' & Hcase'); split; [done|].
  all: split; [match goal with H : safe _ _ _ _ |- _ => apply safe_eff in H end; merge_eff; close_eff|].
  all: split; [done|]; split; [by rewrite Hother'; glob_tac|].
  all: destruct Hcase' as [?|(? & Hacc' & ?)]; [by left|right];
    (split; [done|]); split; [|done]; rewrite Hacc'; by glob_tac.
Qed.

Lemma hrx_gpu_initialize_spec `{!IreeCreates, !LibcAlloc, !IreeDeviceAllocator} w flags :
  wf w -> runtime_inv (w_glob w) ->
  wp (hrx_gpu_initialize flags) (fun r w' =>
    shutdown_post w w' r
    /\ (r = 0 -> ac_initialized (g_gpu (w_glob w')) = true)
    /\ (r <> 0 -> g_gpu (w_glob w') = g_gpu (w_glob w))
    /\ g_cpu (w_glob w') = g_cpu (w_glob w)) w.
Proof.
  intros Hwf Hinv. unfold hrx_gpu_initialize. start_safe w.
  apply wp_bind, wp_get_globals. destruct (ac_initialized (g_gpu (w_glob w))) eqn:Egpu.
  { run. unfold shutdown_post. rewrite (proj2 (proj2 (proj2 Hfr))).
    split; [|done]. split; [done|]. split; [apply safe_eff; close_safe|done]. }
  destruct Hinv as (Hsh & Hcpu & Hgpu). pose proof (accel_users_bounds (w_glob w)).
  wp_use ensure_shared_state_spec; [done|done|unfold I32_MAX; lia|].
  intros s w1 (? & Hst & s1 & (Hh1 & Hm1 & _ & Hg1) & Hcase). merge_safe.
  destruct (hrx_status_is_ok s) eqn:Es; simpl; unfold hrx_status_is_ok in Es; bool_to_prop.
  2:{ apply wp_ret. destruct Hcase as [[-> _]|[_ Hsh1]]; [done|]. unfold shutdown_post. rewrite Hg1.
      split; [|done]. split; [done|]. split; [apply safe_eff; close_safe|]. done. }
  subst s. destruct Hcase as [[_ Hsh1]|[Hn _]]; [|by exfalso; apply Hn].
  destruct Hgpu as (Hc1 & Hc2 & Hc3). destruct Hc3 as [Hc3 Hc4]; [done|].
  wp_use (gpu_bring_up_spec w1 (accel_users (w_glob w) + 1));
    [done|by rewrite Hg1| |by rewrite Hg1|by rewrite Hg1|].
  { unfold accel_users in *. rewrite Egpu in *. unfold b2z in *. case_match; lia. }
  intros r w3 (Hwf3 & HE3 & Hst3 & Hother & Hup). rewrite Hg1 in Hother, Hup. simpl in *.
  apply safe_eff in HS. merge_eff.
  unfold shutdown_post, runtime_inv, accel_users in *. rewrite Egpu, Hother in *. simpl in *.
  destruct Hup as [(-> & Hi & Ha & Hs)|(Hr & Ha & Hs)].
  - split; [|done]. split; [done|]. split; [close_eff|]. split; [done|]. split; [|done].
    rewrite Hi. simpl. by rewrite Z.add_0_r in Hs.
  - split; [|done]. split; [done|]. split; [close_eff|]. split; [done|]. split; [|by rewrite Ha].
    rewrite Ha, Egpu. simpl. by rewrite Z.add_simpl_r in Hs.
Qed.
End GpuBringUp.
