(* ===== verification/Lifecycle.v ===== *)
(** * Client programs: sequences of API calls

    The public API, all 114 exported functions, as a type of calls, what a client
    must respect for each of them, and the invariant every legal sequence keeps: no
    undefined behaviour, no panic.  The references a client holds are booked in a
    [ledger] that follows from the calls and their answers alone, and every program
    keeps the counts of the library equal to it. *)

From S2P Require Import Prelude Iree Objects Machine Handle Status IreeHal Device Semaphore Buffer HostAllocator Executable BufferView ValueList Modules QueueOps Stream Pool StreamAlloc Runtime.

(** ** The calls *)

Inductive api :=
  (** runtime.rs *)
  | CpuInitialize (flags : Z) | CpuShutdown | CpuDeviceCount (out : ptr)
  | CpuDeviceGet (index : Z) (out : ptr)
  | GpuInitialize (flags : Z) | GpuShutdown | GpuDeviceCount (out : ptr)
  | GpuDeviceGet (index : Z) (out : ptr)
  | RuntimeVersion (major minor patch : ptr)
  (** status.rs; the message is the C string the client passes *)
  | MakeStatus (code : Z) (message : option string) | StatusIgnore (s : ptr)
  | StatusCode (s : ptr) | StatusToString (s out len : ptr) | StatusFreeMessage (m : ptr)
  (** host_allocator.rs *)
  | HostMalloc (a : iree_allocator_t) (n : Z) (out : ptr)
  | HostMallocUninitialized (a : iree_allocator_t) (n : Z) (out : ptr)
  | HostRealloc (a : iree_allocator_t) (n : Z) (io : ptr)
  | HostClone (a : iree_allocator_t) (src : ptr) (n : Z) (out : ptr)
  | HostFree (a : iree_allocator_t) (p : ptr)
  | HostMallocAligned (a : iree_allocator_t) (n alignment offset : Z) (out : ptr)
  | HostReallocAligned (a : iree_allocator_t) (n alignment offset : Z) (io : ptr)
  | HostFreeAligned (a : iree_allocator_t) (p : ptr)
  (** retain and release of any handle *)
  | Retain (k : kind) (h : ptr) | Release (k : kind) (h : ptr)
  (** device.rs *)
  | DeviceGetProperty (d : ptr) (prop : Z) (value : ptr) (size : Z)
  | DeviceSynchronize (d : ptr) | DeviceGetType (d out : ptr)
  (** semaphore.rs, fence.rs *)
  | SemaphoreCreate (d : ptr) (v : Z) (out : ptr) | SemaphoreQuery (s out : ptr)
  | SemaphoreWait (s : ptr) (v timeout : Z) | SemaphoreSignal (s : ptr) (v : Z)
  | FenceCreate (capacity : Z) (out : ptr) | FenceCreateAt (s : ptr) (v : Z) (out : ptr)
  | FenceInsert (f s : ptr) (v : Z) | FenceExtend (into from : ptr)
  | FenceSignal (f : ptr) | FenceWait (f : ptr) (timeout : Z)
  (** buffer.rs *)
  | DeviceAllocator (d : ptr) | AllocatorRetain (a : ptr) | AllocatorRelease (a : ptr)
  | PhysicalMemoryAllocate (a : ptr) (mem_type size : Z) (out : ptr)
  | PhysicalMemoryFree (a physical : ptr)
  | AllocateBuffer (a : ptr) (params : HrxBufferParams) (size : Z) (out : ptr)
  | ImportBuffer (a : ptr) (params : HrxBufferParams) (host : ptr) (size : Z) (out : ptr)
  | BufferAllocate (stream : ptr) (size mem_type usage : Z) (out : ptr)
  | BufferMap (b : ptr) (flags offset size : Z) (out : ptr) | BufferUnmap (b : ptr)
  | BufferGetDevicePtr (b out : ptr) | BufferGetSize (b out : ptr)
  | SynchronousH2D (d src dst : ptr) (off size : Z) | SynchronousD2H (d src : ptr) (off : Z) (dst : ptr) (size : Z)
  | QueryVirtualMemory (a : ptr) (ty : Z) (o1 o2 o3 : ptr)
  | VirtualMemoryReserve (a : ptr) (aff size : Z) (out : ptr) | VirtualMemoryRelease (a vb : ptr)
  | VirtualMemoryMap (a b : ptr) (off : Z) (ph : ptr) (poff size : Z)
  | VirtualMemoryUnmap (a b : ptr) (off size : Z)
  | VirtualMemoryProtect (a b : ptr) (off size prot : Z)
  (** executable.rs *)
  | ExecutableLoadData (d data : ptr) (size : Z) (format out : ptr)
  | ExecutableLoadFile (d path format out : ptr)
  | ExportCount (e out : ptr) | ExportInfo (e : ptr) (ordinal : Z) (out : ptr)
  | LookupExport (e name out : ptr)
  (** buffer_view.rs, value_list.rs, module.rs *)
  | BufferViewCreate (b : ptr) (shape : ptr) (dims : list Z) (et enc : Z) (out : ptr)
  | BufferViewRank (v out : ptr) | BufferViewDim (v : ptr) (dim : Z) (out : ptr)
  | ValueListCreate (capacity : Z) (out : ptr) | ValueListSize (l out : ptr)
  | ValueListPushI64 (l : ptr) (v : Z) | ValueListPushNullRef (l : ptr)
  | ValueListGetI64 (l : ptr) (i : Z) (out : ptr)
  | ValueListPushBuffer (l b : ptr) | ValueListPushBufferView (l v : ptr) | ValueListPushFence (l f : ptr)
  | ModuleLoad (d data : ptr) (size : Z) (out : ptr) | ModuleLookup (m name out : ptr)
  | FunctionInvoke (m f args rets : ptr)
  (** queue_ops.rs *)
  | QueueFill (d : ptr) (aff : Z) (wl sl b : ptr) (off size : Z) (pat : ptr) (n : Z)
  | QueueCopy (d : ptr) (aff : Z) (wl sl src : ptr) (soff : Z) (dst : ptr) (doff size : Z)
  | QueueBarrier (d : ptr) (aff : Z) (wl sl : ptr)
  | QueueHostCall (d : ptr) (aff : Z) (wl sl cb ud : ptr)
  | QueueDispatch (d : ptr) (aff : Z) (wl sl e : ptr) (ord : Z) (config cst : ptr) (csize : Z)
      (bs : ptr) (n : nat) (flags : Z)
  (** stream.rs *)
  | StreamCreate (d : ptr) (flags : Z) (out : ptr) | StreamFlush (s : ptr)
  | StreamSynchronize (s : ptr) | StreamWait (s : ptr) | StreamQuery (s out : ptr)
  | StreamGetSemaphore (s out : ptr) | StreamGetDevice (s out : ptr)
  | StreamGetTimelinePosition (s out : ptr) | StreamAdvanceTimeline (s out : ptr)
  | StreamWaitOn (s sem : ptr) (v : Z)
  | StreamFillBuffer (s b : ptr) (off size : Z) (pat : ptr) (n : Z)
  | StreamCopyBuffer (s src : ptr) (soff : Z) (dst : ptr) (doff size : Z)
  | StreamUpdateBuffer (s data : ptr) (n : Z) (dst : ptr) (doff : Z)
  | StreamExecutionBarrier (s : ptr)
  | StreamDispatch (s e : ptr) (ord : Z) (config cst : ptr) (csize : Z) (bs : ptr) (n : nat)
      (flags : Z)
  (** the destroy slot of a pool, called by IREE *)
  | PoolDestroy (base : ptr).

Section Exec.
Context `{IREE}.

(** [hrx_*_retain] and [hrx_*_release] of the object kind. *)
Definition retain_kind (k : kind) (h : ptr) : M unit :=
  match k with
  | KDevice => hrx_device_retain h
  | KSemaphore => hrx_semaphore_retain h
  | KFence => hrx_fence_retain h
  | KBuffer => hrx_buffer_retain h
  | KBufferView => hrx_buffer_view_retain h
  | KStream => hrx_stream_retain h
  | KExecutable => hrx_executable_retain h
  | KModule => hrx_module_retain h
  | KFunction => hrx_function_retain h
  | KValueList => hrx_value_list_retain h
  end.

Definition release_kind (k : kind) (h : ptr) : M unit :=
  match k with
  | KDevice => hrx_device_release h
  | KSemaphore => hrx_semaphore_release h
  | KFence => hrx_fence_release h
  | KBuffer => hrx_buffer_release h
  | KBufferView => hrx_buffer_view_release h
  | KStream => hrx_stream_release h
  | KExecutable => hrx_executable_release h
  | KModule => hrx_module_release h
  | KFunction => hrx_function_release h
  | KValueList => hrx_value_list_release h
  end.

(** The status a call answers; calls that answer something else count as OK. *)
Definition exec (c : api) : M ptr :=
  match c with
  | CpuInitialize flags => hrx_cpu_initialize flags
  | CpuShutdown => hrx_cpu_shutdown
  | CpuDeviceCount out => hrx_cpu_device_count out
  | CpuDeviceGet i out => hrx_cpu_device_get i out
  | GpuInitialize flags => hrx_gpu_initialize flags
  | GpuShutdown => hrx_gpu_shutdown
  | GpuDeviceCount out => hrx_gpu_device_count out
  | GpuDeviceGet i out => hrx_gpu_device_get i out
  | RuntimeVersion a b c => hrx_runtime_version a b c ;; mret 0
  | MakeStatus code msg => hrx_make_status code msg
  | StatusIgnore s => hrx_status_ignore s ;; mret 0
  | StatusCode s => hrx_status_code s ;; mret 0
  | StatusToString s out len => hrx_status_to_string s out len
  | StatusFreeMessage m => hrx_status_free_message m ;; mret 0
  | HostMalloc a n out => hrx_host_allocator_malloc a n out
  | HostMallocUninitialized a n out => hrx_host_allocator_malloc_uninitialized a n out
  | HostRealloc a n io => hrx_host_allocator_realloc a n io
  | HostClone a src n out => hrx_host_allocator_clone a src n out
  | HostFree a p => hrx_host_allocator_free a p ;; mret 0
  | HostMallocAligned a n al off out => hrx_host_allocator_malloc_aligned a n al off out
  | HostReallocAligned a n al off io => hrx_host_allocator_realloc_aligned a n al off io
  | HostFreeAligned a p => hrx_host_allocator_free_aligned a p ;; mret 0
  | Retain k h => retain_kind k h ;; mret 0
  | Release k h => release_kind k h ;; mret 0
  | DeviceGetProperty d p v n => hrx_device_get_property d p v n
  | DeviceSynchronize d => hrx_device_synchronize d
  | DeviceGetType d out => hrx_device_get_type d out
  | SemaphoreCreate d v out => hrx_semaphore_create d v out
  | SemaphoreQuery s out => hrx_semaphore_query s out
  | SemaphoreWait s v t => hrx_semaphore_wait s v t
  | SemaphoreSignal s v => hrx_semaphore_signal s v
  | FenceCreate n out => hrx_fence_create n out
  | FenceCreateAt s v out => hrx_fence_create_at s v out
  | FenceInsert f s v => hrx_fence_insert f s v
  | FenceExtend i f => hrx_fence_extend i f
  | FenceSignal f => hrx_fence_signal f
  | FenceWait f t => hrx_fence_wait f t
  | DeviceAllocator d => hrx_device_allocator d ;; mret 0
  | AllocatorRetain a => hrx_allocator_retain a ;; mret 0
  | AllocatorRelease a => hrx_allocator_release a ;; mret 0
  | PhysicalMemoryAllocate a ty n out => hrx_allocator_physical_memory_allocate a ty n out
  | PhysicalMemoryFree a ph => hrx_allocator_physical_memory_free a ph
  | AllocateBuffer a p n out => hrx_allocator_allocate_buffer a p n out
  | ImportBuffer a p h n out => hrx_allocator_import_buffer a p h n out
  | BufferAllocate s n mt u out => hrx_buffer_allocate s n mt u out
  | BufferMap b f o n out => hrx_buffer_map b f o n out
  | BufferUnmap b => hrx_buffer_unmap b
  | BufferGetDevicePtr b out => hrx_buffer_get_device_ptr b out
  | BufferGetSize b out => hrx_buffer_get_size b out
  | SynchronousH2D d s t o n => hrx_synchronous_h2d d s t o n
  | SynchronousD2H d s o t n => hrx_synchronous_d2h d s o t n
  | QueryVirtualMemory a ty o1 o2 o3 => hrx_allocator_query_virtual_memory a ty o1 o2 o3
  | VirtualMemoryReserve a aff n out => hrx_allocator_virtual_memory_reserve a aff n out
  | VirtualMemoryRelease a vb => hrx_allocator_virtual_memory_release a vb
  | VirtualMemoryMap a b o ph po n => hrx_allocator_virtual_memory_map a b o ph po n
  | VirtualMemoryUnmap a b o n => hrx_allocator_virtual_memory_unmap a b o n
  | VirtualMemoryProtect a b o n p => hrx_allocator_virtual_memory_protect a b o n p
  | ExecutableLoadData d data n f out => hrx_executable_load_data d data n f out
  | ExecutableLoadFile d path f out => hrx_executable_load_file d path f out
  | ExportCount e out => hrx_executable_export_count e out
  | ExportInfo e o out => hrx_executable_export_info e o out
  | LookupExport e name out => hrx_executable_lookup_export_by_name e name out
  | BufferViewCreate b shape dims et enc out =>
      hrx_buffer_view_create b (length dims) shape et enc out
  | BufferViewRank v out => hrx_buffer_view_rank v out
  | BufferViewDim v d out => hrx_buffer_view_dim v d out
  | ValueListCreate n out => hrx_value_list_create n out
  | ValueListSize l out => hrx_value_list_size l out
  | ValueListPushI64 l v => hrx_value_list_push_i64 l v
  | ValueListPushNullRef l => hrx_value_list_push_null_ref l
  | ValueListGetI64 l i out => hrx_value_list_get_i64 l i out
  | ValueListPushBuffer l b => hrx_value_list_push_buffer l b
  | ValueListPushBufferView l v => hrx_value_list_push_buffer_view l v
  | ValueListPushFence l f => hrx_value_list_push_fence l f
  | ModuleLoad d data n out => hrx_module_load_vmfb d data n out
  | ModuleLookup m name out => hrx_module_lookup_function m name out
  | FunctionInvoke m f args rets => hrx_function_invoke m f args rets
  | QueueFill d aff wl sl b o n pat pn => hrx_queue_fill d aff wl sl b o n pat pn
  | QueueCopy d aff wl sl s so t to n => hrx_queue_copy d aff wl sl s so t to n
  | QueueBarrier d aff wl sl => hrx_queue_barrier d aff wl sl
  | QueueHostCall d aff wl sl cb ud => hrx_queue_host_call d aff wl sl cb ud
  | QueueDispatch d aff wl sl e ord cfg cst cn bs n fl =>
      hrx_queue_dispatch d aff wl sl e ord cfg cst cn bs n fl
  | StreamCreate d flags out => hrx_stream_create d flags out
  | StreamFlush s => hrx_stream_flush s
  | StreamSynchronize s => hrx_stream_synchronize s
  | StreamWait s => hrx_stream_wait s
  | StreamQuery s out => hrx_stream_query s out
  | StreamGetSemaphore s out => hrx_stream_get_semaphore s out
  | StreamGetDevice s out => hrx_stream_get_device s out
  | StreamGetTimelinePosition s out => hrx_stream_get_timeline_position s out
  | StreamAdvanceTimeline s out => hrx_stream_advance_timeline s out
  | StreamWaitOn s sem v => hrx_stream_wait_on s sem v
  | StreamFillBuffer s b o n pat pn => hrx_stream_fill_buffer s b o n pat pn
  | StreamCopyBuffer s a ao b bo n => hrx_stream_copy_buffer s a ao b bo n
  | StreamUpdateBuffer s data n b o => hrx_stream_update_buffer s data n b o
  | StreamExecutionBarrier s => hrx_stream_execution_barrier s
  | StreamDispatch s e ord cfg cst cn bs n fl => hrx_stream_dispatch s e ord cfg cst cn bs n fl
  | PoolDestroy base => pool_destroy base ;; mret 0
  end.
End Exec.

(** ** What a client must respect

    Handle arguments are null or name a live object of the right kind; pointer
    arguments the call reads through are readable; a release needs a reference
    of the caller's own; reservations are released once, as the last reference. *)
Definition legal (w : world) (c : api) : Prop :=
  match c with
  | CpuInitialize _ | CpuShutdown | CpuDeviceCount _ | CpuDeviceGet _ _
  | GpuInitialize _ | GpuShutdown | GpuDeviceCount _ | GpuDeviceGet _ _
  | FenceCreate _ _ | ValueListCreate _ _ | RuntimeVersion _ _ _ | MakeStatus _ _
  | HostFree _ _ | HostFreeAligned _ _ => True
  | StatusIgnore s | StatusCode s | StatusToString s _ _ => status_value w s
  | StatusFreeMessage m => m = 0 \/ exists s, w_cheap w !! m = Some (CString s)
  | HostMalloc _ _ out | HostMallocUninitialized _ _ out | HostClone _ _ _ out
  | HostMallocAligned _ _ _ _ out => out <> 0
  | HostRealloc _ _ io | HostReallocAligned _ _ _ _ io => io <> 0 /\ is_Some (w_mem w !! io)
  | DeviceAllocator d => usable w KDevice d
  | AllocatorRetain a => usable w KDevice (a - ALLOCATOR_OFFSET)
  | AllocatorRelease a =>
      usable w KDevice (a - ALLOCATOR_OFFSET) /\ 1 <= ext w (a - ALLOCATOR_OFFSET)
  | Retain k h => usable w k h
  | Release k h => usable w k h /\ 1 <= ext w h
  | DeviceGetProperty d _ v _ => nullable w KDevice d /\ 0 <= v
  | DeviceSynchronize d | DeviceGetType d _ | SemaphoreCreate d _ _ | StreamCreate d _ _
  | ModuleLoad d _ _ _ => nullable w KDevice d
  | SemaphoreQuery s _ | SemaphoreWait s _ _ | SemaphoreSignal s _ | FenceCreateAt s _ _ =>
      nullable w KSemaphore s
  | FenceInsert f s _ => nullable w KFence f /\ nullable w KSemaphore s
  | FenceExtend i f => nullable w KFence i /\ nullable w KFence f
  | FenceSignal f | FenceWait f _ => nullable w KFence f
  | AllocateBuffer a _ _ _ | ImportBuffer a _ _ _ _ | QueryVirtualMemory a _ _ _ _
  | VirtualMemoryReserve a _ _ _ | PhysicalMemoryAllocate a _ _ _ | PhysicalMemoryFree a _ =>
      nullable_alloc w a
  | BufferMap b _ _ _ _ | BufferUnmap b | BufferGetDevicePtr b _ | BufferGetSize b _ =>
      nullable w KBuffer b
  | SynchronousH2D d _ b _ _ | SynchronousD2H d b _ _ _ => nullable w KDevice d /\ nullable w KBuffer b
  | VirtualMemoryRelease a vb =>
      a <> 0 /\ usable w KDevice (a - ALLOCATOR_OFFSET)
      /\ usable w KBuffer vb /\ strong w vb = 1 /\ 1 <= ext w vb
  | VirtualMemoryMap a b _ _ _ _ | VirtualMemoryUnmap a b _ _ | VirtualMemoryProtect a b _ _ _ =>
      nullable_alloc w a /\ nullable w KBuffer b
  | ExecutableLoadData d _ _ f _ | ExecutableLoadFile d _ f _ =>
      nullable w KDevice d /\ readable w f
  | ExportCount e _ | LookupExport e _ _ => nullable w KExecutable e
  | ExportInfo e _ out => nullable w KExecutable e /\ 0 <= out
  | BufferViewCreate b shape dims _ _ out =>
      nullable w KBuffer b
      /\ (shape <> 0 -> words (set_mem w (<[out := 0]> (w_mem w))) shape dims)
  | BufferViewRank v _ | BufferViewDim v _ _ => nullable w KBufferView v
  | ValueListSize l _ | ValueListPushI64 l _ | ValueListPushNullRef l | ValueListGetI64 l _ _ =>
      nullable w KValueList l
  | ValueListPushBuffer l b => nullable w KValueList l /\ nullable w KBuffer b
  | ValueListPushBufferView l v => nullable w KValueList l /\ nullable w KBufferView v
  | ValueListPushFence l f => nullable w KValueList l /\ nullable w KFence f
  | ModuleLookup m _ _ => nullable w KModule m
  | FunctionInvoke m f args rets =>
      nullable w KModule m /\ nullable w KFunction f /\ nullable w KValueList args
      /\ nullable w KValueList rets
  | QueueFill d _ wl sl b _ _ _ _ =>
      nullable w KDevice d /\ nullable w KBuffer b /\ sem_list_ok w wl /\ sem_list_ok w sl
  | QueueCopy d _ wl sl a _ b _ _ =>
      nullable w KDevice d /\ nullable w KBuffer a /\ nullable w KBuffer b
      /\ sem_list_ok w wl /\ sem_list_ok w sl
  | QueueBarrier d _ wl sl | QueueHostCall d _ wl sl _ _ =>
      nullable w KDevice d /\ sem_list_ok w wl /\ sem_list_ok w sl
  | QueueDispatch d _ wl sl e _ cfg _ _ bs n _ =>
      nullable w KDevice d /\ nullable w KExecutable e /\ sem_list_ok w wl /\ sem_list_ok w sl
      /\ config_ok w cfg /\ bindings_ok w bs n
  | BufferAllocate s _ _ _ _ | StreamFlush s | StreamSynchronize s | StreamWait s | StreamQuery s _
  | StreamGetSemaphore s _ | StreamGetDevice s _ | StreamAdvanceTimeline s _
  | StreamExecutionBarrier s => nullable w KStream s
  | StreamGetTimelinePosition s out => nullable w KStream s /\ 0 <= out
  | StreamWaitOn s sem _ => nullable w KStream s /\ nullable w KSemaphore sem
  | StreamFillBuffer s b _ _ _ _ | StreamUpdateBuffer s _ _ b _ =>
      nullable w KStream s /\ nullable w KBuffer b
  | StreamCopyBuffer s a _ b _ _ => nullable w KStream s /\ nullable w KBuffer a /\ nullable w KBuffer b
  | StreamDispatch s e _ cfg _ _ bs n _ =>
      nullable w KStream s /\ nullable w KExecutable e /\ config_ok w cfg /\ bindings_ok w bs n
  | PoolDestroy base => is_Some (pool_find base (w_pools w))
  end.

(** Calls that may change the process-wide state. *)
Definition touches_globals (c : api) : bool :=
  match c with
  | CpuInitialize _ | CpuShutdown | GpuInitialize _ | GpuShutdown => true
  | _ => false
  end.

(** ** Calls that leave the process-wide state alone *)

Definition keeps {A} (m : M A) : Prop :=
  forall w a w', m w = Done a w' -> w_glob w' = w_glob w.

Create HintDb keeps.

Section Keeps.
Context `{IREE}.

Lemma keeps_ret {A} (a : A) : keeps (mret a).
Proof. by inversion 1. Qed.

Lemma keeps_bind {A B} (m : M A) (f : A -> M B) :
  keeps m -> (forall a, keeps (f a)) -> keeps (m ≫= f).
Proof.
  intros Hm Hf w b w'. unfold mbind, M_bind. destruct (m w) as [a w1| |] eqn:E; [|done|done].
  intros Hb. rewrite (Hf _ _ _ _ Hb). by eapply Hm.
Qed.

Lemma keeps_call {A : Set} (c : ffi A) : keeps (call c).
Proof. by inversion 1. Qed.

Lemma keeps_with_local {A} v (body : ptr -> M A) :
  (forall p, keeps (body p)) -> keeps (with_local v body).
Proof.
  intros Hb w a w'. unfold with_local. destruct (body _ _) as [x w1| |] eqn:E; [|done|done].
  destruct (w_mem w1 !! w_next w); [|done]. inversion 1; subst. simpl.
  by rewrite (Hb _ _ _ _ E).
Qed.

Lemma keeps_release {T} `{Boxed T, DropGlue T} h :
  (forall t : T, keeps (drop_glue t)) -> keeps (handle_release (T:=T) h).
Proof.
  intros Hd w a w'. unfold handle_release. destruct (w_heap w !! h) as [[n o]|]; [|done].
  destruct (unbox o) as [t|]; [|done]. destruct (n =? 1).
  - intros E. by rewrite (Hd _ _ _ _ E).
  - by inversion 1.
Qed.
End Keeps.
#[export] Hint Resolve keeps_ret keeps_call : keeps.

(** A primitive written as a function of the world. *)
Ltac keeps_prim :=
  let w := fresh in let a := fresh in let w' := fresh in let E := fresh in
  intros w a w' E; repeat case_match; by simplify_eq.

Ltac head_of t := match t with ?f _ => head_of f | _ => t end.

Ltac keeps_step :=
  lazymatch goal with
  | |- keeps (_ ≫= _) => apply keeps_bind; [|intros]
  | |- keeps (with_local _ _) => apply keeps_with_local; intros
  | |- keeps (handle_release _) => apply keeps_release; intros
  | |- keeps (drop_glue ?t) => unfold drop_glue
  | |- keeps (match ?x with _ => _ end) => destruct x
  | |- keeps ?m => first [ solve [auto with keeps] | let f := head_of m in unfold f; keeps_prim
                         | let f := head_of m in unfold f ]
  end.

Ltac keeps_tac := repeat keeps_step.

Section KeepsLoops.
Context `{IREE}.

Lemma keeps_write_bytes l : forall p, keeps (write_bytes p l).
Proof. induction l; intros p; simpl; keeps_tac; auto. Qed.

Lemma keeps_sem_list_loop a b n : forall i, keeps (sem_list_loop a b i n).
Proof. induction n; intros i; simpl; keeps_tac; auto. Qed.

Lemma keeps_bindings_loop b n : forall i, keeps (bindings_loop b i n).
Proof. induction n; intros i; simpl; keeps_tac; auto. Qed.

Lemma keeps_heap_dims p n : forall i acc, keeps (heap_dims p i n acc).
Proof. induction n; intros i acc; simpl; keeps_tac; auto. Qed.

Lemma keeps_stack_dims p n : forall i acc, keeps (stack_dims p i n acc).
Proof. induction n; intros i acc; simpl; keeps_tac; auto. Qed.
End KeepsLoops.
#[export] Hint Resolve keeps_write_bytes keeps_sem_list_loop keeps_bindings_loop keeps_heap_dims
  keeps_stack_dims : keeps.

Section KeepsExec.
Context `{IREE}.

Lemma keeps_make_status c m : keeps (hrx_make_status c m).
Proof. keeps_tac. Qed.
Lemma keeps_from_iree s : keeps (hrx_status_from_iree s).
Proof. unfold hrx_status_from_iree. keeps_tac. Qed.
End KeepsExec.
#[export] Hint Resolve keeps_make_status keeps_from_iree : keeps.

Section KeepsApi.
Context `{IREE}.

Lemma keeps_retain_kind k h : keeps (retain_kind k h).
Proof. keeps_tac. Qed.

Lemma keeps_release_kind k h : keeps (release_kind k h).
Proof. keeps_tac. Qed.
End KeepsApi.
#[export] Hint Resolve keeps_retain_kind keeps_release_kind : keeps.

(** ** The client's side of the ledger

    What a call does to the references the client holds: the abstract
    specification of the API. *)

(** The handle a call adds a reference of. *)
Definition retains (c : api) : option ptr :=
  match c with
  | Retain _ h => Some h
  | AllocatorRetain a => Some (a - ALLOCATOR_OFFSET)
  | _ => None
  end.

(** The handle a call consumes a reference of. *)
Definition takes (c : api) : option ptr :=
  match c with
  | Release _ h => Some h
  | AllocatorRelease a => Some (a - ALLOCATOR_OFFSET)
  | VirtualMemoryRelease _ vb => Some vb
  | _ => None
  end.

(** The kind of handle a call creates and where it stores it. *)
Definition grants (c : api) : option (kind * ptr) :=
  match c with
  | SemaphoreCreate _ _ out => Some (KSemaphore, out)
  | FenceCreate _ out | FenceCreateAt _ _ out => Some (KFence, out)
  | AllocateBuffer _ _ _ out | ImportBuffer _ _ _ _ out | BufferAllocate _ _ _ _ out
  | VirtualMemoryReserve _ _ _ out => Some (KBuffer, out)
  | ExecutableLoadData _ _ _ _ out | ExecutableLoadFile _ _ _ out => Some (KExecutable, out)
  | BufferViewCreate _ _ _ _ _ out => Some (KBufferView, out)
  | ValueListCreate _ out => Some (KValueList, out)
  | ModuleLoad _ _ _ out => Some (KModule, out)
  | ModuleLookup _ _ out => Some (KFunction, out)
  | StreamCreate _ _ out => Some (KStream, out)
  | _ => None
  end.

(** [client_step c r w w' G]: call [c], answering [r], may change the client's
    references by [G]. *)
Inductive client_step (c : api) (r : ptr) (w w' : world) : (ptr -> Z) -> Prop :=
  | cs_retain h : retains c = Some h -> client_step c r w w' (one h)
  | cs_take h : takes c = Some h -> client_step c r w w' (fun q => - one h q)
  | cs_create k out h :
      grants c = Some (k, out) -> r = 0 -> w_mem w' !! out = Some h -> w_next w <= h ->
      usable w' k h -> client_step c r w w' (one h)
  | cs_none : takes c = None -> retains c = None -> (grants c <> None -> r <> 0) ->
      client_step c r w w' none.

(** The same as a function of the call, its answer and the client's memory. *)
Definition cell (w : world) (a : ptr) : Z := default null (w_mem w !! a).

Definition earns (c : api) (r : ptr) (w' : world) (h : ptr) : Z :=
  match retains c, takes c, grants c with
  | Some q, _, _ => one q h
  | _, Some q, _ => - one q h
  | _, _, Some (_, out) => if r =? 0 then one (cell w' out) h else 0
  | _, _, _ => 0
  end.

(** Foreign resources the client holds itself: blocks of the host allocator, physical
    memory and the references to a HAL allocator that come with [hrx_allocator_retain]. *)
Definition gains (c : api) (r : ptr) (w w' : world) (p : ptr) : Z :=
  match c with
  | HostMalloc _ _ out | HostMallocUninitialized _ _ out | HostClone _ _ _ out
  | HostMallocAligned _ _ _ _ out | PhysicalMemoryAllocate _ _ _ out =>
      if r =? 0 then cnt (cell w' out) p else 0
  | HostRealloc _ _ io | HostReallocAligned _ _ _ _ io => cnt (cell w' io) p - cnt (cell w io) p
  | HostFree _ q | HostFreeAligned _ q => - cnt q p
  | PhysicalMemoryFree a ph => if is_null a then 0 else - cnt ph p
  | AllocatorRetain a => cnt (hal_allocator_of w a) p
  | AllocatorRelease a => - cnt (hal_allocator_of w a) p
  | _ => 0
  end.

(** References a refused push leaves behind: nothing in the process holds them. *)
Definition strands (c : api) (r : ptr) (w : world) (p : ptr) : Z :=
  match c with
  | ValueListPushBuffer l h | ValueListPushBufferView l h | ValueListPushFence l h =>
      if (r =? 0) || (is_null l || is_null h) then 0 else cnt (hal_ref w h) p
  | _ => 0
  end.

(** Calls that leave the foreign ledger alone. *)
Definition handles_only (c : api) : bool :=
  match c with
  | HostMalloc _ _ _ | HostMallocUninitialized _ _ _ | HostClone _ _ _ _
  | HostMallocAligned _ _ _ _ _ | PhysicalMemoryAllocate _ _ _ _
  | HostRealloc _ _ _ | HostReallocAligned _ _ _ _ _
  | HostFree _ _ | HostFreeAligned _ _ | PhysicalMemoryFree _ _
  | AllocatorRetain _ | AllocatorRelease _
  | ValueListPushBuffer _ _ | ValueListPushBufferView _ _ | ValueListPushFence _ _ => false
  | _ => true
  end.

Section Invariant.
Context `{IREE}.

Lemma exec_keeps c : touches_globals c = false -> keeps (exec c).
Proof. destruct c; intros Hc; try discriminate Hc; simpl; clear Hc; keeps_tac. Qed.

(** The invariant of a process that uses libhrx. *)
Record inv (w : world) : Prop := {
  inv_wf : wf w;
  inv_runtime : runtime_inv (w_glob w);
}.

(** What a call guarantees: it moves the client's handle references as [client_step]
    says, and the foreign references nobody in the process accounts for change by
    what the client gained and what a refused push stranded. *)
Definition exec_post (c : api) (r : ptr) (w w' : world) : Prop :=
  wf w' /\ exists F G, eff w w' F G /\ client_step c r w w' G
    /\ forall p, F p = gains c r w w' p + strands c r w p.

Lemma handles_only_foreign c r w w' p :
  handles_only c = true -> gains c r w w' p + strands c r w p = 0.
Proof. by destruct c. Qed.

(** A call that neither consumes nor adds a reference of the client's. *)
Definition neutral (c : api) (r : ptr) : Prop :=
  takes c = None /\ retains c = None /\ (grants c <> None -> r <> 0).

Lemma neutral_plain c r : takes c = None -> retains c = None -> grants c = None -> neutral c r.
Proof. intros ? ? Hg. split; [done|]. split; [done|]. by rewrite Hg. Qed.

Lemma post_eff c r w w' F : neutral c r -> wf w' -> eff w w' F none ->
  (forall p, F p = gains c r w w' p + strands c r w p) -> exec_post c r w w'.
Proof. intros (? & ? & ?) ? ? ?. split; [done|]. exists F, none. split; [done|]. split; [by constructor|done]. Qed.

Lemma post_eff0 c r w w' :
  neutral c r -> handles_only c = true -> wf w' -> eff w w' none none -> exec_post c r w w'.
Proof. intros ? Hc ? ?. eapply post_eff; [done..|]. intros p. by rewrite handles_only_foreign. Qed.

Lemma post_safe0 c r w w' :
  neutral c r -> handles_only c = true -> safe w w' none none -> exec_post c r w w'.
Proof. intros ? ? [? ? _]. by apply post_eff0. Qed.

Lemma post_entry c r w w' :
  neutral c r -> handles_only c = true -> entry_ok w w' r -> exec_post c r w w'.
Proof. intros ? ? [? _]. by apply post_safe0. Qed.

Lemma post_plain c r w w' :
  takes c = None -> retains c = None -> grants c = None -> handles_only c = true ->
  entry_ok w w' r -> exec_post c r w w'.
Proof. intros. apply post_entry; [by apply neutral_plain|done|done]. Qed.

Lemma post_creates c r w w' out k :
  grants c = Some (k, out) -> handles_only c = true -> r = 0 -> creates w w' out k -> exec_post c r w w'.
Proof.
  intros Hg Hc -> (h & Hm & Hn & Hu & HS). split; [apply HS|]. exists none, (one h).
  split; [apply HS|]. split; [by eapply cs_create|]. intros p. by rewrite handles_only_foreign.
Qed.

Lemma post_create `{!LibcAlloc} c r w w' out k :
  takes c = None -> retains c = None -> handles_only c = true -> grants c = Some (k, out) ->
  create_post w w' r out k -> exec_post c r w w'.
Proof.
  intros Ht Hr Hc Hg [[Hr0 Hcr]|(_ & Hne & HS & _)]; [by eapply post_creates|].
  apply post_safe0; [|done|done]. split; [done|]. split; [done|]. intros _. by apply Hne.
Qed.

Lemma post_release c r w w' h :
  takes c = Some h -> handles_only c = true -> wf w' -> eff w w' none (fun q => - one h q) ->
  exec_post c r w w'.
Proof.
  intros ? Hc ? ?. split; [done|]. eexists _, _. split; [done|]. split; [by constructor|].
  intros p. by rewrite handles_only_foreign.
Qed.

Lemma retain_kind_spec k h w :
  wf w -> usable w k h -> wp (retain_kind k h) (fun _ w' => safe w w' none (one h)) w.
Proof.
  intros Hwf Hu. destruct k; simpl.
  1-6: by apply (handle_retain_spec (T:=_) w h).
  2-4: by apply (handle_retain_spec (T:=_) w h).
  unfold hrx_executable_retain. rewrite (usable_nonnull _ _ _ Hwf Hu).
  by apply (handle_retain_spec (T:=HrxExecutableS) w h).
Qed.

Lemma release_kind_spec k h w :
  wf w -> usable w k h -> 1 <= ext w h ->
  wp (release_kind k h) (fun _ w' => wf w' /\ eff w w' none (fun q => - one h q)) w.
Proof.
  intros Hwf Hu He. destruct k; simpl.
  1-6: by apply (handle_release_spec (T:=_) w h).
  2-4: by apply (handle_release_spec (T:=_) w h).
  unfold hrx_executable_release. rewrite (usable_nonnull _ _ _ Hwf Hu).
  by apply (handle_release_spec (T:=HrxExecutableS) w h).
Qed.

Lemma release_kind_last k h w n o :
  wf w -> w_heap w !! h = Some (n, o) -> okind o = k -> 1 <= ext w h ->
  wp (release_kind k h) (fun _ w' =>
    w_heap w' !! h = (if n =? 1 then None else Some (n - 1, o))
    /\ (1 < n -> w_trace w' = w_trace w)) w.
Proof.
  intros Hwf E Ek He. destruct k; simpl.
  1-6: by apply (handle_release_last (T:=_) w h n o).
  2-4: by apply (handle_release_last (T:=_) w h n o).
  unfold hrx_executable_release.
  rewrite (usable_nonnull w KExecutable h) by (done || by eexists _, _).
  by apply (handle_release_last (T:=HrxExecutableS) w h n o).
Qed.
End Invariant.

(** The specifications of the entry points, found by the head of the goal. *)
Create HintDb specs.
#[export] Hint Resolve
  hrx_device_synchronize_spec hrx_device_get_type_spec hrx_device_get_property_spec
  hrx_semaphore_create_spec hrx_semaphore_query_spec hrx_semaphore_wait_spec
  hrx_semaphore_signal_spec hrx_fence_create_spec hrx_fence_create_at_spec
  hrx_fence_insert_spec hrx_fence_extend_spec hrx_fence_signal_spec hrx_fence_wait_spec
  hrx_allocator_allocate_buffer_spec hrx_allocator_import_buffer_spec
  hrx_allocator_virtual_memory_reserve_spec hrx_buffer_map_spec hrx_buffer_unmap_spec
  hrx_buffer_get_device_ptr_spec hrx_buffer_get_size_spec hrx_synchronous_h2d_spec
  hrx_synchronous_d2h_spec hrx_allocator_query_virtual_memory_spec
  hrx_allocator_virtual_memory_map_spec hrx_allocator_virtual_memory_unmap_spec
  hrx_allocator_virtual_memory_protect_spec hrx_executable_load_data_spec
  hrx_executable_export_count_spec hrx_executable_export_info_spec
  hrx_executable_lookup_export_by_name_spec hrx_executable_load_file_spec
  hrx_buffer_view_create_spec hrx_buffer_view_rank_spec hrx_buffer_view_dim_spec
  hrx_value_list_create_spec hrx_value_list_size_spec hrx_value_list_push_i64_spec
  hrx_value_list_push_null_ref_spec hrx_value_list_get_i64_spec hrx_module_load_vmfb_spec
  hrx_module_lookup_function_spec hrx_function_invoke_spec hrx_queue_fill_spec
  hrx_queue_copy_spec hrx_queue_barrier_spec hrx_queue_dispatch_spec
  hrx_queue_host_call_spec hrx_stream_flush_spec hrx_stream_wait_spec
  hrx_stream_synchronize_spec hrx_stream_get_semaphore_spec hrx_stream_get_device_spec
  hrx_stream_get_timeline_position_spec hrx_stream_advance_timeline_spec
  hrx_stream_wait_on_spec hrx_stream_fill_buffer_spec hrx_stream_copy_buffer_spec
  hrx_stream_update_buffer_spec hrx_stream_execution_barrier_spec hrx_stream_dispatch_spec
  hrx_stream_query_spec hrx_stream_create_spec hrx_buffer_allocate_spec : specs.

Ltac post_tac :=
  intros ?r ?w';
  first [ by apply post_plain
        | by apply post_create
        | intros [? _]; by eapply post_plain ].

Section ExecSpec.
Context `{IREE, !IreeCreates, !LibcAlloc, !IreeDeviceAllocator}.

Lemma buffer_of_usable w vb :
  usable w KBuffer vb -> strong w vb = 1 -> exists b, w_heap w !! vb = Some (1, OBuffer b).
Proof.
  intros (n & o & E & Ek) Hs. unfold strong in Hs. rewrite E in Hs. simpl in Hs. subst n.
  destruct o; try discriminate Ek. by eexists.
Qed.

(** Calls that only touch statuses or report the version. *)
Lemma post_void c w w' :
  takes c = None -> retains c = None -> grants c = None -> handles_only c = true ->
  safe w w' none none -> wp (mret 0) (fun r w' => exec_post c r w w') w'.
Proof. intros. apply wp_ret, post_safe0; [by apply neutral_plain|done|done]. Qed.

Definition on_status (c : api) : bool :=
  match c with
  | RuntimeVersion _ _ _ | MakeStatus _ _ | StatusIgnore _ | StatusCode _ | StatusToString _ _ _
  | StatusFreeMessage _ | DeviceAllocator _ => true
  | _ => false
  end.

Lemma exec_on_status c w :
  on_status c = true -> wf w -> legal w c -> wp (exec c) (fun r w' => exec_post c r w w') w.
Proof.
  intros Hs Hwf Hc. destruct c; try discriminate Hs; clear Hs; simpl in Hc |- *.
  - apply wp_bind. eapply wp_mono; [by apply hrx_runtime_version_spec|]. intros. by apply post_void.
  - eapply wp_mono; [by apply make_status_safe|]. intros r w' (? & _). by apply post_safe0; [apply neutral_plain|..].
  - apply wp_bind. eapply wp_mono; [by apply hrx_status_ignore_spec|]. intros. by apply post_void.
  - apply wp_bind. eapply wp_mono; [by apply hrx_status_code_spec|]. intros ? ? ->.
    apply post_void; try done. by apply safe_refl.
  - eapply wp_mono; [by apply hrx_status_to_string_spec|]. intros r w' [? _]. by apply post_safe0; [apply neutral_plain|..].
  - apply wp_bind. eapply wp_mono; [apply libc_free_spec; [done|]|intros; by apply post_void].
    destruct Hc as [->|[? ->]]; eauto.
  - apply wp_bind. unfold hrx_device_allocator. wp_use device_deref_spec; [done|].
    intros ? ? [-> _]. apply wp_ret, post_void; try done. by apply safe_refl.
Qed.

(** Calls that move foreign references to or from the client. *)
Lemma cell_at w a v : w_mem w !! a = Some v -> cell w a = v.
Proof. unfold cell. by intros ->. Qed.

Lemma post_block c r w w' out :
  (forall p, gains c r w w' p + strands c r w p = if r =? 0 then cnt (cell w' out) p else 0) ->
  takes c = None -> retains c = None -> grants c = None ->
  block_post w w' r out -> exec_post c r w w'.
Proof.
  intros Hg ? ? ? (_ & _ & _ & p & Hm & Hs). assert (neutral c r) as Hn by by apply neutral_plain.
  destruct Hs as [[-> HS]|[Hr HS]].
  - eapply post_eff; [done|apply HS|apply HS|]. intros q. rewrite Hg. simpl. by rewrite (cell_at _ _ _ Hm).
  - eapply post_eff; [done|apply HS|apply HS|]. intros q. rewrite Hg.
    by rewrite (proj2 (Z.eqb_neq r 0) (Hr _)).
Qed.

Lemma post_push c r w w' l h :
  (forall p, gains c r w w' p + strands c r w p
             = if (r =? 0) || (is_null l || is_null h) then 0 else cnt (hal_ref w h) p) ->
  takes c = None -> retains c = None -> grants c = None ->
  push_post w w' r l h -> exec_post c r w w'.
Proof.
  intros Hg ? ? ? (_ & Hp). assert (neutral c r) as Hn by by apply neutral_plain.
  destruct Hp as [(Hl & _ & HS)|[[-> HS]|(Hl & Hr & HS)]];
    (eapply post_eff; [done|apply HS|apply HS|]); intros p; rewrite Hg.
  - by rewrite Hl, orb_true_r.
  - done.
  - by rewrite Hl, (proj2 (Z.eqb_neq r 0) (Hr _)).
Qed.

Lemma exec_foreign c w :
  handles_only c = false -> wf w -> legal w c -> wp (exec c) (fun r w' => exec_post c r w w') w.
Proof.
  intros Hf Hwf Hc. destruct c; try discriminate Hf; clear Hf; simpl in Hc |- *;
    repeat match goal with H : _ /\ _ |- _ => destruct H end.
  1-2,4,6: apply is_null_false in Hc; eapply wp_mono;
    [solve [eauto using hrx_host_allocator_malloc_spec, hrx_host_allocator_malloc_uninitialized_spec,
       hrx_host_allocator_clone_spec, hrx_host_allocator_malloc_aligned_spec]|];
    intros r w'; apply post_block; try done; intros p; simpl; lia.
  1,3: match goal with H : is_Some _ |- _ => destruct H as [old Hold] end;
    match goal with H : _ <> 0 |- _ => apply is_null_false in H end;
    eapply wp_mono; [solve [eauto using hrx_host_allocator_realloc_spec,
      hrx_host_allocator_realloc_aligned_spec]|];
    intros r w' (_ & new & Hnew & HS); eapply post_eff; [by apply neutral_plain|apply HS|apply HS|];
    intros p; simpl; rewrite (cell_at _ _ _ Hold), (cell_at _ _ _ Hnew); lia.
  1-2: apply wp_bind; eapply wp_mono;
    [solve [eauto using hrx_host_allocator_free_spec, hrx_host_allocator_free_aligned_spec]|];
    intros _ w' (HS & _); apply wp_ret; eapply post_eff; [by apply neutral_plain|apply HS|apply HS|];
    intros p'; simpl; lia.
  - apply wp_bind. eapply wp_mono; [by apply hrx_allocator_retain_spec|]. intros u w' HS. apply wp_ret.
    split; [apply HS|]. eexists _, _. split; [apply HS|]. split; [by constructor|]. intros p. simpl. lia.
  - apply wp_bind. eapply wp_mono; [by apply hrx_allocator_release_spec|]. intros _ w' [? ?]. apply wp_ret.
    split; [done|]. eexists _, _. split; [done|]. split; [by constructor|]. intros p. simpl. lia.
  - eapply wp_mono; [by apply hrx_allocator_physical_memory_allocate_spec|].
    intros r w' (_ & [[Hr HS]|(-> & p & Hp & HS)]);
      (eapply post_eff; [by apply neutral_plain|apply HS|apply HS|]); intros q; simpl.
    + by rewrite (proj2 (Z.eqb_neq r 0) (Hr _)).
    + rewrite (cell_at _ _ _ Hp). lia.
  - eapply wp_mono; [by apply hrx_allocator_physical_memory_free_spec|]. intros r w' (_ & HS).
    eapply post_eff; [by apply neutral_plain|apply HS|apply HS|]. intros q. simpl.
    destruct (is_null a); unfold none; lia.
  - eapply wp_mono; [by apply hrx_value_list_push_buffer_spec|]. intros r w'. by apply post_push.
  - eapply wp_mono; [by apply hrx_value_list_push_buffer_view_spec|]. intros r w'. by apply post_push.
  - eapply wp_mono; [by apply hrx_value_list_push_fence_spec|]. intros r w'. by apply post_push.
Qed.

(** Every legal call returns, and moves at most one reference. *)
Lemma exec_spec_wf c w :
  wf w -> runtime_inv (w_glob w) -> legal w c -> wp (exec c) (fun r w' => exec_post c r w w') w.
Proof.
  intros Hwf Hr Hc. destruct (handles_only c) eqn:Hh; [|by apply exec_foreign].
  destruct (on_status c) eqn:Hs; [by apply exec_on_status|].
  destruct c; try discriminate Hh; try discriminate Hs; clear Hh Hs; simpl in Hc |- *;
    repeat match goal with H : _ /\ _ |- _ => destruct H end;
    try (eapply wp_mono; [solve [eauto 2 with specs]|cbv beta; post_tac]; fail).
  - eapply wp_mono; [by apply hrx_cpu_initialize_spec|]. intros r w' [HS _]. by apply post_safe0; [apply neutral_plain|..].
  - eapply wp_mono; [by apply (accel_shutdown_spec cpu_slot)|].
    intros r w' [(? & ? & _) _]. by apply post_eff0; [apply neutral_plain|..].
  - eapply wp_mono; [by apply accel_device_count_spec|]. intros r w'. by apply post_plain.
  - eapply wp_mono; [by apply (accel_device_get_spec cpu_slot)|].
    intros r w' [? _]. by eapply post_plain.
  - eapply wp_mono; [by apply hrx_gpu_initialize_spec|].
    intros r w' [(? & ? & _) _]. by apply post_eff0; [apply neutral_plain|..].
  - eapply wp_mono; [by apply (accel_shutdown_spec gpu_slot)|].
    intros r w' [(? & ? & _) _]. by apply post_eff0; [apply neutral_plain|..].
  - eapply wp_mono; [by apply accel_device_count_spec|]. intros r w'. by apply post_plain.
  - eapply wp_mono; [by apply (accel_device_get_spec gpu_slot)|].
    intros r w' [? _]. by eapply post_plain.
  - apply wp_bind. eapply wp_mono; [by apply retain_kind_spec|]. intros u w' HS. apply wp_ret.
    split; [apply HS|]. exists none, (one h). split; [apply HS|]. split; [by constructor|done].
  - apply wp_bind. eapply wp_mono; [by apply release_kind_spec|]. intros u w' [? ?]. apply wp_ret.
    by eapply post_release.
  - eapply wp_mono; [by apply hrx_buffer_allocate_spec|].
    intros r w' [[? ?]|[? Hne]]; [by eapply post_creates|]. apply post_entry; [|done|done].
    split; [done|]. split; [done|]. intros _. by apply Hne.
  - destruct (buffer_of_usable w vb) as [b Hb]; [done..|].
    eapply wp_mono; [eapply hrx_allocator_virtual_memory_release_spec; try done|].
    { by apply is_null_false. }
    intros r w' (? & ? & _). by eapply post_release.
  - destruct Hc as [pool Hp]. apply wp_bind. eapply wp_mono; [by eapply pool_destroy_spec|].
    intros u w' [? _]. by apply post_safe0; [apply neutral_plain|..].
Qed.

Lemma exec_runtime c w :
  wf w -> runtime_inv (w_glob w) -> touches_globals c = true ->
  wp (exec c) (fun _ w' => runtime_inv (w_glob w')) w.
Proof.
  intros Hwf Hr Hc. destruct c; try discriminate Hc; simpl.
  - eapply wp_mono; [by apply hrx_cpu_initialize_spec|]. by intros r w' (_ & _ & ? & _).
  - eapply wp_mono; [by apply (accel_shutdown_spec cpu_slot)|]. by intros r w' [(_ & _ & _ & ?) _].
  - eapply wp_mono; [by apply hrx_gpu_initialize_spec|]. by intros r w' [(_ & _ & _ & ?) _].
  - eapply wp_mono; [by apply (accel_shutdown_spec gpu_slot)|]. by intros r w' [(_ & _ & _ & ?) _].
Qed.

(** A legal call from a good state neither panics nor runs into undefined
    behaviour, and leads to a good state. *)
Lemma exec_inv c w :
  inv w -> legal w c -> exists r w', exec c w = Done r w' /\ inv w'
    /\ exists F G, eff w w' F G /\ client_step c r w w' G
         /\ forall p, F p = gains c r w w' p + strands c r w p.
Proof.
  intros [Hwf Hr] Hc.
  pose proof (exec_spec_wf c w Hwf Hr Hc) as (r & w' & E & Hwf' & Hm)%wp_Done.
  exists r, w'. split; [done|]. split; [|done]. split; [done|].
  destruct (touches_globals c) eqn:Et.
  - pose proof (exec_runtime c w Hwf Hr Et) as (r2 & w2 & E2 & Hr2)%wp_Done. congruence.
  - by rewrite (exec_keeps c Et _ _ _ E).
Qed.

(** The step the specification allows is the one the ledger books. *)
Lemma client_step_earns c r w w' G h : client_step c r w w' G -> G h = earns c r w' h.
Proof.
  unfold earns. intros [q Hq|q Hq|k out q Hq -> Hm _ _|Ht Hr Hg].
  - by rewrite Hq.
  - rewrite Hq. destruct c; try discriminate Hq; done.
  - rewrite Hq. destruct c; try discriminate Hq; simpl; by rewrite (cell_at _ _ _ Hm).
  - rewrite Ht, Hr. destruct (grants c) as [[k out]|]; [|done].
    destruct (Z.eqb_spec r 0); [|done]. by destruct Hg.
Qed.
End ExecSpec.

(** ** Programs *)

Section Programs.
Context `{IREE}.

(** One call of a program, made from a state where it is legal, or a change the
    client makes to its own memory. *)
Inductive step : world -> world -> Prop :=
  | step_call w w' c r : legal w c -> exec c w = Done r w' -> step w w'
  | step_memory w m : step w (set_mem w m).

Definition reachable : world -> Prop := rtc step world_initial.

Lemma inv_initial : inv world_initial.
Proof.
  split; [|apply runtime_inv_initial].
  split; simpl; try lia; intros; try (by rewrite ?lookup_empty in * ).
  by destruct H0 as [H0|H0]; apply elem_of_nil in H0.
Qed.

Lemma reachable_inv_from `{!IreeCreates, !LibcAlloc, !IreeDeviceAllocator} w w' :
  inv w -> rtc step w w' -> inv w'.
Proof.
  intros Hi Hr. induction Hr as [|w1 w2 w3 [wa wb c r Hc Hx|wa m] _ IH]; [done|..]; apply IH.
  - destruct (exec_inv c wa Hi Hc) as (r' & w' & Hx' & Hi' & _). congruence.
  - destruct Hi as [Hwf Hr]. split; [|done]. apply (safe_wf _ _ _ _ (safe_set_mem wa m Hwf)).
Qed.

(** ** Histories

    What a client holds, booked from its calls and their answers alone: handle
    references, foreign resources of its own, and references that refused pushes
    left behind. *)
Record ledger := Ledger { held : ptr -> Z; blocks : ptr -> Z; stranded : ptr -> Z }.

Definition ledger_initial : ledger := Ledger none none none.

Definition book (c : api) (r : ptr) (w w' : world) (L : ledger) : ledger :=
  Ledger (fun h => held L h + earns c r w' h) (fun p => blocks L p + gains c r w w' p)
    (fun p => stranded L p + strands c r w p).

(** A client gives back only what it holds. *)
Definition permitted (w : world) (L : ledger) (c : api) : Prop :=
  match c with
  | Release _ h | VirtualMemoryRelease _ h => 1 <= held L h
  | AllocatorRelease a =>
      1 <= held L (a - ALLOCATOR_OFFSET) /\ 1 <= blocks L (hal_allocator_of w a)
  | HostFree _ q | HostFreeAligned _ q | PhysicalMemoryFree _ q => q = 0 \/ 1 <= blocks L q
  | HostRealloc _ _ io | HostReallocAligned _ _ _ _ io => cell w io = 0 \/ 1 <= blocks L (cell w io)
  | _ => True
  end.

(** The states of a program with the ledger of its client. *)
Inductive history : world -> ledger -> Prop :=
  | history_start : history world_initial ledger_initial
  | history_call w L c r w' :
      history w L -> legal w c -> permitted w L c -> exec c w = Done r w' ->
      history w' (book c r w w' L)
  | history_memory w L m : history w L -> history (set_mem w m) L.

Lemma history_reachable w L : history w L -> reachable w.
Proof.
  induction 1 as [|w L c r w' _ IH Hc _ E|w L m _ IH]; [apply rtc_refl|..];
    (eapply rtc_r; [exact IH|]); [by econstructor|constructor].
Qed.

(** The library's counts agree with the books. *)
Lemma history_books `{!IreeCreates, !LibcAlloc, !IreeDeviceAllocator} w L :
  history w L -> inv w /\ (forall h, ext w h = held L h)
    /\ forall p, imb w p = blocks L p + stranded L p.
Proof.
  induction 1 as [|w L c r w' _ IH Hc _ E|w L m _ IH].
  - split; [apply inv_initial|]. split; [done|]. intros p. unfold imb, owned, globals_own, accel_owns.
    simpl. by rewrite msum_empty, cnt_null.
  - destruct IH as (Hi & He & Hb). destruct (exec_inv c w Hi Hc) as (r' & w1 & E' & Hi' & F & G & HE & HC & HF).
    rewrite E in E'. simplify_eq. split; [done|]. split.
    + intros h. rewrite (eff_ext _ _ _ _ HE), He, (client_step_earns _ _ _ _ _ h HC). done.
    + intros p. rewrite (eff_imb _ _ _ _ HE), Hb, HF. simpl. lia.
  - destruct IH as ([Hwf Hr] & He & Hb). split; [|done].
    split; [apply (safe_wf _ _ _ _ (safe_set_mem w m Hwf))|done].
Qed.
End Programs.

(** ** Shutting down *)

(** Objects keep references to objects of smaller rank only. *)
Definition kind_rank (k : kind) : nat :=
  match k with
  | KDevice => 0
  | KSemaphore | KModule => 1
  | _ => 2
  end.

Lemma links_rank o k q : (k, q) ∈ links o -> (kind_rank k < kind_rank (okind o))%nat.
Proof.
  destruct o; simpl; rewrite ?elem_of_cons, ?elem_of_nil; intros Hin;
    repeat destruct Hin as [Hin|Hin]; try done; inversion Hin; subst; simpl; lia.
Qed.

Section Quiescence.
Context (w : world).
Hypothesis Hwf : wf w.
Hypothesis Hdown : forall h, globals_link (w_glob w) h = 0.
Hypothesis Hext : forall h, ext w h = 0.

(** A live object is linked from a live object of larger rank. *)
Lemma live_linked h n o :
  w_heap w !! h = Some (n, o) ->
  exists h' n' o', w_heap w !! h' = Some (n', o') /\ (kind_rank (okind o) < kind_rank (okind o'))%nat.
Proof.
  intros Hh. pose proof (wf_strong _ Hwf _ _ _ Hh). specialize (Hext h).
  unfold ext, internal, strong in Hext. rewrite Hh, Hdown in Hext. simpl in Hext.
  destruct (msum_pos_elem (fun e => link_cnt e.2 h) (w_heap w)) as (h' & [n' o'] & Hh' & Hl); [lia|].
  apply link_cnt_pos in Hl as [k Hk]. exists h', n', o'. split; [done|].
  destruct (wf_links _ Hwf _ _ _ _ _ Hh' Hk) as (n2 & o2 & Hh2 & <-). simplify_eq.
  by apply (links_rank o' _ h).
Qed.

Lemma heap_empty : w_heap w = ∅.
Proof.
  apply map_empty. intros h. destruct (w_heap w !! h) as [[n o]|] eqn:Hh; [exfalso|done].
  assert (forall m h n o, w_heap w !! h = Some (n, o) -> (2 - kind_rank (okind o) < m)%nat -> False)
    as Hno; [|by eapply (Hno 3%nat _ _ _ Hh); lia].
  induction m as [|m IH]; [lia|]. intros h1 n1 o1 Hh1 Hm.
  destruct (live_linked _ _ _ Hh1) as (h2 & n2 & o2 & Hh2 & Hr). eapply IH; [exact Hh2|].
  assert (kind_rank (okind o2) <= 2)%nat by (destruct (okind o2); simpl; lia). lia.
Qed.
End Quiescence.

Section Shutdown.
Context `{IREE}.

(** With both accelerators down and no reference of the client's left, every object
    is gone, and the foreign references not given back are those of live pools and
    those nobody accounts for. *)
Lemma inv_quiescent w :
  inv w -> ac_initialized (g_cpu (w_glob w)) = false -> ac_initialized (g_gpu (w_glob w)) = false ->
  (forall h, ext w h = 0) ->
  w_heap w = ∅ /\ forall p, refs (w_trace w) p = lsum (fun e => pool_owns e p) (w_pools w) + imb w p.
Proof.
  intros [Hwf (Hsh & (_ & _ & Hc) & (_ & _ & Hg))] Hcpu Hgpu Hext.
  destruct (Hc Hcpu) as [Hc1 Hc2]. destruct (Hg Hgpu) as [Hg1 Hg2].
  assert (w_heap w = ∅) as Hh.
  { apply heap_empty; [done| |done]. intros h. unfold globals_link. by rewrite Hc1, Hg1. }
  split; [done|]. intros p. unfold imb, owned, globals_own, accel_owns.
  unfold accel_users in Hsh. rewrite Hcpu, Hgpu in Hsh. destruct Hsh as (_ & _ & Hz).
  destruct Hz as [Hv Hp]; [done|].
  rewrite Hh, Hc2, Hg2, Hv, Hp, !cnt_null, msum_empty. lia.
Qed.
End Shutdown.
