(* ===== verification/Scenario.v ===== *)
(** * Concrete programs

    Programs of API calls run against the concrete environment of [Iree], and
    the worlds they lead to.  The witnesses of the theorems live in them. *)

From S2P Require Import Prelude Iree Objects Machine Handle Status IreeHal Device Semaphore Buffer HostAllocator Executable BufferView ValueList Modules QueueOps Stream Pool StreamAlloc Runtime Lifecycle.

Section Play.
Context `{IREE}.

(** The world after a sequence of calls, if all of them return. *)
Fixpoint play (cs : list api) (w : world) : option world :=
  match cs with
  | [] => Some w
  | c :: cs => match exec c w with Done _ w' => play cs w' | _ => None end
  end.

(** Every call of the sequence is legal where it is made. *)
Fixpoint legal_all (cs : list api) (w : world) : Prop :=
  match cs with
  | [] => True
  | c :: cs => legal w c /\ match exec c w with Done _ w' => legal_all cs w' | _ => False end
  end.

Lemma play_reachable cs : forall w w', legal_all cs w -> play cs w = Some w' -> rtc step w w'.
Proof.
  induction cs as [|c cs IH]; intros w w'; simpl.
  - intros _ [= ->]. apply rtc_refl.
  - destruct (exec c w) as [r w1| |] eqn:E; [|by intros []..]. intros [Hl Hc] Hp.
    eapply rtc_l; [by econstructor|by apply IH].
Qed.

(** The same with the client's ledger. *)
Fixpoint keep_books (cs : list api) (w : world) (L : ledger) : option (world * ledger) :=
  match cs with
  | [] => Some (w, L)
  | c :: cs => match exec c w with Done r w' => keep_books cs w' (book c r w w' L) | _ => None end
  end.

Fixpoint permitted_all (cs : list api) (w : world) (L : ledger) : Prop :=
  match cs with
  | [] => True
  | c :: cs => permitted w L c
      /\ match exec c w with Done r w' => permitted_all cs w' (book c r w w' L) | _ => False end
  end.

Lemma keep_books_history cs : forall w L,
  history w L -> legal_all cs w -> permitted_all cs w L ->
  exists w' L', keep_books cs w L = Some (w', L') /\ play cs w = Some w' /\ history w' L'.
Proof.
  induction cs as [|c cs IH]; intros w L Hh; simpl.
  - intros _ _. by exists w, L.
  - destruct (exec c w) as [r w1| |] eqn:E; [|by intros []..]. intros [Hl Hc] [Hp Hps].
    apply IH; [by eapply history_call|done|done].
Qed.
End Play.

#[export] Existing Instance mock_iree.
#[export] Existing Instance mock_creates.
#[export] Existing Instance mock_libc.

#[export] Instance mock_device_allocator : IreeDeviceAllocator.
Proof. intros tr d. simpl. unfold iree_respond, mock_iree, mock_respond. lia. Qed.

(** The addresses the concrete environment hands out. *)
Definition A0 : ptr := 2 ^ 40.
Definition at_block (n : Z) : ptr := A0 + n * BLOCK.

(** Bring the CPU device up and fetch it into address 100. *)
Definition boot : list api := [CpuInitialize 0; CpuDeviceGet 0 100].

Definition world_of (cs : list api) : world :=
  match play cs world_initial with Some w => w | None => world_initial end.

Definition ledger_of (cs : list api) : ledger :=
  match keep_books cs world_initial ledger_initial with Some (_, L) => L | None => ledger_initial end.

(** Closing legality goals at a concrete world. *)
Ltac legal_now :=
  vm_compute;
  repeat match goal with
  | |- True => exact I
  | |- _ /\ _ => split
  | |- _ = _ \/ (exists _, _) => right
  | |- _ \/ (_ -> False) => right
  | |- exists _ _, _ = _ /\ _ => eexists _, _; split; reflexivity
  | |- _ = _ => reflexivity
  | |- _ -> False => discriminate
  | |- _ <> _ => discriminate
  end.

(** A legal program in which the client gives back only what it holds. *)
Lemma program_history cs :
  legal_all cs world_initial -> permitted_all cs world_initial ledger_initial ->
  history (world_of cs) (ledger_of cs).
Proof.
  intros Hl Hp. destruct (keep_books_history cs _ _ history_start Hl Hp) as (w & L & Hk & Hw & Hh).
  unfold world_of, ledger_of. by rewrite Hk, Hw.
Qed.

(** A session: allocate a buffer (into 108), map and unmap it, make a stream
    (into 116), fill through it and flush; handles at blocks 1 and 4. *)
Definition DEV : ptr := A0.
Definition BUF : ptr := at_block 1.
Definition STR : ptr := at_block 4.
Definition SEM : ptr := at_block 3.

Definition session : list api := boot ++
  [AllocateBuffer (DEV + ALLOCATOR_OFFSET) (HrxParams 48 3 3075 0) 256 108;
   BufferMap BUF 3 0 256 112; BufferUnmap BUF;
   StreamCreate DEV 0 116;
   StreamFillBuffer STR BUF 0 64 200 4; StreamFlush STR].

(** What ends it. *)
Definition farewell : list api := [Release KStream STR; Release KBuffer BUF; CpuShutdown].

Lemma session_legal : legal_all session world_initial.
Proof. legal_now. Qed.

Lemma session_reachable : reachable (world_of session).
Proof. apply (play_reachable session); [apply session_legal|vm_compute; reflexivity]. Qed.

Lemma session_end_reachable : reachable (world_of (session ++ farewell)).
Proof. apply (play_reachable (session ++ farewell)); [legal_now|vm_compute; reflexivity]. Qed.

(** A longer program: a value list (into 124) that is given the buffer, a block of the
    host allocator (into 140) and a reference to the device's allocator. *)
Definition LST : ptr := at_block 5.
Definition HOST_BLOCK : ptr := 4576.

Definition errands : list api := session ++
  [ValueListCreate 4 124; ValueListPushBuffer LST BUF;
   HostMalloc allocator_system 64 140; AllocatorRetain (DEV + ALLOCATOR_OFFSET)].

Definition errands_done : list api := errands ++
  [HostFree allocator_system HOST_BLOCK; AllocatorRelease (DEV + ALLOCATOR_OFFSET);
   Release KValueList LST] ++ farewell.

Lemma session_history : history (world_of session) (ledger_of session).
Proof. apply program_history; legal_now. Qed.

Lemma errands_history : history (world_of errands) (ledger_of errands).
Proof. apply program_history; legal_now. Qed.

Lemma errands_done_history : history (world_of errands_done) (ledger_of errands_done).
Proof. apply program_history; legal_now. Qed.
