(* ===== verification/Ownership.v ===== *)
(** * Ownership: the theorems about whole programs

    What every client program that respects the API contract may rely on: calls
    return, references are counted exactly, handles stay alive while somebody
    holds them, and what is left when everything was given back. *)

From S2P Require Import Prelude Iree Objects Machine Handle Status IreeHal Device Semaphore Buffer HostAllocator Executable BufferView ValueList Modules QueueOps Stream Pool StreamAlloc Runtime Lifecycle Scenario.

Section Ownership.
Context `{IREE, !IreeCreates, !LibcAlloc, !IreeDeviceAllocator}.

Lemma reachable_inv w : reachable w -> inv w.
Proof. apply reachable_inv_from, inv_initial. Qed.
End Ownership.

Section Theorems.
Context `{IREE, !IreeCreates, !LibcAlloc, !IreeDeviceAllocator}.

(** C1: In every state a client program can reach, every legal call of the API, which
    is all 114 exported functions, returns: it neither panics nor runs into undefined
    behaviour (use after free, double free, null dereference, out-of-bounds access),
    whatever IREE answers within [IreeCreates] and [IreeDeviceAllocator] while malloc
    succeeds, and the state it leaves satisfies the invariant again. *)
Theorem api_safe w c :
  reachable w -> legal w c -> exists r w', exec c w = Done r w' /\ inv w'.
Proof.
  intros Hr Hc. destruct (exec_inv c w (reachable_inv w Hr) Hc) as (r & w' & E & Hi & _). eauto.
Qed.

(** C2: When the books say that the client has given back all its handles and all its
    foreign resources, and both accelerators are shut down, no handle object is left,
    and the only foreign references (IREE objects, error statuses, mappings, files)
    not given back are those of pools IREE has not destroyed yet and those stranded by
    refused reference pushes. *)
Theorem shutdown_leaks_nothing w L :
  history w L -> ac_initialized (g_cpu (w_glob w)) = false ->
  ac_initialized (g_gpu (w_glob w)) = false ->
  (forall h, held L h = 0) -> (forall p, blocks L p = 0) ->
  w_heap w = ∅
  /\ forall p, refs (w_trace w) p = lsum (fun e => pool_owns e p) (w_pools w) + stranded L p.
Proof.
  intros (Hi & He & Hb)%history_books Hc Hg Hh Hp.
  destruct (inv_quiescent w Hi Hc Hg) as [Hheap Hrefs]; [intros h; by rewrite He|].
  split; [done|]. intros p. by rewrite Hrefs, Hb, Hp.
Qed.

(** C3: After every program of a client that gives back only what it holds, the counts
    are exact.  The strong count of an object is the number of handles other objects
    and the statics keep to it plus the references the client's calls have earned it
    ([held], booked from calls and answers alone); the objects a live object points to
    are alive; a handle the library has freed is not held; and the references received
    over the FFI boundary are those that live objects, pools and statics hold, the
    client's own foreign resources, and one for every refused reference push. *)
Theorem counts_are_exact w L :
  history w L ->
  (forall h n o, w_heap w !! h = Some (n, o) ->
     1 <= n /\ 0 <= held L h
     /\ n = msum (fun e => link_cnt e.2 h) (w_heap w) + globals_link (w_glob w) h + held L h
     /\ forall k q, (k, q) ∈ links o -> usable w k q)
  /\ (forall h, w_heap w !! h = None -> held L h = 0)
  /\ forall p, refs (w_trace w) p = owned w p + blocks L p + stranded L p.
Proof.
  intros ([Hwf _] & He & Hb)%history_books. split; [|split].
  - intros h n o E. split; [by eapply wf_strong|]. rewrite <- He. split; [by apply wf_ext|]. split.
    + unfold ext, internal, strong. rewrite E. simpl. lia.
    + intros k q. by eapply wf_links.
  - intros h E. pose proof (wf_ext _ Hwf h) as Hx. rewrite <- He. unfold ext, strong in *. rewrite E in *.
    pose proof (internal_nonneg w h). lia.
  - intros p. specialize (Hb p). unfold imb in Hb. lia.
Qed.

(** C4: Every call implements the abstract reference specification [client_step]:
    a retain (of a handle or of a device through its allocator) adds one reference to
    what the client holds, a release takes one, a constructor that answers OK adds one
    reference of a fresh handle of the right kind, stored in the out-parameter, and no
    other call changes what the client holds.  The foreign references outside the
    library's objects change by the blocks, physical memory and allocator references
    the call hands to the client or takes from it, and by one if it is a reference push
    that IREE refuses. *)
Theorem api_refines_client_step w c :
  reachable w -> legal w c ->
  exists r w' G, exec c w = Done r w' /\ client_step c r w w' G
    /\ (forall h, ext w' h = ext w h + G h)
    /\ forall p, imb w' p = imb w p + gains c r w w' p + strands c r w p.
Proof.
  intros Hr Hc.
  destruct (exec_inv c w (reachable_inv w Hr) Hc) as (r & w' & E & _ & F & G & HE & HC & HF).
  exists r, w', G. split; [done|]. split; [done|]. split; [apply (eff_ext _ _ _ _ HE)|].
  intros p. rewrite (eff_imb _ _ _ _ HE), HF. lia.
Qed.

(** C5: Every legal call returns, and every handle the client holds a reference of
    stays alive, with its kind, over it unless the call consumes that reference;
    shutdowns and the releases of other handles are included. *)
Theorem held_handles_stay_alive w c :
  reachable w -> legal w c ->
  exists r w', exec c w = Done r w'
    /\ forall k h, usable w k h -> 1 <= ext w h -> takes c <> Some h -> usable w' k h.
Proof.
  intros Hr Hc.
  destruct (exec_inv c w (reachable_inv w Hr) Hc) as (r & w' & E & _ & F & G & HE & HC & _).
  exists r, w'. split; [done|]. intros k h Hu He Ht.
  eapply usable_held; [done|done|]. rewrite (eff_ext _ _ _ _ HE).
  enough (0 <= G h) by lia. destruct HC as [q _|q Hq|k' out q _ _ _ _ _|_]; [auto with hrx| |auto with hrx|done].
  by rewrite (one_ne q h) by congruence.
Qed.

(** C6: A release of any kind of handle takes exactly one from its strong count;
    the block is freed exactly when the count was one, and while other
    references remain no destructor runs and IREE is not called. *)
Theorem release_frees_exactly_the_last w k h n o :
  reachable w -> w_heap w !! h = Some (n, o) -> okind o = k -> 1 <= ext w h ->
  exists w', exec (Release k h) w = Done 0 w'
    /\ w_heap w' !! h = (if n =? 1 then None else Some (n - 1, o))
    /\ (1 < n -> w_trace w' = w_trace w).
Proof.
  intros [Hwf _]%reachable_inv E Ek He.
  pose proof (release_kind_last k h w n o Hwf E Ek He) as ([] & w' & Ew & ?)%wp_Done.
  exists w'. split; [|done]. simpl. by rewrite (bind_Done _ _ _ _ _ Ew).
Qed.
End Theorems.

(** ** Witnesses *)

Lemma api_safe_witness : exists r w', exec (StreamFlush STR) (world_of session) = Done r w' /\ inv w'.
Proof. apply api_safe; [apply session_reachable|legal_now]. Defined.

Lemma shutdown_leaks_nothing_witness :
  w_heap (world_of errands_done) = ∅
  /\ forall p, refs (w_trace (world_of errands_done)) p
     = lsum (fun e => pool_owns e p) (w_pools (world_of errands_done)) + stranded (ledger_of errands_done) p.
Proof.
  pose proof (history_books _ _ errands_done_history) as (_ & He & Hb).
  apply shutdown_leaks_nothing; [apply errands_done_history|vm_compute; reflexivity..| |].
  - intros h. rewrite <- He. vm_compute. reflexivity.
  - intros p. set (q := hal_allocator_of (world_of errands) (DEV + ALLOCATOR_OFFSET)).
    assert (blocks (ledger_of errands_done) p
            = 0 + cnt HOST_BLOCK p + cnt q p + - cnt HOST_BLOCK p + - cnt q p + 0 + 0 + 0 + 0) as E
      by (vm_compute; reflexivity).
    rewrite E. lia.
Defined.

(** Device, buffer and value list with the client's references, the block and the
    allocator reference it holds. *)
Lemma counts_are_exact_witness :
  strong (world_of errands) DEV = 5 /\ held (ledger_of errands) DEV = 1
  /\ held (ledger_of errands) LST = 1 /\ blocks (ledger_of errands) HOST_BLOCK = 1
  /\ forall p, refs (w_trace (world_of errands)) p
       = owned (world_of errands) p + blocks (ledger_of errands) p + stranded (ledger_of errands) p.
Proof.
  split; [vm_compute; reflexivity|]. split; [vm_compute; reflexivity|].
  split; [vm_compute; reflexivity|]. split; [vm_compute; reflexivity|].
  apply counts_are_exact, errands_history.
Defined.

Lemma api_refines_client_step_witness :
  exists r w' G, exec (SemaphoreCreate DEV 7 128) (world_of session) = Done r w'
    /\ client_step (SemaphoreCreate DEV 7 128) r (world_of session) w' G
    /\ (forall h, ext w' h = ext (world_of session) h + G h)
    /\ forall p, imb w' p = imb (world_of session) p + 0 + 0.
Proof. apply (api_refines_client_step (world_of session) (SemaphoreCreate DEV 7 128)); [apply session_reachable|legal_now]. Defined.

Lemma held_handles_stay_alive_witness :
  exists r w', exec CpuShutdown (world_of session) = Done r w' /\ usable w' KStream STR.
Proof.
  destruct (held_handles_stay_alive (world_of session) CpuShutdown session_reachable I) as (r & w' & E & Hk).
  exists r, w'. split; [exact E|]. apply Hk.
  - eexists _, _. split; [vm_compute; reflexivity|reflexivity].
  - vm_compute. discriminate.
  - discriminate.
Defined.

Lemma release_frees_exactly_the_last_witness :
  exists w', exec (Release KBuffer BUF) (world_of session) = Done 0 w'
    /\ w_heap w' !! BUF = None /\ (1 < 1 -> w_trace w' = w_trace (world_of session)).
Proof.
  eapply (release_frees_exactly_the_last (world_of session) KBuffer BUF 1).
  - apply session_reachable.
  - vm_compute. reflexivity.
  - reflexivity.
  - vm_compute. discriminate.
Defined.
