(* ===== verification/StreamTimeline.v ===== *)
(** * The timeline of a stream

    What the operations of stream.rs do to a stream and to the queue: recording
    leaves the timeline alone, a flush submits the pending command buffer as the
    next point of the timeline, and so the submissions of recording, flushing and
    waiting calls form a chain in which each one waits on its predecessor. *)

From S2P Require Import Prelude Iree Objects Machine Handle Status IreeHal Device Semaphore Buffer HostAllocator Executable BufferView ValueList Modules QueueOps Stream Pool StreamAlloc Runtime Lifecycle Scenario Ownership.

(** ** Submissions *)

(** What a successful [iree_hal_device_queue_execute] submitted: the device, the wait
    and signal lists and the command buffer. *)
Record submission := Sub {
  sub_device : ptr;
  sub_wait : list (ptr * Z);
  sub_signal : list (ptr * Z);
  sub_cb : ptr
}.

Definition sub_of (e : event) : option submission :=
  match e with
  | Ev c r =>
      match c in ffi A return A -> option submission with
      | ffi_status (iree_hal_device_queue_execute d _ wait signal cb) =>
          fun s => if status_is_ok s then Some (Sub d wait signal cb) else None
      | _ => fun _ => None
      end r
  end.

(** The submissions of a trace, oldest first. *)
Definition subs (tr : list event) : list submission := reverse (omap sub_of tr).

(** The wait list of the submission that follows timeline value [t]. *)
Definition wait_for (sem : ptr) (t : Z) : list (ptr * Z) := if 0 <? t then [(sem, t)] else [].

(** The command buffers [cbs] submitted to device [d] in this order, the first one
    after timeline value [t]: each waits for the value before (if there is one) and
    signals the next. *)
Fixpoint chain (d sem : ptr) (t : Z) (cbs : list ptr) : list submission :=
  match cbs with
  | [] => []
  | cb :: cbs => Sub d (wait_for sem t) [(sem, t + 1)] cb :: chain d sem (t + 1) cbs
  end.

Lemma chain_app d sem cbs : forall t cbs',
  chain d sem t (cbs ++ cbs') = chain d sem t cbs ++ chain d sem (t + Z.of_nat (length cbs)) cbs'.
Proof.
  induction cbs as [|cb cbs IH]; intros t cbs'; cbn [chain length app].
  - by rewrite Z.add_0_r.
  - rewrite IH. do 3 f_equal. lia.
Qed.

Lemma subs_cons e tr : subs (e :: tr) = subs tr ++ option_list (sub_of e).
Proof. unfold subs. simpl. destruct (sub_of e); simpl; [by rewrite reverse_cons|by rewrite app_nil_r]. Qed.

(** ** Steps that neither touch objects nor submit *)

Definition quiet (w w' : world) : Prop :=
  w_heap w' = w_heap w /\ subs (w_trace w') = subs (w_trace w) /\ w_next w <= w_next w'.

#[export] Instance quiet_preorder : PreOrder quiet.
Proof.
  split; [by repeat split|].
  intros w1 w2 w3 (H1 & H2 & ?) (H3 & H4 & ?). split; [congruence|]. split; [congruence|lia].
Qed.

Definition hushed {A} (m : M A) : Prop := forall w a w', m w = Done a w' -> quiet w w'.

Lemma bind_inv {A B} (m : M A) (f : A -> M B) w b w' :
  (m ≫= f) w = Done b w' -> exists a w1, m w = Done a w1 /\ f a w1 = Done b w'.
Proof. unfold mbind, M_bind. destruct (m w) as [a w1| |]; [eauto|done|done]. Qed.

Section Hushed.
Context `{IREE}.

Lemma hushed_ret {A} (a : A) : hushed (mret a).
Proof. by inversion 1. Qed.

Lemma hushed_bind {A B} (m : M A) (f : A -> M B) :
  hushed m -> (forall a, hushed (f a)) -> hushed (m ≫= f).
Proof.
  intros Hm Hf w b w' (a & w1 & E1 & E2)%bind_inv. etransitivity; [by eapply Hm|by eapply Hf].
Qed.

Lemma hushed_call {A : Set} (c : ffi A) : (forall r, sub_of (Ev c r) = None) -> hushed (call c).
Proof.
  intros Hc w a w'. inversion 1; subst. split; [done|]. split; [|done].
  simpl. rewrite subs_cons, Hc. apply app_nil_r.
Qed.

Lemma hushed_with_local {A} v (body : ptr -> M A) :
  (forall p, hushed (body p)) -> hushed (with_local v body).
Proof.
  intros Hb w a w'. unfold with_local. destruct (body _ _) as [x w1| |] eqn:E; [|done|done].
  destruct (w_mem w1 !! w_next w); [|done]. inversion 1; subst. simpl.
  destruct (Hb _ _ _ _ E) as (? & ? & Hn). split; [done|]. split; [done|].
  simpl in *. unfold BLOCK in *. lia.
Qed.
End Hushed.

Create HintDb hushed.
#[export] Hint Resolve hushed_ret : hushed.

(** A primitive written as a function of the world. *)
Ltac hushed_prim :=
  let w := fresh in let a := fresh in let w' := fresh in let E := fresh in
  intros w a w' E; repeat case_match; simplify_eq;
  (split; [done|]; split; [done|]; simpl; unfold BLOCK; lia).

Ltac hushed_step :=
  lazymatch goal with
  | |- hushed (_ ≫= _) => apply hushed_bind; [|intros]
  | |- hushed (with_local _ _) => apply hushed_with_local; intros
  | |- hushed (call _) => apply hushed_call; done
  | |- hushed (match ?x with _ => _ end) => destruct x
  | |- hushed ?m => first [ solve [auto with hushed] | let f := head_of m in unfold f; hushed_prim
                         | let f := head_of m in unfold f ]
  end.
Ltac hushed_tac := repeat hushed_step.

Section HushedLib.
Context `{IREE}.

Lemma hushed_make_status c m : hushed (hrx_make_status c m).
Proof. hushed_tac. Qed.

Lemma hushed_from_iree s : hushed (hrx_status_from_iree s).
Proof. unfold hrx_status_from_iree. hushed_tac. Qed.

Lemma hushed_bindings_loop b n : forall i, hushed (bindings_loop b i n).
Proof. induction n; intros i; simpl; hushed_tac; auto. Qed.

Lemma hushed_buffer_hal b : hushed (buffer_hal b).
Proof. hushed_tac. Qed.

Lemma hushed_semaphore_wait s v t : hushed (hrx_semaphore_wait s v t).
Proof. hushed_tac. Qed.

Lemma hushed_semaphore_query s out : hushed (hrx_semaphore_query s out).
Proof. hushed_tac. Qed.
End HushedLib.
#[export] Hint Resolve hushed_make_status hushed_from_iree hushed_bindings_loop hushed_buffer_hal hushed_semaphore_wait hushed_semaphore_query : hushed.

Section Nonzero.
Context `{IREE, !LibcAlloc}.

Lemma make_status_nonzero code msg w r w' :
  hrx_make_status code msg w = Done r w' -> 0 < w_next w -> code <> 0 -> r <> 0.
Proof.
  unfold hrx_make_status, HRX_STATUS_OK. intros E Hw Hc.
  destruct (Z.eqb_spec code 0); [done|].
  apply bind_inv in E as (ok & w1 & E1 & E). inversion E1; subst.
  rewrite libc_alloc_succeeds in E. simpl in E.
  apply bind_inv in E as (s & w2 & E2 & E). inversion E2; subst. simpl in E.
  apply bind_inv in E as (m & w3 & _ & E). apply bind_inv in E as (u & w4 & _ & E).
  inversion E; subst. simpl. lia.
Qed.

Lemma from_iree_result s w r w' :
  hrx_status_from_iree s w = Done r w' -> 0 < w_next w -> (s = 0 -> r = 0) /\ (s <> 0 -> r <> 0).
Proof.
  unfold hrx_status_from_iree, status_is_ok. intros E Hw.
  destruct (is_null s) eqn:Es; bool_to_prop; [by inversion E|]. split; [done|]. intros _.
  apply bind_inv in E as ([[ok msg] text] & w1 & E1 & E).
  assert (0 < w_next w1) by (inversion E1; subst; done). destruct ok; simpl in E.
  - apply bind_inv in E as (x & w2 & E2 & E). apply bind_inv in E as (u & w3 & _ & E).
    apply bind_inv in E as (u' & w4 & _ & E). inversion E; subst.
    eapply make_status_nonzero; [exact E2|done|apply hrx_code_from_iree_nonzero].
  - apply bind_inv in E as (x & w2 & E2 & E).
    eapply make_status_nonzero; [exact E|inversion E2; subst; done|apply hrx_code_from_iree_nonzero].
Qed.
End Nonzero.

(** ** Reading a finished call backwards *)

Ltac hush E :=
  lazymatch type of E with
  | ?m ?w = Done ?a ?w' =>
      let Hq := fresh "Hq" in
      assert (quiet w w') as Hq by (revert E; assert (hushed m) as Hq by (hushed_tac; fail); apply Hq)
  end.

(** Split a finished computation into its steps; quiet steps leave only [quiet]. *)
Ltac explode E :=
  cbv beta in E;
  lazymatch type of E with
  | (_ ≫= _) _ = Done _ _ =>
      let a := fresh "a" in let w1 := fresh "w" in let E1 := fresh "E" in
      apply bind_inv in E as (a & w1 & E1 & E); try hush E1; explode E
  | (if ?b then _ else _) _ = Done _ _ => destruct b eqn:?; explode E
  | (match ?x with _ => _ end) _ = Done _ _ => destruct x; explode E
  | mret _ _ = Done _ _ => injection E as ? ?; simplify_eq
  | _ => try hush E
  end.

Ltac qtrans := repeat match goal with E1 : quiet ?a ?b, E2 : quiet ?b ?c |- _ =>
  pose proof (transitivity E1 E2 : quiet a c); clear E1 E2 end.

Definition pending (st : HrxStreamS) : bool := st_has_pending_work st && negb (is_null (st_pending_cb st)).

(** The stream after its pending work was submitted. *)
Definition submitted (st : HrxStreamS) : HrxStreamS :=
  Stream (wrap_u64 (st_timepoint st + 1)) null false (st_flags st) (st_semaphore st) (st_device st).

Section Flush.
Context `{IREE, !LibcAlloc}.

Definition sem_at (w : world) (h p : ptr) : Prop :=
  exists n s, w_heap w !! h = Some (n, OSemaphore s) /\ sem_hal s = p.

Definition dev_at (w : world) (h d : ptr) : Prop :=
  exists n v, w_heap w !! h = Some (n, ODevice v) /\ dev_hal_device v = d.

(** The IREE calls of a flush that submits, newest first: the command buffer is ended,
    submitted to device [d] at the next value of the timeline, and given back. *)
Definition flush_calls (st : HrxStreamS) (d p : ptr) : list event :=
  [Ev (ffi_release iree_hal_command_buffer (st_pending_cb st)) tt;
   Ev (ffi_status (iree_hal_device_queue_execute d IREE_HAL_QUEUE_AFFINITY_ANY
         (wait_for p (st_timepoint st)) [(p, wrap_u64 (st_timepoint st + 1))] (st_pending_cb st))) 0;
   Ev (ffi_status (iree_hal_command_buffer_end (st_pending_cb st))) 0].

(** The three outcomes of a flush: nothing to do, an error that leaves the stream
    as it was, one submission at the next value of the timeline. *)
Definition flush_outcome (w w' : world) (st st' : HrxStreamS) (r : ptr) : Prop :=
  w_next w <= w_next w' /\
  ((pending st = false /\ r = 0 /\ st' = st /\ subs (w_trace w') = subs (w_trace w))
   \/ (pending st = true /\ r <> 0 /\ st' = st /\ subs (w_trace w') = subs (w_trace w))
   \/ (pending st = true /\ r = 0 /\ st' = submitted st /\
       exists d p, dev_at w (st_device st) d /\ sem_at w (st_semaphore st) p /\
         w_trace w' = flush_calls st d p ++ w_trace w)).

Lemma semaphore_hal_ptr_inv h w p w' :
  semaphore_hal_ptr h w = Done p w' -> w' = w /\ sem_at w h p.
Proof.
  unfold semaphore_hal_ptr. intros E. apply bind_inv in E as (s & w1 & E1 & E).
  inversion E; subst. unfold handle_ref in E1.
  destruct (w_heap w !! h) as [[n o]|] eqn:Eh; [|done].
  destruct o; simpl in E1; simplify_eq. split; [done|]. by eexists _, _.
Qed.

Lemma device_deref_inv h w v w' :
  device_deref h w = Done v w' -> w' = w /\ dev_at w h (dev_hal_device v).
Proof.
  unfold device_deref, handle_ref. destruct (w_heap w !! h) as [[n o]|] eqn:Eh; [|done].
  destruct o; simpl; try done. intros [= <- <-]. split; [done|]. by eexists _, _.
Qed.

Lemma queue_execute_inv d aff wait sig cb w s w' :
  call (ffi_status (iree_hal_device_queue_execute d aff wait sig cb)) w = Done s w' ->
  w_heap w' = w_heap w /\ w_next w' = w_next w /\
  subs (w_trace w') = subs (w_trace w) ++ (if status_is_ok s then [Sub d wait sig cb] else []).
Proof.
  inversion 1; subst. split; [done|]. split; [done|]. simpl. rewrite subs_cons. simpl.
  by destruct (status_is_ok _).
Qed.

(** The one submission of those calls. *)
Lemma flush_calls_subs st d p tr :
  subs (flush_calls st d p ++ tr)
  = subs tr ++ [Sub d (wait_for p (st_timepoint st)) [(p, wrap_u64 (st_timepoint st + 1))]
                  (st_pending_cb st)].
Proof.
  unfold flush_calls. cbn [app]. rewrite !subs_cons. simpl. by rewrite !app_nil_r.
Qed.

Lemma call_trace {A : Set} (c : ffi A) w a w' :
  call c w = Done a w' -> w_trace w' = Ev c a :: w_trace w.
Proof. by inversion 1. Qed.

Lemma flush_inner_outcome st w r st' w' :
  flush_inner st w = Done (r, st') w' -> 0 < w_next w ->
  w_heap w' = w_heap w /\ flush_outcome w w' st st' r.
Proof.
  unfold flush_inner. intros E Hw. unfold flush_outcome.
  assert (pending st = negb (negb (st_has_pending_work st) || is_null (st_pending_cb st))) as Hp.
  { unfold pending. by destruct (st_has_pending_work st), (is_null (st_pending_cb st)). }
  explode E; unfold quiet, status_is_ok in *; bool_to_prop;
    repeat match goal with H : _ /\ _ |- _ => destruct H end.
  - split; [done|]. split; [lia|]. left. by rewrite Hp.
  - split; [congruence|]. split; [lia|]. right; left.
    split; [done|]. split; [|by split; [|congruence]].
    eapply (from_iree_result a); [eassumption|lia|done].
  - apply queue_execute_inv in E3 as (Hh & Hn & Hs). unfold status_is_ok in Hs.
    rewrite (proj2 (is_null_false a2)), app_nil_r in Hs by done.
    split; [congruence|]. split; [lia|]. right; left.
    split; [done|]. split; [|by split; [|congruence]].
    eapply (from_iree_result a2); [eassumption|lia|done].
  - apply semaphore_hal_ptr_inv in E1 as (-> & n & s & Hsem & Hhal).
    apply device_deref_inv in E2 as (-> & m & v & Hdev & Hdhal).
    pose proof (call_trace _ _ _ _ E0) as T0. pose proof (call_trace _ _ _ _ E3) as T3.
    pose proof (call_trace _ _ _ _ E4) as T4.
    apply queue_execute_inv in E3 as (Hh & Hn & _). destruct a3. subst a a2.
    split; [congruence|]. split; [lia|]. right; right. split; [done|]. split; [done|]. split; [done|].
    exists (dev_hal_device a1), a0. split; [exists m, v; split; [congruence|done]|].
    split; [exists n, s; split; [congruence|done]|].
    unfold flush_calls, wait_for. cbn [app]. congruence.
Qed.
End Flush.

(** ** Recording *)

Section Record.
Context `{IREE, !LibcAlloc, !IreeCreates}.

(** [st'] is [st] with a command buffer open where there was none. *)
Definition opened (st st' : HrxStreamS) : Prop :=
  st' = set_pending st (st_pending_cb st')
  /\ (st_pending_cb st <> 0 -> st_pending_cb st' = st_pending_cb st).

Lemma opened_refl st : opened st st.
Proof. by destruct st. Qed.

Lemma stream_ref_inv h w st w' :
  stream_ref h w = Done st w' -> w' = w /\ exists n, w_heap w !! h = Some (n, OStream st).
Proof.
  unfold stream_ref, handle_ref. destruct (w_heap w !! h) as [[n o]|]; [|done].
  destruct o; simpl; try done. intros [= <- <-]. eauto.
Qed.

Lemma handle_set_stream_inv h (st : HrxStreamS) w u w' :
  handle_set h st w = Done u w' ->
  exists n st0, w_heap w !! h = Some (n, OStream st0)
    /\ w' = set_heap w (<[h := (n, OStream st)]> (w_heap w)).
Proof.
  unfold handle_set. destruct (w_heap w !! h) as [[n o]|]; [|done].
  destruct o; simpl; try done. intros [= <- <-]. eauto.
Qed.

Lemma begin_cb_outcome st w r st' w' :
  begin_cb st w = Done (r, st') w' -> 0 < w_next w ->
  quiet w w' /\ opened st st' /\ (r = 0 -> st_pending_cb st' <> 0) /\ (r <> 0 -> st' = st).
Proof.
  intros E Hw. assert (hushed (begin_cb st)) as Hh by hushed_tac. split; [by eapply Hh|].
  unfold begin_cb in E. explode E; unfold status_is_ok in *; bool_to_prop.
  - split; [apply opened_refl|done].
  - split; [apply opened_refl|]. split; [|done]. intros ->.
    by destruct (proj2 (from_iree_result _ _ _ _ E2 ltac:(unfold quiet in *; lia))).
  - assert (set_pending st null = st) as -> by (destruct st; simpl in *; by subst).
    split; [apply opened_refl|]. split; [|done]. intros ->.
    by destruct (proj2 (from_iree_result _ _ _ _ E4 ltac:(unfold quiet in *; lia))).
  - split; [split; [done|]; by intros []|]. split; [|done]. intros _. simpl.
    inversion E1; subst. by apply iree_create_nonnull.
Qed.

Lemma update_begin_inv h w r st' w' :
  stream_update h begin_cb w = Done (r, st') w' -> 0 < w_next w ->
  exists n st, w_heap w !! h = Some (n, OStream st)
    /\ w_heap w' = <[h := (n, OStream st')]> (w_heap w)
    /\ subs (w_trace w') = subs (w_trace w) /\ w_next w <= w_next w'
    /\ opened st st' /\ (r = 0 -> st_pending_cb st' <> 0) /\ (r <> 0 -> st' = st).
Proof.
  unfold stream_update. intros E Hw. apply bind_inv in E as (st & w1 & E1 & E).
  apply stream_ref_inv in E1 as (-> & n & Hst). apply bind_inv in E as ([r1 st1] & w2 & E2 & E).
  apply bind_inv in E as (u & w3 & E3 & E). inversion E; subst.
  apply begin_cb_outcome in E2 as ((Hh & Hs & Hn) & Ho & Hr & Hr'); [|done].
  apply handle_set_stream_inv in E3 as (n' & st0 & Hst0 & ->). rewrite Hh in Hst0. simplify_eq.
  exists n, st. simpl. rewrite Hh. done.
Qed.

(** The stream a call records into. *)
Definition records (c : api) : option ptr :=
  match c with
  | StreamFillBuffer s _ _ _ _ _ | StreamCopyBuffer s _ _ _ _ _ | StreamUpdateBuffer s _ _ _ _
  | StreamExecutionBarrier s | StreamDispatch s _ _ _ _ _ _ _ _ => Some s
  | _ => None
  end.

(** A recording call either marks the stream as having pending work, with a
    command buffer open, or fails; nothing is submitted and the timeline stays. *)
Definition record_outcome (w w' : world) (h : ptr) (r : ptr) (n : Z) (st st' : HrxStreamS) : Prop :=
  w_heap w' = <[h := (n, OStream st')]> (w_heap w)
  /\ subs (w_trace w') = subs (w_trace w) /\ w_next w <= w_next w'
  /\ ((r = 0 /\ opened (set_work st true) st' /\ st_pending_cb st' <> 0)
      \/ (r <> 0 /\ opened st st')).

Lemma record_fail w w' h r n st st' w1 :
  w_heap w1 = <[h := (n, OStream st')]> (w_heap w) -> subs (w_trace w1) = subs (w_trace w) ->
  w_next w <= w_next w1 -> opened st st' -> quiet w1 w' -> r <> 0 ->
  record_outcome w w' h r n st st'.
Proof.
  intros Hx1 Hx2 Hx3 Hx4 (Hx5 & Hx6 & Hx7) Hr. split; [congruence|]. split; [congruence|].
  split; [lia|]. by right.
Qed.

Lemma record_done w w' h n st st' w1 w2 u :
  w_heap w1 = <[h := (n, OStream st')]> (w_heap w) -> subs (w_trace w1) = subs (w_trace w) ->
  w_next w <= w_next w1 -> opened st st' -> st_pending_cb st' <> 0 -> quiet w1 w2 ->
  handle_set h (set_work st' true) w2 = Done u w' ->
  record_outcome w w' h 0 n st (set_work st' true).
Proof.
  intros Hx1 Hx2 Hx3 [Hx4 Hx5] Hcb (Hx6 & Hx7 & Hx8) (n' & st0 & Hst & ->)%handle_set_stream_inv.
  rewrite Hx6, Hx1, lookup_insert_eq in Hst. simplify_eq. split; simpl.
  { by rewrite Hx6, Hx1, insert_insert_eq. }
  split; [congruence|]. split; [lia|]. left. split; [done|]. split; [|done]. split; simpl; [|done].
  rewrite Hx4 at 1. done.
Qed.

Lemma record_args w w' h r n st :
  w_heap w !! h = Some (n, OStream st) -> quiet w w' -> r <> 0 ->
  record_outcome w w' h r n st st.
Proof.
  intros Hst Hq Hr. eapply (record_fail w w' h r n st st w); try done; [|apply opened_refl].
  by rewrite insert_id.
Qed.

Ltac nonzero_now :=
  first [ eapply make_status_nonzero; [eassumption|unfold quiet in *; lia|done]
        | eapply from_iree_result; [eassumption|unfold quiet in *; lia|by bool_to_prop] ].

(** Close one path of a recording call. *)
Ltac record_close :=
  unfold hrx_status_is_ok, status_is_ok in *;
  lazymatch goal with
  | Hst : w_heap ?w !! ?h = Some (?n, OStream ?st), E0 : stream_update ?h begin_cb ?w = Done _ _ |- _ =>
      let Hh := fresh "Hh" in let Hs := fresh "Hs" in let Hn := fresh "Hn" in
      let Ho := fresh "Ho" in let Hr := fresh "Hr" in let Hr' := fresh "Hr'" in
      apply update_begin_inv in E0 as (?n & ?st & ?Hst' & Hh & Hs & Hn & Ho & Hr & Hr'); [|done];
      simplify_eq; bool_to_prop;
      first
        [ eexists; eapply record_done; [exact Hh|exact Hs|exact Hn|exact Ho|by apply Hr| |eassumption];
          qtrans; eassumption
        | match goal with Hq : quiet _ _ |- _ => idtac end;
          let Hz := fresh "Hz" in
          assert (0 < w_next w) as Hz by done;
          eexists; eapply record_fail; [exact Hh|exact Hs|exact Hn|exact Ho| |nonzero_now];
          qtrans; eassumption
        | eexists; eapply record_fail; [exact Hh|exact Hs|exact Hn|exact Ho|reflexivity|done] ]
  | Hst : w_heap ?w !! ?h = Some (?n, OStream ?st) |- _ =>
      exists st; apply record_args; [done|qtrans; eassumption|nonzero_now]
  end.

Lemma exec_records c w r w' h n st :
  exec c w = Done r w' -> records c = Some h -> 0 < w_next w ->
  w_heap w !! h = Some (n, OStream st) ->
  exists st', record_outcome w w' h r n st st'.
Proof.
  intros E Hc Hw Hst. destruct c; try discriminate Hc; injection Hc as ->; simpl in E.
  - unfold hrx_stream_fill_buffer in E. explode E; record_close.
  - unfold hrx_stream_copy_buffer in E. explode E; record_close.
  - unfold hrx_stream_update_buffer in E. explode E; record_close.
  - unfold hrx_stream_execution_barrier in E. explode E; record_close.
  - unfold hrx_stream_dispatch in E. explode E; record_close.
Qed.
End Record.

(** ** Flush, synchronize, wait *)

Section Calls.
Context `{IREE, !LibcAlloc, !IreeCreates}.

Lemma update_flush_inv h w r st' w' :
  stream_update h flush_inner w = Done (r, st') w' -> 0 < w_next w ->
  exists n st, w_heap w !! h = Some (n, OStream st)
    /\ w_heap w' = <[h := (n, OStream st')]> (w_heap w) /\ flush_outcome w w' st st' r.
Proof.
  unfold stream_update. intros E Hw. apply bind_inv in E as (st & w1 & E1 & E).
  apply stream_ref_inv in E1 as (-> & n & Hst). apply bind_inv in E as ([r1 st1] & w2 & E2 & E).
  apply bind_inv in E as (u & w3 & E3 & E). inversion E; subst.
  apply flush_inner_outcome in E2 as (Hh & Hf); [|done].
  apply handle_set_stream_inv in E3 as (n' & st0 & Hst0 & ->). rewrite Hh in Hst0. simplify_eq.
  exists n, st. simpl. by rewrite Hh.
Qed.

Lemma stream_flush_inv h w r w' n st :
  hrx_stream_flush h w = Done r w' -> h <> 0 -> 0 < w_next w ->
  w_heap w !! h = Some (n, OStream st) ->
  exists st', w_heap w' = <[h := (n, OStream st')]> (w_heap w) /\ flush_outcome w w' st st' r.
Proof.
  unfold hrx_stream_flush. intros E Hh Hw Hst. rewrite (proj2 (is_null_false h) Hh) in E.
  apply bind_inv in E as ([r1 st'] & w1 & E1 & E). inversion E; subst.
  apply update_flush_inv in E1 as (n' & st0 & Hst' & Hheap & Ho); [|done]. simplify_eq. eauto.
Qed.

Lemma hushed_stream_wait h : hushed (hrx_stream_wait h).
Proof. unfold hrx_stream_wait, stream_ref. hushed_tac. Qed.

Lemma hushed_stream_query h out : hushed (hrx_stream_query h out).
Proof. unfold hrx_stream_query, stream_ref. hushed_tac. Qed.

(** The operations of a stream that keep to its own timeline. *)
Definition stream_op (h : ptr) (c : api) : bool :=
  match c with
  | StreamFlush s | StreamSynchronize s | StreamWait s | StreamQuery s _ => s =? h
  | _ => match records c with Some s => s =? h | None => false end
  end.

(** The command buffers [cbs] were submitted, one per value of the timeline. *)
Definition advanced (w w' : world) (h d p : ptr) (n : Z) (st : HrxStreamS) (cbs : list ptr) : Prop :=
  exists st', w_heap w' = <[h := (n, OStream st')]> (w_heap w)
    /\ st_semaphore st' = st_semaphore st /\ st_device st' = st_device st /\ w_next w <= w_next w'
    /\ st_timepoint st' = st_timepoint st + Z.of_nat (length cbs)
    /\ subs (w_trace w') = subs (w_trace w) ++ chain d p (st_timepoint st) cbs.

Lemma advanced_quiet w w' h d p n st :
  w_heap w !! h = Some (n, OStream st) -> quiet w w' -> advanced w w' h d p n st [].
Proof.
  intros Hst (Hh & Hs & Hn). exists st. simpl. rewrite app_nil_r, Z.add_0_r, Hh, insert_id by done. done.
Qed.

Lemma advanced_after w w1 w2 h d p n st cbs :
  advanced w w1 h d p n st cbs -> quiet w1 w2 -> advanced w w2 h d p n st cbs.
Proof.
  intros (st' & Ha & Hb & Hb' & Hc & Hd & He) (Hh & Hs & Hn). exists st'.
  split; [congruence|]. split; [done|]. split; [done|]. split; [lia|]. split; [done|congruence].
Qed.

Lemma flush_advanced h w r w' n st d p :
  hrx_stream_flush h w = Done r w' -> h <> 0 -> 0 < w_next w ->
  w_heap w !! h = Some (n, OStream st) -> dev_at w (st_device st) d -> sem_at w (st_semaphore st) p ->
  0 <= st_timepoint st < U64_MAX ->
  exists cbs, (length cbs <= 1)%nat /\ Forall (fun cb => cb <> 0) cbs /\ advanced w w' h d p n st cbs.
Proof.
  intros E Hh Hw Hst (md & v & Hv & Hd) (m & s & Hs & Hp) Ht.
  destruct (stream_flush_inv h w r w' n st E Hh Hw Hst) as (st' & Hheap & Hn & Ho).
  destruct Ho as [(_ & _ & -> & Hsub)|[(_ & _ & -> & Hsub)|(Hpend & _ & -> & d' & p' & (md' & v' & Hv' & Hd')
    & (m' & s' & Hs' & Hp') & Htr)]].
  1-2: exists []; split; [simpl; lia|]; split; [done|]; exists st; rewrite app_nil_r, Z.add_0_r; done.
  exists [st_pending_cb st]. split; [simpl; lia|]. split.
  { constructor; [|done]. apply is_null_false. unfold pending in Hpend.
    by destruct (st_has_pending_work st), (is_null (st_pending_cb st)). }
  exists (submitted st). rewrite Htr, flush_calls_subs. simplify_eq. simpl.
  unfold wrap_u64, U64_MAX in *. rewrite Z.mod_small in * by lia. done.
Qed.

Lemma stream_op_advances c h w r w' n st d p :
  exec c w = Done r w' -> stream_op h c = true -> h <> 0 -> 0 < w_next w ->
  w_heap w !! h = Some (n, OStream st) -> dev_at w (st_device st) d -> sem_at w (st_semaphore st) p ->
  0 <= st_timepoint st < U64_MAX ->
  exists cbs, (length cbs <= 1)%nat /\ Forall (fun cb => cb <> 0) cbs /\ advanced w w' h d p n st cbs.
Proof.
  intros E Hc Hh Hw Hst Hd Hs Ht.
  destruct (records c) as [s|] eqn:Er.
  - assert (s = h) as -> by (destruct c; simpl in *; simplify_eq; by apply Z.eqb_eq).
    destruct (exec_records c w r w' h n st E Er Hw Hst) as (st' & Hheap & Hsub & Hn & Ho).
    exists []. split; [simpl; lia|]. split; [done|]. exists st'. rewrite app_nil_r, Z.add_0_r.
    destruct Ho as [(_ & [Ho _] & _)|(_ & [Ho _])]; (split; [done|]); by rewrite Ho.
  - destruct c; try discriminate Er; try discriminate Hc; apply Z.eqb_eq in Hc as ->; simpl in E.
    + by eapply flush_advanced.
    + unfold hrx_stream_synchronize in E. rewrite (proj2 (is_null_false h) Hh) in E.
      apply bind_inv in E as (r1 & w1 & E1 & E).
      destruct (flush_advanced h w r1 w1 n st d p) as (cbs & Hk & Hnn & Ha); try done.
      exists cbs. split; [done|]. split; [done|]. destruct (negb (hrx_status_is_ok r1)).
      * by inversion E; subst.
      * eapply advanced_after; [done|]. by eapply hushed_stream_wait.
    + exists []. split; [simpl; lia|]. split; [done|]. apply advanced_quiet; [done|].
      by eapply hushed_stream_wait.
    + exists []. split; [simpl; lia|]. split; [done|]. apply advanced_quiet; [done|].
      by eapply hushed_stream_query.
Qed.

(** Replacing a stream leaves devices and semaphores where they are. *)
Lemma dev_at_stream w w' h n st st' s d :
  w_heap w !! h = Some (n, OStream st) -> w_heap w' = <[h := (n, OStream st')]> (w_heap w) ->
  dev_at w s d -> dev_at w' s d.
Proof.
  intros Hst Hh (m & v & Hv & Hd). exists m, v. split; [|done].
  rewrite Hh, lookup_insert_ne; [done|]. intros ->. congruence.
Qed.

Lemma sem_at_stream w w' h n st st' s p :
  w_heap w !! h = Some (n, OStream st) -> w_heap w' = <[h := (n, OStream st')]> (w_heap w) ->
  sem_at w s p -> sem_at w' s p.
Proof.
  intros Hst Hh (m & v & Hv & Hp). exists m, v. split; [|done].
  rewrite Hh, lookup_insert_ne; [done|]. intros ->. congruence.
Qed.

Lemma play_advances cs h n d p : forall w w' st,
  play cs w = Some w' -> Forall (fun c => stream_op h c = true) cs -> h <> 0 -> 0 < w_next w ->
  w_heap w !! h = Some (n, OStream st) -> dev_at w (st_device st) d -> sem_at w (st_semaphore st) p ->
  0 <= st_timepoint st -> st_timepoint st + Z.of_nat (length cs) <= U64_MAX ->
  exists cbs, (length cbs <= length cs)%nat /\ Forall (fun cb => cb <> 0) cbs
    /\ advanced w w' h d p n st cbs.
Proof.
  induction cs as [|c cs IH]; intros w w' st Hp Hall Hh Hw Hst Hd Hs Ht Hlen; simpl in *.
  - injection Hp as ->. exists []. split; [done|]. split; [done|]. by apply advanced_quiet.
  - destruct (exec c w) as [r w1| |] eqn:E; [|done|done]. inversion Hall as [|? ? Hc Hcs]; subst.
    destruct (stream_op_advances c h w r w1 n st d p)
      as (k1 & Hk1 & Hnn1 & st1 & Hh1 & Hs1 & Hd1 & Hn1 & Ht1 & Hsub1); try done; [lia|].
    destruct (IH w1 w' st1) as (k2 & Hk2 & Hnn2 & st2 & Hh2 & Hs2 & Hd2 & Hn2 & Ht2 & Hsub2);
      try done; try lia.
    { by rewrite Hh1, lookup_insert_eq. }
    { rewrite Hd1. by eapply dev_at_stream. } { rewrite Hs1. by eapply sem_at_stream. }
    exists (k1 ++ k2). rewrite length_app. split; [lia|]. split; [by apply Forall_app|]. exists st2.
    rewrite Hh2, Hh1, insert_insert_eq, chain_app, app_assoc, <- Hsub1, <- Ht1, length_app.
    split; [done|]. split; [congruence|]. split; [congruence|]. split; [lia|]. split; [lia|done].
Qed.
End Calls.

(** ** The invariant of streams

    A stream that has pending work has an open command buffer, so a flush never
    drops recorded work; and the timeline value is a [u64]. *)

Definition obj_good (o : obj) : Prop :=
  match o with
  | OStream st => (st_has_pending_work st = true -> st_pending_cb st <> 0)
                  /\ 0 <= st_timepoint st <= U64_MAX
  | _ => True
  end.

Definition streams_good (w : world) : Prop :=
  0 < w_next w /\ forall h n o, w_heap w !! h = Some (n, o) -> obj_good o.

Definition good {A} (m : M A) : Prop :=
  forall w a w', m w = Done a w' -> streams_good w -> streams_good w'.

Create HintDb good.

Section Good.
Context `{IREE}.

Lemma good_hushed {A} (m : M A) : hushed m -> good m.
Proof.
  intros Hm w a w' E [Hn Hg]. destruct (Hm _ _ _ E) as (Hh & _ & ?). split; [lia|].
  intros h n o. rewrite Hh. apply Hg.
Qed.

Lemma good_ret {A} (a : A) : good (mret a).
Proof. by inversion 1. Qed.

Lemma good_call {A : Set} (c : ffi A) : good (call c).
Proof. by inversion 1. Qed.

Lemma good_bind {A B} (m : M A) (f : A -> M B) :
  good m -> (forall a, good (f a)) -> good (m ≫= f).
Proof. intros Hm Hf w b w' (a & w1 & E1 & E2)%bind_inv Hw. eapply Hf; [done|]. by eapply Hm. Qed.

Lemma streams_good_insert w h n o :
  streams_good w -> obj_good o -> streams_good (set_heap w (<[h := (n, o)]> (w_heap w))).
Proof.
  intros [Hn Hg] Ho. split; [done|]. intros h' n' o'. simpl.
  destruct (decide (h' = h)) as [->|Hne].
  - rewrite lookup_insert_eq. by intros [= <- <-].
  - rewrite lookup_insert_ne by done. apply Hg.
Qed.

Lemma streams_good_next w n : streams_good w -> w_next w <= n -> streams_good (set_next w n).
Proof. intros [? Hg] ?. split; [simpl; lia|exact Hg]. Qed.

Lemma good_with_local {A} v (body : ptr -> M A) :
  (forall p, good (body p)) -> good (with_local v body).
Proof.
  intros Hb w a w'. unfold with_local. destruct (body _ _) as [x w1| |] eqn:E; [|done|done].
  destruct (w_mem w1 !! w_next w); [|done]. inversion 1; subst. intros Hw.
  apply (Hb _ _ _ _ E). destruct Hw as [? Hg]. split; [simpl; unfold BLOCK; lia|exact Hg].
Qed.

Section Boxed.
Context {T : Type} `{Boxed T}.

Lemma good_into_handle (t : T) : obj_good (box t) -> good (into_handle t).
Proof.
  intros Ht w a w'. unfold into_handle. inversion 1; subst. intros Hw.
  apply (streams_good_insert (set_next w (w_next w + BLOCK))); [|done].
  apply streams_good_next; [done|unfold BLOCK; lia].
Qed.

Lemma good_into_handle_cyclic (f : ptr -> T) :
  (forall p, obj_good (box (f p))) -> good (into_handle_cyclic f).
Proof. intros Hf w a w'. unfold into_handle_cyclic. by apply good_into_handle. Qed.

Lemma good_handle_set h (t : T) : obj_good (box t) -> good (handle_set h t).
Proof.
  intros Ht w a w'. unfold handle_set. repeat case_match; intros; simplify_eq.
  by apply streams_good_insert.
Qed.

Lemma good_handle_retain h : good (handle_retain (T:=T) h).
Proof.
  intros w a w' E Hw. unfold handle_retain in E. repeat case_match; simplify_eq.
  apply streams_good_insert; [done|]. by eapply Hw.
Qed.

Lemma good_delete w h : streams_good w -> streams_good (set_heap w (delete h (w_heap w))).
Proof.
  intros [Hn Hg]. split; [done|]. intros h' n o. simpl. intros [_ E]%lookup_delete_Some. by eapply Hg.
Qed.

Lemma good_handle_release `{!DropGlue T} h :
  (forall t : T, good (drop_glue t)) -> good (handle_release (T:=T) h).
Proof.
  intros Hd w a w' E Hw. unfold handle_release in E. repeat case_match; simplify_eq.
  - eapply Hd; [done|]. by apply good_delete.
  - apply streams_good_insert; [done|]. by eapply Hw.
Qed.

Lemma good_into_inner h : good (into_inner_handle (T:=T) h).
Proof.
  intros w a w' E Hw. unfold into_inner_handle in E. repeat case_match; simplify_eq.
  - by apply good_delete.
  - apply streams_good_insert; [done|]. by eapply Hw.
Qed.
End Boxed.
End Good.
#[export] Hint Resolve good_ret good_call good_handle_retain good_into_inner : good.

Ltac good_prim :=
  let w := fresh in let a := fresh in let w' := fresh in let E := fresh in let Hw := fresh in
  intros w a w' E Hw; repeat case_match; simplify_eq;
  (destruct Hw as [? ?]; split; [simpl; unfold BLOCK; lia|assumption]).

Ltac good_step :=
  lazymatch goal with
  | |- good (_ ≫= _) => apply good_bind; [|intros]
  | |- good (with_local _ _) => apply good_with_local; intros
  | |- good (handle_release _) => apply good_handle_release; intros
  | |- good (into_handle _) => apply good_into_handle; try done
  | |- good (into_handle_cyclic _) => apply good_into_handle_cyclic; try done
  | |- good (handle_set _ _) => apply good_handle_set; try done
  | |- good (drop_glue ?t) => unfold drop_glue
  | |- good (match ?x with _ => _ end) => destruct x
  | |- good ?m => first [ solve [auto with good] | let f := head_of m in unfold f; good_prim
                       | let f := head_of m in unfold f ]
  end.
Ltac good_tac := repeat good_step.

Section GoodLib.
Context `{IREE, !LibcAlloc, !IreeCreates}.

Lemma good_make_status c m : good (hrx_make_status c m).
Proof. apply good_hushed. auto with hushed. Qed.

Lemma good_from_iree s : good (hrx_status_from_iree s).
Proof. apply good_hushed. auto with hushed. Qed.

Lemma good_write_bytes l : forall p, good (write_bytes p l).
Proof. induction l; intros p; simpl; good_tac; auto. Qed.

Lemma good_sem_list_loop a b n : forall i, good (sem_list_loop a b i n).
Proof. induction n; intros i; simpl; good_tac; auto. Qed.

Lemma good_bindings_loop b n i : good (bindings_loop b i n).
Proof. apply good_hushed, hushed_bindings_loop. Qed.

Lemma good_heap_dims p n : forall i acc, good (heap_dims p i n acc).
Proof. induction n; intros i acc; simpl; good_tac; auto. Qed.

Lemma good_stack_dims p n : forall i acc, good (stack_dims p i n acc).
Proof. induction n; intros i acc; simpl; good_tac; auto. Qed.

Lemma good_release_loaders ls : good (release_loaders ls).
Proof.
  unfold release_loaders. generalize 0%nat. induction ls; intros i; cbn [release_loaders_from]; good_tac; auto.
Qed.

Lemma wrap_u64_le v : 0 <= wrap_u64 v <= U64_MAX.
Proof. unfold wrap_u64, U64_MAX. pose proof (Z.mod_pos_bound v (2 ^ 64)). lia. Qed.

Lemma submitted_good st : obj_good (OStream (submitted st)).
Proof. split; [done|]. apply wrap_u64_le. Qed.

Lemma good_at w w' h n o :
  streams_good w -> w_heap w' = <[h := (n, o)]> (w_heap w) -> w_next w <= w_next w' ->
  obj_good o -> streams_good w'.
Proof.
  intros Hw Hh Hn Ho. destruct (streams_good_insert w h n o Hw Ho) as [? Hg]. split; [simpl in *; lia|].
  rewrite Hh. exact Hg.
Qed.

Lemma quiet_good w w' : quiet w w' -> streams_good w -> streams_good w'.
Proof. intros (Hh & _ & Hn) [? Hg]. split; [lia|]. by rewrite Hh. Qed.

Lemma good_update_flush h : good (stream_update h flush_inner).
Proof.
  intros w [r st'] w' E Hw. apply update_flush_inv in E as (n & st & Hst & Hh & Hn & Ho); [|apply Hw].
  eapply good_at; [done|done|done|].
  destruct Ho as [(_ & _ & -> & _)|[(_ & _ & -> & _)|(_ & _ & -> & _)]];
    [by eapply Hw|by eapply Hw|apply submitted_good].
Qed.

Lemma good_flush_inner st : good (flush_inner st).
Proof.
  intros w [r st'] w' E Hw. apply flush_inner_outcome in E as (Hh & Hn & _); [|apply Hw].
  destruct Hw as [? Hg]. split; [lia|]. by rewrite Hh.
Qed.

Lemma good_stream_flush h : good (hrx_stream_flush h).
Proof.
  unfold hrx_stream_flush. destruct (is_null h); [apply good_make_status|].
  apply good_bind; [apply good_update_flush|]. intros [r st]. apply good_ret.
Qed.
End GoodLib.
#[export] Hint Resolve good_make_status good_from_iree good_write_bytes good_sem_list_loop good_bindings_loop good_heap_dims good_stack_dims good_release_loaders good_stream_flush good_flush_inner : good.

Section GoodExec.
Context `{IREE, !LibcAlloc, !IreeCreates}.

Lemma good_release_kind k h : good (release_kind k h).
Proof. good_tac. Qed.

Lemma good_retain_kind k h : good (retain_kind k h).
Proof. good_tac. Qed.

Lemma good_release_devices ds : good (release_devices ds).
Proof. induction ds; simpl; good_tac; auto. Qed.

Lemma good_gpu_devices driver pool infos : forall i n ds, good (gpu_devices driver pool infos i n ds).
Proof. induction infos; intros i n ds; simpl; good_tac; auto. Qed.

Lemma good_set_timepoint h v : 0 <= v <= U64_MAX -> good (stream_set_timepoint h v).
Proof.
  intros Hv w u w' E Hw. unfold stream_set_timepoint in E.
  apply bind_inv in E as (st & w1 & E1 & E). apply stream_ref_inv in E1 as (-> & n & Hst).
  eapply (good_handle_set (T:=HrxStreamS)); [|exact E|done]. split; [|done]. by apply (proj2 Hw) in Hst as [? _].
Qed.

(** Calls that change a stream other than by a flush. *)
Definition moves_stream (c : api) : bool :=
  match c with
  | StreamAdvanceTimeline _ _ | StreamWaitOn _ _ _ | BufferAllocate _ _ _ _ _ => true
  | _ => match records c with Some _ => true | None => false end
  end.
End GoodExec.
#[export] Hint Resolve good_release_kind good_retain_kind good_release_devices good_gpu_devices good_set_timepoint wrap_u64_le : good.

Section GoodAll.
Context `{IREE, !LibcAlloc, !IreeCreates}.

Lemma good_exec c : moves_stream c = false -> good (exec c).
Proof.
  destruct c; intros Hc; try discriminate Hc; simpl; clear Hc; good_tac.
Qed.

Lemma good_records c h w r w' :
  exec c w = Done r w' -> records c = Some h -> nullable w KStream h -> streams_good w -> streams_good w'.
Proof.
  intros E Hc [->|(n & o & Hst & Ho)] Hw.
  - assert (quiet w w') as (Hh & _ & Hn).
    { destruct c; try discriminate Hc; injection Hc as ->; simpl in E; revert E;
        apply hushed_make_status. }
    split; [destruct Hw; lia|]. rewrite Hh. apply Hw.
  - destruct o as [| | | | |st| | | |]; try discriminate Ho.
    destruct (exec_records c w r w' h n st E Hc (proj1 Hw) Hst) as (st' & Hh & _ & Hn & Hcase).
    eapply good_at; [done|done|done|]. destruct (proj2 Hw _ _ _ Hst) as [Hg1 Hg2].
    destruct Hcase as [(_ & [Ho1 _] & Hcb)|(_ & Ho1 & Ho2)]; rewrite Ho1; split; simpl; try done.
    intros Hp. rewrite Ho2; auto.
Qed.

Lemma good_advance s out : good (hrx_stream_advance_timeline s out).
Proof.
  intros w r w' E Hw. unfold hrx_stream_advance_timeline in E.
  destruct (is_null s || is_null out); [by eapply good_make_status|].
  apply bind_inv in E as (st & w1 & E1 & E). apply stream_ref_inv in E1 as (-> & n & Hst).
  apply bind_inv in E as (u & w2 & E2 & E).
  assert (streams_good w2) as Hw2.
  { eapply (good_handle_set (T:=HrxStreamS)); [|exact E2|done]. split; [|apply wrap_u64_le].
    by apply (proj2 Hw) in Hst as [? _]. }
  revert E Hw2. generalize w2 r w'. change (good (write_out out (wrap_u64 (st_timepoint st + 1)) ;; mret hrx_ok_status)).
  good_tac.
Qed.

Lemma good_wait_on s p v : good (hrx_stream_wait_on s p v).
Proof.
  unfold hrx_stream_wait_on. destruct (is_null s); [apply good_make_status|].
  destruct (is_null p); [apply good_make_status|]. apply good_bind; [apply good_stream_flush|].
  intros f. destruct (negb _); [apply good_ret|]. intros w r w' E Hw.
  apply bind_inv in E as (st & w1 & E1 & E). apply stream_ref_inv in E1 as (-> & n & Hst).
  explode E; qtrans.
  - by eapply quiet_good.
  - eapply (good_handle_set (T:=HrxStreamS)); [|eassumption|by eapply quiet_good].
    split; [|apply wrap_u64_le]. by apply (proj2 Hw) in Hst as [? _].
Qed.

Lemma good_buffer_allocate s size mt usage out : good (hrx_buffer_allocate s size mt usage out).
Proof. good_tac. Qed.

Lemma exec_good c w r w' :
  exec c w = Done r w' -> legal w c -> streams_good w -> streams_good w'.
Proof.
  intros E Hl. destruct (moves_stream c) eqn:Hc; [|by apply (good_exec c Hc _ r)].
  destruct (records c) as [h|] eqn:Hr.
  - intros Hw. eapply good_records; [done|done| |done].
    by destruct c; try discriminate Hr; injection Hr as ->; simpl in Hl; try apply Hl.
  - destruct c; try discriminate Hc; try discriminate Hr; simpl in E.
    + by eapply good_buffer_allocate.
    + by eapply good_advance.
    + by eapply good_wait_on.
Qed.

Lemma streams_good_initial : streams_good world_initial.
Proof. split; [done|]. intros h n o. simpl. by rewrite lookup_empty. Qed.

Lemma reachable_streams_good w : reachable w -> streams_good w.
Proof.
  unfold reachable. generalize streams_good_initial. generalize world_initial. intros w0 H0w Hr.
  induction Hr as [|w1 w2 w3 [wa wb c r Hc Hx|wa m] _ IH]; [done|..]; apply IH; [by eapply exec_good|done].
Qed.
End GoodAll.

Section Theorems.
Context `{IREE, !IreeCreates, !LibcAlloc, !IreeDeviceAllocator}.

Lemma legal_play cs : forall w, legal_all cs w -> exists w', play cs w = Some w'.
Proof.
  induction cs as [|c cs IH]; intros w; simpl; [eauto|]. intros [_ Hc].
  by destruct (exec c w); auto.
Qed.

Lemma stream_sem w h n st :
  wf w -> w_heap w !! h = Some (n, OStream st) -> exists p, sem_at w (st_semaphore st) p.
Proof.
  intros Hwf Hst. destruct (wf_links _ Hwf _ _ _ KSemaphore (st_semaphore st) Hst) as (m & o & Ho & Hk);
    [left|]. destruct o; try discriminate Hk. by eexists _, _, _.
Qed.

Lemma stream_dev w h n st :
  wf w -> w_heap w !! h = Some (n, OStream st) -> exists d, dev_at w (st_device st) d.
Proof.
  intros Hwf Hst. destruct (wf_links _ Hwf _ _ _ KDevice (st_device st) Hst) as (m & o & Ho & Hk);
    [right; left|]. destruct o; try discriminate Hk. by eexists _, _, _.
Qed.

Lemma stream_nonnull w h n st : wf w -> w_heap w !! h = Some (n, OStream st) -> h <> 0.
Proof.
  intros Hwf Hst ->. by rewrite (wf_heap_low _ Hwf 0) in Hst by lia.
Qed.

Lemma reachable_next w : reachable w -> 0 < w_next w.
Proof. intros [Hwf _]%reachable_inv. pose proof (wf_next _ Hwf). lia. Qed.

(** C7: Any sequence of recording, flush, wait, query and synchronize calls on a
    stream submits its work as one chain on the timeline semaphore, to the stream's own
    device: the [i]-th submission is of a command buffer that is not null, waits for the
    value the one before it signals (the first for the value the stream was at, if it is
    not 0) and signals the next value, whatever calls fail in between, and the stream's
    timeline counts the submissions.  The sequences do not contain the three calls that
    move the timeline in another way: hrx_stream_wait_on (a queue barrier that waits on
    the other semaphore only), hrx_stream_advance_timeline (the caller signals the value)
    and hrx_buffer_allocate (a queue allocation). *)
Theorem stream_submissions_form_a_chain w cs h n st :
  reachable w -> legal_all cs w -> Forall (fun c => stream_op h c = true) cs ->
  w_heap w !! h = Some (n, OStream st) -> st_timepoint st + Z.of_nat (length cs) <= U64_MAX ->
  exists w' st' d p cbs, play cs w = Some w'
    /\ dev_at w (st_device st) d /\ sem_at w (st_semaphore st) p
    /\ (length cbs <= length cs)%nat /\ Forall (fun cb => cb <> 0) cbs
    /\ w_heap w' !! h = Some (n, OStream st')
    /\ st_timepoint st' = st_timepoint st + Z.of_nat (length cbs)
    /\ subs (w_trace w') = subs (w_trace w) ++ chain d p (st_timepoint st) cbs.
Proof.
  intros Hr Hl Hall Hst Hlen. pose proof (reachable_inv w Hr) as [Hwf _].
  destruct (legal_play cs w Hl) as [w' Hp]. destruct (stream_sem w h n st Hwf Hst) as [p Hs].
  destruct (stream_dev w h n st Hwf Hst) as [d Hd].
  destruct (reachable_streams_good w Hr) as [Hn Hg]. destruct (Hg _ _ _ Hst) as [_ Ht].
  destruct (play_advances cs h n d p w w' st)
    as (cbs & Hk & Hnn & st' & Hh & _ & _ & _ & Ht' & Hsub); try done.
  { by eapply stream_nonnull. } { lia. }
  exists w', st', d, p, cbs. rewrite Hh, lookup_insert_eq. done.
Qed.

(** C8: Recorded work is never lost: in every reachable state a stream with
    pending work has an open command buffer, and flushing it makes exactly these calls
    of IREE: it ends that very command buffer, submits it to the stream's device, waiting
    on the current timeline value and signalling the next, and gives its reference back,
    after which nothing is pending; or it answers an error, submits nothing and leaves the
    stream, its pending work included, as it was. *)
Theorem flush_submits_pending_work w h n st :
  reachable w -> w_heap w !! h = Some (n, OStream st) -> st_has_pending_work st = true ->
  st_pending_cb st <> 0 /\
  exists r w' d p, hrx_stream_flush h w = Done r w'
    /\ dev_at w (st_device st) d /\ sem_at w (st_semaphore st) p /\
    ((r = 0 /\ w_heap w' = <[h := (n, OStream (submitted st))]> (w_heap w)
      /\ w_trace w' = flush_calls st d p ++ w_trace w
      /\ subs (w_trace w') = subs (w_trace w)
         ++ [Sub d (wait_for p (st_timepoint st)) [(p, wrap_u64 (st_timepoint st + 1))]
               (st_pending_cb st)])
     \/ (r <> 0 /\ w_heap w' = w_heap w /\ subs (w_trace w') = subs (w_trace w))).
Proof.
  intros Hr Hst Hwork. pose proof (reachable_inv w Hr) as [Hwf _].
  destruct (proj2 (reachable_streams_good w Hr) _ _ _ Hst) as [Hcb _].
  specialize (Hcb Hwork). split; [done|].
  assert (nullable w KStream h) as Hnull by (right; by eexists _, _).
  pose proof (hrx_stream_flush_spec w h Hwf Hnull) as (r & w' & E & _)%wp_Done.
  destruct (stream_flush_inv h w r w' n st E) as (st' & Hh & _ & Ho); try done.
  { by eapply stream_nonnull. } { by apply reachable_next. }
  assert (pending st = true) as Hp.
  { unfold pending. by rewrite Hwork, (proj2 (is_null_false _) Hcb). }
  destruct (stream_sem w h n st Hwf Hst) as [p0 Hp0]. destruct (stream_dev w h n st Hwf Hst) as [d0 Hd0].
  destruct Ho as [(Hp' & _)|[(_ & Hr0 & -> & Hsub)|(_ & -> & -> & d & p & Hdev & Hsem & Htr)]].
  - congruence.
  - exists r, w', d0, p0. split; [done|]. split; [done|]. split; [done|]. right. by rewrite Hh, insert_id.
  - exists 0, w', d, p. split; [done|]. split; [done|]. split; [done|]. left. split; [done|].
    split; [done|]. split; [done|]. by rewrite Htr, flush_calls_subs.
Qed.

(** C9: A recording call (fill, copy, update, barrier, dispatch) touches nothing
    but its stream and submits nothing; when it answers OK the stream has pending
    work in an open command buffer (the one that was open, if any), and when it
    fails pending work and timeline are as before. *)
Theorem recording_only_marks_pending w c h n st :
  reachable w -> legal w c -> records c = Some h -> w_heap w !! h = Some (n, OStream st) ->
  exists r w' st', exec c w = Done r w' /\ w_heap w' = <[h := (n, OStream st')]> (w_heap w)
    /\ subs (w_trace w') = subs (w_trace w)
    /\ st_timepoint st' = st_timepoint st
    /\ (st_pending_cb st <> 0 -> st_pending_cb st' = st_pending_cb st)
    /\ (r = 0 -> st_has_pending_work st' = true /\ st_pending_cb st' <> 0)
    /\ (r <> 0 -> st_has_pending_work st' = st_has_pending_work st).
Proof.
  intros Hr Hl Hc Hst. destruct (exec_inv c w (reachable_inv w Hr) Hl) as (r & w' & E & _).
  destruct (exec_records c w r w' h n st E Hc (reachable_next w Hr) Hst) as (st' & Hh & Hs & _ & Ho).
  exists r, w', st'. split; [done|]. split; [done|]. split; [done|].
  destruct Ho as [(-> & [Ho1 Ho2] & Hcb)|(Hr0 & [Ho1 Ho2])]; simpl in Ho2.
  - split; [by rewrite Ho1|]. split; [done|]. split; [|done]. intros _. split; [by rewrite Ho1|done].
  - split; [by rewrite Ho1|]. split; [done|]. split; [done|]. intros _. by rewrite Ho1.
Qed.

Lemma semaphore_wait_inv h v w w' p :
  hrx_semaphore_wait h v U64_MAX w = Done 0 w' -> h <> 0 -> 0 < w_next w -> sem_at w h p ->
  w_trace w' = Ev (ffi_status (iree_hal_semaphore_wait p v timeout_infinite)) 0 :: w_trace w.
Proof.
  unfold hrx_semaphore_wait, HalSemaphore_wait. intros E Hh Hw (m & s & Hs & Hp). rewrite (proj2 (is_null_false h) Hh) in E.
  apply bind_inv in E as (q & w1 & E1 & E). apply semaphore_hal_ptr_inv in E1 as (-> & m' & s' & Hs' & Hq).
  simplify_eq. apply bind_inv in E as (r & w1 & E1 & E).
  assert (0 < w_next w1) as Hw1 by (by inversion E1; subst).
  pose proof (from_iree_result r w1 0 w' E Hw1) as [_ Hnz].
  destruct (decide (r = 0)) as [->|Hne]; [|by destruct (Hnz Hne)].
  unfold hrx_status_from_iree in E. simpl in E. inversion E; subst. inversion E1 as [Hr1]. subst.
  simpl. unfold timeout_from_ns. rewrite Z.eqb_refl. done.
Qed.

(** The answer OK of a synchronize. *)
Lemma synchronize_ok w h n st w' :
  reachable w -> w_heap w !! h = Some (n, OStream st) ->
  hrx_stream_synchronize h w = Done 0 w' ->
  exists st' p, w_heap w' = <[h := (n, OStream st')]> (w_heap w)
    /\ sem_at w (st_semaphore st) p
    /\ st_has_pending_work st' = false
    /\ (st_timepoint st' <> 0 -> exists tr,
         w_trace w' = Ev (ffi_status (iree_hal_semaphore_wait p (st_timepoint st') timeout_infinite)) 0
                      :: tr).
Proof.
  intros Hr Hst E. pose proof (reachable_inv w Hr) as [Hwf _].
  pose proof (stream_nonnull w h n st Hwf Hst) as Hh. pose proof (reachable_next w Hr) as Hw.
  destruct (stream_sem w h n st Hwf Hst) as [p Hp].
  destruct (proj2 (reachable_streams_good w Hr) _ _ _ Hst) as [Hcb _].
  unfold hrx_stream_synchronize in E. rewrite (proj2 (is_null_false h) Hh) in E.
  apply bind_inv in E as (r & w1 & E1 & E).
  destruct (stream_flush_inv h w r w1 n st E1 Hh Hw Hst) as (st' & Hh1 & Hn1 & Ho).
  destruct (decide (r = 0)) as [->|Hne].
  2:{ unfold hrx_status_is_ok in E. rewrite (proj2 (is_null_false r) Hne) in E.
      by inversion E; subst. }
  assert (st_has_pending_work st' = false /\ st_semaphore st' = st_semaphore st) as [Hf Hsem].
  { destruct Ho as [(Hpd & _ & -> & _)|[(_ & [] & _)|(_ & _ & -> & _)]]; [|done|done].
    unfold pending in Hpd. destruct (st_has_pending_work st); [|done].
    by rewrite (proj2 (is_null_false _) (Hcb eq_refl)) in Hpd. }
  pose proof (hushed_stream_wait h _ _ _ E) as (Hh2 & _ & _).
  exists st', p. split; [congruence|]. split; [done|]. split; [done|]. intros Ht.
  simpl in E. unfold hrx_stream_wait in E. rewrite (proj2 (is_null_false h) Hh) in E.
  apply bind_inv in E as (st2 & w2 & E2 & E). apply stream_ref_inv in E2 as (-> & n2 & Hst2).
  rewrite Hh1, lookup_insert_eq in Hst2. simplify_eq.
  rewrite (proj2 (Z.eqb_neq _ _) Ht) in E. exists (w_trace w1).
  eapply semaphore_wait_inv; [exact E| |lia|].
  - rewrite Hsem. destruct Hp as (m & s & Hs & _). intros Hz. rewrite Hz in Hs.
    by rewrite (wf_heap_low _ Hwf 0) in Hs by lia.
  - destruct Hp as (m & s & Hs & Hps). exists m, s. split; [|done].
    rewrite Hsem, Hh1, lookup_insert_ne; [done|]. intros ->. congruence.
Qed.

(** The stream after a synchronize, whatever its answer: as it was, or submitted. *)
Lemma synchronize_stream w h n st r w' :
  reachable w -> w_heap w !! h = Some (n, OStream st) -> hrx_stream_synchronize h w = Done r w' ->
  exists st', w_heap w' = <[h := (n, OStream st')]> (w_heap w) /\ (st' = st \/ st' = submitted st).
Proof.
  intros Hr Hst E. pose proof (reachable_inv w Hr) as [Hwf _].
  pose proof (stream_nonnull w h n st Hwf Hst) as Hh. pose proof (reachable_next w Hr) as Hw.
  unfold hrx_stream_synchronize in E. rewrite (proj2 (is_null_false h) Hh) in E.
  apply bind_inv in E as (r1 & w1 & E1 & E).
  destruct (stream_flush_inv h w r1 w1 n st E1 Hh Hw Hst) as (st' & Hh1 & _ & Ho).
  exists st'. split.
  - destruct (negb (hrx_status_is_ok r1)); [by inversion E; subst|].
    pose proof (hushed_stream_wait h _ _ _ E) as (Hh2 & _ & _). congruence.
  - destruct Ho as [(_ & _ & -> & _)|[(_ & _ & -> & _)|(_ & _ & -> & _)]]; auto.
Qed.

(** C10: A synchronize always returns; it touches nothing but its stream, which keeps its
    pending work or has it submitted.  When it answers OK no work is pending, and the last
    thing it did was a successful infinite wait on the timeline semaphore for the stream's
    final value, so that everything submitted before has completed (there is nothing to
    wait for when that value is still 0). *)
Theorem synchronize_waits_for_everything w h n st :
  reachable w -> w_heap w !! h = Some (n, OStream st) ->
  exists r w' st' p, hrx_stream_synchronize h w = Done r w'
    /\ w_heap w' = <[h := (n, OStream st')]> (w_heap w) /\ (st' = st \/ st' = submitted st)
    /\ sem_at w (st_semaphore st) p
    /\ (r = 0 -> st_has_pending_work st' = false
         /\ (st_timepoint st' <> 0 -> exists tr,
              w_trace w' = Ev (ffi_status (iree_hal_semaphore_wait p (st_timepoint st') timeout_infinite)) 0
                           :: tr)).
Proof.
  intros Hr Hst. pose proof (reachable_inv w Hr) as [Hwf _].
  assert (Hnull : nullable w KStream h) by (right; by eexists _, _).
  pose proof (hrx_stream_synchronize_spec w h Hwf Hnull) as (r & w' & E & _)%wp_Done.
  destruct (synchronize_stream w h n st r w' Hr Hst E) as (st' & Hh & Hs). exists r, w', st'.
  destruct (decide (r = 0)) as [->|Hne].
  - destruct (synchronize_ok w h n st w' Hr Hst E) as (st2 & p & Hh2 & Hp & Hf & Ht).
    assert (st2 = st') as ->.
    { assert (Some (n, OStream st2) = Some (n, OStream st')); [|by simplify_eq].
      by rewrite <- (lookup_insert_eq (w_heap w) h), <- Hh2, Hh, lookup_insert_eq. }
    by exists p.
  - destruct (stream_sem w h n st Hwf Hst) as [p Hp]. by exists p.
Qed.
End Theorems.

(** ** Witnesses *)

Definition stream_calls : list api :=
  [StreamFillBuffer STR BUF 0 64 200 4; StreamFlush STR; StreamExecutionBarrier STR;
   StreamSynchronize STR; StreamQuery STR 120].

Definition stream_now (w : world) : HrxStreamS :=
  match w_heap w !! STR with Some (_, OStream st) => st | _ => Stream 0 0 false 0 0 0 end.

Lemma stream_submissions_form_a_chain_witness :
  exists w' st' d p cbs, play stream_calls (world_of session) = Some w'
    /\ dev_at (world_of session) (st_device (stream_now (world_of session))) d
    /\ sem_at (world_of session) SEM p /\ (length cbs <= 5)%nat /\ Forall (fun cb => cb <> 0) cbs
    /\ w_heap w' !! STR = Some (1, OStream st')
    /\ st_timepoint st' = 1 + Z.of_nat (length cbs)
    /\ subs (w_trace w') = subs (w_trace (world_of session)) ++ chain d p 1 cbs.
Proof.
  apply (stream_submissions_form_a_chain (world_of session) stream_calls STR 1
           (stream_now (world_of session))).
  - apply session_reachable.
  - legal_now.
  - repeat constructor.
  - vm_compute. reflexivity.
  - vm_compute. discriminate.
Defined.

(** A session with recorded work that is not flushed yet. *)
Definition recorded : list api := session ++ [StreamFillBuffer STR BUF 0 64 200 4].

Lemma recorded_reachable : reachable (world_of recorded).
Proof. apply (play_reachable recorded); [legal_now|vm_compute; reflexivity]. Qed.

Lemma flush_submits_pending_work_witness :
  st_pending_cb (stream_now (world_of recorded)) <> 0 /\
  exists r w' d p, hrx_stream_flush STR (world_of recorded) = Done r w'
    /\ dev_at (world_of recorded) (st_device (stream_now (world_of recorded))) d
    /\ sem_at (world_of recorded) SEM p /\
    ((r = 0 /\ w_heap w' = <[STR := (1, OStream (submitted (stream_now (world_of recorded))))]>
                             (w_heap (world_of recorded))
      /\ w_trace w' = flush_calls (stream_now (world_of recorded)) d p ++ w_trace (world_of recorded)
      /\ subs (w_trace w') = subs (w_trace (world_of recorded))
           ++ [Sub d [(p, 1)] [(p, 2)] (st_pending_cb (stream_now (world_of recorded)))])
     \/ (r <> 0 /\ w_heap w' = w_heap (world_of recorded)
         /\ subs (w_trace w') = subs (w_trace (world_of recorded)))).
Proof.
  apply (flush_submits_pending_work (world_of recorded) STR 1 (stream_now (world_of recorded))).
  - apply recorded_reachable.
  - vm_compute. reflexivity.
  - vm_compute. reflexivity.
Defined.

Lemma recording_only_marks_pending_witness :
  exists r w' st', exec (StreamExecutionBarrier STR) (world_of session) = Done r w'
    /\ w_heap w' = <[STR := (1, OStream st')]> (w_heap (world_of session))
    /\ subs (w_trace w') = subs (w_trace (world_of session))
    /\ st_timepoint st' = st_timepoint (stream_now (world_of session))
    /\ (st_pending_cb (stream_now (world_of session)) <> 0 ->
        st_pending_cb st' = st_pending_cb (stream_now (world_of session)))
    /\ (r = 0 -> st_has_pending_work st' = true /\ st_pending_cb st' <> 0)
    /\ (r <> 0 -> st_has_pending_work st' = st_has_pending_work (stream_now (world_of session))).
Proof.
  apply (recording_only_marks_pending (world_of session) (StreamExecutionBarrier STR) STR 1
           (stream_now (world_of session))).
  - apply session_reachable.
  - legal_now.
  - reflexivity.
  - vm_compute. reflexivity.
Defined.

Lemma synchronize_waits_for_everything_witness :
  exists w' st' p, hrx_stream_synchronize STR (world_of recorded) = Done 0 w'
    /\ sem_at (world_of recorded) SEM p /\ st_has_pending_work st' = false
    /\ (st_timepoint st' <> 0 -> exists tr,
         w_trace w' = Ev (ffi_status (iree_hal_semaphore_wait p (st_timepoint st') timeout_infinite)) 0
                      :: tr).
Proof.
  destruct (synchronize_waits_for_everything (world_of recorded) STR 1 (stream_now (world_of recorded)))
    as (r & w' & st' & p & E & _ & _ & Hp & Hok).
  - apply recorded_reachable.
  - vm_compute. reflexivity.
  - assert (X : match hrx_stream_synchronize STR (world_of recorded) with
      | Done r _ => r = 0 | _ => False end) by (vm_compute; reflexivity).
    rewrite E in X. subst r. exists w', st', p. split; [exact E|]. split; [exact Hp|]. apply Hok. reflexivity.
Defined.
