(* ===== verification/BufferTheorems.v ===== *)
(** * Buffers: mapping protocol and transfer bounds

    The state machine of a buffer's mapping, the stability of device pointers
    and the bounds check of the synchronous transfers. *)

From S2P Require Import Prelude Iree Objects Machine Handle Status IreeHal Device Semaphore Buffer HostAllocator Executable BufferView ValueList Modules QueueOps Stream Pool StreamAlloc Runtime Lifecycle Scenario Ownership StreamTimeline.

(** ** Error answers *)

Section Answers.
Context `{IREE}.

(** The answer is an error with this code; handles, memory and statics are as
    they were. *)
Definition fails_with (code : Z) (w w' : world) (r : ptr) : Prop :=
  valid_status w' r code /\ frame w w'.

(** Only libc was called: IREE was not. *)
Definition libc_only (w w' : world) : Prop :=
  exists l, w_trace w' = l ++ w_trace w
    /\ Forall (fun e => match e with Ev (libc_malloc_succeeds _) _ => True | _ => False end) l.

Lemma libc_only_refl w : libc_only w w.
Proof. by exists []. Qed.

Lemma strdup_libc s w a w' : libc_strdup s w = Done a w' -> libc_only w w'.
Proof.
  unfold libc_strdup. intros E. apply bind_inv in E as (ok & w1 & E1 & E).
  inversion E1; subst.
  destruct (iree_respond _ _); inversion E; subst;
    (eexists [Ev (libc_malloc_succeeds (Z.of_nat (String.length s) + 1)) _];
     split; [done|by repeat constructor]).
Qed.

Lemma make_status_libc code msg w r w' : hrx_make_status code msg w = Done r w' -> libc_only w w'.
Proof.
  unfold hrx_make_status. intros E. destruct (code =? HRX_STATUS_OK).
  { inversion E; subst. apply libc_only_refl. }
  apply bind_inv in E as (ok & w1 & E1 & E). inversion E1; subst.
  destruct (iree_respond _ _); simpl in E.
  2:{ inversion E; subst. eexists [Ev (libc_malloc_succeeds 16) _].
      split; [done|by repeat constructor]. }
  apply bind_inv in E as (s & w2 & E2 & E). inversion E2; subst.
  apply bind_inv in E as (m & w3 & E3 & E). apply bind_inv in E as (u & w4 & E4 & E).
  inversion E; subst. unfold libc_only.
  assert (w_trace w' = w_trace w3) as -> by (unfold c_store in E4; repeat case_match; by simplify_eq).
  destruct msg; [|inversion E3; subst; eexists [Ev (libc_malloc_succeeds 16) _];
                  split; [done|by repeat constructor]].
  apply strdup_libc in E3 as (l & Hl & Hf). simpl in Hl.
  exists (l ++ [Ev (libc_malloc_succeeds 16) true]).
  rewrite Hl, <- app_assoc. split; [done|]. apply Forall_app. split; [done|by repeat constructor].
Qed.

Lemma make_status_fails `{!LibcAlloc} code msg w :
  wf w -> code <> 0 ->
  exists r w', hrx_make_status code msg w = Done r w' /\ fails_with code w w' r /\ libc_only w w'.
Proof.
  intros Hwf Hc.
  pose proof (hrx_make_status_spec code msg w Hwf) as (r & w' & E & (_ & Hf & _) & Hnz & Hr)%wp_Done.
  exists r, w'. split; [done|]. split; [|by eapply make_status_libc].
  destruct Hr as [->|(_ & _ & Hv)]; [by destruct (Hnz _ Hc)|done].
Qed.

Lemma from_iree_fails `{!LibcAlloc} s w :
  wf w -> s <> 0 ->
  exists r w', hrx_status_from_iree s w = Done r w'
    /\ fails_with (hrx_code_from_iree (status_code s)) w w' r.
Proof.
  intros Hwf Hs.
  pose proof (hrx_status_from_iree_spec s w Hwf) as (r & w' & E & (_ & Hf & _) & _ & Hnz & Hr)%wp_Done.
  exists r, w'. split; [done|]. split; [|done].
  destruct Hr as [->|(_ & Hv)]; [by destruct (Hnz _ Hs)|done].
Qed.

Lemma from_iree_extends s w r w' :
  hrx_status_from_iree s w = Done r w' ->
  exists l, w_trace w' = l ++ w_trace w /\ (s = 0 -> r = 0 /\ l = []).
Proof.
  unfold hrx_status_from_iree, status_is_ok. intros E. destruct (is_null s) eqn:Es; bool_to_prop.
  { inversion E; subst. by exists []. }
  apply bind_inv in E as ([[ok msg] text] & w1 & E1 & E). inversion E1; subst.
  destruct ok; simpl in E.
  - apply bind_inv in E as (x & w2 & E2 & E). apply make_status_libc in E2 as (l & Hl & _).
    apply bind_inv in E as (u & w3 & E3 & E). inversion E3; subst.
    apply bind_inv in E as (u' & w4 & E4 & E). inversion E4; subst. inversion E; subst. simpl. rewrite Hl.
    eexists (_ :: _ :: l ++ [_]). simpl. rewrite <- app_assoc. simpl. split; [done|by intros ->].
  - apply bind_inv in E as (x & w2 & E2 & E). inversion E2; subst.
    apply make_status_libc in E as (l & Hl & _). rewrite Hl. simpl.
    eexists (l ++ [_; _]). rewrite <- app_assoc. simpl. split; [done|by intros ->].
Qed.

Lemma buffer_ref_at w h n b : w_heap w !! h = Some (n, OBuffer b) -> buffer_ref h w = Done b w.
Proof. intros E. unfold buffer_ref, handle_ref. by rewrite E. Qed.

Lemma buffer_set_at w h n b b' :
  w_heap w !! h = Some (n, OBuffer b) ->
  handle_set h b' w = Done tt (set_heap w (<[h := (n, OBuffer b')]> (w_heap w))).
Proof. intros E. unfold handle_set. by rewrite E. Qed.

Lemma write_out_at w p v : p <> 0 -> write_out p v w = Done tt (set_mem w (<[p := v]> (w_mem w))).
Proof. intros Hp. unfold write_out. by rewrite (proj2 (is_null_false p) Hp). Qed.

Lemma buffer_nonnull w h n b : wf w -> w_heap w !! h = Some (n, OBuffer b) -> h <> 0.
Proof. intros Hwf Hb ->. by rewrite (wf_heap_low _ Hwf 0) in Hb by lia. Qed.

Lemma wf_trace w t : wf w -> wf (set_trace w t).
Proof. by intros []. Qed.
End Answers.

(** ** Mapping *)

Section Mapping.
Context `{IREE, !IreeCreates, !LibcAlloc, !IreeDeviceAllocator}.

(** The buffer [b] with the range IREE mapped for it. *)
Definition with_mapping (b : HrxBufferS) (mapping data : ptr) : HrxBufferS :=
  set_map b (Some (Mapped mapping data)).

(** What a map attempt of an unmapped buffer does: the only foreign call before
    the error report is the one to [iree_hal_buffer_map_range], its success is
    recorded in the buffer and the address stored, its failure changes nothing. *)
Definition map_attempt (h : ptr) (n : Z) (b : HrxBufferS) (access off size out : Z)
  (w w' : world) (r : ptr) : Prop :=
  exists s mapping data,
    let ev := Ev (iree_hal_buffer_map_range (buf_hal_buffer b) access off size) (s, mapping, data) in
    (s = 0 /\ r = 0
     /\ w' = set_mem (set_heap (set_trace w (ev :: w_trace w))
                        (<[h := (n, OBuffer (with_mapping b mapping data))]> (w_heap w)))
               (<[out := data]> (w_mem w)))
    \/ (s <> 0 /\ fails_with (hrx_code_from_iree (status_code s)) w w' r).

(** C11: Mapping is exclusive: mapping a buffer that is already mapped answers
    FAILED_PRECONDITION without calling IREE and without touching the mapping;
    mapping an unmapped one asks IREE once, for the requested range with the
    access bits of the flags, records the mapping and stores the address if IREE
    succeeds, and changes nothing if it fails. *)
Theorem map_is_exclusive w h n b flags off size out :
  reachable w -> w_heap w !! h = Some (n, OBuffer b) -> out <> 0 ->
  exists r w', hrx_buffer_map h flags off size out w = Done r w' /\
    match buf_map b with
    | Some _ => fails_with (code_i32 FailedPrecondition) w w' r /\ libc_only w w'
    | None => map_attempt h n b (map_access flags) off size out w w' r
    end.
Proof.
  intros [Hwf _]%reachable_inv Hb Hout. pose proof (buffer_nonnull _ _ _ _ Hwf Hb) as Hh.
  unfold hrx_buffer_map.
  rewrite (proj2 (is_null_false h) Hh), (proj2 (is_null_false out) Hout). simpl.
  rewrite (bind_Done _ _ _ _ _ (buffer_ref_at w h n b Hb)). destruct (buf_map b) as [m|].
  - by apply make_status_fails.
  - unfold map_attempt. set (c := iree_hal_buffer_map_range _ _ _ _).
    destruct (iree_respond (w_trace w) c) as [[s mp] data] eqn:Er.
    assert (call c w = Done (s, mp, data) (set_trace w (Ev c (s, mp, data) :: w_trace w))) as Hc.
    { unfold call. by rewrite Er. }
    rewrite (bind_Done _ _ _ _ _ Hc). unfold status_is_ok.
    destruct (is_null s) eqn:Es; bool_to_prop; simpl.
    + erewrite (bind_Done (handle_set _ _)); [|by apply (buffer_set_at _ h n b)].
      rewrite (bind_Done _ _ _ _ _ (write_out_at _ _ _ Hout)).
      eexists _, _. split; [done|]. exists s, mp, data. by left.
    + destruct (from_iree_fails s (set_trace w (Ev c (s, mp, data) :: w_trace w))) as (r & w' & E & Hf & Hfr);
        [by apply wf_trace|done|].
      exists r, w'. split; [done|]. exists s, mp, data. by right.
Qed.

(** C12: After an unmap the buffer is unmapped, whatever IREE answers: IREE is
    asked exactly once for a mapped buffer, with the mapping it gave, and its
    status is the answer; an unmapped buffer is left alone with answer OK, so a
    second unmap never unmaps twice. *)
Theorem unmap_clears_the_mapping w h n b :
  reachable w -> w_heap w !! h = Some (n, OBuffer b) ->
  exists r w', hrx_buffer_unmap h w = Done r w'
    /\ w_heap w' = <[h := (n, OBuffer (set_map b None))]> (w_heap w) /\ w_mem w' = w_mem w
    /\ match buf_map b with
       | None => r = 0 /\ w_trace w' = w_trace w
       | Some m => exists s l,
           w_trace w' = l ++ Ev (ffi_status (iree_hal_buffer_unmap_range (mr_mapping m))) s :: w_trace w
           /\ (s = 0 -> r = 0 /\ l = [])
           /\ (s <> 0 -> valid_status w' r (hrx_code_from_iree (status_code s)))
       end.
Proof.
  intros [Hwf _]%reachable_inv Hb. pose proof (buffer_nonnull _ _ _ _ Hwf Hb) as Hh.
  unfold hrx_buffer_unmap. rewrite (proj2 (is_null_false h) Hh).
  rewrite (bind_Done _ _ _ _ _ (buffer_ref_at w h n b Hb)).
  assert (wf (set_heap w (<[h := (n, OBuffer (set_map b None))]> (w_heap w)))) as Hwf1.
  { pose proof (handle_set_spec w h n b (set_map b None) Hwf Hb eq_refl (fun H => H)) as Hs.
    unfold wp in Hs. erewrite buffer_set_at in Hs by done. apply Hs. }
  erewrite (bind_Done (handle_set _ _)); [|by apply (buffer_set_at w h n b)].
  set (w1 := set_heap w _) in *.
  destruct (buf_map b) as [m|] eqn:Em; [|by eexists _, w1].
  set (c := ffi_status _). erewrite (bind_Done (call c)); [|done].
  set (s := iree_respond (w_trace w1) c). set (w2 := set_trace w1 _).
  assert (wf w2) as Hwf2 by (by apply wf_trace).
  destruct (decide (s = 0)) as [Hs|Hs].
  - rewrite Hs. exists 0, w2. split; [done|]. split; [done|]. split; [done|].
    exists s, []. split; [done|]. by split.
  - destruct (from_iree_fails s w2 Hwf2 Hs) as (r & w' & E & Hv & Hh' & Hm' & _).
    exists r, w'. split; [done|]. split; [done|]. split; [done|].
    apply from_iree_extends in E as (l & Hl & _). exists s, l. split; [done|]. by split.
Qed.

Lemma get_device_ptr_mapped w h n b m out :
  w_heap w !! h = Some (n, OBuffer b) -> buf_map b = Some m -> h <> 0 -> out <> 0 ->
  hrx_buffer_get_device_ptr h out w = Done 0 (set_mem w (<[out := mr_ptr m]> (w_mem w))).
Proof.
  intros Hb Hm Hh Hout. unfold hrx_buffer_get_device_ptr.
  rewrite (proj2 (is_null_false h) Hh), (proj2 (is_null_false out) Hout). simpl.
  rewrite (bind_Done _ _ _ _ _ (buffer_ref_at w h n b Hb)), Hm.
  by rewrite (bind_Done _ _ _ _ _ (write_out_at _ _ _ Hout)).
Qed.

Lemma map_mapped w h n b m flags off size out :
  wf w -> w_heap w !! h = Some (n, OBuffer b) -> buf_map b = Some m -> out <> 0 ->
  exists r w2, hrx_buffer_map h flags off size out w = Done r w2
    /\ fails_with (code_i32 FailedPrecondition) w w2 r /\ libc_only w w2.
Proof.
  intros Hwf Hb Hm Hout. pose proof (buffer_nonnull _ _ _ _ Hwf Hb) as Hh. unfold hrx_buffer_map.
  rewrite (proj2 (is_null_false h) Hh), (proj2 (is_null_false out) Hout). simpl.
  rewrite (bind_Done _ _ _ _ _ (buffer_ref_at w h n b Hb)), Hm. by apply make_status_fails.
Qed.

(** The buffer after a successful call has a mapping whose address was stored. *)
Lemma get_device_ptr_ok w h n b out w1 :
  w_heap w !! h = Some (n, OBuffer b) -> h <> 0 -> out <> 0 -> 0 < w_next w ->
  hrx_buffer_get_device_ptr h out w = Done 0 w1 ->
  exists m, w_mem w1 !! out = Some (mr_ptr m)
    /\ w_heap w1 !! h = Some (n, OBuffer (set_map b (Some m))).
Proof.
  intros Hb Hh Hout Hw E. destruct (buf_map b) as [m|] eqn:Hm.
  { rewrite (get_device_ptr_mapped w h n b m) in E by done. inversion E; subst. exists m. simpl.
    rewrite lookup_insert_eq. split; [done|]. rewrite Hb, <- Hm. by destruct b. }
  unfold hrx_buffer_get_device_ptr in E.
  rewrite (proj2 (is_null_false h) Hh), (proj2 (is_null_false out) Hout) in E. simpl in E.
  rewrite (bind_Done _ _ _ _ _ (buffer_ref_at w h n b Hb)), Hm in E.
  apply bind_inv in E as ([[s mp] data] & w2 & E2 & E). unfold status_is_ok in E.
  assert (w_heap w2 = w_heap w /\ w_next w2 = w_next w) as [Hh2 Hn2] by (by inversion E2; subst).
  destruct (is_null s) eqn:Es; bool_to_prop.
  - erewrite (bind_Done (handle_set _ _)) in E by (apply (buffer_set_at _ h n b); by rewrite Hh2).
    rewrite (bind_Done _ _ _ _ _ (write_out_at _ _ _ Hout)) in E. inversion E; subst.
    exists (Mapped mp data). simpl. by rewrite !lookup_insert_eq.
  - apply bind_inv in E as (u & w3 & E3 & E). rewrite (bind_Done _ _ _ _ _ (write_out_at _ _ _ Hout)) in E.
    apply make_status_nonzero in E; [done| |done]. inversion E3; subst. simpl. lia.
Qed.

(** What the answer OK of a device pointer query means from then on. *)
Lemma device_ptr_ok w h n b out w1 :
  reachable w -> w_heap w !! h = Some (n, OBuffer b) -> out <> 0 ->
  hrx_buffer_get_device_ptr h out w = Done 0 w1 ->
  exists data m, w_mem w1 !! out = Some data
    /\ w_heap w1 !! h = Some (n, OBuffer (set_map b (Some (Mapped m data))))
    /\ (forall out2, out2 <> 0 ->
         hrx_buffer_get_device_ptr h out2 w1 = Done 0 (set_mem w1 (<[out2 := data]> (w_mem w1))))
    /\ (forall flags off size out2, out2 <> 0 -> exists r w2,
         hrx_buffer_map h flags off size out2 w1 = Done r w2
         /\ fails_with (code_i32 FailedPrecondition) w1 w2 r).
Proof.
  intros [Hwf _]%reachable_inv Hb Hout E. pose proof (buffer_nonnull _ _ _ _ Hwf Hb) as Hh.
  destruct (get_device_ptr_ok w h n b out w1) as ([m data] & Hmem & Hb1); try done.
  { pose proof (wf_next _ Hwf). lia. }
  assert (wf w1) as Hwf1.
  { pose proof (hrx_buffer_get_device_ptr_spec w h out Hwf) as Hs. unfold wp in Hs. rewrite E in Hs.
    apply Hs. right. by eexists _, _. }
  exists data, m. split; [done|]. split; [done|]. split.
  - intros out2 Hout2. by apply (get_device_ptr_mapped w1 h n _ (Mapped m data) out2 Hb1).
  - intros flags off size out2 Hout2.
    destruct (map_mapped w1 h n _ (Mapped m data) flags off size out2 Hwf1 Hb1) as (r & w2 & E2 & Hf & _);
      [done|done|]. eauto.
Qed.

(** C13: A device pointer is stable.  [hrx_buffer_get_device_ptr] always returns, on a
    mapped buffer with OK; once it has answered OK, every further call answers the same
    address without calling IREE, and because the mapping behind it is kept,
    [hrx_buffer_map] answers FAILED_PRECONDITION until the buffer is unmapped. *)
Theorem device_ptr_is_stable w h n b out :
  reachable w -> w_heap w !! h = Some (n, OBuffer b) -> out <> 0 ->
  exists r w1, hrx_buffer_get_device_ptr h out w = Done r w1 /\ (buf_map b <> None -> r = 0)
  /\ (r = 0 -> exists data m, w_mem w1 !! out = Some data
    /\ w_heap w1 !! h = Some (n, OBuffer (set_map b (Some (Mapped m data))))
    /\ (forall out2, out2 <> 0 ->
         hrx_buffer_get_device_ptr h out2 w1 = Done 0 (set_mem w1 (<[out2 := data]> (w_mem w1))))
    /\ (forall flags off size out2, out2 <> 0 -> exists r w2,
         hrx_buffer_map h flags off size out2 w1 = Done r w2
         /\ fails_with (code_i32 FailedPrecondition) w1 w2 r)).
Proof.
  intros Hr Hb Hout. pose proof (reachable_inv w Hr) as [Hwf _].
  assert (Hnull : nullable w KBuffer h) by (right; by eexists _, _).
  pose proof (hrx_buffer_get_device_ptr_spec w h out Hwf Hnull) as (r & w1 & E & _)%wp_Done.
  exists r, w1. split; [done|]. split.
  - intros Hm. destruct (buf_map b) as [m|] eqn:Em; [|done].
    rewrite (get_device_ptr_mapped w h n b m) in E; [by inversion E|done|done|by eapply buffer_nonnull|done].
  - intros ->. by apply (device_ptr_ok w h n b out w1).
Qed.
End Mapping.

(** ** Synchronous transfers *)

Section Transfers.
Context `{IREE, !IreeCreates, !LibcAlloc, !IreeDeviceAllocator}.

(** C14: For offset and size whose sum fits in 64 bits, a host-to-device or
    device-to-host transfer that would leave the buffer answers OUT_OF_RANGE and
    IREE is not called; one that stays inside is passed to IREE, with exactly
    these bounds, and its status is the answer. *)
Theorem transfers_stay_in_bounds w d nd dev h n b host off size :
  reachable w -> w_heap w !! d = Some (nd, ODevice dev) -> w_heap w !! h = Some (n, OBuffer b) ->
  host <> 0 -> 0 <= off -> 0 <= size -> off + size < 2 ^ 64 ->
  (buf_size b < off + size ->
     (exists r w', hrx_synchronous_h2d d host h off size w = Done r w'
        /\ fails_with (code_i32 OutOfRange) w w' r /\ libc_only w w') /\
     (exists r w', hrx_synchronous_d2h d h off host size w = Done r w'
        /\ fails_with (code_i32 OutOfRange) w w' r /\ libc_only w w')) /\
  (off + size <= buf_size b ->
     hrx_synchronous_h2d d host h off size w
     = (s ← call (ffi_status (iree_hal_device_transfer_h2d (dev_hal_device dev) host
                               (buf_hal_buffer b) off size));
        hrx_status_from_iree s) w
     /\ hrx_synchronous_d2h d h off host size w
     = (s ← call (ffi_status (iree_hal_device_transfer_d2h (dev_hal_device dev)
                               (buf_hal_buffer b) off host size));
        hrx_status_from_iree s) w).
Proof.
  intros [Hwf _]%reachable_inv Hd Hb Hhost Hoff Hsize Hsum.
  pose proof (buffer_nonnull _ _ _ _ Hwf Hb) as Hh.
  assert (d <> 0) as Hdn by (intros ->; by rewrite (wf_heap_low _ Hwf 0) in Hd by lia).
  assert (device_deref d w = Done dev w) as Hdd by (unfold device_deref, handle_ref; by rewrite Hd).
  unfold hrx_synchronous_h2d, hrx_synchronous_d2h.
  rewrite (proj2 (is_null_false d) Hdn), (proj2 (is_null_false h) Hh), (proj2 (is_null_false host) Hhost).
  simpl. rewrite !(bind_Done _ _ _ _ _ (buffer_ref_at w h n b Hb)).
  unfold wrap_u64. rewrite Z.mod_small by lia. split; intros Hb2.
  - rewrite (proj2 (Z.ltb_lt _ _) Hb2). split; by apply make_status_fails.
  - rewrite (proj2 (Z.ltb_ge _ _) Hb2). by rewrite !(bind_Done _ _ _ _ _ Hdd).
Qed.

(** The bound is computed with wrap-around: an offset and a size of 64 bits
    each whose sum overflows to something small pass the check although the
    range lies outside the buffer, and the out-of-bounds range goes to IREE. *)
Theorem transfer_bound_wraps w d nd dev h n b host off size :
  reachable w -> w_heap w !! d = Some (nd, ODevice dev) -> w_heap w !! h = Some (n, OBuffer b) ->
  host <> 0 -> 0 <= off <= U64_MAX -> 0 <= size <= U64_MAX ->
  2 ^ 64 <= off + size -> off + size - 2 ^ 64 <= buf_size b ->
  hrx_synchronous_h2d d host h off size w
  = (s ← call (ffi_status (iree_hal_device_transfer_h2d (dev_hal_device dev) host
                            (buf_hal_buffer b) off size));
     hrx_status_from_iree s) w.
Proof.
  intros [Hwf _]%reachable_inv Hd Hb Hhost Hoff Hsize Hsum Hfit.
  pose proof (buffer_nonnull _ _ _ _ Hwf Hb) as Hh.
  assert (d <> 0) as Hdn by (intros ->; by rewrite (wf_heap_low _ Hwf 0) in Hd by lia).
  assert (device_deref d w = Done dev w) as Hdd by (unfold device_deref, handle_ref; by rewrite Hd).
  unfold hrx_synchronous_h2d.
  rewrite (proj2 (is_null_false d) Hdn), (proj2 (is_null_false h) Hh), (proj2 (is_null_false host) Hhost).
  simpl. rewrite (bind_Done _ _ _ _ _ (buffer_ref_at w h n b Hb)).
  assert (wrap_u64 (off + size) = off + size - 2 ^ 64) as ->.
  { unfold wrap_u64, U64_MAX in *. symmetry. apply (Z.mod_unique _ _ 1); lia. }
  rewrite (proj2 (Z.ltb_ge _ _) Hfit). by rewrite (bind_Done _ _ _ _ _ Hdd).
Qed.
End Transfers.

(** ** Witnesses *)

Definition buffer_now (w : world) : HrxBufferS :=
  match w_heap w !! BUF with Some (_, OBuffer b) => b | _ => Buffer None 0 None 0 0 0 end.

Definition device_now (w : world) : HrxDeviceS :=
  match w_heap w !! DEV with
  | Some (_, ODevice d) => d
  | _ => Device 0 0 (AllocatorInline 0 0 0) 0 0 [] []
  end.

Lemma map_is_exclusive_witness :
  exists r w', hrx_buffer_map BUF 3 0 64 300 (world_of session) = Done r w'
    /\ map_attempt BUF 1 (buffer_now (world_of session)) 3 0 64 300 (world_of session) w' r.
Proof.
  apply (map_is_exclusive (world_of session) BUF 1 (buffer_now (world_of session)) 3 0 64 300).
  - apply session_reachable.
  - vm_compute. reflexivity.
  - discriminate.
Defined.

(** The session with the buffer mapped again. *)
Definition mapped : list api := session ++ [BufferMap BUF 3 0 256 112].

Lemma mapped_reachable : reachable (world_of mapped).
Proof. apply (play_reachable mapped); [legal_now|vm_compute; reflexivity]. Qed.

Lemma unmap_clears_the_mapping_witness :
  exists r w', hrx_buffer_unmap BUF (world_of mapped) = Done r w'
    /\ w_heap w' = <[BUF := (1, OBuffer (set_map (buffer_now (world_of mapped)) None))]>
                     (w_heap (world_of mapped))
    /\ w_mem w' = w_mem (world_of mapped)
    /\ match buf_map (buffer_now (world_of mapped)) with
       | None => r = 0 /\ w_trace w' = w_trace (world_of mapped)
       | Some m => exists s l,
           w_trace w' = l ++ Ev (ffi_status (iree_hal_buffer_unmap_range (mr_mapping m))) s
                             :: w_trace (world_of mapped)
           /\ (s = 0 -> r = 0 /\ l = [])
           /\ (s <> 0 -> valid_status w' r (hrx_code_from_iree (status_code s)))
       end.
Proof.
  apply (unmap_clears_the_mapping (world_of mapped) BUF 1 (buffer_now (world_of mapped))).
  - apply mapped_reachable.
  - vm_compute. reflexivity.
Defined.

Lemma device_ptr_is_stable_witness :
  exists w1, hrx_buffer_get_device_ptr BUF 300 (world_of session) = Done 0 w1 /\
  exists data m, w_mem w1 !! 300 = Some data
    /\ w_heap w1 !! BUF = Some (1, OBuffer (set_map (buffer_now (world_of session)) (Some (Mapped m data))))
    /\ (forall out2, out2 <> 0 ->
         hrx_buffer_get_device_ptr BUF out2 w1 = Done 0 (set_mem w1 (<[out2 := data]> (w_mem w1))))
    /\ (forall flags off size out2, out2 <> 0 -> exists r w2,
         hrx_buffer_map BUF flags off size out2 w1 = Done r w2
         /\ fails_with (code_i32 FailedPrecondition) w1 w2 r).
Proof.
  destruct (device_ptr_is_stable (world_of session) BUF 1 (buffer_now (world_of session)) 300)
    as (r & w1 & E & _ & Hok).
  - apply session_reachable.
  - vm_compute. reflexivity.
  - discriminate.
  - assert (X : match hrx_buffer_get_device_ptr BUF 300 (world_of session) with
      | Done r _ => r = 0 | _ => False end) by (vm_compute; reflexivity).
    rewrite E in X. subst r. exists w1. split; [exact E|]. apply Hok. reflexivity.
Defined.

Lemma transfers_stay_in_bounds_witness :
  exists r w', hrx_synchronous_h2d DEV 500 BUF 200 100 (world_of session) = Done r w'
    /\ fails_with (code_i32 OutOfRange) (world_of session) w' r /\ libc_only (world_of session) w'.
Proof.
  refine (proj1 (proj1 (transfers_stay_in_bounds (world_of session) DEV 4 (device_now (world_of session))
    BUF 1 (buffer_now (world_of session)) 500 200 100 session_reachable _ _ _ _ _ _) _));
    vm_compute; first [reflexivity|discriminate].
Defined.

Lemma transfer_bound_wraps_witness :
  hrx_synchronous_h2d DEV 500 BUF (2 ^ 64 - 1) 2 (world_of session)
  = (s ← call (ffi_status (iree_hal_device_transfer_h2d (dev_hal_device (device_now (world_of session)))
                            500 (buf_hal_buffer (buffer_now (world_of session))) (2 ^ 64 - 1) 2));
     hrx_status_from_iree s) (world_of session).
Proof.
  apply (transfer_bound_wraps (world_of session) DEV 4 (device_now (world_of session)) BUF 1
           (buffer_now (world_of session)) 500 (2 ^ 64 - 1) 2).
  - apply session_reachable.
  - vm_compute. reflexivity.
  - vm_compute. reflexivity.
  - discriminate.
  - unfold U64_MAX. lia.
  - unfold U64_MAX. lia.
  - lia.
  - vm_compute. discriminate.
Defined.
