(* ===== verification/StatusTheorems.v ===== *)
(** * Statuses: life cycle and conversion

    An error made by libhrx can be read back and leaves nothing behind when it is
    dropped; converting an IREE error to an hrx status and back keeps the text,
    and the code as far as the table of common.rs goes. *)

From S2P Require Import Prelude Iree Objects Machine Handle Status IreeHal Device Semaphore Buffer HostAllocator Executable BufferView ValueList Modules QueueOps Stream Pool StreamAlloc Runtime Lifecycle Scenario Ownership StreamTimeline BufferTheorems.

(** Two blocks added at new addresses and freed again. *)
Lemma delete_fresh2 {V} (m : gmap Z V) s q a b c :
  m !! s = None -> m !! q = None ->
  delete s (delete q (<[s := a]> (<[q := b]> (<[s := c]> m)))) = m.
Proof.
  intros Hs Hq. apply map_eq. intros i. destruct (decide (i = s)) as [->|Hi].
  { by rewrite lookup_delete_eq. }
  rewrite lookup_delete_ne by done. destruct (decide (i = q)) as [->|Hi2].
  { by rewrite lookup_delete_eq. }
  by rewrite lookup_delete_ne, !lookup_insert_ne.
Qed.

Lemma delete_fresh1 {V} (m : gmap Z V) s a c :
  m !! s = None -> delete s (<[s := a]> (<[s := c]> m)) = m.
Proof.
  intros Hs. apply map_eq. intros i. destruct (decide (i = s)) as [->|Hi].
  - by rewrite lookup_delete_eq.
  - by rewrite lookup_delete_ne, !lookup_insert_ne.
Qed.

Section Exact.
Context `{IREE, !LibcAlloc}.

(** The world after [hrx_make_status] with an error code. *)
Definition made (code : Z) (msg : option string) (w : world) : world :=
  let s := w_next w in
  let m := s + BLOCK in
  match msg with
  | None =>
      World m (w_heap w) (<[s := CStatus code null]> (<[s := CStatus code null]> (w_cheap w)))
        (w_mem w) (w_pools w) (w_glob w) (Ev (libc_malloc_succeeds 16) true :: w_trace w)
  | Some text =>
      World (m + BLOCK) (w_heap w)
        (<[s := CStatus code m]> (<[m := CString text]> (<[s := CStatus code null]> (w_cheap w))))
        (w_mem w) (w_pools w) (w_glob w)
        (Ev (libc_malloc_succeeds (Z.of_nat (String.length text) + 1)) true
         :: Ev (libc_malloc_succeeds 16) true :: w_trace w)
  end.

Lemma make_status_exact code msg w :
  code <> 0 -> hrx_make_status code msg w = Done (w_next w) (made code msg w).
Proof.
  intros Hc. unfold hrx_make_status, HRX_STATUS_OK. rewrite (proj2 (Z.eqb_neq code 0) Hc).
  unfold mbind, M_bind, call, libc_strdup. rewrite libc_alloc_succeeds. simpl.
  destruct msg as [text|]; simpl.
  - unfold mbind, M_bind, call. rewrite libc_alloc_succeeds. simpl. unfold c_store. simpl.
    rewrite lookup_insert_ne, lookup_insert_eq by (unfold BLOCK; lia). done.
  - unfold c_store. simpl. by rewrite lookup_insert_eq.
Qed.

(** The message pointer of a made status. *)
Definition message_of (msg : option string) (w : world) : ptr :=
  match msg with None => 0 | Some _ => w_next w + BLOCK end.

Lemma made_payload code msg w : w_cheap (made code msg w) !! w_next w = Some (CStatus code (message_of msg w)).
Proof. destruct msg; simpl; by rewrite lookup_insert_eq. Qed.

Lemma made_message code text w :
  w_cheap (made code (Some text) w) !! (w_next w + BLOCK) = Some (CString text).
Proof. simpl. rewrite lookup_insert_ne, lookup_insert_eq by (unfold BLOCK; lia). done. Qed.

(** Freeing message and payload restores the libc heap. *)
Lemma made_freed code msg w w1 :
  wf w -> w_cheap w1 = w_cheap (made code msg w) ->
  (libc_free (message_of msg w) ;; libc_free (w_next w)) w1 = Done tt (set_cheap w1 (w_cheap w)).
Proof.
  intros Hwf Hw1. assert (w_cheap w !! (w_next w) = None) as Hn1 by (apply (wf_cheap_fresh _ Hwf); lia).
  assert (w_cheap w !! (w_next w + BLOCK) = None) as Hn2
    by (apply (wf_cheap_fresh _ Hwf); unfold BLOCK; lia).
  pose proof (wf_next _ Hwf). assert (is_null (w_next w) = false) as Hs by (apply is_null_false; lia).
  unfold mbind, M_bind, libc_free. rewrite Hs. destruct msg as [text|]; simpl.
  - assert (is_null (w_next w + BLOCK) = false) as -> by (apply is_null_false; unfold BLOCK; lia).
    rewrite Hw1, made_message. simpl.
    rewrite lookup_delete_ne, lookup_insert_eq by (unfold BLOCK; lia).
    unfold set_cheap. simpl. by rewrite delete_fresh2.
  - rewrite Hw1. simpl. rewrite lookup_insert_eq. by rewrite delete_fresh1.
Qed.

Lemma drop_made code msg w :
  wf w -> hrx_status_ignore (w_next w) (made code msg w)
          = Done tt (set_cheap (made code msg w) (w_cheap w)).
Proof.
  intros Hwf. unfold hrx_status_ignore, hrx_status_is_ok. pose proof (wf_next _ Hwf).
  rewrite (proj2 (is_null_false (w_next w))) by lia.
  erewrite bind_Done; [|unfold c_load; by rewrite made_payload].
  by apply (made_freed code).
Qed.

Lemma strdup_exact s w :
  libc_strdup s w = Done (w_next w)
    (World (w_next w + BLOCK) (w_heap w) (<[w_next w := CString s]> (w_cheap w)) (w_mem w) (w_pools w)
       (w_glob w) (Ev (libc_malloc_succeeds (Z.of_nat (String.length s) + 1)) true :: w_trace w)).
Proof. unfold libc_strdup, mbind, M_bind, call. by rewrite libc_alloc_succeeds. Qed.

(** The text of a made status. *)
Definition text_of (msg : option string) : string :=
  match msg with None => "(no message)"%string | Some t => t end.

Lemma made_text code msg w :
  wf w -> (if is_null (message_of msg w) then mret "(no message)"%string else c_string (message_of msg w))
            (made code msg w) = Done (text_of msg) (made code msg w).
Proof.
  intros Hwf. pose proof (wf_next _ Hwf). destruct msg as [t|]; [|done].
  unfold message_of. rewrite (proj2 (is_null_false _)) by (unfold BLOCK; lia).
  unfold c_string, mbind, M_bind, c_load. by rewrite made_message.
Qed.
End Exact.

Section Theorems.
Context `{IREE, !LibcAlloc}.

(** C16: An error status can be read back and leaves nothing behind: its code is
    the one it was made with, its message reads back as a fresh copy of the text
    (or "(no message)") with its length, and ignoring it frees payload and
    message, so that the libc heap is what it was. *)
Theorem status_life_cycle w code msg out len :
  wf w -> code <> 0 -> out <> 0 -> len <> 0 -> out <> len ->
  exists r w1, hrx_make_status code msg w = Done r w1 /\ hrx_status_is_ok r = false
    /\ hrx_status_code r w1 = Done code w1
    /\ (exists m w2, hrx_status_to_string r out len w1 = Done 0 w2
          /\ w_mem w2 !! out = Some m /\ w_cheap w1 !! m = None
          /\ w_cheap w2 !! m = Some (CString (text_of msg))
          /\ w_mem w2 !! len = Some (Z.of_nat (String.length (text_of msg))))
    /\ (exists w3, hrx_status_ignore r w1 = Done tt w3 /\ w_cheap w3 = w_cheap w
          /\ w_heap w3 = w_heap w /\ w_mem w3 = w_mem w).
Proof.
  intros Hwf Hc Ho Hl Hne. pose proof (wf_next _ Hwf).
  assert (is_null (w_next w) = false) as Hn by (apply is_null_false; lia).
  exists (w_next w), (made code msg w). split; [by apply make_status_exact|]. split; [done|].
  assert (c_load (w_next w) (made code msg w) = Done (CStatus code (message_of msg w)) (made code msg w)) as Hld.
  { unfold c_load. by rewrite made_payload. }
  split. { unfold hrx_status_code, hrx_status_is_ok. rewrite Hn. by rewrite (bind_Done _ _ _ _ _ Hld). }
  split; [|eexists; split; [by apply drop_made|by destruct msg]].
  unfold hrx_status_to_string, hrx_status_is_ok. rewrite Hn, (proj2 (is_null_false out) Ho).
  rewrite (bind_Done _ _ _ _ _ Hld), (bind_Done _ _ _ _ _ (made_text code msg w Hwf)).
  rewrite (bind_Done _ _ _ _ _ (strdup_exact _ _)), (bind_Done _ _ _ _ _ (write_out_at _ _ _ Ho)).
  rewrite (proj2 (is_null_false len) Hl). simpl. rewrite (bind_Done _ _ _ _ _ (write_out_at _ _ _ Hl)).
  eexists _, _. split; [done|]. simpl.
  rewrite (lookup_insert_ne _ len out) by done. rewrite !lookup_insert_eq. split; [done|]. split; [|done].
  destruct msg as [t|]; simpl; unfold BLOCK; rewrite !lookup_insert_ne by lia; apply (wf_cheap_fresh _ Hwf); lia.
Qed.

(** What IREE's formatting of status [s] gives as the message. *)
Definition formatted (w : world) (s : Z) : option string :=
  let '(ok, msg, text) := iree_respond (w_trace w) (iree_status_to_string s) in
  if ok : bool then (if is_null msg then None else Some text)
  else Some "IREE error (could not format message)"%string.

Lemma code_table c :
  hrx_code_from_iree c = if existsb (Z.eqb c) [3; 4; 5; 6; 8; 11; 12; 14] then c else 13.
Proof.
  simpl. repeat match goal with |- context [c =? ?k] => destruct (Z.eqb_spec c k); [by subst|] end.
  unfold hrx_code_from_iree. simpl. repeat case_match; done.
Qed.

(** The status made from an IREE error, and the world it was made in. *)
Lemma from_iree_made s w r w1 :
  wf w -> s <> 0 -> hrx_status_from_iree s w = Done r w1 ->
  exists w0, wf w0 /\ w_cheap w0 = w_cheap w /\ w_heap w0 = w_heap w /\ r = w_next w0
    /\ w_cheap w1 = w_cheap (made (hrx_code_from_iree (status_code s)) (formatted w s) w0).
Proof.
  intros Hwf Hs E. unfold hrx_status_from_iree, status_is_ok in E.
  rewrite (proj2 (is_null_false s) Hs) in E. unfold formatted.
  apply bind_inv in E as ([[ok msg] text] & wa & Ea & E). inversion Ea as [[Hr Hwa]]. rewrite Hr.
  assert (wf wa) as Hwfa by (subst wa; by apply wf_trace). destruct ok; simpl in E.
  - rewrite (bind_Done _ _ _ _ _ (make_status_exact _ _ wa (hrx_code_from_iree_nonzero _))) in E.
    apply bind_inv in E as (u & w3 & E3 & E). inversion E3; subst w3.
    apply bind_inv in E as (u' & w4 & E4 & E). inversion E4; subst w4. inversion E; subst r w1.
    exists wa. split; [done|]. by subst wa.
  - apply bind_inv in E as (u & wb & Eb & E). inversion Eb as [[Hu Hwb]].
    rewrite make_status_exact in E by apply hrx_code_from_iree_nonzero. injection E as <- <-.
    exists wb. split; [subst wb; by apply wf_trace|]. subst wb. by subst wa.
Qed.

Lemma to_iree_made code msg w0 w1 :
  wf w0 -> w_cheap w1 = w_cheap (made code msg w0) ->
  exists s' w2, hrx_status_to_iree (w_next w0) w1 = Done s' w2
    /\ w_cheap w2 = w_cheap w0 /\ w_heap w2 = w_heap w1
    /\ w_trace w2 = Ev (iree_status_allocate_f code (text_of msg)) s' :: w_trace w1.
Proof.
  intros Hwf Hc. pose proof (wf_next _ Hwf). unfold hrx_status_to_iree, hrx_status_is_ok.
  rewrite (proj2 (is_null_false (w_next w0))) by lia.
  erewrite bind_Done; [|unfold c_load; by rewrite Hc, made_payload]. cbv beta iota zeta.
  assert ((if code =? code_i32 OutOfMemory then 8 else code) = code) as ->.
  { simpl. by destruct (Z.eqb_spec code 8). }
  assert ((if is_null (message_of msg w0) then mret "(no message)"%string
           else c_string (message_of msg w0)) w1 = Done (text_of msg) w1) as Ht.
  { destruct msg as [t|]; [|done]. unfold message_of.
    rewrite (proj2 (is_null_false _)) by (unfold BLOCK; lia).
    unfold c_string, mbind, M_bind, c_load. by rewrite Hc, made_message. }
  rewrite (bind_Done _ _ _ _ _ Ht). erewrite (bind_Done (call _)); [|done].
  set (w2 := set_trace w1 _).
  pose proof (made_freed code msg w0 w2 Hwf Hc) as Hfree.
  apply bind_inv in Hfree as ([] & w3 & E3 & E4).
  rewrite (bind_Done _ _ _ _ _ E3), (bind_Done _ _ _ _ _ E4).
  eexists _, _. split; [done|]. done.
Qed.

(** C17: Converting an IREE error to an hrx status and back consumes the former,
    leaves the libc heap as it was, and makes a new IREE error with the text IREE
    gave for the old one, whose code is the old code for INVALID_ARGUMENT,
    DEADLINE_EXCEEDED, NOT_FOUND, ALREADY_EXISTS, RESOURCE_EXHAUSTED,
    OUT_OF_RANGE, UNIMPLEMENTED and UNAVAILABLE, and INTERNAL for all others. *)
Theorem iree_status_round_trip w s :
  wf w -> s <> 0 ->
  exists r w1 s' w2, hrx_status_from_iree s w = Done r w1 /\ hrx_status_to_iree r w1 = Done s' w2
    /\ w_cheap w2 = w_cheap w /\ w_heap w2 = w_heap w
    /\ w_trace w2 = Ev (iree_status_allocate_f
                          (if existsb (Z.eqb (status_code s)) [3; 4; 5; 6; 8; 11; 12; 14]
                           then status_code s else 13) (text_of (formatted w s))) s' :: w_trace w1
    /\ (forall p, refs (w_trace w1) p = refs (w_trace w) p - cnt s p).
Proof.
  intros Hwf Hs.
  pose proof (hrx_status_from_iree_spec s w Hwf) as (r & w1 & E & (HS & Hfr & _) & _)%wp_Done.
  destruct (from_iree_made s w r w1 Hwf Hs E) as (w0 & Hw0 & Hc0 & Hh0 & -> & Hc1).
  assert (forall p, refs (w_trace w1) p = refs (w_trace w) p - cnt s p) as Hrefs.
  { intros p. pose proof (eff_imb _ _ _ _ (safe_eff _ _ _ _ HS) p) as Hi.
    destruct Hfr as (Hh & _ & Hp & Hg). unfold imb, owned in Hi. rewrite Hh, Hp, Hg in Hi. lia. }
  destruct (to_iree_made (hrx_code_from_iree (status_code s)) (formatted w s) w0 w1 Hw0 Hc1) as (s' & w2 & E2 & Hc2 & Hh2 & Ht2).
  exists (w_next w0), w1, s', w2. split; [done|]. split; [done|].
  split; [congruence|]. split; [rewrite Hh2; apply Hfr|]. split; [|done]. rewrite Ht2.
  by rewrite code_table.
Qed.
End Theorems.

Section OutOfMemory.
Context `{IREE}.

(** When libc cannot allocate the payload, an error is reported as OK: the
    status of every error path is null, which [hrx_status_is_ok] accepts. *)
Theorem out_of_memory_reports_ok w code msg :
  iree_respond (w_trace w) (libc_malloc_succeeds 16) = false ->
  exists w', hrx_make_status code msg w = Done 0 w' /\ hrx_status_is_ok 0 = true.
Proof.
  intros Hm. unfold hrx_make_status. destruct (code =? HRX_STATUS_OK); [by eexists|].
  unfold mbind, M_bind, call. rewrite Hm. by eexists.
Qed.
End OutOfMemory.

(** ** Witnesses *)

Lemma status_life_cycle_witness :
  exists r w1, hrx_make_status 9 (Some "busy"%string) (world_of session) = Done r w1
    /\ hrx_status_is_ok r = false
    /\ hrx_status_code r w1 = Done 9 w1
    /\ (exists m w2, hrx_status_to_string r 300 308 w1 = Done 0 w2
          /\ w_mem w2 !! 300 = Some m /\ w_cheap w1 !! m = None
          /\ w_cheap w2 !! m = Some (CString "busy"%string) /\ w_mem w2 !! 308 = Some 4)
    /\ (exists w3, hrx_status_ignore r w1 = Done tt w3 /\ w_cheap w3 = w_cheap (world_of session)
          /\ w_heap w3 = w_heap (world_of session) /\ w_mem w3 = w_mem (world_of session)).
Proof.
  apply (status_life_cycle (world_of session) 9 (Some "busy"%string) 300 308); try discriminate.
  apply (reachable_inv _ session_reachable).
Defined.

Lemma iree_status_round_trip_witness :
  exists r w1 s' w2, hrx_status_from_iree 4105 (world_of session) = Done r w1
    /\ hrx_status_to_iree r w1 = Done s' w2
    /\ w_cheap w2 = w_cheap (world_of session) /\ w_heap w2 = w_heap (world_of session)
    /\ w_trace w2 = Ev (iree_status_allocate_f 13 "error"%string) s' :: w_trace w1
    /\ (forall p, refs (w_trace w1) p = refs (w_trace (world_of session)) p - cnt 4105 p).
Proof.
  assert (4105 <> 0) as Hs by discriminate.
  exact (iree_status_round_trip (world_of session) 4105 (inv_wf _ (reachable_inv _ session_reachable)) Hs).
Defined.

(** The concrete environment with an exhausted libc heap. *)
Definition exhausted : IREE := fun A tr c =>
  match c in ffi A return A -> A with
  | libc_malloc_succeeds _ => fun _ => false
  | _ => fun r => r
  end (mock_respond A tr c).

Lemma out_of_memory_reports_ok_witness :
  exists w', @hrx_make_status exhausted (code_i32 NotFound) None world_initial = Done 0 w'
    /\ hrx_status_is_ok 0 = true.
Proof. apply (@out_of_memory_reports_ok exhausted world_initial). reflexivity. Defined.
