(* ===== verification/QueueTheorems.v ===== *)
(** * Queue operations: semaphore lists and host calls

    How the lists of a client reach IREE, where a list is too long for the stack
    arrays, and what becomes of the thunk of a host call. *)

From S2P Require Import Prelude Iree Objects Machine Handle Status IreeHal Device Semaphore Buffer HostAllocator Executable BufferView ValueList Modules QueueOps Stream Pool StreamAlloc Runtime Lifecycle Scenario Ownership StreamTimeline BufferTheorems StatusTheorems.

Section Lists.
Context `{IREE}.

Lemma device_deref_at w d n dev : w_heap w !! d = Some (n, ODevice dev) -> device_deref d w = Done dev w.
Proof. intros E. unfold device_deref, handle_ref. by rewrite E. Qed.

Lemma to_iree_sem_list_overflow w l ps :
  l <> 0 -> sem_list_at w l ps -> (HRX_MAX_QUEUE_SEMAPHORES < length ps)%nat ->
  to_iree_sem_list l w = Undefined.
Proof.
  intros Hl (Hn & sems & vals & Hs & Hv & Hps) Hlen. unfold to_iree_sem_list.
  rewrite (proj2 (is_null_false l) Hl), (bind_Done _ _ _ _ _ (read_in_word _ _ _ Hn)).
  destruct (Z.eqb_spec (Z.of_nat (length ps)) 0); [unfold HRX_MAX_QUEUE_SEMAPHORES in *; lia|].
  rewrite (bind_Done _ _ _ _ _ (read_in_word _ _ _ Hs)), (bind_Done _ _ _ _ _ (read_in_word _ _ _ Hv)).
  rewrite Nat2Z.id. apply sem_list_loop_overflow; [done|lia].
Qed.

(** The entries a client passes: none for a null list, those of the structure else. *)
Definition client_list (w : world) (l : ptr) (ps : list (ptr * Z)) : Prop :=
  (l = 0 /\ ps = []) \/ (l <> 0 /\ sem_list_at w l ps).

Lemma client_list_ext w w' l ps :
  w_heap w' = w_heap w -> w_mem w' = w_mem w -> client_list w l ps -> client_list w' l ps.
Proof. intros Hh Hm. unfold client_list, sem_list_at, usable. by rewrite Hh, Hm. Qed.

Lemma hal_entries_ext w w' ps : w_heap w' = w_heap w -> hal_entries w' ps = hal_entries w ps.
Proof. intros Hh. unfold hal_entries. by rewrite Hh. Qed.

Definition fits (ps : list (ptr * Z)) : bool := (length ps <=? HRX_MAX_QUEUE_SEMAPHORES)%nat.

(** A list is converted entry by entry, unless it is too long for the stack arrays. *)
Lemma to_iree_sem_list_client w l ps :
  client_list w l ps ->
  to_iree_sem_list l w = if fits ps then Done (hal_entries w ps) w else Undefined.
Proof.
  intros [[-> ->]|[Hl Hps]]; [done|]. unfold fits.
  destruct (Nat.leb_spec (length ps) HRX_MAX_QUEUE_SEMAPHORES).
  - by apply to_iree_sem_list_entries.
  - by eapply to_iree_sem_list_overflow.
Qed.

(** C19: A queue barrier hands IREE exactly the client's semaphore lists, null ones
    included: the native semaphore and payload value of each entry, in order, on the
    requested queues (all of them for affinity 0), and answers IREE's status, as long as
    neither list has more than 16 entries.  The lists are copied into stack arrays of 16
    entries without a check, so that a well-formed list of more than 16 semaphores makes
    the barrier write past them, which is undefined behaviour. *)
Theorem queue_barrier_passes_the_lists w d n dev aff wl ps sl qs :
  wf w -> w_heap w !! d = Some (n, ODevice dev) ->
  client_list w wl ps -> client_list w sl qs ->
  hrx_queue_barrier d aff wl sl w
  = if fits ps && fits qs
    then (s ← call (ffi_status (iree_hal_device_queue_barrier (dev_hal_device dev)
                                 (if aff =? 0 then IREE_HAL_QUEUE_AFFINITY_ANY else aff)
                                 (hal_entries w ps) (hal_entries w qs)));
          hrx_status_from_iree s) w
    else Undefined.
Proof.
  intros Hwf Hd Hps%to_iree_sem_list_client Hqs%to_iree_sem_list_client. unfold hrx_queue_barrier.
  assert (d <> 0) as Hdn by (intros ->; by rewrite (wf_heap_low _ Hwf 0) in Hd by lia).
  rewrite (proj2 (is_null_false d) Hdn). destruct (fits ps); cbn [andb].
  - rewrite (bind_Done _ _ _ _ _ Hps). destruct (fits qs).
    + rewrite (bind_Done _ _ _ _ _ Hqs). by rewrite (bind_Done _ _ _ _ _ (device_deref_at w d n dev Hd)).
    + unfold mbind at 1, M_bind at 1. by rewrite Hqs.
  - unfold mbind at 1, M_bind at 1. by rewrite Hps.
Qed.
End Lists.

(** ** Host calls *)

Section HostCalls.
Context `{IREE, !LibcAlloc}.

(** A world that differs in the libc heap only by what is added or removed. *)
Lemma c_alloc_at b w :
  c_alloc b w = Done (w_next w)
    (set_cheap (set_next w (w_next w + BLOCK)) (<[w_next w := b]> (w_cheap w))).
Proof. done. Qed.

Lemma libc_free_at p b w :
  p <> 0 -> w_cheap w !! p = Some b -> libc_free p w = Done tt (set_cheap w (delete p (w_cheap w))).
Proof. intros Hp Hb. unfold libc_free. by rewrite (proj2 (is_null_false p) Hp), Hb. Qed.

(** A call of a client's callback. *)
Definition is_callback (e : event) : bool :=
  match e with Ev c _ => match c with host_callback _ _ => true | _ => false end end.

(** The status IREE receives for the callback's answer. *)
Definition callback_text (answer : option (Z * option string)) : option (Z * string) :=
  match answer with
  | Some (code, msg) => if code =? 0 then None else Some (code, text_of msg)
  | None => None
  end.

Lemma made_delete w thunk code msg :
  thunk < w_next w ->
  w_cheap (made code msg (set_cheap w (delete thunk (w_cheap w))))
  = delete thunk (w_cheap (made code msg w)).
Proof.
  intros Hlt. destruct msg; simpl; unfold BLOCK; by rewrite !delete_insert_ne by lia.
Qed.

(** The error path: make the status, free the thunk, convert the status. *)
Lemma trampoline_error w thunk cb ud code msg :
  wf w -> w_cheap w !! thunk = Some (CThunk cb ud) -> thunk <> 0 -> thunk < w_next w ->
  exists s w', (libc_free thunk ;; hrx_status_to_iree (w_next w)) (made code msg w) = Done s w'
    /\ w_cheap w' = delete thunk (w_cheap w) /\ w_heap w' = w_heap w
    /\ exists l, w_trace w' = Ev (iree_status_allocate_f code (text_of msg)) s :: l ++ w_trace w
         /\ Forall (fun e => is_callback e = false) l.
Proof.
  intros Hwf Hth Hnz Hlt.
  assert (w_cheap (made code msg w) !! thunk = Some (CThunk cb ud)) as Hm.
  { destruct msg; simpl; unfold BLOCK; by rewrite !lookup_insert_ne by lia. }
  rewrite (bind_Done _ _ _ _ _ (libc_free_at _ _ _ Hnz Hm)). set (w1 := set_cheap (made code msg w) _).
  set (w0 := set_cheap w (delete thunk (w_cheap w))).
  assert (wf w0) as Hwf0.
  { pose proof (libc_free_spec thunk w Hwf (or_intror (mk_is_Some _ _ Hth))) as Hs.
    unfold wp in Hs. rewrite (libc_free_at _ _ w Hnz Hth) in Hs. apply Hs. }
  destruct (to_iree_made code msg w0 w1 Hwf0) as (s & w2 & E & Hc & Hh & Ht).
  { unfold w0. by rewrite made_delete. }
  exists s, w2. split; [done|]. split; [done|]. split; [rewrite Hh; by destruct msg|].
  rewrite Ht. destruct msg as [t|]; simpl.
  - eexists [_; _]. split; [done|]. by repeat constructor.
  - eexists [_]. split; [done|]. by repeat constructor.
Qed.

(** When the device runs a host call, the trampoline calls the client's
    callback once with its data, frees the thunk whatever the callback answers,
    leaves no other change in the libc heap, and passes an error answer on as an
    IREE error with the same code and message. *)
Lemma trampoline_frees_the_thunk w thunk cb ud :
  wf w -> w_cheap w !! thunk = Some (CThunk cb ud) -> thunk <> 0 -> cb <> 0 ->
  exists s w' answer l, host_call_trampoline thunk w = Done s w'
    /\ w_cheap w' = delete thunk (w_cheap w) /\ w_heap w' = w_heap w
    /\ w_trace w' = l ++ Ev (host_callback cb ud) answer :: w_trace w
    /\ Forall (fun e => is_callback e = false) l
    /\ match callback_text answer with
       | None => s = 0
       | Some (code, text) => exists l', l = Ev (iree_status_allocate_f code text) s :: l'
       end.
Proof.
  intros Hwf Hth Hnz Hcb. pose proof (wf_next _ Hwf) as Hnext.
  unfold host_call_trampoline. erewrite (bind_Done (c_load thunk)); [|unfold c_load; by rewrite Hth].
  cbv beta iota. erewrite (bind_Done (expect _ _)).
  2:{ unfold nonnull_new. rewrite (proj2 (is_null_false cb) Hcb). done. }
  erewrite (bind_Done (call _)); [|done]. set (answer := iree_respond _ _). set (w1 := set_trace w _).
  assert (wf w1) as Hwf1 by (by apply wf_trace).
  assert (thunk < w_next w) as Hold.
  { destruct (decide (w_next w <= thunk)) as [Hge|]; [|lia]. by rewrite (wf_cheap_fresh _ Hwf _ Hge) in Hth. }
  assert (forall w2, w_cheap w2 = w_cheap w -> w_heap w2 = w_heap w ->
    (libc_free thunk ;; hrx_status_to_iree hrx_ok_status) w2
    = Done 0 (set_cheap w2 (delete thunk (w_cheap w2)))) as Hok.
  { intros w2 Hc2 _. assert (w_cheap w2 !! thunk = Some (CThunk cb ud)) as Ht2 by (by rewrite Hc2).
    by rewrite (bind_Done _ _ _ _ _ (libc_free_at thunk _ w2 Hnz Ht2)). }
  destruct answer as [[code msg]|] eqn:Ea.
  2:{ erewrite (bind_Done (mret _)); [|done]. rewrite Hok by done.
      eexists 0, _, answer, []. split; [done|]. rewrite Ea. by repeat split. }
  destruct (Z.eq_dec code 0) as [->|Hcode].
  { erewrite (bind_Done (hrx_make_status 0 msg)); [|done]. rewrite Hok by done.
    eexists 0, _, answer, []. split; [done|]. rewrite Ea. by repeat split. }
  rewrite (bind_Done _ _ _ _ _ (make_status_exact code msg w1 Hcode)).
  destruct (trampoline_error w1 thunk cb ud code msg) as (s & w' & E & Hc & Hh & l' & Hl' & Hnc); try done.
  rewrite E. exists s, w', answer, (Ev (iree_status_allocate_f code (text_of msg)) s :: l'). rewrite Ea.
  split; [done|]. split; [done|]. split; [done|]. split; [by rewrite Hl'|]. split; [by constructor|].
  simpl. rewrite (proj2 (Z.eqb_neq code 0) Hcode). by exists l'.
Qed.

(** What becomes of the thunk when the device runs the call. *)
Definition thunk_is_consumed (thunk cb ud : ptr) : Prop :=
  forall w, wf w -> w_cheap w !! thunk = Some (CThunk cb ud) ->
  exists s w' answer l, host_call_trampoline thunk w = Done s w'
    /\ w_cheap w' = delete thunk (w_cheap w) /\ w_heap w' = w_heap w
    /\ w_trace w' = l ++ Ev (host_callback cb ud) answer :: w_trace w
    /\ Forall (fun e => is_callback e = false) l
    /\ match callback_text answer with
       | None => s = 0
       | Some (code, text) => exists l', l = Ev (iree_status_allocate_f code text) s :: l'
       end.

(** C21: The thunk of a host call, with whatever semaphore lists of at most 16 entries
    (null ones included), is freed exactly once, by whoever owns it.  One fresh thunk that
    holds callback and data is passed to IREE with the client's lists and queues.  If IREE
    takes the call it owns the thunk, which is all that was added to the libc heap, and
    when the device runs it the trampoline calls the callback once with its data, frees
    the thunk whatever the callback answers, changes nothing else in the libc heap, and
    passes an error answer on as an IREE error with the same code and message; if IREE
    refuses, the thunk is freed at once. *)
Theorem host_call_hands_over_one_thunk w d n dev aff wl ps sl qs cb ud :
  wf w -> w_heap w !! d = Some (n, ODevice dev) -> cb <> 0 ->
  client_list w wl ps -> fits ps = true -> client_list w sl qs -> fits qs = true ->
  exists r w' thunk s l, hrx_queue_host_call d aff wl sl cb ud w = Done r w'
    /\ w_cheap w !! thunk = None
    /\ w_trace w' = l ++ Ev (ffi_status (iree_hal_device_queue_host_call (dev_hal_device dev)
                               (normalize_affinity aff) (hal_entries w ps) (hal_entries w qs) thunk)) s
                      :: Ev (libc_malloc_succeeds 16) true :: w_trace w
    /\ (s = 0 -> r = 0 /\ l = [] /\ w_cheap w' = <[thunk := CThunk cb ud]> (w_cheap w)
                 /\ thunk_is_consumed thunk cb ud)
    /\ (s <> 0 -> valid_status w' r (hrx_code_from_iree (status_code s)) /\ w_cheap w' !! thunk = None).
Proof.
  intros Hwf Hd Hcb Hps Hfp Hqs Hfq. pose proof (wf_next _ Hwf) as Hnext.
  assert (d <> 0) as Hdn by (intros ->; by rewrite (wf_heap_low _ Hwf 0) in Hd by lia).
  unfold hrx_queue_host_call. rewrite (proj2 (is_null_false d) Hdn), (proj2 (is_null_false cb) Hcb).
  cbn [orb]. erewrite (bind_Done (call _)); [|done]. rewrite libc_alloc_succeeds. cbn [negb].
  set (w1 := set_trace w _). rewrite (bind_Done _ _ _ _ _ (c_alloc_at _ w1)).
  set (w2 := set_cheap _ _).
  pose proof (to_iree_sem_list_client w2 wl ps (client_list_ext w w2 _ _ eq_refl eq_refl Hps)) as E1.
  pose proof (to_iree_sem_list_client w2 sl qs (client_list_ext w w2 _ _ eq_refl eq_refl Hqs)) as E2.
  rewrite Hfp in E1. rewrite Hfq in E2. rewrite (hal_entries_ext w w2) in E1, E2 by done.
  rewrite (bind_Done _ _ _ _ _ E1), (bind_Done _ _ _ _ _ E2). clear E1 E2.
  erewrite (bind_Done (device_deref d)); [|by apply (device_deref_at w2 d n)].
  erewrite (bind_Done (call _)); [|done]. set (c := ffi_status _). set (w3 := set_trace w2 _).
  set (s := iree_respond (w_trace w2) c).
  assert (w_cheap w !! w_next w = None) as Hfresh by (apply (wf_cheap_fresh _ Hwf); lia).
  assert (wf w3) as Hwf3.
  { apply wf_trace. pose proof (c_alloc_spec (CThunk cb ud) w1 (wf_trace _ _ Hwf)) as Hs.
    unfold wp in Hs. rewrite c_alloc_at in Hs. apply Hs. }
  unfold status_is_ok. destruct (is_null s) eqn:Es; bool_to_prop; cbn [negb].
  - rewrite (bind_Done (mret tt : M unit) _ w3 tt w3 eq_refl).
    exists 0, w3, (w_next w), s, []. rewrite Es at 1. split; [done|]. split; [done|]. split; [done|].
    split; [|done]. intros _. split; [done|]. split; [done|]. split; [done|]. intros wd Hwd Hthd.
    apply trampoline_frees_the_thunk; [done|done|lia|done].
  - assert (w_cheap w3 !! w_next w = Some (CThunk cb ud)) as Hth by (simpl; by rewrite lookup_insert_eq).
    assert (w_next w <> 0) as Hnz by lia.
    rewrite (bind_Done _ _ _ _ _ (libc_free_at _ _ w3 Hnz Hth)). set (w4 := set_cheap w3 _).
    assert (wf w4) as Hwf4.
    { pose proof (libc_free_spec (w_next w) w3 Hwf3 (or_intror (mk_is_Some _ _ Hth))) as Hs.
      unfold wp in Hs. rewrite (libc_free_at _ _ w3 Hnz Hth) in Hs. apply Hs. }
    pose proof (hrx_status_from_iree_spec s w4 Hwf4) as (r & w' & E & (_ & _ & _ & Hold) & _ & Hr0 & Hr)%wp_Done.
    destruct (from_iree_extends _ _ _ _ E) as (l & Hl & _).
    exists r, w', (w_next w), s, l. split; [done|]. split; [done|]. split; [done|]. split; [done|].
    intros _. split.
    + destruct Hr as [->|[_ Hv]]; [by destruct (Hr0 _ Es)|done].
    + rewrite Hold by (simpl; unfold BLOCK; lia). simpl. apply lookup_delete_eq.
Qed.
End HostCalls.

(** ** Witnesses *)

(** A list of [n] entries (SEM, 7) in client memory: the structure at [base], the
    arrays 1000 and 2000 bytes behind it. *)
Definition list_mem (base : ptr) (n : nat) : list (Z * Z) :=
  [(base, base + 1000); (base + 8, base + 2000); (base + 16, Z.of_nat n)]
  ++ ((fun i => (base + 1000 + 8 * Z.of_nat i, SEM)) <$> seq 0 n)
  ++ ((fun i => (base + 2000 + 8 * Z.of_nat i, 7)) <$> seq 0 n).

Definition listed (n : nat) : world :=
  set_mem (world_of session) (list_to_map (list_mem 10000 n) ∪ w_mem (world_of session)).

Lemma listed_wf n : wf (listed n).
Proof. apply (safe_wf _ _ _ _ (safe_set_mem _ _ (inv_wf _ (reachable_inv _ session_reachable)))). Qed.

Ltac list_now :=
  split; [vm_compute; reflexivity|]; exists 11000, 12000;
  split; [vm_compute; reflexivity|]; split; [vm_compute; reflexivity|];
  let i := fresh in let s := fresh in let v := fresh in let Hi := fresh in
  intros i s v Hi;
  repeat (destruct i as [|i];
    [simpl in Hi; injection Hi as <- <-;
     split; [vm_compute; reflexivity|]; split; [vm_compute; reflexivity|];
     eexists _, _; split; [vm_compute; reflexivity|reflexivity]|]);
  discriminate Hi.

Lemma queue_barrier_passes_the_lists_witness :
  hrx_queue_barrier DEV 0 10000 0 (listed 2)
  = (s ← call (ffi_status (iree_hal_device_queue_barrier (dev_hal_device (device_now (listed 2)))
                            IREE_HAL_QUEUE_AFFINITY_ANY
                            (hal_entries (listed 2) [(SEM, 7); (SEM, 7)]) []));
     hrx_status_from_iree s) (listed 2)
  /\ hrx_queue_barrier DEV 0 10000 0 (listed 17) = Undefined.
Proof.
  split.
  - apply (queue_barrier_passes_the_lists (listed 2) DEV 4 (device_now (listed 2)) 0 10000
             [(SEM, 7); (SEM, 7)] 0 []).
    + apply listed_wf.
    + vm_compute. reflexivity.
    + right. split; [discriminate|]. list_now.
    + left. split; reflexivity.
  - apply (queue_barrier_passes_the_lists (listed 17) DEV 4 (device_now (listed 17)) 0 10000
             (replicate 17 (SEM, 7)) 0 []).
    + apply listed_wf.
    + vm_compute. reflexivity.
    + right. split; [discriminate|]. list_now.
    + left. split; reflexivity.
Defined.

Lemma host_call_hands_over_one_thunk_witness :
  exists r w' thunk s l, hrx_queue_host_call DEV 1 10000 0 77 88 (listed 2) = Done r w'
    /\ w_cheap (listed 2) !! thunk = None
    /\ w_trace w' = l ++ Ev (ffi_status (iree_hal_device_queue_host_call
                               (dev_hal_device (device_now (listed 2)))
                               (normalize_affinity 1) (hal_entries (listed 2) [(SEM, 7); (SEM, 7)]) [] thunk)) s
                      :: Ev (libc_malloc_succeeds 16) true :: w_trace (listed 2)
    /\ (s = 0 -> r = 0 /\ l = []
        /\ w_cheap w' = <[thunk := CThunk 77 88]> (w_cheap (listed 2)) /\ thunk_is_consumed thunk 77 88)
    /\ (s <> 0 -> valid_status w' r (hrx_code_from_iree (status_code s)) /\ w_cheap w' !! thunk = None).
Proof.
  apply (host_call_hands_over_one_thunk (listed 2) DEV 4 (device_now (listed 2)) 1 10000
           [(SEM, 7); (SEM, 7)] 0 [] 77 88).
  - apply listed_wf.
  - vm_compute. reflexivity.
  - discriminate.
  - right. split; [discriminate|]. list_now.
  - reflexivity.
  - left. split; reflexivity.
  - reflexivity.
Defined.

(** The session with a host call queued; its thunk is the next block. *)
Definition calling : list api := session ++ [QueueHostCall DEV 1 0 0 77 88].

(** The thunk of that call, run by the device. *)
Example calling_thunk_runs :
  match host_call_trampoline (at_block 5) (world_of calling) with
  | Done s w' => s = 0 /\ w_cheap w' !! at_block 5 = None
  | _ => False
  end.
Proof. vm_compute. split; reflexivity. Qed.
