(* ===== verification/RuntimeTheorems.v ===== *)
(** * The runtime: initialization, shutdown and device queries *)

From S2P Require Import Prelude Iree Objects Machine Handle Status IreeHal Device Semaphore Buffer HostAllocator Executable BufferView ValueList Modules QueueOps Stream Pool StreamAlloc Runtime Lifecycle Scenario Ownership StreamTimeline BufferTheorems.

Section Runtime.
Context `{IREE, !IreeCreates, !LibcAlloc, !IreeDeviceAllocator}.

(** The accelerators that are up. *)
Definition accelerators_up (g : Globals) : Z :=
  (if ac_initialized (g_cpu g) then 1 else 0) + (if ac_initialized (g_gpu g) then 1 else 0).

Lemma accelerators_up_users g : accelerators_up g = accel_users g.
Proof. unfold accelerators_up, accel_users, b2z. by destruct (ac_initialized _), (ac_initialized _). Qed.

(** C23: In every reachable state the init count of the shared infrastructure is
    the number of accelerators that are up; VM instance and proactor pool exist
    exactly while it is positive; an accelerator's device count is the length of
    its device vector, at most [HRX_MAX_DEVICES], all of its devices are alive,
    and one that is down has neither devices nor a driver. *)
Theorem shared_state_lives_with_accelerators w :
  reachable w ->
  let s := g_shared (w_glob w) in
  let n := accelerators_up (w_glob w) in
  (0 < n -> sh_initialized s = true /\ sh_init_count s = n
            /\ sh_vm_instance s <> 0 /\ sh_proactor_pool s <> 0) /\
  (n = 0 -> sh_initialized s = false /\ sh_vm_instance s = 0 /\ sh_proactor_pool s = 0) /\
  (forall a, a = g_cpu (w_glob w) \/ a = g_gpu (w_glob w) ->
     ac_device_count a = Z.of_nat (length (ac_devices a))
     /\ (length (ac_devices a) <= HRX_MAX_DEVICES)%nat
     /\ (forall d, d ∈ ac_devices a -> usable w KDevice d)
     /\ (ac_initialized a = false -> ac_devices a = [] /\ ac_driver a = 0)).
Proof.
  intros [Hwf (Hsh & Hcpu & Hgpu)]%reachable_inv. simpl. rewrite accelerators_up_users.
  destruct Hsh as (Hi & Hpos & Hzero). split; [|split].
  - intros Hn. rewrite Hi, (proj2 (Z.ltb_lt _ _) Hn). by destruct (Hpos Hn) as (? & ? & ?).
  - intros Hn. rewrite Hi, Hn. destruct Hzero as [? ?]; [lia|]. done.
  - intros a Ha. destruct Ha as [->| ->].
    + destruct Hcpu as (? & ? & ?). split; [done|]. split; [done|]. split; [|done].
      intros d Hd. apply (wf_globals _ Hwf). by left.
    + destruct Hgpu as (? & ? & ?). split; [done|]. split; [done|]. split; [|done].
      intros d Hd. apply (wf_globals _ Hwf). by right.
Qed.

(** C24: Initialization is all or nothing: whatever step fails, an initialize
    call that answers an error leaves both accelerators as they were, and with
    them the init count; one that answers OK has brought its accelerator up and
    left the other alone; in both cases the client holds what it held before. *)
Theorem initialize_is_all_or_nothing w flags :
  reachable w ->
  (exists r w', hrx_cpu_initialize flags w = Done r w'
     /\ g_gpu (w_glob w') = g_gpu (w_glob w) /\ (forall h, ext w' h = ext w h)
     /\ (r = 0 -> ac_initialized (g_cpu (w_glob w')) = true)
     /\ (r <> 0 -> g_cpu (w_glob w') = g_cpu (w_glob w)
                   /\ sh_initialized (g_shared (w_glob w')) = sh_initialized (g_shared (w_glob w))
                   /\ (0 < accelerators_up (w_glob w) ->
                       sh_init_count (g_shared (w_glob w')) = sh_init_count (g_shared (w_glob w))))) /\
  (exists r w', hrx_gpu_initialize flags w = Done r w'
     /\ g_cpu (w_glob w') = g_cpu (w_glob w) /\ (forall h, ext w' h = ext w h)
     /\ (r = 0 -> ac_initialized (g_gpu (w_glob w')) = true)
     /\ (r <> 0 -> g_gpu (w_glob w') = g_gpu (w_glob w)
                   /\ sh_initialized (g_shared (w_glob w')) = sh_initialized (g_shared (w_glob w))
                   /\ (0 < accelerators_up (w_glob w) ->
                       sh_init_count (g_shared (w_glob w')) = sh_init_count (g_shared (w_glob w))))).
Proof.
  intros [Hwf Hinv]%reachable_inv.
  assert (forall g', runtime_inv g' -> g_cpu g' = g_cpu (w_glob w) -> g_gpu g' = g_gpu (w_glob w) ->
    sh_initialized (g_shared g') = sh_initialized (g_shared (w_glob w))
    /\ (0 < accelerators_up (w_glob w) ->
        sh_init_count (g_shared g') = sh_init_count (g_shared (w_glob w)))) as Hsame.
  { intros g' ((Hi' & Hp' & _) & _) Hc Hg. destruct Hinv as ((Hi & Hp & _) & _).
    assert (accel_users g' = accel_users (w_glob w)) as Hu by (unfold accel_users; by rewrite Hc, Hg).
    rewrite accelerators_up_users, Hi', Hi, Hu in *. split; [done|]. intros Hn.
    destruct (Hp' Hn) as [-> _]. by destruct (Hp Hn) as [-> _]. }
  split.
  - pose proof (hrx_cpu_initialize_spec w flags Hwf Hinv) as (r & w' & E & HS & _ & Hr & Hup & Hdown & Hother)%wp_Done.
    exists r, w'. split; [done|]. split; [done|]. split.
    { intros h. rewrite (eff_ext _ _ _ _ (safe_eff _ _ _ _ HS)). unfold none. lia. }
    split; [done|]. intros Hne. split; [by apply Hdown|]. apply Hsame; [done|by apply Hdown|done].
  - pose proof (hrx_gpu_initialize_spec w flags Hwf Hinv) as (r & w' & E & (_ & HE & _ & Hr) & Hup & Hdown & Hother)%wp_Done.
    exists r, w'. split; [done|]. split; [done|]. split.
    { intros h. rewrite (eff_ext _ _ _ _ HE). unfold none. lia. }
    split; [done|]. intros Hne. split; [by apply Hdown|]. apply Hsame; [done|done|by apply Hdown].
Qed.

(** What a device query for index [i] answers when [a] is the accelerator's state. *)
Definition device_answer (a : AccelState) (w : world) (i : Z) (out r : ptr) (w' : world) : Prop :=
  if is_null out then fails_with (code_i32 InvalidArgument) w w' r /\ libc_only w w'
  else if negb (ac_initialized a) then fails_with (code_i32 Unavailable) w w' r /\ libc_only w w'
  else if (0 <=? i) && (i <? ac_device_count a) then
    r = 0 /\ exists d, ac_devices a !! Z.to_nat i = Some d
      /\ w' = set_mem w (<[out := d]> (w_mem w)) /\ usable w' KDevice d
  else fails_with (code_i32 OutOfRange) w w' r /\ libc_only w w'.

Lemma accel_device_get_answers slot `{!SlotLaws slot} down range w i out :
  wf w -> runtime_inv (w_glob w) ->
  exists r w', accel_device_get slot down range i out w = Done r w'
    /\ device_answer (acc slot (w_glob w)) w i out r w'.
Proof.
  intros Hwf Hinv. unfold accel_device_get, device_answer.
  destruct (is_null out) eqn:Hout; [by apply make_status_fails|]. bool_to_prop.
  rewrite (bind_Done get_globals _ w (w_glob w) w eq_refl).
  destruct (ac_initialized (acc slot (w_glob w))); simpl; [|by apply make_status_fails].
  apply (slot_inv (slot:=slot)) in Hinv as (_ & (Hcount & _) & _).
  destruct (Z.ltb_spec i 0); [rewrite (proj2 (Z.leb_gt 0 i)) by done; by apply make_status_fails|].
  rewrite (proj2 (Z.leb_le 0 i)) by done. simpl.
  destruct (Z.leb_spec (ac_device_count (acc slot (w_glob w))) i).
  { rewrite (proj2 (Z.ltb_ge i _)) by done. by apply make_status_fails. }
  rewrite (proj2 (Z.ltb_lt i _)) by done.
  destruct (ac_devices (acc slot (w_glob w)) !! Z.to_nat i) as [d|] eqn:Hd.
  2:{ apply lookup_ge_None in Hd. lia. }
  simpl. rewrite (bind_Done (mret d : M ptr) _ w d w eq_refl).
  rewrite (bind_Done _ _ _ _ _ (write_out_at _ _ _ Hout)).
  eexists _, _. split; [done|]. split; [done|]. exists d. split; [done|]. split; [done|].
  apply (usable_heap w); [done|]. apply (wf_globals _ Hwf), (slot_devices (slot:=slot)). left.
  by eapply list_elem_of_lookup_2.
Qed.

(** C25: The device queries of both accelerators, hrx_cpu_device_get and
    hrx_gpu_device_get, answer INVALID_ARGUMENT for a null out-parameter, UNAVAILABLE
    while their accelerator is down and OUT_OF_RANGE for an index that is negative or not
    below its device count, each time without writing memory or calling IREE; for every
    other index they store that device, which is alive, and change nothing else. The
    vector access never panics. *)
Theorem device_get_covers_every_index w i out :
  reachable w ->
  (exists r w', hrx_cpu_device_get i out w = Done r w'
     /\ device_answer (g_cpu (w_glob w)) w i out r w')
  /\ (exists r w', hrx_gpu_device_get i out w = Done r w'
     /\ device_answer (g_gpu (w_glob w)) w i out r w').
Proof.
  intros [Hwf Hinv]%reachable_inv. split.
  - by apply (accel_device_get_answers cpu_slot).
  - by apply (accel_device_get_answers gpu_slot).
Qed.
End Runtime.

(** ** Device strings *)

(** The bytes of a C string in memory: up to [fuel] of them before the NUL. *)
Fixpoint read_cstr (m : gmap Z Z) (p : ptr) (fuel : nat) : option (list Z) :=
  match fuel with
  | O => None
  | S fuel =>
      match m !! p with
      | None => None
      | Some c => if c =? 0 then Some [] else cons c <$> read_cstr m (p + 1) fuel
      end
  end.

(** The characters of a fixed-size array before its terminator. *)
Definition chars (arr : list Z) : list Z := take (Z.to_nat (cstr_len arr)) arr.

Lemma read_cstr_chars m arr : forall p fuel,
  cstr_ok arr -> (Z.to_nat (cstr_len arr) < fuel)%nat ->
  (forall i b, (i <= Z.to_nat (cstr_len arr))%nat -> arr !! i = Some b -> m !! (p + Z.of_nat i) = Some b) ->
  read_cstr m p fuel = Some (chars arr).
Proof.
  unfold cstr_ok, chars. induction arr as [|c arr IH]; intros p fuel Hok Hf Hm; [simpl in Hok; lia|].
  destruct fuel as [|fuel]; [lia|]. cbn [read_cstr].
  specialize (Hm 0%nat c) as Hc. rewrite Z.add_0_r in Hc. rewrite Hc by (simpl; lia || done).
  cbn [cstr_len length] in *. destruct (c =? 0) eqn:Ec; [done|]. pose proof (cstr_len_nonneg arr).
  rewrite IH; [|lia|lia|].
  - simpl. replace (Z.to_nat (1 + cstr_len arr)) with (S (Z.to_nat (cstr_len arr))) by lia. done.
  - intros i b Hi Hb. replace (p + 1 + Z.of_nat i) with (p + Z.of_nat (S i)) by lia.
    apply Hm; [lia|done].
Qed.

Lemma cstr_len_clean l k :
  Forall (fun c => c <> 0) l -> (0 < k)%nat -> cstr_len (l ++ replicate k 0) = Z.of_nat (length l).
Proof.
  induction 1 as [|c l Hc _ IH]; intros Hk; [by destruct k; [lia|]|].
  simpl. rewrite (proj2 (Z.eqb_neq c 0) Hc), IH by done. lia.
Qed.

Section Strings.
Context `{IREE, !IreeCreates, !LibcAlloc, !IreeDeviceAllocator}.

(** A fixed-size string array of size [N] always ends in a NUL and holds the
    first [N - 1] bytes of a NUL-free string, so that a string shorter than the
    array reads back unchanged. *)
Theorem cstr_array_keeps_a_prefix N bytes :
  (0 < N)%nat -> Forall (fun b => 0 < b < 256) bytes ->
  length (cstr_array_bytes N bytes) = N
  /\ cstr_array_bytes N bytes !! (N - 1)%nat = Some 0
  /\ chars (cstr_array_bytes N bytes) = as_c_char <$> take (N - 1) bytes
  /\ ((length bytes < N)%nat ->
      (fun c => c mod 256) <$> chars (cstr_array_bytes N bytes) = bytes).
Proof.
  intros HN Hb. assert (take (Nat.min (length bytes) (N - 1)) bytes = take (N - 1) bytes) as Ht.
  { destruct (Nat.min_spec (length bytes) (N - 1)) as [[Hl ->]|[_ ->]]; [|done].
    by rewrite !take_ge by lia. }
  assert (chars (cstr_array_bytes N bytes) = as_c_char <$> take (N - 1) bytes) as Hc.
  { unfold chars, cstr_array_bytes. rewrite Ht, cstr_len_clean.
    - rewrite Nat2Z.id. by rewrite take_app_length.
    - apply Forall_fmap, Forall_take. eapply Forall_impl; [exact Hb|]. intros b Hx. simpl in Hx |- *.
      unfold as_c_char. destruct (128 <=? b) eqn:E; bool_to_prop; lia.
    - lia. }
  split; [by apply cstr_array_bytes_length|]. split; [|split; [done|]].
  - unfold cstr_array_bytes. rewrite Ht, lookup_app_r, lookup_replicate.
    + split; [done|]. rewrite length_fmap, length_take. lia.
    + rewrite length_fmap, length_take. lia.
  - intros Hl. rewrite Hc, take_ge by lia. rewrite <- list_fmap_compose.
    rewrite <- (list_fmap_id bytes) at 2. apply list_fmap_ext. intros i b Hi. simpl.
    pose proof (proj1 (Forall_lookup _ _) Hb i b Hi) as Hx. simpl in Hx. unfold as_c_char.
    destruct (128 <=? b) eqn:E; [|by rewrite Z.mod_small by lia].
    symmetry. apply (Z.mod_unique _ _ (-1)); lia.
Qed.

Definition device_string (prop : Z) (dev : HrxDeviceS) : list Z :=
  if prop =? HRX_DEVICE_PROPERTY_NAME then dev_name dev else dev_architecture dev.

(** C27: Reading the name or the architecture of a device into a buffer of
    [size] bytes writes exactly the C string, terminator included, and nothing
    outside the buffer; if it does not fit the answer is OUT_OF_RANGE and the
    buffer is untouched. *)
Theorem device_string_fits_or_fails w d n dev prop value size :
  reachable w -> w_heap w !! d = Some (n, ODevice dev) -> 0 < value ->
  prop = HRX_DEVICE_PROPERTY_NAME \/ prop = HRX_DEVICE_PROPERTY_ARCHITECTURE ->
  exists r w', hrx_device_get_property d prop value size w = Done r w' /\
    if size <? cstr_len (device_string prop dev) + 1
    then fails_with (code_i32 OutOfRange) w w' r
    else r = 0
      /\ read_cstr (w_mem w') value (S (length (device_string prop dev))) = Some (chars (device_string prop dev))
      /\ forall a, a < value \/ value + size <= a -> w_mem w' !! a = w_mem w !! a.
Proof.
  intros [Hwf _]%reachable_inv Hd Hval Hprop.
  destruct (wf_self _ Hwf _ _ _ Hd) as (_ & Hname & Harch).
  assert (cstr_ok (device_string prop dev)) as Hok by (unfold device_string; by destruct (prop =? _)).
  assert (d <> 0) as Hdn by (intros ->; by rewrite (wf_heap_low _ Hwf 0) in Hd by lia).
  assert (device_deref d w = Done dev w) as Hdd by (unfold device_deref, handle_ref; by rewrite Hd).
  assert (hrx_device_get_property d prop value size w
    = (if size <? cstr_len (device_string prop dev) + 1
       then hrx_make_status (code_i32 OutOfRange)
              (Some (if prop =? HRX_DEVICE_PROPERTY_NAME then "buffer too small for device name"%string
                     else "buffer too small for architecture string"%string))
       else copy_array (device_string prop dev) value (cstr_len (device_string prop dev) + 1) ;;
            mret hrx_ok_status) w) as ->.
  { unfold hrx_device_get_property, device_string.
    rewrite (proj2 (is_null_false d) Hdn), (proj2 (is_null_false value)) by lia. simpl.
    rewrite (bind_Done _ _ _ _ _ Hdd). by destruct Hprop as [->| ->]. }
  set (arr := device_string prop dev) in *. unfold cstr_ok in Hok.
  destruct (Z.ltb_spec size (cstr_len arr + 1)) as [Hlt|Hge].
  { destruct (make_status_fails (code_i32 OutOfRange) (Some (if prop =? HRX_DEVICE_PROPERTY_NAME
      then "buffer too small for device name"%string else "buffer too small for architecture string"%string))
      w Hwf) as (r & w' & E & Hf & _); [done|]. eauto. }
  unfold copy_array. rewrite (proj2 (Z.ltb_ge _ _)) by lia.
  pose proof (write_bytes_spec (take (Z.to_nat (cstr_len arr + 1)) arr) w value Hwf Hval)
    as ([] & w' & E & _ & Hin & Hout & _)%wp_Done.
  rewrite (bind_Done _ _ _ _ _ E). eexists _, _. split; [done|]. split; [done|].
  pose proof (cstr_len_nonneg arr). split.
  - apply read_cstr_chars; [done|lia|]. intros i b Hi Hb. apply Hin. rewrite lookup_take_lt; [done|lia].
  - intros a Ha. apply Hout. rewrite length_take. lia.
Qed.
End Strings.

(** ** Witnesses *)

Lemma shared_state_lives_with_accelerators_witness :
  let w := world_of session in
  let s := g_shared (w_glob w) in
  let n := accelerators_up (w_glob w) in
  (0 < n -> sh_initialized s = true /\ sh_init_count s = n
            /\ sh_vm_instance s <> 0 /\ sh_proactor_pool s <> 0) /\
  (n = 0 -> sh_initialized s = false /\ sh_vm_instance s = 0 /\ sh_proactor_pool s = 0) /\
  (forall a, a = g_cpu (w_glob w) \/ a = g_gpu (w_glob w) ->
     ac_device_count a = Z.of_nat (length (ac_devices a))
     /\ (length (ac_devices a) <= HRX_MAX_DEVICES)%nat
     /\ (forall d, d ∈ ac_devices a -> usable w KDevice d)
     /\ (ac_initialized a = false -> ac_devices a = [] /\ ac_driver a = 0)).
Proof. apply shared_state_lives_with_accelerators, session_reachable. Defined.

Lemma initialize_is_all_or_nothing_witness :
  exists r w', hrx_gpu_initialize 0 (world_of session) = Done r w'
    /\ g_cpu (w_glob w') = g_cpu (w_glob (world_of session))
    /\ (forall h, ext w' h = ext (world_of session) h)
    /\ (r = 0 -> ac_initialized (g_gpu (w_glob w')) = true)
    /\ (r <> 0 -> g_gpu (w_glob w') = g_gpu (w_glob (world_of session))
         /\ sh_initialized (g_shared (w_glob w')) = sh_initialized (g_shared (w_glob (world_of session)))
         /\ (0 < accelerators_up (w_glob (world_of session)) ->
             sh_init_count (g_shared (w_glob w')) = sh_init_count (g_shared (w_glob (world_of session))))).
Proof. exact (proj2 (initialize_is_all_or_nothing (world_of session) 0 session_reachable)). Defined.

(** The session with the GPU accelerator up as well. *)
Definition both_up : list api := session ++ [GpuInitialize 0].

Lemma both_up_reachable : reachable (world_of both_up).
Proof. apply (play_reachable both_up); [legal_now|vm_compute; reflexivity]. Qed.

(** The two answers of an accelerator that is up. *)
Lemma device_answer_out_of_range a w i out r w' :
  device_answer a w i out r w' -> is_null out = false -> ac_initialized a = true ->
  (0 <=? i) && (i <? ac_device_count a) = false ->
  fails_with (code_i32 OutOfRange) w w' r /\ libc_only w w'.
Proof. unfold device_answer. intros H H1 H2 H3. rewrite H1, H2, H3 in H. exact H. Qed.

Lemma device_answer_found a w i out r w' :
  device_answer a w i out r w' -> is_null out = false -> ac_initialized a = true ->
  (0 <=? i) && (i <? ac_device_count a) = true ->
  r = 0 /\ exists d, ac_devices a !! Z.to_nat i = Some d
    /\ w' = set_mem w (<[out := d]> (w_mem w)) /\ usable w' KDevice d.
Proof. unfold device_answer. intros H H1 H2 H3. rewrite H1, H2, H3 in H. exact H. Qed.

Lemma device_get_covers_every_index_witness :
  (exists r w', hrx_cpu_device_get 1 300 (world_of both_up) = Done r w'
    /\ fails_with (code_i32 OutOfRange) (world_of both_up) w' r /\ libc_only (world_of both_up) w')
  /\ exists r w', hrx_gpu_device_get 0 300 (world_of both_up) = Done r w'
    /\ r = 0 /\ exists d, ac_devices (g_gpu (w_glob (world_of both_up))) !! 0%nat = Some d
    /\ w' = set_mem (world_of both_up) (<[300 := d]> (w_mem (world_of both_up))) /\ usable w' KDevice d.
Proof.
  split.
  - destruct (device_get_covers_every_index (world_of both_up) 1 300 both_up_reachable)
      as [(r & w' & E & Ha) _].
    exists r, w'. split; [exact E|].
    apply (device_answer_out_of_range _ _ _ _ _ _ Ha); vm_compute; reflexivity.
  - destruct (device_get_covers_every_index (world_of both_up) 0 300 both_up_reachable)
      as [_ (r & w' & E & Ha)].
    exists r, w'. split; [exact E|].
    apply (device_answer_found _ _ _ _ _ _ Ha); vm_compute; reflexivity.
Defined.

Lemma cstr_array_keeps_a_prefix_witness :
  chars (cstr_array_bytes 4 [72; 105; 33; 63; 63]) = [72; 105; 33].
Proof.
  refine (proj1 (proj2 (proj2 (cstr_array_keeps_a_prefix 4 [72; 105; 33; 63; 63] _ _)))); [lia|].
  repeat constructor; lia.
Defined.

Lemma device_string_fits_or_fails_witness :
  exists r w', hrx_device_get_property DEV HRX_DEVICE_PROPERTY_ARCHITECTURE 300 5 (world_of session) = Done r w'
    /\ r = 0
    /\ read_cstr (w_mem w') 300 65 = Some [104; 111; 115; 116]
    /\ forall a, a < 300 \/ 300 + 5 <= a -> w_mem w' !! a = w_mem (world_of session) !! a.
Proof.
  assert (w_heap (world_of session) !! DEV = Some (4, ODevice (device_now (world_of session)))) as Hd
    by (vm_compute; reflexivity).
  assert (0 < 300) as Hv by lia.
  exact (device_string_fits_or_fails (world_of session) DEV 4 (device_now (world_of session))
    HRX_DEVICE_PROPERTY_ARCHITECTURE 300 5 session_reachable Hd Hv (or_intror eq_refl)).
Defined.
