(* ===== verification/DataTheorems.v ===== *)
(** * Values, references, shapes, timeouts and reservations

    What crosses the boundary as data: 64-bit values and references pushed into
    value lists, shape vectors, timeouts and the buffers behind pool reservations. *)

From S2P Require Import Prelude Iree Objects Machine Handle Status IreeHal Device Semaphore Buffer HostAllocator Executable BufferView ValueList Modules QueueOps Stream Pool StreamAlloc Runtime Lifecycle Scenario Ownership StreamTimeline BufferTheorems.

Section Values.
Context `{IREE}.

Lemma value_list_vm_at w l n v :
  w_heap w !! l = Some (n, OValueList v) -> value_list_vm l w = Done (vl_vm_list v) w.
Proof. intros E. unfold value_list_vm, mbind, M_bind, handle_ref. by rewrite E. Qed.

(** C28: A 64-bit value survives the VM list: a push hands IREE its 8 bytes, and
    if IREE later answers a read of an entry with the bytes that the push of [v] handed
    over, the read stores [v], sign included.  (That IREE does answer the bytes that were
    pushed is its own behaviour and a condition here.) *)
Theorem value_list_i64_round_trip w l n vl v :
  wf w -> w_heap w !! l = Some (n, OValueList vl) -> I64_MIN <= v <= I64_MAX ->
  exists bytes, length bytes = 8%nat /\ Forall (fun b => 0 <= b <= 255) bytes
    /\ hrx_value_list_push_i64 l v w
       = (s ← call (ffi_status (iree_vm_list_push_value (vl_vm_list vl) IREE_VM_VALUE_TYPE_I64 bytes));
          hrx_status_from_iree s) w
    /\ forall w1 i out, w_heap w1 !! l = Some (n, OValueList vl) -> out <> 0 ->
       iree_respond (w_trace w1) (iree_vm_list_get_value_as (vl_vm_list vl) i IREE_VM_VALUE_TYPE_I64)
         = (0, bytes) ->
       exists w2, hrx_value_list_get_i64 l i out w1 = Done 0 w2 /\ w_mem w2 = <[out := v]> (w_mem w1).
Proof.
  intros Hwf Hl Hv. exists (to_ne_bytes v). split; [done|]. split; [apply to_ne_bytes_bytes|].
  assert (l <> 0) as Hln by (intros ->; by rewrite (wf_heap_low _ Hwf 0) in Hl by lia).
  split.
  - unfold hrx_value_list_push_i64. rewrite (proj2 (is_null_false l) Hln).
    by rewrite (bind_Done _ _ _ _ _ (value_list_vm_at w l n vl Hl)).
  - intros w1 i out Hl1 Hout Hr. unfold hrx_value_list_get_i64.
    rewrite (proj2 (is_null_false l) Hln), (proj2 (is_null_false out) Hout). simpl.
    rewrite (bind_Done _ _ _ _ _ (value_list_vm_at w1 l n vl Hl1)).
    erewrite (bind_Done (call _)); [|unfold call; by rewrite Hr]. simpl.
    rewrite (bind_Done _ _ _ _ _ (write_out_at _ _ _ Hout)).
    eexists. split; [done|]. simpl. unfold as_i64. simpl. by rewrite ne_bytes_roundtrip.
Qed.

End Values.

(** ** Pushing references *)

(** The three reference pushes of value_list.rs, the handles they take and the IREE
    objects they retain. *)
Inductive ref_push := PushBuffer | PushBufferView | PushFence.

Definition push_kind (P : ref_push) : kind :=
  match P with PushBuffer => KBuffer | PushBufferView => KBufferView | PushFence => KFence end.

Definition push_class (P : ref_push) : rkind :=
  match P with
  | PushBuffer => iree_hal_buffer
  | PushBufferView => iree_hal_buffer_view
  | PushFence => iree_hal_fence
  end.

Section Pushes.
Context `{IREE, !LibcAlloc}.

Definition push_fn (P : ref_push) : ptr -> ptr -> M ptr :=
  match P with
  | PushBuffer => hrx_value_list_push_buffer
  | PushBufferView => hrx_value_list_push_buffer_view
  | PushFence => hrx_value_list_push_fence
  end.

(** What a push does with arguments that are not null. *)
Lemma push_fn_steps P w l n vl h m o :
  wf w -> w_heap w !! l = Some (n, OValueList vl) -> w_heap w !! h = Some (m, o) -> okind o = push_kind P ->
  push_fn P l h w
  = (call (ffi_retain (push_class P) (hal_ref w h)) ;;
     s ← call (ffi_status (iree_vm_list_push_ref_move (vl_vm_list vl) (hal_ref w h)));
     hrx_status_from_iree s) w.
Proof.
  intros Hwf Hl Hh Hk.
  assert (l <> 0) as Hln by (intros ->; by rewrite (wf_heap_low _ Hwf 0) in Hl by lia).
  assert (h <> 0) as Hhn by (intros ->; by rewrite (wf_heap_low _ Hwf 0) in Hh by lia).
  rewrite (hal_ref_at w h m o Hh).
  destruct P, o; try discriminate Hk; simpl push_fn;
    unfold hrx_value_list_push_buffer, hrx_value_list_push_buffer_view, hrx_value_list_push_fence,
      buffer_hal, buffer_ref, buffer_view_hal_ptr, fence_hal_ptr, value_list_vm, mbind, M_bind, handle_ref;
    rewrite (proj2 (is_null_false l) Hln), (proj2 (is_null_false h) Hhn); simpl; rewrite Hh; simpl; by rewrite Hl.
Qed.

(** C15: A reference push (hrx_value_list_push_buffer, _buffer_view, _fence) retains one
    reference of the object behind the handle and offers it to the VM list.  If IREE
    takes it, the push answers OK and every reference is still owned by the list, an
    object or the client; if IREE refuses, the push answers IREE's error and exactly that
    one reference is left over with no owner: the code does not give it back.  The
    objects and client memory are untouched either way.  A null list or handle answers
    INVALID_ARGUMENT without calling IREE. *)
Theorem reference_push_moves_or_strands P w :
  wf w ->
  (forall l h, is_null l || is_null h = true ->
     exists r w', push_fn P l h w = Done r w'
       /\ fails_with (code_i32 InvalidArgument) w w' r /\ libc_only w w')
  /\ forall l n vl h m o,
     w_heap w !! l = Some (n, OValueList vl) -> w_heap w !! h = Some (m, o) -> okind o = push_kind P ->
     let retained := Ev (ffi_retain (push_class P) (hal_ref w h)) tt in
     let offer := ffi_status (iree_vm_list_push_ref_move (vl_vm_list vl) (hal_ref w h)) in
     let s := iree_respond (retained :: w_trace w) offer in
     exists r w' tr, push_fn P l h w = Done r w'
       /\ w_heap w' = w_heap w /\ w_mem w' = w_mem w
       /\ w_trace w' = tr ++ [Ev offer s; retained] ++ w_trace w
       /\ (s = 0 -> r = 0 /\ tr = [] /\ forall p, imb w' p = imb w p)
       /\ (s <> 0 -> valid_status w' r (hrx_code_from_iree (status_code s))
                     /\ forall p, imb w' p = imb w p + cnt (hal_ref w h) p).
Proof.
  intros Hwf. split.
  { intros l h Hn. destruct P; simpl push_fn;
      unfold hrx_value_list_push_buffer, hrx_value_list_push_buffer_view, hrx_value_list_push_fence;
      rewrite Hn; by apply make_status_fails. }
  intros l n vl h m o Hl Hh Hk retained offer s. rewrite (push_fn_steps P w l n vl h m o Hwf Hl Hh Hk).
  set (ref := hal_ref w h) in *. set (w1 := set_trace w (retained :: w_trace w)).
  assert (call (ffi_retain (push_class P) ref) w = Done tt w1) as E1.
  { unfold call, w1, retained. by destruct (iree_respond (w_trace w) (ffi_retain (push_class P) ref)). }
  rewrite (bind_Done _ _ _ _ _ E1). set (w2 := set_trace w1 (Ev offer s :: w_trace w1)).
  rewrite (bind_Done (call offer) _ w1 s w2 eq_refl).
  assert (wf w2) as Hwf2 by (by do 2 apply wf_trace).
  assert (forall p, imb w2 p = imb w p + cnt ref p - ok_cnt s ref p + cnt s p) as Himb.
  { intros p. unfold imb, owned. simpl. lia. }
  destruct (decide (s = 0)) as [Hs|Hs].
  - exists 0, w2, []. rewrite Hs at 1. split; [done|]. split; [done|]. split; [done|].
    split; [done|]. split; [|done]. intros _. split; [done|]. split; [done|]. intros p. rewrite Himb, Hs.
    unfold ok_cnt, status_is_ok. simpl. rewrite cnt_null. lia.
  - pose proof (hrx_status_from_iree_spec s w2 Hwf2) as (r & w' & E & _ & _ & Hr0 & Hr)%wp_Done.
    pose proof (from_iree_safe s w2 Hwf2) as Hsafe. unfold wp in Hsafe. rewrite E in Hsafe.
    destruct Hsafe as (HS & Hfr & _). destruct (from_iree_extends _ _ _ _ E) as (tr & Ht & _).
    exists r, w', tr. split; [done|]. split; [by destruct Hfr as (-> & _)|].
    split; [by destruct Hfr as (_ & -> & _)|]. split; [by rewrite Ht|]. split; [done|]. intros _. split.
    + destruct Hr as [->|[_ Hv]]; [by destruct (Hr0 _ Hs)|done].
    + intros p. rewrite (eff_imb _ _ _ _ (safe_eff _ _ _ _ HS)), Himb.
      unfold ok_cnt, status_is_ok. rewrite (proj2 (is_null_false s) Hs). lia.
Qed.
End Pushes.

(** ** Shapes *)

Lemma shape_value_unsigned vs :
  Forall (fun v => v <= I64_MAX) vs ->
  shape_value vs = if forallb (fun v => 0 <=? v) vs then Some vs else None.
Proof.
  induction 1 as [|v vs Hv _ IH]; [done|]. simpl. rewrite IH.
  destruct (Z.ltb_spec v 0); [by rewrite (proj2 (Z.leb_gt 0 v)) by lia|].
  rewrite (proj2 (Z.leb_le 0 v)) by lia. simpl. destruct (forallb _ vs); [|done]. simpl.
  unfold wrap_u64, I64_MAX in *. by rewrite Z.mod_small by lia.
Qed.

Section Views.
Context `{IREE, !IreeCreates, !LibcAlloc, !IreeDeviceAllocator}.

(** C30: A buffer view is created with exactly the client's dimensions, for every
    rank: whether they are copied to the stack (up to 8) or to the heap, IREE
    receives them in order; a negative dimension anywhere answers
    INVALID_ARGUMENT, with a null view and without calling IREE. *)
Theorem view_shape_is_passed_on w b nb buf shape vs et enc out :
  reachable w -> w_heap w !! b = Some (nb, OBuffer buf) -> shape <> 0 -> out <> 0 ->
  words (set_mem w (<[out := 0]> (w_mem w))) shape vs -> Forall (fun v => v <= I64_MAX) vs ->
  exists r w', hrx_buffer_view_create b (length vs) shape et enc out w = Done r w' /\
    if forallb (fun v => 0 <=? v) vs
    then exists created l, w_trace w' = l ++
           Ev (ffi_create (iree_hal_buffer_view_create (buf_hal_buffer buf) vs et enc)) created :: w_trace w
    else valid_status w' r (code_i32 InvalidArgument) /\ w_mem w' = <[out := 0]> (w_mem w)
         /\ w_heap w' = w_heap w /\ libc_only w w'.
Proof.
  intros [Hwf _]%reachable_inv Hb Hs Hout Hw Hv. pose proof (buffer_nonnull _ _ _ _ Hwf Hb) as Hbn.
  assert (nullable w KBuffer b) as Hnb by (right; by eexists _, _).
  pose proof (hrx_buffer_view_create_spec w b shape vs et enc out Hwf Hnb (fun _ => Hw))
    as (r & w' & E & _)%wp_Done.
  unfold hrx_buffer_view_create in *.
  rewrite (proj2 (is_null_false b) Hbn), (proj2 (is_null_false out) Hout), (proj2 (is_null_false shape) Hs) in *.
  simpl in *. rewrite andb_false_r, (bind_Done _ _ _ _ _ (write_out_at _ _ _ Hout)) in *.
  set (w1 := set_mem w _) in *.
  assert (wf w1) as Hwf1 by (apply (safe_wf _ _ _ _ (safe_set_mem w _ Hwf))).
  rewrite (bind_Done _ _ _ _ _ (convert_shape_spec w1 shape vs Hw)), (shape_value_unsigned vs Hv) in *.
  destruct (forallb _ vs).
  - exists r, w'. split; [done|]. erewrite (bind_Done (buffer_hal b)) in E.
    2:{ unfold buffer_hal. by rewrite (bind_Done _ _ _ _ _ (buffer_ref_at w1 b nb buf Hb)). }
    apply bind_inv in E as (x & w2 & E2 & E).
    assert (exists c, w_trace w2 = Ev (ffi_create (iree_hal_buffer_view_create (buf_hal_buffer buf) vs et enc)) c
                                   :: w_trace w) as (c & Hc).
    { unfold buffer_view_create, hal_create in E2. apply bind_inv in E2 as (y & w3 & E3 & E2).
      inversion E3; subst. destruct (status_is_ok _); [|inversion E2; by eexists].
      apply bind_inv in E2 as (z & w4 & E4 & E2). inversion E2; subst.
      unfold expect in E4. destruct (nonnull_new _); [|done]. inversion E4. by eexists. }
    destruct x as [s|hal].
    + apply from_iree_extends in E as (l & Hl & _). exists c, l. by rewrite Hl, Hc.
    + apply bind_inv in E as (h & w3 & E3 & E). inversion E3; subst.
      rewrite (bind_Done _ _ _ _ _ (write_out_at _ _ _ Hout)) in E. inversion E; subst. by exists c, [].
  - destruct (make_status_fails (code_i32 InvalidArgument)
      (Some "shape dimensions must be non-negative"%string) w1 Hwf1) as (r' & w2 & E2 & (Hv2 & Hh2 & Hm2 & _) & Hl);
      [done|]. exists r', w2. split; [done|]. split; [done|]. split; [by rewrite Hm2|]. split; [by rewrite Hh2|].
    exact Hl.
Qed.
End Views.

(** ** Timeouts *)

(** A wait of [u64::MAX] nanoseconds is infinite, one of 0 polls, and one of
    up to [i64::MAX] waits that long; but a finite wait beyond [i64::MAX] turns
    into a negative relative timeout, one that has already expired. *)
Theorem timeout_conversion ns :
  0 <= ns <= U64_MAX ->
  (ns = U64_MAX -> timeout_from_ns ns = Timeout IREE_TIMEOUT_ABSOLUTE I64_MAX)
  /\ (ns = 0 -> timeout_from_ns ns = Timeout IREE_TIMEOUT_ABSOLUTE I64_MIN)
  /\ (0 < ns <= I64_MAX -> timeout_from_ns ns = Timeout IREE_TIMEOUT_RELATIVE ns)
  /\ (I64_MAX < ns < U64_MAX -> timeout_from_ns ns = Timeout IREE_TIMEOUT_RELATIVE (ns - 2 ^ 64)
                                /\ t_nanos (timeout_from_ns ns) < 0).
Proof.
  intros Hns. unfold timeout_from_ns. split; [intros ->; done|]. split; [intros ->; done|].
  unfold U64_MAX, I64_MAX in *. split; intros H.
  - rewrite (proj2 (Z.eqb_neq ns _)), (proj2 (Z.eqb_neq ns 0)) by lia.
    by rewrite wrap_i64_id by (unfold I64_MIN, I64_MAX; lia).
  - rewrite (proj2 (Z.eqb_neq ns _)), (proj2 (Z.eqb_neq ns 0)) by lia.
    assert (wrap_i64 ns = ns - 2 ^ 64) as -> by (unfold wrap_i64; rewrite <- (Z.mod_unique (ns + 2 ^ 63) (2 ^ 64) 1 (ns + 2 ^ 63 - 2 ^ 64)); lia).
    split; [done|]. simpl. lia.
Qed.

(** ** Reservations *)

Section Reservations.
Context `{IREE, !IreeCreates}.

(** A reservation that was acquired. *)
Lemma acquired_reservation w base pool size res how w1 flags :
  wf w -> pool_find base (w_pools w) = Some pool ->
  pool_acquire_reservation base size w = Done (0, Some (res, how)) w1 ->
  let transfer := negb (Z.land flags TRANSFER_RESERVATION_OWNERSHIP =? 0) in
  exists w2, pool_materialize_reservation base (pool_params pool) res flags w1
             = Done (0, res_block_handle res) w2
    /\ exists w3, (if transfer then mret tt else pool_release_reservation base res) w2 = Done tt w3
    /\ res_block_handle res <> 0
    /\ (forall p, refs (w_trace w3) p = refs (w_trace w) p + cnt (res_block_handle res) p)
    /\ w_heap w3 = w_heap w /\ w_pools w3 = w_pools w.
Proof.
  intros Hwf Hp E transfer.
  pose proof (pool_acquire_reservation_spec w base pool size Hwf Hp) as Ha. unfold wp in Ha.
  rewrite E in Ha. destruct Ha as (Hf1 & _ & _ & _ & _ & Hnz & HS1).
  assert (pool_find base (w_pools w1) = Some pool) as Hp1 by (by rewrite (proj1 (proj2 (proj2 Hf1)))).
  assert (wf w1) as Hwf1 by apply HS1.
  pose proof (pool_materialize_reservation_spec w1 base pool (pool_params pool) res flags Hwf1 Hp1)
    as (x & w2 & E2 & Hf2 & Hm)%wp_Done.
  rewrite (proj2 (params_match_eq _ _) eq_refl), (proj2 (is_null_false _) Hnz) in Hm. simpl in Hm.
  destruct Hm as [-> HS2]. exists w2. split; [done|].
  assert (pool_find base (w_pools w2) = Some pool) as Hp2 by (by rewrite (proj1 (proj2 (proj2 Hf2)))).
  assert (forall w3 F G, frame w w3 -> safe w w3 F G -> (forall p, F p = cnt (res_block_handle res) p) ->
    (forall p, refs (w_trace w3) p = refs (w_trace w) p + cnt (res_block_handle res) p)
    /\ w_heap w3 = w_heap w /\ w_pools w3 = w_pools w) as Hfin.
  { intros w3 F G (Hh & _ & Hpl & Hg) HS HF. split; [|done]. intros p.
    pose proof (eff_imb _ _ _ _ (safe_eff _ _ _ _ HS) p) as Hi. rewrite HF in Hi.
    unfold imb, owned in Hi. rewrite Hh, Hpl, Hg in Hi. lia. }
  unfold transfer. destruct (Z.land flags _ =? 0); simpl.
  - pose proof (pool_release_reservation_spec w2 base pool res (safe_wf _ _ _ _ HS2) Hp2)
      as ([] & w3 & E3 & Hf3 & HS3)%wp_Done.
    exists w3. split; [done|]. split; [done|].
    eapply Hfin; [by do 2 (eapply frame_trans; [done|])|
      eapply safe_trans; [done|exact HS1|eapply safe_trans; [done|exact HS2|exact HS3]]|].
    intros p. simpl. lia.
  - exists w2. split; [done|]. split; [done|].
    eapply Hfin; [by eapply frame_trans|eapply safe_trans; [done|exact HS1|exact HS2]|].
    intros p. unfold none. lia.
Qed.

(** C32: A pool reservation ends as one buffer reference with its consumer.  Acquiring
    always returns.  It fails for size 0 or when the allocator does, the caller then
    holding nothing but the status; otherwise it takes one buffer from the allocator, and
    materializing with ownership transfer hands that reference over, while materializing
    without it and then releasing the reservation leaves the consumer's own: either way
    exactly one reference was received. *)
Theorem reservation_ends_as_one_reference w base pool size flags :
  wf w -> pool_find base (w_pools w) = Some pool ->
  let transfer := negb (Z.land flags TRANSFER_RESERVATION_OWNERSHIP =? 0) in
  exists r w1, pool_acquire_reservation base size w = Done r w1 /\
  match r.2 with
  | None => r.1 <> 0 /\ (forall p, refs (w_trace w1) p = refs (w_trace w) p + cnt r.1 p)
  | Some (res, _) => r.1 = 0 /\ size <> 0 /\
      exists w2, pool_materialize_reservation base (pool_params pool) res flags w1
                 = Done (0, res_block_handle res) w2
      /\ exists w3, (if transfer then mret tt else pool_release_reservation base res) w2 = Done tt w3
      /\ res_block_handle res <> 0
      /\ (forall p, refs (w_trace w3) p = refs (w_trace w) p + cnt (res_block_handle res) p)
      /\ w_heap w3 = w_heap w /\ w_pools w3 = w_pools w
  end.
Proof.
  intros Hwf Hp transfer.
  pose proof (pool_acquire_reservation_spec w base pool size Hwf Hp) as ([r o] & w1 & E & Hf & Ho)%wp_Done.
  exists (r, o), w1. split; [done|]. simpl in *. destruct o as [[res how]|].
  - destruct Ho as (-> & Hs & _). split; [done|]. split; [done|].
    by apply (acquired_reservation w base pool size res how w1 flags).
  - destruct Ho as [Hr HS]. split; [done|]. intros p.
    pose proof (eff_imb _ _ _ _ (safe_eff _ _ _ _ HS) p) as Hi. destruct Hf as (Hh & _ & Hpl & Hg).
    unfold imb, owned in Hi. rewrite Hh, Hpl, Hg in Hi. lia.
Qed.
End Reservations.

(** ** Witnesses *)

(** The session with a value list, at block 5. *)
Definition with_list : list api := session ++ [ValueListCreate 4 124].

Lemma with_list_reachable : reachable (world_of with_list).
Proof. apply (play_reachable with_list); [legal_now|vm_compute; reflexivity]. Qed.

Definition the_list (w : world) : HrxValueListS :=
  match w_heap w !! LST with Some (_, OValueList l) => l | _ => ValueList 0 end.

(** The bytes of the newest push of a value. *)
Fixpoint last_pushed (tr : list event) : list Z :=
  match tr with
  | [] => []
  | Ev c _ :: tr =>
      match c with
      | ffi_status (iree_vm_list_push_value _ _ bytes) => bytes
      | _ => last_pushed tr
      end
  end.

(** The concrete environment with a list that answers what was pushed last. *)
Definition echoing : IREE := fun A tr c =>
  match c in ffi A return A -> A with
  | iree_vm_list_get_value_as _ _ _ => fun _ => (0, last_pushed tr)
  | _ => fun r => r
  end (mock_respond A tr c).

(** The world after it took a value, and what it answers there. *)
Definition echo_pushed (w : world) (l : ptr) (bytes : list Z) : world :=
  set_trace w (Ev (ffi_status (iree_vm_list_push_value l IREE_VM_VALUE_TYPE_I64 bytes)) 0 :: w_trace w).

Lemma echo_push w l bytes :
  (s ← @call echoing _ (ffi_status (iree_vm_list_push_value l IREE_VM_VALUE_TYPE_I64 bytes));
   @hrx_status_from_iree echoing s) w = Done 0 (echo_pushed w l bytes).
Proof. reflexivity. Qed.

Lemma echo_heap w l bytes : w_heap (echo_pushed w l bytes) = w_heap w.
Proof. reflexivity. Qed.

Lemma echo_read w l bytes i :
  @iree_respond echoing _ (w_trace (echo_pushed w l bytes))
    (iree_vm_list_get_value_as l i IREE_VM_VALUE_TYPE_I64) = (0, bytes).
Proof. reflexivity. Qed.

(** -2 is pushed and read back. *)
Lemma value_list_i64_round_trip_witness :
  exists w1 w2, @hrx_value_list_push_i64 echoing LST (-2) (world_of with_list) = Done 0 w1
    /\ @hrx_value_list_get_i64 echoing LST 0 300 w1 = Done 0 w2
    /\ w_mem w2 = <[300 := -2]> (w_mem w1).
Proof.
  pose proof (inv_wf _ (reachable_inv _ with_list_reachable)) as Hwf.
  assert (Hl : w_heap (world_of with_list) !! LST = Some (1, OValueList (the_list (world_of with_list))))
    by (vm_compute; reflexivity).
  assert (Hv : I64_MIN <= -2 <= I64_MAX) by (unfold I64_MIN, I64_MAX; lia).
  destruct (@value_list_i64_round_trip echoing (world_of with_list) LST 1 _ (-2) Hwf Hl Hv)
    as (bytes & _ & _ & Hpush & Hget).
  rewrite echo_push in Hpush. assert (Hout : 300 <> 0) by discriminate.
  destruct (Hget (echo_pushed (world_of with_list) (vl_vm_list (the_list (world_of with_list))) bytes) 0 300)
    as (w2 & E2 & Hm).
  - rewrite echo_heap. exact Hl.
  - exact Hout.
  - apply echo_read.
  - eexists _, w2. split; [exact Hpush|]. split; [exact E2|exact Hm].
Defined.

(** The concrete environment with a full list. *)
Definition refusing : IREE := fun A tr c =>
  match c in ffi A return A -> A with
  | ffi_status (iree_vm_list_push_ref_move _ _) => fun _ => 8
  | _ => fun r => r
  end (mock_respond A tr c).

#[local] Instance refusing_libc : @LibcAlloc refusing.
Proof. intros tr n. reflexivity. Qed.

(** A push that is taken, and one that is refused and leaves a reference. *)
Lemma reference_push_moves_or_strands_witness :
  (exists w', push_fn PushBuffer LST BUF (world_of with_list) = Done 0 w'
    /\ forall p, imb w' p = imb (world_of with_list) p)
  /\ exists r w', @push_fn refusing PushBuffer LST BUF (world_of with_list) = Done r w'
    /\ w_heap w' = w_heap (world_of with_list)
    /\ (forall p, imb w' p = imb (world_of with_list) p + cnt (hal_ref (world_of with_list) BUF) p).
Proof.
  pose proof (inv_wf _ (reachable_inv _ with_list_reachable)) as Hwf.
  assert (Hl : w_heap (world_of with_list) !! LST = Some (1, OValueList (the_list (world_of with_list))))
    by (vm_compute; reflexivity).
  assert (Hb : w_heap (world_of with_list) !! BUF = Some (1, OBuffer (buffer_now (world_of with_list))))
    by (vm_compute; reflexivity).
  split.
  - destruct (proj2 (reference_push_moves_or_strands PushBuffer (world_of with_list) Hwf) _ _ _ _ _ _ Hl Hb eq_refl)
      as (r & w' & tr & E & _ & _ & _ & Hok & _).
    destruct Hok as (-> & _ & Himb); [vm_compute; reflexivity|].
    exists w'. split; [exact E|exact Himb].
  - destruct (proj2 (@reference_push_moves_or_strands refusing refusing_libc PushBuffer (world_of with_list) Hwf)
      _ _ _ _ _ _ Hl Hb eq_refl) as (r & w' & tr & E & Hh & _ & _ & _ & Hbad).
    destruct Hbad as [_ Himb]; [vm_compute; discriminate|].
    exists r, w'. split; [exact E|]. split; [exact Hh|exact Himb].
Defined.

(** The session with a shape of three dimensions in client memory. *)
Definition shaped : world :=
  set_mem (world_of session) (<[1000 := 2]> (<[1008 := 3]> (<[1016 := -1]> (w_mem (world_of session))))).

Lemma shaped_reachable : reachable shaped.
Proof. eapply rtc_r; [apply session_reachable|apply step_memory]. Qed.

Lemma view_shape_is_passed_on_witness :
  exists r w', hrx_buffer_view_create BUF 3 1000 5 6 300 shaped = Done r w'
    /\ valid_status w' r (code_i32 InvalidArgument) /\ w_mem w' = <[300 := 0]> (w_mem shaped)
    /\ w_heap w' = w_heap shaped /\ libc_only shaped w'.
Proof.
  apply (view_shape_is_passed_on shaped BUF 1 (buffer_now shaped) 1000 [2; 3; -1] 5 6 300).
  - apply shaped_reachable.
  - vm_compute. reflexivity.
  - discriminate.
  - discriminate.
  - intros i v Hi. do 3 (destruct i as [|i]; [simpl in Hi; injection Hi as <-; vm_compute; reflexivity|]).
    discriminate Hi.
  - repeat constructor; vm_compute; discriminate.
Defined.

Lemma timeout_conversion_witness :
  timeout_from_ns (2 ^ 63) = Timeout IREE_TIMEOUT_RELATIVE (2 ^ 63 - 2 ^ 64)
  /\ t_nanos (timeout_from_ns (2 ^ 63)) < 0.
Proof.
  refine (proj2 (proj2 (proj2 (timeout_conversion (2 ^ 63) _))) _); unfold U64_MAX, I64_MAX; lia.
Defined.

(** The session after a stream-ordered allocation, whose pool is alive. *)
Definition pooled : list api := session ++ [BufferAllocate STR 64 48 3 132].

Lemma pooled_reachable : reachable (world_of pooled).
Proof. apply (play_reachable pooled); [legal_now|vm_compute; reflexivity]. Qed.

Definition POOL : ptr := 4560.

Definition the_pool : HrxExactPool :=
  match pool_find POOL (w_pools (world_of pooled)) with
  | Some p => p
  | None => ExactPool 0 allocator_null 0 (BufferParams 0 0 0 0 0) 0
  end.

Lemma reservation_ends_as_one_reference_witness :
  exists res how w1, pool_acquire_reservation POOL 64 (world_of pooled) = Done (0, Some (res, how)) w1 /\
  exists w2, pool_materialize_reservation POOL (pool_params the_pool) res 0 w1
             = Done (0, res_block_handle res) w2
    /\ exists w3, pool_release_reservation POOL res w2 = Done tt w3
    /\ (forall p, refs (w_trace w3) p = refs (w_trace (world_of pooled)) p + cnt (res_block_handle res) p).
Proof.
  destruct (reservation_ends_as_one_reference (world_of pooled) POOL the_pool 64 0) as ([r o] & w1 & E & Ho).
  - apply (inv_wf _ (reachable_inv _ pooled_reachable)).
  - vm_compute. reflexivity.
  - assert (X : match pool_acquire_reservation POOL 64 (world_of pooled) with
      | Done (_, Some _) _ => True | _ => False end) by (vm_compute; exact I).
    rewrite E in X. destruct o as [[res how]|]; [|exact (False_ind _ X)]. cbn [fst snd] in Ho.
    destruct Ho as (-> & _ & w2 & E2 & w3 & E3 & _ & Hrefs & _).
    exists res, how, w1. split; [exact E|]. exists w2. split; [exact E2|]. exists w3. split; [exact E3|exact Hrefs].
Defined.
