(* ===== verification/StatusLedger.v ===== *)
(** * The libc heap over every call

    The payload and the message of an error status live on the libc heap and belong
    to the caller.  [carry r m S] says that [m], started while the status [r] is
    outstanding (null: none is), leaves exactly the status [S a] outstanding when it
    answers [a]; everything else on the libc heap is as it was.  The rules follow the
    structure of a function, and every entry point but those in [hands_over] is shown to
    leave nothing but the status it returns. *)

From S2P Require Import Prelude Iree Objects Machine Handle Status IreeHal Device Semaphore Buffer HostAllocator Executable BufferView ValueList Modules QueueOps Stream Pool StreamAlloc Runtime Lifecycle Scenario Ownership StreamTimeline.

(** ** Outstanding statuses *)

(** The libc heap [c] is [base] and the blocks of status [r]. *)
Definition status_on (base : gmap Z cblock) (r : ptr) (c : gmap Z cblock) : Prop :=
  (r = 0 /\ c = base)
  \/ (r <> 0 /\ exists code msg, c !! r = Some (CStatus code msg)
      /\ ((msg = 0 /\ delete r c = base)
          \/ (msg <> 0 /\ msg <> r /\ is_Some (c !! msg) /\ delete r (delete msg c) = base))).

(** Addresses to be handed out are free. *)
Definition cheap_fresh (w : world) : Prop :=
  0 < w_next w /\ forall h, w_next w <= h -> w_cheap w !! h = None.

Definition carry {A} (r : ptr) (m : M A) (S : A -> ptr) : Prop :=
  forall base w a w', m w = Done a w' -> cheap_fresh w -> status_on base r (w_cheap w) ->
  cheap_fresh w' /\ status_on base (S a) (w_cheap w').

(** [m] leaves the libc heap as it is. *)
Definition tidy {A} (m : M A) : Prop :=
  forall w a w', m w = Done a w' -> cheap_fresh w -> cheap_fresh w' /\ w_cheap w' = w_cheap w.

Lemma status_on_null base c : status_on base 0 c <-> c = base.
Proof. unfold status_on. split; [by intros [[_ ?]|[? _]]|by left]. Qed.

Lemma tidy_carry {A} (m : M A) r : tidy m -> carry r m (fun _ => r).
Proof. intros Hm base w a w' E Hf Hs. destruct (Hm _ _ _ E Hf) as [? ->]. done. Qed.

(** A function that starts and ends without a status is tidy. *)
Lemma carry_tidy {A} (m : M A) : carry 0 m (fun _ => 0) -> tidy m.
Proof.
  intros Hm w a w' E Hf. destruct (Hm (w_cheap w) w a w' E Hf) as [? Hs%status_on_null]; [|done].
  by apply status_on_null.
Qed.

Section Rules.
Context `{IREE}.

Lemma carry_ret {A} (a : A) r S : S a = r -> carry r (mret a) S.
Proof. intros <- base w b w' [= <- <-]. done. Qed.

Lemma carry_bind {A B} r (m : M A) (f : A -> M B) S1 S2 :
  carry r m S1 -> (forall a, carry (S1 a) (f a) S2) -> carry r (m ≫= f) S2.
Proof.
  intros Hm Hf base w b w' (a & w1 & E1 & E2)%bind_inv Hw Hs.
  destruct (Hm _ _ _ _ E1 Hw Hs) as [Hw1 Hs1]. by eapply Hf.
Qed.

Lemma carry_bind_tidy {A B} r (m : M A) (f : A -> M B) S :
  tidy m -> (forall a, carry r (f a) S) -> carry r (m ≫= f) S.
Proof. intros Hm Hf. eapply carry_bind; [by apply tidy_carry|done]. Qed.

(** Testing the outstanding status. *)
Lemma carry_if_ok {A} r (m1 m2 : M A) S :
  carry 0 m1 S -> carry r m2 S -> carry r (if negb (hrx_status_is_ok r) then m2 else m1) S.
Proof.
  intros H1 H2. unfold hrx_status_is_ok. destruct (is_null r) eqn:E; [|done]. bool_to_prop. by subst r.
Qed.

Lemma carry_ext {A} r (m : M A) S S' : carry r m S -> (forall a, S a = S' a) -> carry r m S'.
Proof. intros Hm HS base w a w' E Hw Hs. rewrite <- HS. by eapply Hm. Qed.

Lemma tidy_ret {A} (a : A) : tidy (mret a).
Proof. by intros w b w' [= <- <-]. Qed.

Lemma tidy_bind {A B} (m : M A) (f : A -> M B) :
  tidy m -> (forall a, tidy (f a)) -> tidy (m ≫= f).
Proof.
  intros Hm Hf w b w' (a & w1 & E1 & E2)%bind_inv Hw.
  destruct (Hm _ _ _ E1 Hw) as [Hw1 <-]. by eapply Hf.
Qed.

Lemma tidy_call {A : Set} (c : ffi A) : tidy (call c).
Proof. intros w a w' E. unfold call in E. by injection E as <- <-. Qed.

(** A local variable moves the next address on; the body sees the same libc heap. *)
Lemma carry_with_local {A} r v (body : ptr -> M A) S :
  (forall p, carry r (body p) S) -> carry r (with_local v body) (fun av => S av.1).
Proof.
  intros Hb base w a w'. unfold with_local. destruct (body _ _) as [x w1| |] eqn:E; [|done|done].
  destruct (w_mem w1 !! w_next w); [|done]. intros [= <- <-] [Hn Hf] Hs. simpl.
  destruct (Hb _ base _ _ _ E) as [[? ?] ?]; [|done|done].
  split; simpl; [unfold BLOCK; lia|]. intros h Hh. apply Hf. unfold BLOCK in Hh. lia.
Qed.

Lemma tidy_with_local {A} v (body : ptr -> M A) : (forall p, tidy (body p)) -> tidy (with_local v body).
Proof.
  intros Hb. apply carry_tidy. apply (carry_with_local 0 v body (fun _ => 0)).
  intros p. by apply tidy_carry.
Qed.

Lemma tidy_release {T} `{Boxed T, DropGlue T} h :
  (forall t : T, tidy (drop_glue t)) -> tidy (handle_release (T:=T) h).
Proof.
  intros Hd w a w'. unfold handle_release. destruct (w_heap w !! h) as [[n o]|]; [|done].
  destruct (unbox o) as [t|]; [|done]. destruct (n =? 1); [|by intros [= <- <-]].
  intros E Hf. exact (Hd t _ _ _ E Hf).
Qed.

Lemma tidy_into_handle {T} `{Boxed T} (t : T) : tidy (into_handle t).
Proof.
  intros w a w'. unfold into_handle. intros [= <- <-] [Hn Hf]. split; [|done].
  split; simpl; [unfold BLOCK; lia|]. intros h Hh. apply Hf. unfold BLOCK in Hh. lia.
Qed.

Lemma tidy_into_handle_cyclic {T} `{Boxed T} (f : ptr -> T) : tidy (into_handle_cyclic f).
Proof. intros w a w'. unfold into_handle_cyclic. apply tidy_into_handle. Qed.

(** ** Making and freeing a status *)

Lemma cheap_fresh_alloc w b : cheap_fresh w ->
  cheap_fresh (set_cheap (set_next w (w_next w + BLOCK)) (<[w_next w := b]> (w_cheap w))).
Proof.
  intros [Hn Hf]. split; simpl; [unfold BLOCK; lia|].
  intros h Hh. unfold BLOCK in Hh. rewrite lookup_insert_ne by lia. apply Hf. lia.
Qed.

Lemma carry_make_status code msg : carry 0 (hrx_make_status code msg) (fun r => r).
Proof.
  unfold hrx_make_status. destruct (code =? HRX_STATUS_OK); [by apply carry_ret|].
  apply carry_bind_tidy; [apply tidy_call|]. intros ok. destruct (negb ok); [by apply carry_ret|].
  intros base w r w' (s & w1 & E1 & E)%bind_inv Hw <-%status_on_null.
  injection E1 as <- <-. pose proof (cheap_fresh_alloc w (CStatus code null) Hw) as Hw1.
  destruct Hw as [Hn Hf]. set (w1 := set_cheap _ _) in *.
  apply bind_inv in E as (m & w2 & E2 & E). apply bind_inv in E as (u & w3 & E3 & E).
  injection E as <- <-.
  assert (Hm : cheap_fresh w2 /\
    ((m = 0 /\ w_cheap w2 = w_cheap w1) \/ (exists text, m = w_next w1 /\ w_cheap w2 = <[m := CString text]> (w_cheap w1)))).
  { destruct msg as [text|]; [|injection E2 as <- <-; by auto].
    unfold libc_strdup in E2. apply bind_inv in E2 as (ok2 & w2' & Ec & E2). unfold call in Ec.
    injection Ec as <- <-. destruct (iree_respond _ _) in E2; injection E2 as <- <-; [|by auto].
    split; [by apply (cheap_fresh_alloc (set_trace w1 _))|]. right. by exists text. }
  destruct Hm as [Hw2 Hm]. unfold c_store in E3. destruct (w_cheap w2 !! w_next w) eqn:Es; [|done].
  injection E3 as <- <-. assert (Hne : w_next w1 <> w_next w) by (simpl; unfold BLOCK; lia).
  assert (Hs : w_cheap w !! w_next w = None) by (apply Hf; lia).
  assert (Hm1 : w_cheap w !! w_next w1 = None) by (apply Hf; simpl; unfold BLOCK; lia).
  split.
  { destruct Hw2 as [Hn2 Hf2]. split; [done|]. simpl. intros h Hh. specialize (Hf2 h Hh).
    destruct (decide (h = w_next w)) as [->|]; [congruence|]. by rewrite lookup_insert_ne. }
  right. split; [lia|]. exists code, m. simpl. rewrite lookup_insert_eq. split; [done|].
  destruct Hm as [[-> E2']|(text & -> & E2')]; rewrite E2'; simpl.
  - left. split; [done|]. by rewrite !insert_insert_eq, delete_insert_id.
  - right. split; [simpl; unfold BLOCK; lia|]. split; [done|].
    rewrite lookup_insert_ne by done. rewrite lookup_insert_eq. split; [by eexists|].
    apply map_eq. intros i. destruct (decide (i = w_next w)) as [->|Hi].
    { by rewrite lookup_delete_eq. }
    rewrite lookup_delete_ne by done. destruct (decide (i = w_next w1)) as [->|Hi1].
    { by rewrite lookup_delete_eq. }
    by rewrite lookup_delete_ne, !lookup_insert_ne by done.
Qed.

(** Ignoring an outstanding status gives the heap back. *)
Lemma ignore_outstanding base r w :
  status_on base r (w_cheap w) -> hrx_status_ignore r w = Done tt (set_cheap w base).
Proof.
  unfold hrx_status_ignore, hrx_status_is_ok. intros [[-> E]|(Hr & code & msg & El & Hm)].
  { simpl. unfold mret, M_ret. rewrite <- E. by destruct w. }
  rewrite (proj2 (is_null_false r) Hr). unfold mbind, M_bind, c_load. rewrite El. cbn.
  unfold libc_free. rewrite (proj2 (is_null_false r) Hr).
  destruct Hm as [[-> Hd]|(Hm0 & Hne & [b Hb] & Hd)]; simpl.
  - by rewrite El, Hd.
  - rewrite (proj2 (is_null_false msg) Hm0), Hb. simpl. rewrite lookup_delete_ne, El by done.
    unfold set_cheap. simpl. by rewrite Hd.
Qed.

Lemma status_on_fresh base r w : cheap_fresh w -> status_on base r (w_cheap w) -> cheap_fresh (set_cheap w base).
Proof.
  intros [Hn Hf] Hs. split; [done|]. simpl. intros h Hh. specialize (Hf h Hh).
  destruct Hs as [[_ <-]|(_ & code & msg & _ & [[_ <-]|(_ & _ & _ & <-)])]; [done|..];
    rewrite !lookup_delete_None; auto.
Qed.

Lemma carry_ignore r : carry r (hrx_status_ignore r) (fun _ => 0).
Proof.
  intros base w [] w' E Hw Hs. rewrite (ignore_outstanding _ _ _ Hs) in E. injection E as <-.
  split; [by eapply status_on_fresh|]. by apply status_on_null.
Qed.

Lemma carry_drop r : carry r (hrx_status_drop r) (fun _ => 0).
Proof. exact (carry_ignore r). Qed.

Lemma carry_from_iree s : carry 0 (hrx_status_from_iree s) (fun r => r).
Proof.
  unfold hrx_status_from_iree. destruct (status_is_ok s); [by apply carry_ret|].
  apply carry_bind_tidy; [apply tidy_call|]. intros [[ok msg] text]. destruct (negb ok).
  - apply carry_bind_tidy; [apply tidy_call|]. intros _. apply carry_make_status.
  - eapply carry_bind; [apply carry_make_status|]. intros r. simpl.
    apply carry_bind_tidy; [apply tidy_call|]. intros _.
    apply carry_bind_tidy; [apply tidy_call|]. intros _. by apply carry_ret.
Qed.
End Rules.

(** ** Automation *)

Create HintDb tidy.
Create HintDb carry.
#[export] Hint Resolve tidy_ret tidy_call tidy_into_handle tidy_into_handle_cyclic : tidy.
#[export] Hint Resolve carry_make_status carry_from_iree carry_drop carry_ignore : carry.

(** A primitive written as a function of the world. *)
Ltac tidy_prim :=
  let w := fresh in let a := fresh in let w' := fresh in let E := fresh in let Hf := fresh in
  intros w a w' E Hf; repeat case_match; simplify_eq;
  (destruct Hf as [? ?]; split; [split; simpl; [unfold BLOCK; lia|intros; eauto with zarith lia]|done]).

Ltac tidy_step :=
  lazymatch goal with
  | |- tidy (_ ≫= _) => apply tidy_bind; [|intros]
  | |- tidy (with_local _ _) => apply tidy_with_local; intros
  | |- tidy (handle_release _) => apply tidy_release; intros
  | |- tidy (drop_glue ?t) => first [ solve [auto 2 with tidy] | unfold drop_glue ]
  | |- tidy (match ?x with _ => _ end) => destruct x
  | |- tidy ?m => first [ solve [auto 2 with tidy] | let f := head_of m in unfold f; tidy_prim
                       | let f := head_of m in unfold f ]
  end.
Ltac tidy_tac := repeat tidy_step.

(** The status carried by the results of internal functions. *)
Definition pair_status {A} (x : ptr * A) : ptr := x.1.
Definition sum_status {A} (x : ptr + A) : ptr := match x with inl e => e | inr _ => 0 end.

Ltac carry_step :=
  lazymatch goal with
  | |- carry _ (mret _) _ => apply carry_ret; reflexivity
  | |- carry _ (with_local _ _ ≫= _) _ =>
      first [ apply carry_bind_tidy; [solve [tidy_tac]|intros]
            | eapply carry_bind; [apply carry_with_local; intros; solve [eauto 2 with carry]|intros; cbv beta] ]
  | |- carry _ (_ ≫= _) _ =>
      first [ eapply carry_bind; [solve [eauto 2 with carry]|intros; cbv beta]
            | apply carry_bind_tidy; [solve [tidy_tac]|intros] ]
  | |- carry ?r (if negb (hrx_status_is_ok ?r) then _ else _) _ => apply carry_if_ok
  | |- carry (pair_status ?x) _ _ => destruct x; unfold pair_status; simpl fst
  | |- carry (sum_status ?x) _ _ => destruct x; unfold sum_status
  | |- carry (fst ?x) _ _ => destruct x; simpl fst
  | |- carry _ (match ?x with _ => _ end) _ => destruct x
  | |- carry _ ?m _ => first [ solve [eauto 2 with carry] | apply tidy_carry; solve [tidy_tac] | let f := head_of m in unfold f ]
  end.
Ltac carry_tac := repeat carry_step.

Section Functions.
Context `{IREE}.

Lemma carry_semaphore_wait s v t : carry 0 (hrx_semaphore_wait s v t) (fun r => r).
Proof. carry_tac. Qed.

Lemma carry_flush_inner st : carry 0 (flush_inner st) pair_status.
Proof. carry_tac. Qed.

Lemma carry_begin_cb st : carry 0 (begin_cb st) pair_status.
Proof. carry_tac. Qed.
End Functions.
#[export] Hint Resolve carry_semaphore_wait carry_flush_inner carry_begin_cb : carry.

Section Streams.
Context `{IREE}.

(** Dropping a stream flushes and waits, and drops the statuses of both. *)
Lemma tidy_drop_stream (st : HrxStreamS) : tidy (drop_glue st).
Proof.
  apply carry_tidy. unfold drop_glue, drop_stream.
  apply (carry_bind 0 _ _ (fun _ => 0)); [carry_tac|]. intros st'.
  apply (carry_bind 0 _ _ (fun _ => 0)); [carry_tac|]. intros _. carry_tac.
Qed.

Lemma carry_stream_update h f :
  (forall st, carry 0 (f st) pair_status) -> carry 0 (stream_update h f) pair_status.
Proof.
  intros Hf. unfold stream_update. apply carry_bind_tidy; [tidy_tac|]. intros st.
  eapply carry_bind; [apply Hf|]. intros [r st']. carry_tac.
Qed.

Lemma tidy_write_bytes l : forall p, tidy (write_bytes p l).
Proof. induction l; intros p; simpl; tidy_tac; auto. Qed.

Lemma tidy_sem_list_loop a b n : forall i, tidy (sem_list_loop a b i n).
Proof. induction n; intros i; simpl; tidy_tac; auto. Qed.

Lemma tidy_bindings_loop b n : forall i, tidy (bindings_loop b i n).
Proof. induction n; intros i; simpl; tidy_tac; auto. Qed.

Lemma tidy_heap_dims p n : forall i acc, tidy (heap_dims p i n acc).
Proof. induction n; intros i acc; simpl; tidy_tac; auto. Qed.

Lemma tidy_stack_dims p n : forall i acc, tidy (stack_dims p i n acc).
Proof. induction n; intros i acc; simpl; tidy_tac; auto. Qed.

Lemma tidy_release_loaders ls : tidy (release_loaders ls).
Proof.
  unfold release_loaders. generalize 0%nat. induction ls; intros i; cbn [release_loaders_from]; tidy_tac; auto.
Qed.

Lemma tidy_release_devices ds : tidy (release_devices ds).
Proof. induction ds; simpl; tidy_tac; auto. Qed.
End Streams.
#[export] Hint Resolve tidy_drop_stream tidy_write_bytes tidy_sem_list_loop tidy_bindings_loop
  tidy_heap_dims tidy_stack_dims tidy_release_loaders tidy_release_devices : tidy.
#[export] Hint Resolve carry_stream_update : carry.

Section Entries.
Context `{IREE}.

Lemma tidy_gpu_devices driver pool infos : forall i n ds, tidy (gpu_devices driver pool infos i n ds).
Proof. induction infos; intros i n ds; simpl; tidy_tac; auto. Qed.

Lemma tidy_retain_kind k h : tidy (retain_kind k h).
Proof. destruct k; simpl; tidy_tac. Qed.

Lemma tidy_release_kind k h : tidy (release_kind k h).
Proof. destruct k; simpl; tidy_tac. Qed.

Lemma carry_stream_flush h : carry 0 (hrx_stream_flush h) (fun r => r).
Proof. carry_tac. Qed.

Lemma carry_semaphore_create d v out : carry 0 (hrx_semaphore_create d v out) (fun r => r).
Proof. carry_tac. Qed.

Lemma carry_semaphore_query s out : carry 0 (hrx_semaphore_query s out) (fun r => r).
Proof. carry_tac. Qed.

Lemma carry_malloc_uninitialized a n out : carry 0 (hrx_host_allocator_malloc_uninitialized a n out) (fun r => r).
Proof. carry_tac. Qed.

Lemma carry_load_data d data n f out : carry 0 (hrx_executable_load_data d data n f out) (fun r => r).
Proof. carry_tac. Qed.

Lemma carry_ensure_shared_state : carry 0 ensure_shared_state (fun r => r).
Proof. carry_tac. Qed.

Lemma carry_local_task_device n : carry 0 (create_local_task_device n) sum_status.
Proof. carry_tac. Qed.
End Entries.
#[export] Hint Resolve tidy_gpu_devices tidy_retain_kind tidy_release_kind : tidy.
#[export] Hint Resolve carry_stream_flush carry_semaphore_create carry_semaphore_query
  carry_malloc_uninitialized carry_load_data carry_ensure_shared_state carry_local_task_device : carry.

Section Exec.
Context `{IREE}.

(** Calls that change the libc heap otherwise: the thunk of a host call is IREE's until
    it runs, [hrx_status_to_string] copies a text for the client, and
    [hrx_status_ignore] and [hrx_status_free_message] free what the client passes. *)
Definition hands_over (c : api) : bool :=
  match c with
  | QueueHostCall _ _ _ _ _ _ | StatusToString _ _ _ | StatusIgnore _ | StatusFreeMessage _ => true
  | _ => false
  end.

Lemma carry_exec c : hands_over c = false -> carry 0 (exec c) (fun r => r).
Proof. destruct c; intros Hc; try discriminate Hc; clear Hc; cbn [exec]; carry_tac. Qed.

Lemma wf_cheap w : wf w -> cheap_fresh w.
Proof. intros Hwf. split; [pose proof (wf_next _ Hwf); lia|apply (wf_cheap_fresh _ Hwf)]. Qed.

Lemma inv_set_cheap w c : inv w -> cheap_fresh (set_cheap w c) -> inv (set_cheap w c).
Proof. intros [[] ?] [_ Hf]. split; [split|]; assumption. Qed.
End Exec.

Section Residue.
Context `{IREE, !IreeCreates, !LibcAlloc, !IreeDeviceAllocator}.

(** A legal call and the client's [hrx_status_ignore] of its answer. *)
Lemma exec_and_ignore c w :
  inv w -> legal w c -> hands_over c = false ->
  exists r w' F G, exec c w = Done r w' /\ inv w' /\ eff w w' F G /\ client_step c r w w' G
    /\ (forall p, F p = gains c r w w' p + strands c r w p)
    /\ status_on (w_cheap w) r (w_cheap w')
    /\ hrx_status_ignore r w' = Done tt (set_cheap w' (w_cheap w))
    /\ inv (set_cheap w' (w_cheap w)).
Proof.
  intros Hi Hc Hh. destruct (exec_inv c w Hi Hc) as (r & w' & E & Hi' & F & G & HE & HC & HF).
  exists r, w', F, G. destruct (carry_exec c Hh (w_cheap w) _ _ _ E) as [Hf Hs].
  - apply wf_cheap, Hi.
  - by apply status_on_null.
  - split; [done|]. split; [done|]. split; [done|]. split; [done|]. split; [done|]. split; [done|].
    split; [by apply ignore_outstanding|]. apply inv_set_cheap; [done|]. by eapply status_on_fresh.
Qed.
End Residue.

Section Theorems.
Context `{IREE, !IreeCreates, !LibcAlloc, !IreeDeviceAllocator}.

End Theorems.

