(* ===== verification/Layout.v ===== *)
(** * Structures in memory

    The layout rustc gives a [repr(C)] or [repr(C, align(n))] structure on
    x86-64, and how values of such a structure are stored in and loaded from
    bytes.  The padding between the fields keeps whatever the memory held. *)

From S2P Require Import Prelude.
#[local] Set Warnings "-register-all".

(** ** Types *)

Inductive ctype : Type :=
  | Uint (width : nat)
  | Sint (width : nat)
  | Array (t : ctype) (n : nat)
  | Struct (align : nat) (fields : list (string * ctype)).

Definition u8 : ctype := Uint 1.
Definition u16 : ctype := Uint 2.
Definition u32 : ctype := Uint 4.
Definition u64 : ctype := Uint 8.
Definition usize : ctype := Uint 8.
Definition pointer : ctype := Uint 8.
Definition i32 : ctype := Sint 4.
Definition i64 : ctype := Sint 8.

Definition round_up (n a : nat) : nat := (n + a - 1) / a * a.

(** Size and alignment: a scalar is aligned to its size, an array like its
    element, a structure to the largest of its fields' and its declared
    alignment; its size is rounded up to that. *)
Fixpoint size_align (t : ctype) : nat * nat :=
  match t with
  | Uint w | Sint w => (w, w)
  | Array t n => ((n * (size_align t).1)%nat, (size_align t).2)
  | Struct a fs =>
      let al := foldr (fun f m => Nat.max (size_align f.2).2 m) a fs in
      let len := foldl (fun off f => round_up off (size_align f.2).2 + (size_align f.2).1)%nat 0%nat fs in
      (round_up len al, al)
  end.

Definition size_of (t : ctype) : nat := (size_align t).1.
Definition align_of (t : ctype) : nat := (size_align t).2.

(** The fields with their offsets, from [off] on. *)
Fixpoint place (off : nat) (fs : list (string * ctype)) : list (string * nat * ctype) :=
  match fs with
  | [] => []
  | (name, t) :: fs =>
      let o := round_up off (align_of t) in (name, o, t) :: place (o + size_of t) fs
  end.

Definition fields_of (t : ctype) : list (string * nat * ctype) :=
  match t with Struct _ fs => place 0 fs | _ => [] end.

(** The offset and the type of a field. *)
Definition field_of (t : ctype) (name : string) : option (nat * ctype) :=
  (fun x => (x.2.1.2, x.2.2)) <$> list_find (fun f => f.1.1 = name) (fields_of t).

(** Equality of types, field names included. *)
Fixpoint ctype_eqb (t u : ctype) : bool :=
  match t, u with
  | Uint w, Uint w' | Sint w, Sint w' => (w =? w')%nat
  | Array t n, Array u m => ctype_eqb t u && (n =? m)%nat
  | Struct a fs, Struct b gs =>
      (a =? b)%nat &&
      (fix go (fs gs : list (string * ctype)) : bool :=
         match fs, gs with
         | [], [] => true
         | f :: fs, g :: gs => String.eqb f.1 g.1 && ctype_eqb f.2 g.2 && go fs gs
         | _, _ => false
         end) fs gs
  | _, _ => false
  end.

(** ** Values and bytes *)

Inductive value : Type :=
  | VInt (z : Z)
  | VList (vs : list value).

Fixpoint le_bytes (n : nat) (z : Z) : list Z :=
  match n with O => [] | S n => z mod 256 :: le_bytes n (z / 256) end.

Fixpoint le_value (bs : list Z) : Z :=
  match bs with [] => 0 | b :: bs => b + 256 * le_value bs end.

Definition bits (w : nat) : Z := 8 * Z.of_nat w.

(** A [w]-byte word read as a two's complement number. *)
Definition to_signed (w : nat) (z : Z) : Z := if z <? 2 ^ (bits w - 1) then z else z - 2 ^ bits w.

Definition bytes_at (off n : nat) (mem : list Z) : list Z := take n (drop off mem).

(** Elements and fields in turn, with the function for the component type. *)
Fixpoint store_elems (st : value -> nat -> list Z -> list Z) (size : nat) (vs : list value)
  (off : nat) (mem : list Z) : list Z :=
  match vs with
  | [] => mem
  | v :: vs => store_elems st size vs (off + size) (st v off mem)
  end.

Section Fields.
Context (st : ctype -> value -> nat -> list Z -> list Z).
Context (ld : ctype -> nat -> list Z -> value) (ty : ctype -> value -> bool).

Fixpoint store_fields (base : nat) (fs : list (string * ctype)) (vs : list value) (off : nat)
  (mem : list Z) : list Z :=
  match fs, vs with
  | f :: fs, v :: vs =>
      let o := round_up off (align_of f.2) in
      store_fields base fs vs (o + size_of f.2) (st f.2 v (base + o)%nat mem)
  | _, _ => mem
  end.

Fixpoint load_fields (base : nat) (fs : list (string * ctype)) (off : nat) (mem : list Z)
  : list value :=
  match fs with
  | [] => []
  | f :: fs =>
      let o := round_up off (align_of f.2) in
      ld f.2 (base + o)%nat mem :: load_fields base fs (o + size_of f.2) mem
  end.

Fixpoint typed_fields (fs : list (string * ctype)) (vs : list value) : bool :=
  match fs, vs with
  | [], [] => true
  | f :: fs, v :: vs => ty f.2 v && typed_fields fs vs
  | _, _ => false
  end.
End Fields.

(** Store a value at an offset; a shape that does not fit the type stores nothing. *)
Fixpoint store (t : ctype) (v : value) (off : nat) (mem : list Z) {struct t} : list Z :=
  match t, v with
  | Uint w, VInt z | Sint w, VInt z => list_inserts off (le_bytes w z) mem
  | Array t _, VList vs => store_elems (store t) (size_of t) vs off mem
  | Struct _ fs, VList vs => store_fields store off fs vs 0 mem
  | _, _ => mem
  end.

Fixpoint load (t : ctype) (off : nat) (mem : list Z) {struct t} : value :=
  match t with
  | Uint w => VInt (le_value (bytes_at off w mem))
  | Sint w => VInt (to_signed w (le_value (bytes_at off w mem)))
  | Array t n => VList ((fun i => load t (off + i * size_of t)%nat mem) <$> seq 0 n)
  | Struct _ fs => VList (load_fields load off fs 0 mem)
  end.

(** The values a type has. *)
Fixpoint typed (t : ctype) (v : value) {struct t} : bool :=
  match t, v with
  | Uint w, VInt z => (0 <=? z) && (z <? 2 ^ bits w)
  | Sint w, VInt z => (- 2 ^ (bits w - 1) <=? z) && (z <? 2 ^ (bits w - 1))
  | Array t n, VList vs => (length vs =? n)%nat && forallb (typed t) vs
  | Struct _ fs, VList vs => typed_fields typed fs vs
  | _, _ => false
  end.

(** Scalars of 1, 2, 4 or 8 bytes and declared alignments that are powers of two. *)
Definition power_of_two (a : nat) : bool := existsb (Nat.eqb a) [1; 2; 4; 8; 16]%nat.
Fixpoint well_formed (t : ctype) : bool :=
  match t with
  | Uint w | Sint w => power_of_two w
  | Array t _ => well_formed t
  | Struct a fs => power_of_two a && forallb (fun f => well_formed f.2) fs
  end.

(** ** Induction over types *)

Section CtypeInd.
Context (P : ctype -> Prop).
Context (HU : forall w, P (Uint w)) (HS : forall w, P (Sint w)).
Context (HA : forall t n, P t -> P (Array t n)).
Context (HR : forall a fs, Forall (fun f => P f.2) fs -> P (Struct a fs)).

Fixpoint ctype_nested_ind (t : ctype) : P t :=
  match t with
  | Uint w => HU w
  | Sint w => HS w
  | Array t n => HA t n (ctype_nested_ind t)
  | Struct a fs => HR a fs
      ((fix go (fs : list (string * ctype)) : Forall (fun f => P f.2) fs :=
          match fs with
          | [] => Forall_nil_2 _
          | f :: fs => Forall_cons_2 _ f fs (ctype_nested_ind f.2) (go fs)
          end) fs)
  end.
End CtypeInd.

Lemma ctype_eqb_eq t : forall u, ctype_eqb t u = true -> t = u.
Proof.
  induction t as [w|w|t n IH|a fs IH] using ctype_nested_ind; intros [w'|w'|u m|b gs]; cbn [ctype_eqb]; try done.
  - by intros ->%Nat.eqb_eq.
  - by intros ->%Nat.eqb_eq.
  - by intros [->%IH ->%Nat.eqb_eq]%andb_true_iff.
  - intros [->%Nat.eqb_eq H]%andb_true_iff. f_equal. revert gs H.
    induction IH as [|[n t] fs Ht _ IHfs]; intros [|[m u] gs]; try done.
    intros [[Hn%String.eqb_eq Hu%Ht]%andb_true_iff ->%IHfs]%andb_true_iff. simpl in *. by subst.
Qed.

(** ** Bytes *)

Lemma length_le_bytes n z : length (le_bytes n z) = n.
Proof. revert z. induction n as [|n IH]; intros z; simpl; [done|]. by rewrite IH. Qed.

Lemma bits_S n : 2 ^ bits (S n) = 256 * 2 ^ bits n.
Proof. unfold bits. rewrite <- (Z.pow_add_r 2 8) by lia. f_equal. lia. Qed.

Lemma le_value_bytes n z : le_value (le_bytes n z) = z mod 2 ^ bits n.
Proof.
  revert z. induction n as [|n IH]; intros z; simpl.
  { unfold bits. simpl. by rewrite Z.mod_1_r. }
  rewrite IH, bits_S, Z.rem_mul_r; [done|lia|]. unfold bits. lia.
Qed.

Lemma length_bytes_at off n mem : (off + n <= length mem)%nat -> length (bytes_at off n mem) = n.
Proof. intros. unfold bytes_at. rewrite length_take, length_drop. lia. Qed.

Lemma lookup_bytes_at off n mem i :
  (i < n)%nat -> bytes_at off n mem !! i = mem !! (off + i)%nat.
Proof. intros. unfold bytes_at. by rewrite lookup_take_lt, lookup_drop by done. Qed.

Lemma bytes_at_ext off n mem mem' :
  (forall i, (off <= i < off + n)%nat -> mem !! i = mem' !! i) ->
  bytes_at off n mem = bytes_at off n mem'.
Proof.
  intros H. apply list_eq. intros i. destruct (decide (i < n)%nat).
  - rewrite !lookup_bytes_at by done. apply H. lia.
  - unfold bytes_at. by rewrite !lookup_take_ge by lia.
Qed.

Lemma bytes_at_inserts off bs mem :
  (off + length bs <= length mem)%nat -> bytes_at off (length bs) (list_inserts off bs mem) = bs.
Proof.
  intros H. apply list_eq. intros i. destruct (decide (i < length bs)%nat).
  - rewrite lookup_bytes_at by done. rewrite list_lookup_inserts by lia. f_equal. lia.
  - unfold bytes_at. rewrite lookup_take_ge by lia. symmetry. apply lookup_ge_None. lia.
Qed.

(** ** Sizes, alignments and offsets *)

Lemma forallb_Forall {A} (p : A -> bool) l :
  forallb p l = true <-> Forall (fun x => p x = true) l.
Proof. rewrite forallb_forall, Forall_forall. by setoid_rewrite list_elem_of_In. Qed.

Lemma round_up_ge n a : (0 < a)%nat -> (n <= round_up n a)%nat.
Proof.
  intros. unfold round_up. pose proof (Nat.div_mod_eq (n + a - 1) a).
  pose proof (Nat.mod_upper_bound (n + a - 1) a). lia.
Qed.

Lemma round_up_divide n a : Nat.divide a (round_up n a).
Proof. exists ((n + a - 1) / a)%nat. done. Qed.

Lemma power_of_two_cases a : power_of_two a = true <-> a ∈ [1; 2; 4; 8; 16]%nat.
Proof.
  unfold power_of_two. rewrite existsb_exists, list_elem_of_In. split.
  - intros (x & ? & ->%Nat.eqb_eq). done.
  - intros ?. exists a. by rewrite Nat.eqb_refl.
Qed.

Lemma power_of_two_max a b :
  power_of_two a = true -> power_of_two b = true ->
  power_of_two (Nat.max a b) = true /\ Nat.divide a (Nat.max a b) /\ Nat.divide b (Nat.max a b).
Proof.
  rewrite !power_of_two_cases. intros Ha Hb.
  repeat (apply elem_of_cons in Ha as [->|Ha]); try by apply not_elem_of_nil in Ha.
  all: repeat (apply elem_of_cons in Hb as [->|Hb]); try by apply not_elem_of_nil in Hb.
  all: split; [by repeat constructor|].
  all: split; apply Nat.Lcm0.mod_divide; reflexivity.
Qed.

(** Every alignment is a power of two and divides the alignment of what contains it. *)
Lemma fold_align a fs :
  power_of_two a = true -> Forall (fun f : string * ctype => power_of_two (align_of f.2) = true) fs ->
  let al := foldr (fun f m => Nat.max (align_of f.2) m) a fs in
  power_of_two al = true /\ Nat.divide a al /\ Forall (fun f => Nat.divide (align_of f.2) al) fs.
Proof.
  intros Ha. induction 1 as [|f fs Hf _ (IH1 & IH2 & IH3)]; simpl in *.
  { split; [done|]. split; [reflexivity|]. constructor. }
  destruct (power_of_two_max _ _ Hf IH1) as (? & ? & Hd). split; [done|].
  split; [exact (Nat.divide_trans _ _ _ IH2 Hd)|]. constructor; [done|].
  eapply Forall_impl; [exact IH3|]. intros ? Hx. exact (Nat.divide_trans _ _ _ Hx Hd).
Qed.

Lemma align_power t : well_formed t = true -> power_of_two (align_of t) = true.
Proof.
  induction t as [w|w|t n IH|a fs IH] using ctype_nested_ind; simpl; auto.
  intros [Ha Hfs%forallb_Forall]%andb_true_iff. apply (fold_align a fs Ha).
  rewrite Forall_forall in *. auto.
Qed.

Lemma align_pos t : well_formed t = true -> (0 < align_of t)%nat.
Proof.
  intros H%align_power%power_of_two_cases. repeat (apply elem_of_cons in H as [->|H]; [lia|]).
  by apply not_elem_of_nil in H.
Qed.

Lemma well_formed_struct a fs :
  well_formed (Struct a fs) = true ->
  power_of_two a = true /\ Forall (fun f => well_formed f.2 = true) fs.
Proof.
  simpl. by intros [? H%forallb_Forall]%andb_true_iff.
Qed.

(** Where the fields placed from [off] end. *)
Fixpoint fields_end (off : nat) (fs : list (string * ctype)) : nat :=
  match fs with
  | [] => off
  | f :: fs => fields_end (round_up off (align_of f.2) + size_of f.2) fs
  end.

Lemma size_of_struct a fs :
  size_of (Struct a fs) = round_up (fields_end 0 fs) (align_of (Struct a fs)).
Proof. reflexivity. Qed.

Lemma fields_end_ge off fs :
  Forall (fun f => well_formed f.2 = true) fs -> (off <= fields_end off fs)%nat.
Proof.
  intros H. revert off. induction H as [|f fs Hf _ IH]; intros off; simpl; [done|].
  pose proof (round_up_ge off _ (align_pos _ Hf)).
  specialize (IH (round_up off (align_of f.2) + size_of f.2)%nat). lia.
Qed.

Lemma fields_fit a fs :
  well_formed (Struct a fs) = true -> (fields_end 0 fs <= size_of (Struct a fs))%nat.
Proof. intros H. rewrite size_of_struct. by apply round_up_ge, align_pos. Qed.

(** The placed fields: aligned, in order, without overlap, inside. *)
Definition apart (f g : string * nat * ctype) : Prop := (f.1.2 + size_of f.2 <= g.1.2)%nat.

Lemma place_spec off fs :
  Forall (fun f => well_formed f.2 = true) fs ->
  Forall (fun f => Nat.divide (align_of f.2) f.1.2 /\ (off <= f.1.2)%nat
                   /\ (f.1.2 + size_of f.2 <= fields_end off fs)%nat) (place off fs)
  /\ ForallOrdPairs apart (place off fs).
Proof.
  intros H. revert off. induction H as [|[name t] fs Hf Hfs IH]; intros off; simpl in *.
  { split; constructor. }
  pose proof (round_up_ge off _ (align_pos _ Hf)) as Hge.
  destruct (IH (round_up off (align_of t) + size_of t)%nat) as [IH1 IH2].
  pose proof (fields_end_ge (round_up off (align_of t) + size_of t) fs Hfs). split.
  - constructor; simpl; [split; [apply round_up_divide|]; lia|].
    eapply Forall_impl; [exact IH1|]. simpl. intros [[n o] t'] (? & ? & ?). simpl in *.
    split; [done|lia].
  - constructor; [|done]. eapply Forall_impl; [exact IH1|]. unfold apart. simpl. tauto.
Qed.

Lemma fields_well_formed fs :
  Forall (fun f => well_formed f.2 = true) fs ->
  forall off i f, place off fs !! i = Some f -> well_formed f.2 = true.
Proof.
  induction 1 as [|[name t] fs Hf _ IH]; intros off i f; simpl; [done|].
  destruct i as [|i]; simpl; [by intros [= <-]|apply IH].
Qed.

(** Two different placed fields lie apart, one way or the other. *)
Lemma apart_either (l : list (string * nat * ctype)) i j f g :
  ForallOrdPairs apart l -> i <> j -> l !! i = Some f -> l !! j = Some g -> apart f g \/ apart g f.
Proof.
  intros Hl. revert i j. induction Hl as [|x l Hx _ IH]; intros [|i] [|j] Hij Hf Hg; simplify_eq/=; try done.
  - left. rewrite Forall_forall in Hx. by apply Hx, (list_elem_of_lookup_2 _ j).
  - right. rewrite Forall_forall in Hx. by apply Hx, (list_elem_of_lookup_2 _ i).
  - apply (IH i j); [congruence|done|done].
Qed.

(** ** Storing and loading *)

(** [mem'] differs from [mem] at most in the [n] bytes from [off] on. *)
Definition within (off n : nat) (mem mem' : list Z) : Prop :=
  length mem' = length mem
  /\ forall i, (i < off \/ off + n <= i)%nat -> mem' !! i = mem !! i.

Lemma within_refl off n mem : within off n mem mem.
Proof. done. Qed.

Lemma within_trans off n m1 m2 m3 : within off n m1 m2 -> within off n m2 m3 -> within off n m1 m3.
Proof. intros [L1 H1] [L2 H2]. split; [congruence|]. intros i Hi. by rewrite H2, H1. Qed.

Lemma within_weaken off n off' n' m1 m2 :
  within off n m1 m2 -> (off' <= off)%nat -> (off + n <= off' + n')%nat -> within off' n' m1 m2.
Proof. intros [L H] ? ?. split; [done|]. intros i Hi. apply H. lia. Qed.

Lemma within_bytes off n o k m1 m2 :
  within off n m1 m2 -> (o + k <= off \/ off + n <= o)%nat -> bytes_at o k m2 = bytes_at o k m1.
Proof. intros [_ H] ?. apply bytes_at_ext. intros i Hi. apply H. lia. Qed.

Lemma within_inserts off bs mem : within off (length bs) mem (list_inserts off bs mem).
Proof.
  split; [apply length_inserts|]. intros i [?|?].
  - by apply list_lookup_inserts_lt.
  - by apply list_lookup_inserts_ge.
Qed.

#[export] Hint Resolve within_refl within_trans : hrx.

Lemma within_scalar off w z mem : within off w mem (list_inserts off (le_bytes w z) mem).
Proof. rewrite <- (length_le_bytes w z) at 1. apply within_inserts. Qed.

Lemma store_elems_within (st : value -> nat -> list Z -> list Z) s vs :
  (forall v off mem, In v vs -> within off s mem (st v off mem)) ->
  forall off mem, within off (length vs * s) mem (store_elems st s vs off mem).
Proof.
  induction vs as [|v vs IH]; intros Hst off mem; simpl; [done|].
  eapply within_trans.
  - eapply within_weaken; [apply (Hst v off mem); by left|lia|nia].
  - eapply within_weaken; [apply IH; intros; apply Hst; by right|lia|lia].
Qed.

Lemma store_fields_within (st : ctype -> value -> nat -> list Z -> list Z) base fs vs :
  Forall (fun f => well_formed f.2 = true) fs ->
  Forall (fun f => forall v off mem, typed f.2 v = true -> within off (size_of f.2) mem (st f.2 v off mem)) fs ->
  typed_fields typed fs vs = true ->
  forall off mem, within (base + off) (fields_end off fs - off) mem (store_fields st base fs vs off mem).
Proof.
  intros Hwf Hst. revert vs. induction Hwf as [|f fs Hf Hfs IH]; intros [|v vs] Hty off mem; try done.
  simpl in *. apply andb_true_iff in Hty as [Hv Hvs]. inversion Hst as [|? ? Hf1 Hst1]; subst.
  pose proof (round_up_ge off _ (align_pos _ Hf)).
  pose proof (fields_end_ge (round_up off (align_of f.2) + size_of f.2) fs Hfs).
  eapply within_trans.
  - eapply within_weaken; [by apply (Hf1 v (base + round_up off (align_of f.2))%nat mem)|lia|lia].
  - eapply within_weaken; [by apply IH|lia|lia].
Qed.

Lemma typed_array t n vs :
  typed (Array t n) (VList vs) = true <-> length vs = n /\ Forall (fun v => typed t v = true) vs.
Proof. simpl. by rewrite andb_true_iff, Nat.eqb_eq, forallb_Forall. Qed.

(** A store changes no byte outside its object. *)
Lemma store_within t : well_formed t = true ->
  forall v off mem, typed t v = true -> within off (size_of t) mem (store t v off mem).
Proof.
  induction t as [w|w|t n IH|a fs IH] using ctype_nested_ind; intros Hwf [z|vs] off mem Hty; try done.
  - apply within_scalar.
  - apply within_scalar.
  - apply typed_array in Hty as [<- Hvs]. rewrite Forall_forall in Hvs.
    apply store_elems_within. intros v o m Hv. apply IH; [done|]. by apply Hvs, list_elem_of_In.
  - pose proof (fields_fit a fs Hwf). apply well_formed_struct in Hwf as [_ Hfs].
    eapply within_weaken; [apply (store_fields_within store off fs vs); [done| |done]|lia|lia].
    rewrite Forall_forall in *. intros f Hf v o m Hv. by apply IH, Hv; auto.
Qed.

(** A load depends on no byte outside its object. *)
Lemma load_within t : well_formed t = true ->
  forall off o n m1 m2, within o n m1 m2 -> (off + size_of t <= o \/ o + n <= off)%nat ->
  load t off m2 = load t off m1.
Proof.
  induction t as [w|w|t k IH|a fs IH] using ctype_nested_ind; intros Hwf off o n m1 m2 Hw Hd.
  - simpl. do 2 f_equal. by eapply within_bytes.
  - simpl. do 3 f_equal. by eapply within_bytes.
  - simpl. f_equal. apply list_fmap_ext. intros j i [-> Hi]%lookup_seq.
    eapply IH; [done|exact Hw|]. unfold size_of in *. simpl in *. nia.
  - pose proof (fields_fit a fs Hwf) as Hfit. apply well_formed_struct in Hwf as [_ Hfs].
    simpl. f_equal. assert (He : (off + fields_end 0 fs <= o \/ o + n <= off + 0)%nat) by lia.
    clear Hd Hfit. revert He. generalize 0%nat as p.
    induction Hfs as [|f fs Hf Hfs IHf]; intros p He; simpl in *; [done|].
    inversion IH as [|? ? IH1 IH2]; subst.
    pose proof (round_up_ge p _ (align_pos _ Hf)).
    pose proof (fields_end_ge (round_up p (align_of f.2) + size_of f.2) fs Hfs).
    f_equal; [eapply IH1; [done|exact Hw|lia]|apply IHf; [done|lia]].
Qed.

Lemma within_sym off n m1 m2 : within off n m1 m2 -> within off n m2 m1.
Proof. intros [L H]. split; [done|]. intros i Hi. by rewrite H. Qed.

Lemma word_round_trip off w z mem :
  (off + w <= length mem)%nat ->
  le_value (bytes_at off w (list_inserts off (le_bytes w z) mem)) = z mod 2 ^ bits w.
Proof.
  intros H. rewrite <- (length_le_bytes w z) at 1. rewrite bytes_at_inserts by by rewrite length_le_bytes.
  apply le_value_bytes.
Qed.

Lemma to_signed_mod w z :
  - 2 ^ (bits w - 1) <= z < 2 ^ (bits w - 1) -> to_signed w (z mod 2 ^ bits w) = z.
Proof.
  intros Hz. destruct w as [|w]; [change (2 ^ (bits 0 - 1)) with 0 in Hz; lia|].
  assert (E : 2 ^ bits (S w) = 2 * 2 ^ (bits (S w) - 1)).
  { rewrite <- Z.pow_succ_r by (unfold bits; lia). f_equal. lia. }
  unfold to_signed. destruct (decide (0 <= z)).
  - rewrite Z.mod_small by lia. destruct (Z.ltb_spec z (2 ^ (bits (S w) - 1))); lia.
  - replace (z mod 2 ^ bits (S w)) with (z + 2 ^ bits (S w)).
    + destruct (Z.ltb_spec (z + 2 ^ bits (S w)) (2 ^ (bits (S w) - 1))); lia.
    + rewrite <- (Z.mod_small (z + 2 ^ bits (S w)) (2 ^ bits (S w))) by lia.
      rewrite <- (Z.mul_1_l (2 ^ bits (S w))) at 1. apply Z.mod_add. lia.
Qed.

Lemma load_fields_place (ld : ctype -> nat -> list Z -> value) base fs off mem :
  load_fields ld base fs off mem = (fun f => ld f.2 (base + f.1.2)%nat mem) <$> place off fs.
Proof.
  revert off. induction fs as [|[name t] fs IH]; intros off; simpl; [done|]. by rewrite IH.
Qed.

Lemma load_store_elems t vs :
  well_formed t = true -> Forall (fun v => typed t v = true) vs ->
  (forall v off mem, typed t v = true -> (off + size_of t <= length mem)%nat ->
     load t off (store t v off mem) = v) ->
  forall off mem, (off + length vs * size_of t <= length mem)%nat ->
  (fun i => load t (off + i * size_of t)%nat (store_elems (store t) (size_of t) vs off mem))
    <$> seq 0 (length vs) = vs.
Proof.
  intros Hwf Hvs Hrt. induction Hvs as [|v vs Hv Hvs IH]; intros off mem Hl; [done|].
  cbn [store_elems length seq fmap list_fmap]. cbn [length] in Hl.
  assert (Hin : forall u o m, In u vs -> within o (size_of t) m (store t u o m)).
  { rewrite Forall_forall in Hvs. intros u o m Hu. apply store_within; [done|]. by apply Hvs, list_elem_of_In. }
  f_equal.
  - transitivity (load t off (store t v off mem)); [|apply Hrt; [done|lia]].
    rewrite Nat.mul_0_l, Nat.add_0_r.
    eapply load_within; [done|by apply store_elems_within|lia].
  - etrans; [|apply (IH (off + size_of t)%nat (store t v off mem))].
    + rewrite <- fmap_S_seq, <- list_fmap_compose. apply list_fmap_ext. intros j i _. simpl. f_equal. lia.
    + destruct (store_within t Hwf v off mem Hv) as [-> _]. lia.
Qed.

Lemma load_store_fields base fs vs :
  Forall (fun f => well_formed f.2 = true) fs ->
  Forall (fun f => forall v off mem, typed f.2 v = true -> (off + size_of f.2 <= length mem)%nat ->
     load f.2 off (store f.2 v off mem) = v) fs ->
  typed_fields typed fs vs = true ->
  forall off mem, (base + fields_end off fs <= length mem)%nat ->
  load_fields load base fs off (store_fields store base fs vs off mem) = vs.
Proof.
  intros Hwf Hrt. revert vs. induction Hwf as [|f fs Hf Hfs IH]; intros [|v vs] Hty off mem Hl; try done.
  simpl in *. apply andb_true_iff in Hty as [Hv Hvs]. inversion Hrt as [|? ? Hf1 Hrt1]; subst.
  set (o := round_up off (align_of f.2)) in *.
  pose proof (fields_end_ge (o + size_of f.2) fs Hfs).
  destruct (store_within f.2 Hf v (base + o) mem Hv) as [Hlen _]. f_equal.
  - transitivity (load f.2 (base + o) (store f.2 v (base + o) mem)); [|apply Hf1; [done|lia]].
    eapply load_within; [done|apply store_fields_within; [done| |done]|lia].
    eapply Forall_impl; [exact Hfs|]. intros g Hg u o' m. by apply store_within.
  - apply IH; [done|done|]. by rewrite Hlen.
Qed.

(** What is stored is loaded again. *)
Lemma load_store t : well_formed t = true ->
  forall v off mem, typed t v = true -> (off + size_of t <= length mem)%nat ->
  load t off (store t v off mem) = v.
Proof.
  induction t as [w|w|t n IH|a fs IH] using ctype_nested_ind; intros Hwf [z|vs] off mem Hty Hl; try done.
  - simpl in Hty. bool_to_prop. simpl. rewrite word_round_trip by done. by rewrite Z.mod_small by lia.
  - simpl in Hty. bool_to_prop. simpl. rewrite word_round_trip by done. by rewrite to_signed_mod by lia.
  - apply typed_array in Hty as [<- Hvs]. simpl. f_equal. apply load_store_elems; [done|done|by apply IH|done].
  - pose proof (fields_fit a fs Hwf). apply well_formed_struct in Hwf as [_ Hfs]. simpl. f_equal.
    apply load_store_fields; [done| |done|lia]. rewrite Forall_forall in *. auto.
Qed.

(** A reader that knows only a field's offset and type reads the field's value. *)
Lemma load_field a fs vs off mem i name o t v :
  well_formed (Struct a fs) = true -> typed (Struct a fs) (VList vs) = true ->
  (off + size_of (Struct a fs) <= length mem)%nat ->
  fields_of (Struct a fs) !! i = Some (name, o, t) -> vs !! i = Some v ->
  load t (off + o) (store (Struct a fs) (VList vs) off mem) = v.
Proof.
  intros Hwf Hty Hl Hi Hv. pose proof (load_store _ Hwf _ off mem Hty Hl) as E.
  cbn [load] in E. injection E as E. rewrite load_fields_place in E.
  apply (f_equal (lookup i)) in E. rewrite list_lookup_fmap, Hv in E.
  unfold fields_of in Hi. rewrite Hi in E. by injection E.
Qed.

(** ** Loading bytes gives values of the type *)

Definition is_byte (b : Z) : Prop := 0 <= b < 256.

Lemma le_value_range bs : Forall is_byte bs -> 0 <= le_value bs < 2 ^ bits (length bs).
Proof.
  unfold is_byte. induction 1 as [|b bs Hb _ IH]; [done|].
  cbn [le_value length]. rewrite bits_S. lia.
Qed.

Lemma bytes_at_range off n mem :
  Forall is_byte mem -> (off + n <= length mem)%nat -> 0 <= le_value (bytes_at off n mem) < 2 ^ bits n.
Proof.
  intros H Hl. pose proof (le_value_range (bytes_at off n mem)) as R.
  rewrite length_bytes_at in R by done. apply R. unfold bytes_at. by apply Forall_take, Forall_drop.
Qed.

Lemma to_signed_range w z :
  (0 < w)%nat -> 0 <= z < 2 ^ bits w -> - 2 ^ (bits w - 1) <= to_signed w z < 2 ^ (bits w - 1).
Proof.
  intros Hw Hz. assert (2 ^ bits w = 2 * 2 ^ (bits w - 1)).
  { rewrite <- Z.pow_succ_r by (unfold bits; lia). f_equal. lia. }
  unfold to_signed. destruct (Z.ltb_spec z (2 ^ (bits w - 1))); lia.
Qed.

Lemma load_typed t : well_formed t = true ->
  forall off mem, Forall is_byte mem -> (off + size_of t <= length mem)%nat -> typed t (load t off mem) = true.
Proof.
  induction t as [w|w|t n IH|a fs IH] using ctype_nested_ind; intros Hwf off mem Hb Hl.
  - simpl. pose proof (bytes_at_range off w mem Hb Hl). apply andb_true_iff. lia.
  - simpl. pose proof (to_signed_range w _ (align_pos _ Hwf) (bytes_at_range off w mem Hb Hl)).
    apply andb_true_iff. lia.
  - cbn [load]. apply typed_array. rewrite length_fmap, length_seq. split; [done|].
    apply Forall_fmap, Forall_forall. intros i [_ Hi]%elem_of_seq. apply IH; [done|done|].
    unfold size_of in *. simpl in *. nia.
  - pose proof (fields_fit a fs Hwf) as Hfit. apply well_formed_struct in Hwf as [_ Hfs].
    cbn [load typed]. assert (He : (off + fields_end 0 fs <= length mem)%nat) by lia.
    clear Hfit Hl. revert He. generalize 0%nat as p.
    induction Hfs as [|f fs Hf Hfs IHf]; intros p He; simpl in *; [done|].
    inversion IH as [|? ? IH1 IH2]; subst.
    pose proof (fields_end_ge (round_up p (align_of f.2) + size_of f.2) fs Hfs).
    apply andb_true_iff. split; [apply IH1; [done|done|lia]|by apply IHf].
Qed.
