(* ===== verification/Fuzz.v ===== *)
(** * The fuzz targets: fuzz/fuzz_targets/{buffer_lifecycle,value_list_lifecycle}.rs

    Two programs that read API calls off arbitrary bytes and keep their own
    reference counts, so that a sanitizer sees a crash or a leak when the library
    miscounts.  The model runs them on the model of the library; the arrays of a
    target are lists, its out-parameters stack locals. *)

From S2P Require Import Prelude Iree Objects Machine Handle Status IreeHal Device Semaphore Buffer HostAllocator Executable BufferView ValueList Modules QueueOps Stream Pool StreamAlloc Runtime Lifecycle Scenario Ownership StreamTimeline StatusLedger Layout.

(** ** What the two targets share *)

Definition POOL : nat := 4.

(** [((byte >> 4) as usize) % POOL]. *)
Definition slot_of (byte : Z) : nat := Z.to_nat (Z.shiftr byte 4 mod Z.of_nat POOL).

(** [data.get(i).copied().unwrap_or(0)] and [i += 1]. *)
Definition next_byte (data : list Z) : Z * list Z :=
  match data with [] => (0, []) | b :: rest => (b, rest) end.

(** Indexing an array of the target. *)
Definition array_get {A} (l : list A) (i : nat) : M A := expect (l !! i) "index out of bounds"%string.

Section Targets.
Context `{IREE}.

(** [while refs[slot] > 0 { release(handle); refs[slot] -= 1 }]. *)
Fixpoint release_all (release : ptr -> M unit) (h : ptr) (refs : nat) : M unit :=
  match refs with O => mret tt | S n => release h ;; release_all release h n end.

(** [for slot in 0..POOL]. *)
Fixpoint release_slots (release : ptr -> M unit) (hs : list ptr) (rs : list Z) : M unit :=
  match hs, rs with
  | h :: hs, r :: rs => release_all release h (Z.to_nat r) ;; release_slots release hs rs
  | _, _ => mret tt
  end.

(** Dropping one reference: the slot is cleared with the last. *)
Definition drop_slot (release : ptr -> M unit) (hs : list ptr) (rs : list Z) (slot : nat) (h : ptr) (r : Z)
  : M (list ptr * list Z) :=
  release h ;;
  let r' := wrap_u32 (r - 1) in
  mret (if r' =? 0 then <[slot := null]> hs else hs, <[slot := r']> rs).

(** ** value_list_lifecycle.rs *)

(** [take8]: eight bytes, zero past the end, as a little-endian i64. *)
Definition take8 (data : list Z) : Z * list Z :=
  (to_signed 8 (le_value (take 8 (data ++ replicate 8 0))), drop 8 data).

(** One turn of the loop: the lists, their counts and the bytes left. *)
Definition list_step (byte : Z) (data : list Z) (lists : list ptr) (refs : list Z)
  : M (list ptr * list Z * list Z) :=
  let slot := slot_of byte in
  l ← array_get lists slot;
  r ← array_get refs slot;
  let live := negb (is_null l) in
  let op := byte mod 6 in
  if (op =? 0) && negb live then
    let '(cap, data) := next_byte data in
    '(st, l) ← with_local null (fun out => hrx_value_list_create cap out);
    hrx_status_ignore st ;;
    mret (if negb (is_null l) then (<[slot := l]> lists, <[slot := 1]> refs, data) else (lists, refs, data))
  else if (op =? 1) && live then
    let '(v, data) := take8 data in
    st ← hrx_value_list_push_i64 l v;
    hrx_status_ignore st ;;
    mret (lists, refs, data)
  else if (op =? 2) && live then
    st ← hrx_value_list_push_null_ref l;
    hrx_status_ignore st ;;
    mret (lists, refs, data)
  else if (op =? 3) && live then
    '(st, _) ← with_local 0 (fun sz => hrx_value_list_size l sz);
    hrx_status_ignore st ;;
    let '(idx, data) := next_byte data in
    '(st, _) ← with_local 0 (fun out => hrx_value_list_get_i64 l idx out);
    hrx_status_ignore st ;;
    mret (lists, refs, data)
  else if (op =? 4) && live then
    hrx_value_list_retain l ;;
    mret (lists, <[slot := wrap_u32 (r + 1)]> refs, data)
  else if (op =? 5) && live then
    '(lists, refs) ← drop_slot hrx_value_list_release lists refs slot l r;
    mret (lists, refs, data)
  else mret (lists, refs, data).

(** [while i < data.len()]; [None] when [fuel] runs out. *)
Fixpoint list_loop (fuel : nat) (data : list Z) (lists : list ptr) (refs : list Z)
  : M (option (list ptr * list Z)) :=
  match fuel with
  | O => mret None
  | S fuel =>
      match data with
      | [] => mret (Some (lists, refs))
      | byte :: data =>
          '(lists, refs, data) ← list_step byte data lists refs;
          list_loop fuel data lists refs
      end
  end.

(** The target; [once] tells whether [INIT] has run. *)
Definition value_list_lifecycle (once : bool) (data : list Z) : M (option unit) :=
  (if once then mret tt else st ← hrx_cpu_initialize 0; hrx_status_ignore st) ;;
  end_ ← list_loop (S (length data)) data (replicate POOL null) (replicate POOL 0);
  match end_ with
  | None => mret None
  | Some (lists, refs) => release_slots hrx_value_list_release lists refs ;; mret (Some tt)
  end.

(** ** buffer_lifecycle.rs *)

Definition HOST_PARAMS : HrxBufferParams := HrxParams 70 7 16780291 0.
Definition HRX_MAP_READ : Z := 1.
Definition HRX_MAP_WRITE : Z := 2.

(** [setup_allocator]; [once] is the static [ALLOC] when [INIT] has run. *)
Definition setup_allocator (once : option ptr) : M ptr :=
  match once with
  | Some alloc => mret alloc
  | None =>
      st ← hrx_cpu_initialize 0;
      hrx_status_ignore st ;;
      '(st, dev) ← with_local null (fun out => hrx_cpu_device_get 0 out);
      hrx_status_ignore st ;;
      hrx_device_allocator dev
  end.

Definition buffer_step (alloc : ptr) (byte : Z) (data : list Z) (bufs : list ptr) (refs sizes : list Z)
  : M (list ptr * list Z * list Z * list Z) :=
  let slot := slot_of byte in
  b ← array_get bufs slot;
  r ← array_get refs slot;
  n ← array_get sizes slot;
  let live := negb (is_null b) in
  let op := byte mod 6 in
  if (op =? 0) && negb live then
    let '(x, data) := next_byte data in
    let size := x * 16 + 1 in
    '(st, b) ← with_local null (fun out => hrx_allocator_allocate_buffer alloc HOST_PARAMS size out);
    hrx_status_ignore st ;;
    mret (if negb (is_null b)
          then (<[slot := b]> bufs, <[slot := 1]> refs, <[slot := size]> sizes, data)
          else (bufs, refs, sizes, data))
  else if (op =? 1) && live then
    hrx_buffer_retain b ;;
    mret (bufs, <[slot := wrap_u32 (r + 1)]> refs, sizes, data)
  else if (op =? 2) && live then
    '(bufs, refs) ← drop_slot hrx_buffer_release bufs refs slot b r;
    mret (bufs, refs, sizes, data)
  else if (op =? 3) && live then
    '(st, p) ← with_local null (fun out => hrx_buffer_map b (Z.lor HRX_MAP_READ HRX_MAP_WRITE) 0 n out);
    let ok := is_null st in
    hrx_status_ignore st ;;
    (if ok && negb (is_null p) then write_out p byte else mret tt) ;;
    mret (bufs, refs, sizes, data)
  else if (op =? 4) && live then
    st ← hrx_buffer_unmap b;
    hrx_status_ignore st ;;
    mret (bufs, refs, sizes, data)
  else if (op =? 5) && live then
    '(st, _) ← with_local 0 (fun sz => hrx_buffer_get_size b sz);
    hrx_status_ignore st ;;
    mret (bufs, refs, sizes, data)
  else mret (bufs, refs, sizes, data).

Fixpoint buffer_loop (fuel : nat) (alloc : ptr) (data : list Z) (bufs : list ptr) (refs sizes : list Z)
  : M (option (list ptr * list Z)) :=
  match fuel with
  | O => mret None
  | S fuel =>
      match data with
      | [] => mret (Some (bufs, refs))
      | byte :: data =>
          '(bufs, refs, sizes, data) ← buffer_step alloc byte data bufs refs sizes;
          buffer_loop fuel alloc data bufs refs sizes
      end
  end.

Definition buffer_lifecycle (once : option ptr) (data : list Z) : M (option unit) :=
  alloc ← setup_allocator once;
  if is_null alloc then mret (Some tt)
  else
    end_ ← buffer_loop (S (length data)) alloc data (replicate POOL null) (replicate POOL 0) (replicate POOL 0);
    match end_ with
    | None => mret None
    | Some (bufs, refs) => release_slots hrx_buffer_release bufs refs ;; mret (Some tt)
    end.
End Targets.
