(* ===== verification/FuzzLogic.v ===== *)
(** * Reasoning about the fuzz targets

    A run of a target is a sequence of calls, each followed by [hrx_status_ignore],
    over a pool of four slots.  This file has the rules for one such call (with and
    without a local for its out-parameter) and the invariant of a pool: the client's
    references are exactly the counts the target keeps. *)

From S2P Require Import Prelude Iree Objects Machine Handle Status IreeHal Device Semaphore Buffer HostAllocator Executable BufferView ValueList Modules QueueOps Stream Pool StreamAlloc Runtime Lifecycle Scenario Ownership StreamTimeline StatusLedger Layout Fuzz.

(** ** Moves of the state

    [moved w w' G]: the statics and the libc heap of [w] are those of [w'], nothing
    foreign was gained or lost, and the client's references changed by [G]. *)
Record moved (w w' : world) (G : ptr -> Z) : Prop := Moved {
  mv_wf : wf w';
  mv_eff : eff w w' none G;
  mv_glob : w_glob w' = w_glob w;
  mv_cheap : w_cheap w' = w_cheap w;
}.

Lemma moved_refl w : wf w -> moved w w none.
Proof. intros. split; [done|apply eff_refl|done|done]. Qed.

Lemma moved_trans w1 w2 w3 G1 G2 :
  wf w1 -> moved w1 w2 G1 -> moved w2 w3 G2 -> moved w1 w3 (fun q => G1 q + G2 q).
Proof.
  intros Hwf [_ E1 ? ?] [? E2 ? ?]. split; [done| |congruence|congruence].
  eapply eff_equiv; [exact (eff_trans _ _ _ _ _ _ _ Hwf E1 E2)|done|done].
Qed.

Lemma moved_equiv w w' G G' : moved w w' G -> (forall q, G' q = G q) -> moved w w' G'.
Proof. intros [? ? ? ?] HG. split; [done| |done|done]. by eapply eff_equiv. Qed.

Lemma moved_set_mem w w' G m : moved w w' G -> moved w (set_mem w' m) G.
Proof.
  intros [Hwf [] ? ?]. split; [|split; assumption|assumption|assumption].
  by apply (safe_wf _ _ _ _ (safe_set_mem w' m Hwf)).
Qed.

(** Cells of client memory stay mapped. *)
Definition mapped {A} (m : M A) : Prop :=
  forall w a w', m w = Done a w' -> mem_grow w w'.

Create HintDb mapped.

Section Mapped.
Context `{IREE}.

Lemma mapped_ret {A} (a : A) : mapped (mret a).
Proof. by intros w b w' [= <- <-] p. Qed.

Lemma mapped_bind {A B} (m : M A) (f : A -> M B) :
  mapped m -> (forall a, mapped (f a)) -> mapped (m ≫= f).
Proof. intros Hm Hf w b w' (a & w1 & E1 & E2)%bind_inv p Hp. eapply Hf; [done|]. by eapply Hm. Qed.

Lemma mapped_call {A : Set} (c : ffi A) : mapped (call c).
Proof. intros w a w' E. unfold call in E. injection E as <- <-. by intros p. Qed.

Lemma mapped_write_out p v : mapped (write_out p v).
Proof.
  intros w a w'. unfold write_out. destruct (is_null p); [done|]. intros [= <- <-] q Hq. simpl.
  destruct (decide (p = q)) as [->|]; [rewrite lookup_insert_eq; by eexists|by rewrite lookup_insert_ne].
Qed.
End Mapped.
#[export] Hint Resolve mapped_ret mapped_call mapped_write_out : mapped.

Ltac mapped_prim :=
  let w := fresh in let a := fresh in let w' := fresh in let E := fresh in
  intros w a w' E; repeat case_match; simplify_eq; intros ? ?; simpl; assumption.

Ltac mapped_step :=
  lazymatch goal with
  | |- mapped (_ ≫= _) => apply mapped_bind; [|intros]
  | |- mapped (match ?x with _ => _ end) => destruct x
  | |- mapped ?m => first [ solve [auto with mapped] | let f := head_of m in unfold f; mapped_prim
                          | let f := head_of m in unfold f ]
  end.
Ltac mapped_tac := repeat mapped_step.

(** ** A call and the [hrx_status_ignore] of its answer *)

Section Ignoring.
Context `{IREE}.

Lemma wp_ignore {A B} (m : M A) (S : A -> ptr) (R : A -> (ptr -> Z) -> world -> Prop) (K : A -> M B) Q w :
  wf w -> carry 0 m S -> keeps m ->
  wp m (fun a w' => wf w' /\ exists G, eff w w' none G /\ R a G w') w ->
  (forall a w' w'' G, moved w w'' G -> w_heap w'' = w_heap w' -> R a G w' -> wp (K a) Q w'') ->
  wp (a ← m; hrx_status_ignore (S a) ;; K a) Q w.
Proof.
  intros Hwf Hc Hk (a & w' & E & Hwf' & G & HE & HR)%wp_Done HK. apply wp_bind.
  apply wp_Done. exists a, w'. split; [done|]. apply wp_bind.
  destruct (Hc (w_cheap w) _ _ _ E) as [Hf Hs]; [by apply wf_cheap|by apply status_on_null|].
  apply wp_Done. eexists tt, _. split; [by eapply ignore_outstanding|].
  eapply (HK a w' _ G); [|done|exact HR]. split; [|by destruct HE; split|by apply Hk in E|done].
  destruct Hwf'. split; try assumption. by apply (proj2 (status_on_fresh _ _ _ Hf Hs)).
Qed.

Lemma wp_bind_ext {A B} (m : M A) (f g : A -> M B) Q w :
  (forall a, f a = g a) -> wp (m ≫= f) Q w -> wp (m ≫= g) Q w.
Proof. intros Hfg. unfold wp, mbind, M_bind. destruct (m w); [by rewrite Hfg|done|done]. Qed.

(** A call that creates nothing. *)
Lemma wp_call_ignored {B} c (K : M B) Q w :
  wf w -> touches_globals c = false -> hands_over c = false ->
  wp (exec c) (fun r w' => entry_ok w w' r) w ->
  (forall w', moved w w' none -> wp K Q w') ->
  wp (r ← exec c; hrx_status_ignore r ;; K) Q w.
Proof.
  intros Hwf Ht Hh Hc HK. apply (wp_ignore _ (fun r => r) (fun _ G _ => G = none)); [done|..].
  - by apply carry_exec.
  - by apply exec_keeps.
  - eapply wp_mono; [exact Hc|]. intros r w' [[] _]. eauto.
  - intros a w' w'' G HM _ ->. by apply HK.
Qed.

(** A call with a local for its out-parameter, seen from inside and from outside. *)
Lemma wp_local_ignored {B} (c : ptr -> api) init (R : ptr -> Z -> (ptr -> Z) -> world -> Prop)
  (K : ptr -> Z -> M B) Q w :
  wf w -> (forall p, touches_globals (c p) = false) -> (forall p, hands_over (c p) = false) ->
  (forall w1, safe w w1 none none -> w_mem w1 !! w_next w = Some init -> w_next w <> 0 ->
     w_glob w1 = w_glob w ->
     wp (exec (c (w_next w))) (fun r w2 => exists v, w_mem w2 !! w_next w = Some v /\
       wf w2 /\ exists G, eff w1 w2 none G /\ R r v G w2) w1) ->
  (forall r v w' w'' G, moved w w'' G -> w_heap w'' = w_heap w' -> R r v G w' -> wp (K r v) Q w'') ->
  wp ('(r, v) ← with_local init (fun p => exec (c p)); hrx_status_ignore r ;; K r v) Q w.
Proof.
  intros Hwf Ht Hh Hc HK.
  apply (wp_bind_ext _ (fun rv => hrx_status_ignore (rv.1) ;; K rv.1 rv.2)); [by intros []|].
  apply (wp_ignore _ fst (fun rv G w3 => exists w2, w_heap w3 = w_heap w2 /\ R rv.1 rv.2 G w2)
    (fun rv => K rv.1 rv.2)); [done|..].
  - apply (carry_with_local 0 _ _ (fun r => r)). intros p. by apply carry_exec.
  - apply keeps_with_local. intros p. by apply exec_keeps.
  - eapply wp_mono.
    { apply (with_local_spec init _ (fun r v w2 => wf w2 /\ exists G, eff w w2 none G /\ R r v G w2)); [done|].
      intros w1 -> HS Hn. eapply wp_mono; [apply (Hc _ HS)|].
      - simpl. by rewrite lookup_insert_eq.
      - by apply is_null_false.
      - done.
      - intros r w2 (v & Hv & Hwf2 & G & HE & HR). exists v. split; [done|]. split; [done|].
        exists G. split; [|done]. eapply eff_equiv; [eapply eff_trans; [exact Hwf|apply HS|exact HE]|done|done]. }
    intros [r v] w3 (w2 & m & (Hwf2 & G & HE & HR) & -> & _). simpl in *.
    split; [by apply (safe_wf _ _ _ _ (safe_set_mem w2 m Hwf2))|].
    exists G. split; [by destruct HE; split|]. by exists w2.
  - intros [r v] w' w'' G HM Hp (w2 & Hp2 & HR). eapply (HK r v w2 w'' G); [done| |exact HR]. congruence.
Qed.

(** An out-parameter that receives plain data. *)
Lemma wp_out_ignored {B} (c : ptr -> api) init (K : ptr -> Z -> M B) Q w :
  wf w -> (forall p, touches_globals (c p) = false) -> (forall p, hands_over (c p) = false) ->
  (forall p, mapped (exec (c p))) ->
  (forall w1 p, safe w w1 none none -> wp (exec (c p)) (fun r w2 => entry_ok w1 w2 r) w1) ->
  (forall r v w', moved w w' none -> wp (K r v) Q w') ->
  wp ('(r, v) ← with_local init (fun p => exec (c p)); hrx_status_ignore r ;; K r v) Q w.
Proof.
  intros Hwf Ht Hh Hm Hc HK. apply (wp_local_ignored c init (fun _ _ G _ => G = none)); [done..| |].
  - intros w1 HS Hv _ _. pose proof (Hc w1 (w_next w) HS) as (r & w2 & E & [? ? _] & _)%wp_Done.
    apply wp_Done. exists r, w2. split; [done|].
    destruct (Hm _ _ _ _ E (w_next w)) as [v Hv2]; [by eexists|]. eauto 10.
  - intros r v w' w'' G HM _ ->. by apply HK.
Qed.
End Ignoring.

(** ** The references a pool of slots stands for *)

Definition slot_refs (hs : list ptr) (rs : list Z) (q : ptr) : Z :=
  lsum (fun s => s.2 * one s.1 q) (zip hs rs).

Lemma slot_refs_insert hs rs i h r h' r' q :
  hs !! i = Some h -> rs !! i = Some r ->
  slot_refs (<[i := h']> hs) (<[i := r']> rs) q = slot_refs hs rs q - r * one h q + r' * one h' q.
Proof.
  intros Hh Hr. unfold slot_refs. rewrite <- insert_zip_with.
  rewrite (lsum_insert _ _ _ (h, r)); [done|]. by rewrite lookup_zip_with, Hh; simpl; rewrite Hr.
Qed.

Lemma slot_refs_cons h hs r rs q : slot_refs (h :: hs) (r :: rs) q = r * one h q + slot_refs hs rs q.
Proof. done. Qed.

Lemma slot_refs_nonneg hs rs q : Forall (Z.le 0) rs -> 0 <= slot_refs hs rs q.
Proof.
  intros Hp. revert hs. induction Hp as [|r rs Hr Hp IH]; intros [|h hs]; try done.
  rewrite slot_refs_cons. pose proof (one_nonneg h q). specialize (IH hs). nia.
Qed.

Lemma slot_refs_lookup hs rs i h r :
  Forall (Z.le 0) rs -> hs !! i = Some h -> rs !! i = Some r -> r <= slot_refs hs rs h.
Proof.
  intros Hp. revert hs i. induction Hp as [|r0 rs Hr Hp IH]; intros [|h0 hs] [|i] Hh Hr0; try discriminate;
    rewrite slot_refs_cons; simpl in *.
  - simplify_eq. rewrite one_eq. pose proof (slot_refs_nonneg hs rs h Hp). lia.
  - pose proof (IH hs i Hh Hr0). pose proof (one_nonneg h0 h). nia.
Qed.

(** The state of a target's pool, [n] bounding the counts: each slot is empty or
    holds a usable handle, and the client's references are exactly the counts. *)
Record pool_ok (k : kind) (w0 w : world) (n : Z) (hs : list ptr) (rs : list Z) : Prop := PoolOk {
  po_moved : moved w0 w (slot_refs hs rs);
  po_hs : length hs = POOL;
  po_rs : length rs = POOL;
  po_pos : Forall (Z.le 0) rs;
  po_slot : forall i h r, hs !! i = Some h -> rs !! i = Some r ->
    r <= n /\ (h = 0 <-> r = 0) /\ (r <> 0 -> usable w k h);
}.

Section Pools.
Context `{IREE} (k : kind) (w0 : world).
Hypothesis Hw0 : wf w0.

Lemma pool_held w n hs rs i h r :
  pool_ok k w0 w n hs rs -> hs !! i = Some h -> rs !! i = Some r -> r <= ext w h.
Proof.
  intros Hp Hh Hr. rewrite (eff_ext _ _ _ _ (mv_eff _ _ _ (po_moved _ _ _ _ _ _ Hp)) h).
  pose proof (wf_ext _ Hw0 h). pose proof (slot_refs_lookup _ _ _ _ _ (po_pos _ _ _ _ _ _ Hp) Hh Hr). lia.
Qed.

(** Changing one slot, with the references the change stands for. *)
Lemma pool_update w w' n n' hs rs i h r h' r' G :
  pool_ok k w0 w n hs rs -> hs !! i = Some h -> rs !! i = Some r -> moved w w' G ->
  (forall q, G q = r' * one h' q - r * one h q) ->
  n <= n' -> 0 <= r' <= n' -> (h' = 0 <-> r' = 0) -> (r' <> 0 -> usable w k h' \/ usable w' k h') ->
  pool_ok k w0 w' n' (<[i := h']> hs) (<[i := r']> rs).
Proof.
  intros Hp Hh Hr HM HG Hn Hr' Hz Hu.
  assert (HM' : moved w0 w' (slot_refs (<[i := h']> hs) (<[i := r']> rs))).
  { eapply moved_equiv; [exact (moved_trans _ _ _ _ _ Hw0 (po_moved _ _ _ _ _ _ Hp) HM)|].
    intros q. rewrite (slot_refs_insert _ _ _ _ _ _ _ _ Hh Hr), HG. lia. }
  assert (Hpos : Forall (Z.le 0) (<[i := r']> rs)).
  { apply Forall_insert; [exact (po_pos _ _ _ _ _ _ Hp)|lia]. }
  split; [done|rewrite length_insert; apply Hp..|done|].
  intros j h1 r1 Hh1 Hr1.
  assert (He : r1 <= ext w' h1).
  { rewrite (eff_ext _ _ _ _ (mv_eff _ _ _ HM') h1). pose proof (wf_ext _ Hw0 h1).
    pose proof (slot_refs_lookup _ _ _ _ _ Hpos Hh1 Hr1). lia. }
  assert (Hr1' : 0 <= r1) by exact (proj1 (Forall_lookup _ _) Hpos _ _ Hr1).
  assert (Hkeep : r1 <> 0 -> usable w k h1 -> usable w' k h1).
  { intros. eapply usable_held; [exact (mv_eff _ _ _ HM)|done|lia]. }
  destruct (decide (i = j)) as [<-|Hne].
  - rewrite list_lookup_insert_eq in Hh1 by (by eapply lookup_lt_Some).
    rewrite list_lookup_insert_eq in Hr1 by (by eapply lookup_lt_Some). simplify_eq.
    split; [lia|]. split; [done|]. intros Hne. destruct (Hu Hne); auto.
  - rewrite list_lookup_insert_ne in Hh1 by done. rewrite list_lookup_insert_ne in Hr1 by done.
    destruct (po_slot _ _ _ _ _ _ Hp _ _ _ Hh1 Hr1) as (? & ? & ?). split; [lia|]. auto.
Qed.

(** A call that leaves the client's references alone. *)
Lemma pool_keep w w' n n' hs rs :
  pool_ok k w0 w n hs rs -> moved w w' none -> n <= n' -> pool_ok k w0 w' n' hs rs.
Proof.
  intros Hp HM Hn. pose proof Hp as [HM0 Hl1 Hl2 Hpos Hs].
  split; [|done|done|done|].
  - eapply moved_equiv; [exact (moved_trans _ _ _ _ _ Hw0 HM0 HM)|]. intros q. unfold none. lia.
  - intros i h r Hh Hr. destruct (Hs _ _ _ Hh Hr) as (? & ? & Hu). split; [lia|]. split; [done|].
    intros Hne. eapply usable_held; [exact (mv_eff _ _ _ HM)|by apply Hu|].
    rewrite (eff_ext _ _ _ _ (mv_eff _ _ _ HM) h). pose proof (pool_held _ _ _ _ _ _ _ Hp Hh Hr).
    pose proof (proj1 (Forall_lookup _ _) Hpos _ _ Hr). unfold none. lia.
Qed.

Lemma pool_empty : pool_ok k w0 w0 0 (replicate POOL null) (replicate POOL 0).
Proof.
  split; [|done|done|by repeat constructor|].
  - eapply moved_equiv; [by apply moved_refl|]. done.
  - intros i h r [-> _]%lookup_replicate [-> _]%lookup_replicate. done.
Qed.
End Pools.

(** ** Taking and giving back references *)

Section References.
Context `{IREE} (k : kind).

Lemma wp_retain {B} h (K : M B) Q w :
  wf w -> usable w k h -> (forall w', moved w w' (one h) -> wp K Q w') -> wp (retain_kind k h ;; K) Q w.
Proof.
  intros Hwf Hu HK. apply wp_bind.
  pose proof (retain_kind_spec k h w Hwf Hu) as ([] & w' & E & [? ? _])%wp_Done.
  apply wp_Done. exists tt, w'. split; [done|]. apply HK.
  destruct (tidy_retain_kind k h _ _ _ E) as [_ ?]; [by apply wf_cheap|].
  split; [done|done|by apply (keeps_retain_kind k h) in E|done].
Qed.

Lemma wp_release {B} h (K : M B) Q w :
  wf w -> usable w k h -> 1 <= ext w h ->
  (forall w', moved w w' (fun q => - one h q) -> wp K Q w') -> wp (release_kind k h ;; K) Q w.
Proof.
  intros Hwf Hu He HK. apply wp_bind.
  pose proof (release_kind_spec k h w Hwf Hu He) as ([] & w' & E & [? ?])%wp_Done.
  apply wp_Done. exists tt, w'. split; [done|]. apply HK.
  destruct (tidy_release_kind k h _ _ _ E) as [_ ?]; [by apply wf_cheap|].
  split; [done|done|by apply (keeps_release_kind k h) in E|done].
Qed.

(** The cleanup loops give back every reference. *)
Lemma release_all_spec h n : forall w,
  wf w -> (n <> 0%nat -> usable w k h) -> Z.of_nat n <= ext w h ->
  wp (release_all (release_kind k) h n) (fun _ w' => moved w w' (fun q => - (Z.of_nat n * one h q))) w.
Proof.
  induction n as [|n IH]; intros w Hwf Hu He; simpl.
  { apply wp_ret. by apply moved_refl. }
  apply wp_release; [done|by apply Hu|lia|]. intros w1 HM.
  eapply wp_mono; [apply (IH w1 (mv_wf _ _ _ HM))|].
  - intros Hn. eapply usable_held; [exact (mv_eff _ _ _ HM)|by apply Hu|].
    rewrite (eff_ext _ _ _ _ (mv_eff _ _ _ HM) h), one_eq. lia.
  - rewrite (eff_ext _ _ _ _ (mv_eff _ _ _ HM) h), one_eq. lia.
  - intros [] w' HM'. eapply moved_equiv; [exact (moved_trans _ _ _ _ _ Hwf HM HM')|].
    intros q. cbv beta. lia.
Qed.

Lemma release_slots_spec hs : forall rs w,
  wf w -> length hs = length rs -> Forall (Z.le 0) rs ->
  (forall i h r, hs !! i = Some h -> rs !! i = Some r -> r <> 0 -> usable w k h) ->
  (forall q, slot_refs hs rs q <= ext w q) ->
  wp (release_slots (release_kind k) hs rs) (fun _ w' => moved w w' (fun q => - slot_refs hs rs q)) w.
Proof.
  induction hs as [|h hs IH]; intros [|r rs] w Hwf Hl Hp Hu He; try discriminate Hl; simpl.
  { apply wp_ret. by apply moved_refl. }
  apply Forall_cons in Hp as [Hr Hp]. apply wp_bind. eapply wp_mono.
  { apply (release_all_spec h (Z.to_nat r) w Hwf).
    - intros Hn. apply (Hu 0%nat h r); [done|done|lia].
    - specialize (He h). rewrite slot_refs_cons, one_eq in He.
      pose proof (slot_refs_nonneg hs rs h Hp). lia. }
  intros [] w1 HM. rewrite Z2Nat.id in HM by lia.
  assert (He1 : forall q, slot_refs hs rs q <= ext w1 q).
  { intros q. rewrite (eff_ext _ _ _ _ (mv_eff _ _ _ HM) q). specialize (He q).
    rewrite slot_refs_cons in He. lia. }
  eapply wp_mono; [apply (IH rs w1 (mv_wf _ _ _ HM)); [by simplify_eq/=|done| |done]|].
  - intros i h' r' Hh' Hr' Hne. eapply usable_held; [exact (mv_eff _ _ _ HM)|by apply (Hu (S i) h' r')|].
    pose proof (slot_refs_lookup _ _ _ _ _ Hp Hh' Hr'). specialize (He1 h').
    pose proof (proj1 (Forall_lookup _ _) Hp _ _ Hr'). lia.
  - intros [] w' HM'. eapply moved_equiv; [exact (moved_trans _ _ _ _ _ Hwf HM HM')|].
    intros q. rewrite slot_refs_cons. lia.
Qed.

(** Cleaning up a pool brings the client's references back. *)
Lemma release_pool w0 w n hs rs :
  wf w0 -> pool_ok k w0 w n hs rs ->
  wp (release_slots (release_kind k) hs rs) (fun _ w' => moved w0 w' none) w.
Proof.
  intros Hw0 [HM Hl1 Hl2 Hp Hs]. eapply wp_mono.
  { apply release_slots_spec; [exact (mv_wf _ _ _ HM)|congruence|done| |].
    - intros i h r Hh Hr. by apply (Hs i h r).
    - intros q. rewrite (eff_ext _ _ _ _ (mv_eff _ _ _ HM) q). pose proof (wf_ext _ Hw0 q). lia. }
  intros [] w' HM'. eapply moved_equiv; [exact (moved_trans _ _ _ _ _ Hw0 HM HM')|].
  intros q. unfold none. lia.
Qed.
End References.

(** ** Creating an object into a null local *)

(** The local holds the new object, or is still null. *)
Definition made (k : kind) (v : ptr) (G : ptr -> Z) (w' : world) : Prop :=
  (v = 0 /\ G = none) \/ (v <> 0 /\ G = one v /\ usable w' k v).

Definition makes (k : kind) (out : ptr) (w w' : world) : Prop :=
  exists v, w_mem w' !! out = Some v /\ wf w' /\ exists G, eff w w' none G /\ made k v G w'.

Lemma makes_created k out w w' : wf w -> creates w w' out k -> makes k out w w'.
Proof.
  intros Hwf (h & Hv & Hn & Hu & [? ? _]). exists h. split; [done|]. split; [done|].
  exists (one h). split; [done|]. right. pose proof (wf_next _ Hwf). split; [lia|done].
Qed.

Lemma makes_nothing k out w w' : safe w w' none none -> w_mem w' !! out = Some 0 -> makes k out w w'.
Proof. intros [? ? _] Hv. exists 0. split; [done|]. split; [done|]. exists none. split; [done|by left]. Qed.

Section Creating.
Context `{IREE, !IreeCreates, !LibcAlloc}.

(** An entry point whose failures leave the cell null. *)
Lemma makes_entry (m : M ptr) k out w :
  wf w -> w_mem w !! out = Some 0 ->
  wp m (fun r w' => create_post w w' r out k) w ->
  wp m (fun r w' => r <> 0 -> w_mem w' !! out = Some 0) w ->
  wp m (fun r w' => makes k out w w') w.
Proof.
  intros Hwf Hv (r & w' & E & Hc)%wp_Done (r2 & w2 & E2 & Hz)%wp_Done.
  apply wp_Done. exists r, w'. split; [done|]. rewrite E in E2. injection E2 as <- <-.
  destruct Hc as [[_ Hc]|(_ & Hr & HS & _)]; [by apply makes_created|].
  apply makes_nothing; [done|]. apply Hz. by apply Hr.
Qed.

Lemma value_list_create_makes capacity out w :
  wf w -> w_mem w !! out = Some 0 -> out <> 0 ->
  wp (hrx_value_list_create capacity out) (fun r w' => makes KValueList out w w') w.
Proof.
  intros Hwf Hv Hout. apply makes_entry; [done|done|by apply hrx_value_list_create_spec|].
  pose proof (proj2 (is_null_false out) Hout) as Hn. unfold hrx_value_list_create. rewrite Hn.
  start_safe w. run; subst.
  - intros _. rewrite (proj1 (proj2 Hfr0)), (proj1 (proj2 Hfr)). simpl. by rewrite lookup_insert_eq.
  - wp_into_handle; [by apply floats_nil|]. by run.
Qed.

Lemma allocate_buffer_makes a params size out w :
  wf w -> usable w KDevice (a - ALLOCATOR_OFFSET) -> w_mem w !! out = Some 0 ->
  wp (hrx_allocator_allocate_buffer a params size out) (fun r w' => makes KBuffer out w w') w.
Proof.
  intros Hwf Ha Hv.
  apply makes_entry; [done|done|apply hrx_allocator_allocate_buffer_spec; [done|by right]|].
  assert (Hna : nullable_alloc w a) by (by right).
  unfold hrx_allocator_allocate_buffer. start_safe w. run; subst.
  - intros _. by rewrite (proj1 (proj2 Hfr)).
  - intros _. by rewrite (proj1 (proj2 Hfr0)), (proj1 (proj2 Hfr)).
  - rewrite Hback. wp_use device_ref_retain_spec; [assumption|usable_tac|].
    intros d' w' [-> ?]. merge_safe.
    wp_into_handle; [eapply floats_one; [done|usable_tac|intros q'; ext_tac]|]. by run.
Qed.
End Creating.
