(* ===== verification/FuzzTheorems.v ===== *)
(** * The fuzz targets run to their end and leave nothing behind *)

From S2P Require Import Prelude Iree Objects Machine Handle Status IreeHal Device Semaphore Buffer HostAllocator Executable BufferView ValueList Modules QueueOps Stream Pool StreamAlloc Runtime Lifecycle Scenario Ownership StreamTimeline StatusLedger Layout Fuzz FuzzLogic.

(** ** The value-list target *)

Lemma slot_of_lt byte : (slot_of byte < POOL)%nat.
Proof. unfold slot_of, POOL. pose proof (Z.mod_pos_bound (Z.shiftr byte 4) 4). lia. Qed.

Lemma array_get_spec {A B} (l : list A) i (K : A -> M B) Q w :
  (i < length l)%nat -> (forall a, l !! i = Some a -> wp (K a) Q w) -> wp (array_get l i ≫= K) Q w.
Proof.
  intros Hi HK. destruct (lookup_lt_is_Some_2 l i Hi) as [a Ha]. apply wp_bind. unfold array_get.
  apply expect_spec; [|by rewrite Ha]. intros b Hb. by apply HK.
Qed.

(** A [u32] counter that does not overflow. *)
Lemma wrap_u32_small x : 0 <= x < 2 ^ 32 -> wrap_u32 x = x.
Proof. unfold wrap_u32. intros. by apply Z.mod_small. Qed.

Section Steps.
Context `{IREE, !IreeCreates, !LibcAlloc} (k : kind) (w0 : world).
Hypothesis Hw0 : wf w0.

(** Retaining the object of a live slot. *)
Lemma step_retain {B} w n hs rs i h r (K : M B) Q :
  pool_ok k w0 w n hs rs -> hs !! i = Some h -> rs !! i = Some r -> h <> 0 -> n + 1 < 2 ^ 32 ->
  (forall w', pool_ok k w0 w' (n + 1) hs (<[i := wrap_u32 (r + 1)]> rs) -> wp K Q w') ->
  wp (retain_kind k h ;; K) Q w.
Proof.
  intros Hp Hh Hr Hne Hn HK. destruct (po_slot _ _ _ _ _ _ Hp _ _ _ Hh Hr) as (Hle & Hz & Hu).
  pose proof (proj1 (Forall_lookup _ _) (po_pos _ _ _ _ _ _ Hp) _ _ Hr) as Hpos. simpl in Hpos.
  assert (Hr0 : r <> 0) by tauto.
  apply wp_retain; [apply (po_moved _ _ _ _ _ _ Hp)|by apply Hu|]. intros w' HM. apply HK.
  rewrite <- (list_insert_id hs i h Hh). rewrite wrap_u32_small by lia.
  eapply pool_update; [done|exact Hp|exact Hh|exact Hr|exact HM|..]; [intros q|..]; try lia; auto.
Qed.

(** Releasing one reference of a live slot. *)
Lemma step_drop {B} w n hs rs i h r (K : list ptr * list Z -> M B) Q :
  pool_ok k w0 w n hs rs -> hs !! i = Some h -> rs !! i = Some r -> h <> 0 -> n < 2 ^ 32 ->
  (forall w' hs' rs', pool_ok k w0 w' (n + 1) hs' rs' -> wp (K (hs', rs')) Q w') ->
  wp (drop_slot (release_kind k) hs rs i h r ≫= K) Q w.
Proof.
  intros Hp Hh Hr Hne Hn HK. destruct (po_slot _ _ _ _ _ _ Hp _ _ _ Hh Hr) as (Hle & Hz & Hu).
  pose proof (proj1 (Forall_lookup _ _) (po_pos _ _ _ _ _ _ Hp) _ _ Hr) as Hpos. simpl in Hpos.
  assert (Hr0 : r <> 0) by tauto. pose proof (pool_held k w0 Hw0 _ _ _ _ _ _ _ Hp Hh Hr).
  apply wp_bind. unfold drop_slot. apply wp_release; [apply (po_moved _ _ _ _ _ _ Hp)|by apply Hu|lia|].
  intros w' HM. apply wp_ret, HK. rewrite wrap_u32_small by lia.
  destruct (Z.eqb_spec (r - 1) 0) as [E|E].
  - rewrite E. eapply pool_update; [done|exact Hp|exact Hh|exact Hr|exact HM|..]; [intros q|..]; try lia; try done.
    replace r with 1 by lia. lia.
  - rewrite <- (list_insert_id hs i h Hh) at 1.
    eapply pool_update; [done|exact Hp|exact Hh|exact Hr|exact HM|..]; [intros q; cbv beta|..]; try lia; auto.
Qed.

(** Creating an object in an empty slot. *)
Lemma step_create {B} w n hs rs i (c : ptr -> api) (K : ptr -> Z -> M B) Q :
  pool_ok k w0 w n hs rs -> hs !! i = Some 0 -> 0 <= n ->
  (forall p, touches_globals (c p) = false) -> (forall p, hands_over (c p) = false) ->
  (forall w1 out, safe w w1 none none -> w_mem w1 !! out = Some 0 -> out <> 0 ->
     wp (exec (c out)) (fun r w' => makes k out w1 w') w1) ->
  (forall r w', pool_ok k w0 w' (n + 1) hs rs -> wp (K r 0) Q w') ->
  (forall r v w', v <> 0 -> pool_ok k w0 w' (n + 1) (<[i := v]> hs) (<[i := 1]> rs) -> wp (K r v) Q w') ->
  wp ('(r, v) ← with_local null (fun p => exec (c p)); hrx_status_ignore r ;; K r v) Q w.
Proof.
  intros Hp Hh Hn Ht Ho Hc HK0 HK1.
  destruct (lookup_lt_is_Some_2 rs i) as [r Hr].
  { rewrite (po_rs _ _ _ _ _ _ Hp), <- (po_hs _ _ _ _ _ _ Hp). by eapply lookup_lt_Some. }
  destruct (po_slot _ _ _ _ _ _ Hp _ _ _ Hh Hr) as (_ & Hz & _).
  rewrite (proj1 Hz eq_refl) in Hr.
  apply (wp_local_ignored c null (fun _ v G w' => made k v G w')); [apply (po_moved _ _ _ _ _ _ Hp)|done|done|..].
  - intros w1 HS Hv Hne _. by apply Hc.
  - intros st v w' w'' G HM Hh' [[-> ->]|(Hv & -> & Hu)].
    + apply HK0. by eapply pool_keep; [done|exact Hp|exact HM|lia].
    + apply HK1; [done|]. eapply pool_update; [done|exact Hp|exact Hh|exact Hr|exact HM|..];
        [intros q; lia|lia|lia|done|]. intros _. right. by eapply usable_heap.
Qed.
End Steps.

Lemma next_byte_length data x rest : next_byte data = (x, rest) -> (length rest <= length data)%nat.
Proof. destruct data; intros [= <- <-]; simpl; lia. Qed.

(** A live slot holds a usable object, also after a call that keeps the references. *)
Lemma pool_live k w0 w n hs rs i h r :
  pool_ok k w0 w n hs rs -> hs !! i = Some h -> rs !! i = Some r -> h <> 0 -> usable w k h.
Proof. intros Hp Hh Hr Hne. destruct (po_slot _ _ _ _ _ _ Hp _ _ _ Hh Hr) as (_ & Hz & Hu). apply Hu. tauto. Qed.

Lemma pool_live_local k w0 w w1 n hs rs i h r :
  pool_ok k w0 w n hs rs -> hs !! i = Some h -> rs !! i = Some r -> h <> 0 ->
  safe w w1 none none -> nullable w1 k h.
Proof.
  intros Hp Hh Hr Hne HS. right. eapply usable_safe; [apply (po_moved _ _ _ _ _ _ Hp)|exact HS|].
  by eapply pool_live.
Qed.

Section ValueListTarget.
Context `{IREE, !IreeCreates, !LibcAlloc} (w0 : world).
Hypothesis Hw0 : wf w0.

Definition list_turn (n : Z) (data : list Z) (s : list ptr * list Z * list Z) (w' : world) : Prop :=
  pool_ok KValueList w0 w' (n + 1) s.1.1 s.1.2 /\ (length s.2 <= length data)%nat.

(** The turn that reads the size and an element. *)
Lemma list_reads_spec {B} w n hs rs i l r idx (K : M B) Q :
  pool_ok KValueList w0 w n hs rs -> hs !! i = Some l -> rs !! i = Some r -> l <> 0 ->
  (forall w', moved w w' none -> wp K Q w') ->
  wp ('(st, _) ← with_local 0 (fun sz => hrx_value_list_size l sz); hrx_status_ignore st ;;
      '(st, _) ← with_local 0 (fun out => hrx_value_list_get_i64 l idx out); hrx_status_ignore st ;; K) Q w.
Proof.
  intros Hp Hl Hr Hne HK. assert (Hwf : wf w) by apply (po_moved _ _ _ _ _ _ Hp).
  apply (wp_out_ignored (fun p => ValueListSize l p)); [done|done|done|intros p; cbn [exec]; mapped_tac| |].
  { intros w1 p HS. apply hrx_value_list_size_spec; [apply HS|]. by eapply pool_live_local. }
  intros _ _ w1 HM.
  pose proof (pool_keep KValueList w0 Hw0 _ _ _ _ _ _ Hp HM (Z.le_refl n)) as Hp1.
  apply (wp_out_ignored (fun p => ValueListGetI64 l _ p));
    [apply HM|done|done|intros p; cbn [exec]; mapped_tac| |].
  { intros w2 p HS. apply hrx_value_list_get_i64_spec; [apply HS|].
    exact (pool_live_local _ _ _ _ _ _ _ _ _ _ Hp1 Hl Hr Hne HS). }
  intros _ _ w2 HM2. apply HK. eapply moved_equiv; [exact (moved_trans _ _ _ _ _ Hwf HM HM2)|done].
Qed.

Lemma list_step_spec byte data w n hs rs :
  pool_ok KValueList w0 w n hs rs -> 0 <= n -> n + 1 < 2 ^ 32 ->
  wp (list_step byte data hs rs) (list_turn n data) w.
Proof.
  intros Hp Hn Hn32. unfold list_step. pose proof (slot_of_lt byte) as Hi.
  apply array_get_spec; [by rewrite (po_hs _ _ _ _ _ _ Hp)|]. intros l Hl.
  apply array_get_spec; [by rewrite (po_rs _ _ _ _ _ _ Hp)|]. intros r Hr.
  assert (Hwf : wf w) by apply (po_moved _ _ _ _ _ _ Hp).
  assert (Hkeep : forall rest w', moved w w' none -> (length rest <= length data)%nat ->
    list_turn n data (hs, rs, rest) w').
  { intros rest w' HM Hd. split; [|done]. by eapply pool_keep; [done|exact Hp|exact HM|lia]. }
  destruct (is_null l) eqn:El; simpl; rewrite ?andb_true_r, ?andb_false_r; bool_to_prop.
  - subst l. destruct (byte mod 6 =? 0); simpl; [|apply wp_ret, Hkeep; [by apply moved_refl|done]].
    destruct (next_byte data) as [cap rest] eqn:Ed. apply next_byte_length in Ed.
    apply (step_create KValueList w0 Hw0 w n hs rs (slot_of byte) (fun out => ValueListCreate cap out));
      [done|done|done|done|done| | |].
    + intros w1 out HS Hv Hne. apply value_list_create_makes; [apply HS|done|done].
    + intros st w' Hp'. by apply wp_ret.
    + intros st v w' Hv Hp'. apply wp_ret. by rewrite (proj2 (is_null_false v) Hv).
  - pose proof (pool_live _ _ _ _ _ _ _ _ _ Hp Hl Hr El) as Hus.
    repeat case_match; bool_to_prop; try (by exfalso); try (apply wp_ret, Hkeep; [by apply moved_refl|done]).
    + apply (wp_call_ignored (ValueListPushI64 l _)); [done|done|done|by apply hrx_value_list_push_i64_spec; [|right]|].
      intros w' HM. apply wp_ret, Hkeep; [done|]. rewrite length_drop. lia.
    + apply (wp_call_ignored (ValueListPushNullRef l)); [done|done|done|by apply hrx_value_list_push_null_ref_spec; [|right]|].
      intros w' HM. by apply wp_ret, Hkeep.
    + eapply list_reads_spec; [exact Hp|exact Hl|exact Hr|done|].
      intros w' HM. apply wp_ret, Hkeep; [done|by eapply next_byte_length].
    + eapply (step_retain KValueList w0 Hw0); [exact Hp|exact Hl|exact Hr|done|done|]. intros w' Hp'. by apply wp_ret.
    + eapply (step_drop KValueList w0 Hw0); [exact Hp|exact Hl|exact Hr|done|lia|].
      intros w' hs' rs' Hp'. by apply wp_ret.
Qed.

(** The loop ends, with the pool in order. *)
Lemma list_loop_spec fuel : forall data w n hs rs,
  pool_ok KValueList w0 w n hs rs -> (length data < fuel)%nat -> 0 <= n -> n + Z.of_nat (length data) < 2 ^ 32 ->
  wp (list_loop fuel data hs rs) (fun o w' => exists n' hs' rs',
    o = Some (hs', rs') /\ pool_ok KValueList w0 w' n' hs' rs') w.
Proof.
  induction fuel as [|fuel IH]; intros data w n hs rs Hp Hf Hn Hn32; [lia|].
  destruct data as [|byte data]; simpl in *; [apply wp_ret; eauto|].
  apply wp_bind. eapply wp_mono; [apply list_step_spec; [exact Hp|done|lia]|].
  intros [[hs' rs'] rest] w' [Hp' Hl]. simpl in *. apply (IH rest w' (n + 1)); [done|lia..].
Qed.
End ValueListTarget.

(** ** The buffer target *)

Section BufferTarget.
Context `{IREE, !IreeCreates, !LibcAlloc} (w0 : world) (dev : ptr).
Hypothesis Hw0 : wf w0.
Hypothesis Hdev : dev ∈ ac_devices (g_cpu (w_glob w0)).

Definition buffer_turn (n : Z) (data : list Z) (s : list ptr * list Z * list Z * list Z) (w' : world) : Prop :=
  pool_ok KBuffer w0 w' (n + 1) s.1.1.1 s.1.1.2 /\ length s.1.2 = POOL /\ (length s.2 <= length data)%nat.

(** The device of the statics stays up. *)
Lemma device_up w G : moved w0 w G -> usable w KDevice dev.
Proof. intros HM. apply (wf_globals _ (mv_wf _ _ _ HM)). left. by rewrite (mv_glob _ _ _ HM). Qed.

(** The turn that maps a buffer and writes its first byte. *)
Lemma buffer_map_turn {B} w n hs rs i b r size byte (K : M B) Q :
  pool_ok KBuffer w0 w n hs rs -> hs !! i = Some b -> rs !! i = Some r -> b <> 0 ->
  (forall w', moved w w' none -> wp K Q w') ->
  wp ('(st, p) ← with_local null (fun out => hrx_buffer_map b (Z.lor HRX_MAP_READ HRX_MAP_WRITE) 0 size out);
      let ok := is_null st in
      hrx_status_ignore st ;;
      (if ok && negb (is_null p) then write_out p byte else mret tt) ;; K) Q w.
Proof.
  intros Hp Hl Hr Hne HK. cbv zeta.
  apply (wp_out_ignored (fun out => BufferMap b (Z.lor HRX_MAP_READ HRX_MAP_WRITE) 0 size out) null
    (fun st p => (if is_null st && negb (is_null p) then write_out p byte else mret tt) ;; K));
    [apply (po_moved _ _ _ _ _ _ Hp)|done|done|intros p; cbn [exec]; mapped_tac| |].
  { intros w1 p HS. apply hrx_buffer_map_spec; [apply HS|]. by eapply pool_live_local. }
  intros st p w' HM. apply wp_bind. destruct (is_null st); simpl; [|by apply HK].
  destruct (is_null p) eqn:Ep; simpl; [by apply HK|].
  unfold wp at 1, write_out. rewrite Ep. by apply HK, moved_set_mem.
Qed.

Lemma buffer_step_spec byte data w n hs rs sizes :
  pool_ok KBuffer w0 w n hs rs -> length sizes = POOL -> 0 <= n -> n + 1 < 2 ^ 32 ->
  wp (buffer_step (dev + ALLOCATOR_OFFSET) byte data hs rs sizes) (buffer_turn n data) w.
Proof.
  intros Hp Hs Hn Hn32. unfold buffer_step. pose proof (slot_of_lt byte) as Hi.
  apply array_get_spec; [by rewrite (po_hs _ _ _ _ _ _ Hp)|]. intros b Hb.
  apply array_get_spec; [by rewrite (po_rs _ _ _ _ _ _ Hp)|]. intros r Hr.
  apply array_get_spec; [by rewrite Hs|]. intros size Hsize.
  assert (Hwf : wf w) by apply (po_moved _ _ _ _ _ _ Hp).
  assert (Hkeep : forall w', moved w w' none -> buffer_turn n data (hs, rs, sizes, data) w').
  { intros w' HM. split; [|done]. by eapply pool_keep; [done|exact Hp|exact HM|lia]. }
  destruct (is_null b) eqn:El; simpl; rewrite ?andb_true_r, ?andb_false_r; bool_to_prop.
  - subst b. destruct (byte mod 6 =? 0); simpl; [|by apply wp_ret, Hkeep, moved_refl].
    destruct (next_byte data) as [x rest] eqn:Ed. apply next_byte_length in Ed.
    apply (step_create KBuffer w0 Hw0 w n hs rs (slot_of byte)
      (fun out => AllocateBuffer (dev + ALLOCATOR_OFFSET) HOST_PARAMS (x * 16 + 1) out));
      [done|done|done|done|done| | |].
    + intros w1 out HS Hv Hne. apply allocate_buffer_makes; [apply HS| |done]. rewrite Z.add_simpl_r.
      eapply usable_safe; [exact Hwf|exact HS|]. by apply (device_up _ _ (po_moved _ _ _ _ _ _ Hp)).
    + intros st w' Hp'. by apply wp_ret.
    + intros st v w' Hv Hp'. apply wp_ret. rewrite (proj2 (is_null_false v) Hv).
      split; [done|]. split; [simpl; by rewrite length_insert|done].
  - pose proof (pool_live _ _ _ _ _ _ _ _ _ Hp Hb Hr El) as Hus.
    repeat case_match; bool_to_prop; try (by exfalso); try (by apply wp_ret, Hkeep, moved_refl).
    + eapply (step_retain KBuffer w0 Hw0); [exact Hp|exact Hb|exact Hr|done|done|]. intros w' Hp'. by apply wp_ret.
    + eapply (step_drop KBuffer w0 Hw0); [exact Hp|exact Hb|exact Hr|done|lia|].
      intros w' hs' rs' Hp'. by apply wp_ret.
    + eapply buffer_map_turn; [exact Hp|exact Hb|exact Hr|done|]. intros w' HM. by apply wp_ret, Hkeep.
    + apply (wp_call_ignored (BufferUnmap b)); [done|done|done|by apply hrx_buffer_unmap_spec; [|right]|].
      intros w' HM. by apply wp_ret, Hkeep.
    + apply (wp_out_ignored (fun p => BufferGetSize b p)); [done|done|done|intros p; cbn [exec]; mapped_tac| |].
      { intros w1 p HS. apply hrx_buffer_get_size_spec; [apply HS|]. by eapply pool_live_local. }
      intros _ _ w' HM. by apply wp_ret, Hkeep.
Qed.

Lemma buffer_loop_spec fuel : forall data w n hs rs sizes,
  pool_ok KBuffer w0 w n hs rs -> length sizes = POOL ->
  (length data < fuel)%nat -> 0 <= n -> n + Z.of_nat (length data) < 2 ^ 32 ->
  wp (buffer_loop fuel (dev + ALLOCATOR_OFFSET) data hs rs sizes) (fun o w' => exists n' hs' rs',
    o = Some (hs', rs') /\ pool_ok KBuffer w0 w' n' hs' rs') w.
Proof.
  induction fuel as [|fuel IH]; intros data w n hs rs sizes Hp Hs Hf Hn Hn32; [lia|].
  destruct data as [|byte data]; simpl in *; [apply wp_ret; eauto|].
  apply wp_bind. eapply wp_mono; [apply buffer_step_spec; [exact Hp|done|done|lia]|].
  intros [[[hs' rs'] sizes'] rest] w' (Hp' & Hs' & Hl). simpl in *. apply (IH rest w' (n + 1)); [done|done|lia..].
Qed.
End BufferTarget.

(** ** Whole runs *)

(** What a sanitizer checks at the end of a run: the invariant holds, the client
    has the references it had, every foreign reference the run received is given back
    or held by an object, a pool or a static, and the libc heap is as it was. *)
Record balanced (w w' : world) : Prop := Balanced {
  bal_inv : inv w';
  bal_next : w_next w <= w_next w';
  bal_ext : forall h, ext w' h = ext w h;
  bal_imb : forall p, imb w' p = imb w p;
  bal_cheap : w_cheap w' = w_cheap w;
}.

Lemma balanced_refl w : inv w -> balanced w w.
Proof. intros. by split. Qed.

Lemma balanced_trans w1 w2 w3 : balanced w1 w2 -> balanced w2 w3 -> balanced w1 w3.
Proof.
  intros [_ ? E1 I1 ?] [? ? E2 I2 ?].
  split; [done|lia|intros h; by rewrite E2|intros p; by rewrite I2|congruence].
Qed.

Lemma moved_balanced w w' : inv w -> moved w w' none -> balanced w w'.
Proof.
  intros [Hwf Hr] [Hwf' HE Hg Hc]. split; [split|..].
  - done.
  - by rewrite Hg.
  - apply HE.
  - intros h. rewrite (eff_ext _ _ _ _ HE). unfold none. lia.
  - intros p. rewrite (eff_imb _ _ _ _ HE). unfold none. lia.
  - done.
Qed.

Lemma device_links_pos ds h : 0 < device_links ds h -> h ∈ ds.
Proof.
  intros (d & Hd & Hp)%lsum_pos_elem. unfold one in Hp. destruct (Z.eqb_spec d h); [by subst|done].
Qed.

(** The kinds of object another object keeps alive. *)
Lemma links_kind o k q : (k, q) ∈ links o -> k = KDevice \/ k = KSemaphore \/ k = KModule.
Proof.
  destruct o; simpl; intros Hl; repeat (apply elem_of_cons in Hl as [[= -> ->]|Hl]; [by auto|]);
    by apply elem_of_nil in Hl.
Qed.

(** An object of a kind nothing links to lives by the client's references alone. *)
Lemma unlinked_internal w k h :
  wf w -> (forall o q, (k, q) ∉ links o) -> k <> KDevice -> usable w k h -> internal w h = 0.
Proof.
  intros Hwf Hk Hd Hu. pose proof Hu as (n & o & Hh & Ho).
  destruct (decide (internal w h = 0)) as [|Hi]; [done|exfalso].
  pose proof (internal_nonneg w h). unfold internal, globals_link in *.
  assert (Hkind : forall k', usable w k' h -> k' = k).
  { intros k' (n' & o' & Hh' & <-). congruence. }
  destruct (decide (0 < msum (fun e => link_cnt e.2 h) (w_heap w))) as [Hp|Hp].
  - apply msum_pos_elem in Hp as (h' & [n' o'] & Hh' & Hl). apply link_cnt_pos in Hl as [k' Hl].
    rewrite (Hkind k') in Hl; [by apply Hk in Hl|]. exact (wf_links _ Hwf _ _ _ _ _ Hh' Hl).
  - apply Hd. symmetry. apply Hkind, (wf_globals _ Hwf).
    destruct (decide (0 < device_links (ac_devices (g_cpu (w_glob w))) h)); [left|right];
      apply device_links_pos; lia.
Qed.

(** Nothing of such a kind made during a balanced run is alive at its end. *)
Lemma balanced_no_leak w w' k h :
  wf w -> balanced w w' -> (forall o q, (k, q) ∉ links o) -> k <> KDevice ->
  usable w' k h -> h < w_next w.
Proof.
  intros Hwf [[Hwf' _] _ He _ _] Hk Hd Hu. destruct (decide (w_next w <= h)) as [Hge|]; [exfalso|lia].
  pose proof (usable_strong _ _ _ Hwf' Hu). pose proof (unlinked_internal _ _ _ Hwf' Hk Hd Hu).
  specialize (He h). pose proof (wf_heap_fresh _ Hwf _ Hge) as Hn. pose proof (internal_nonneg w h).
  unfold ext, strong in *. rewrite Hn in He. lia.
Qed.

Section Runs.
Context `{IREE, !IreeCreates, !LibcAlloc, !IreeDeviceAllocator}.

(** [hrx_status_ignore(hrx_cpu_initialize(0))]. *)
Lemma init_ignored w :
  inv w -> exists r w1 w2, hrx_cpu_initialize 0 w = Done r w1
    /\ hrx_status_ignore r w1 = Done tt w2 /\ balanced w w2 /\ w_glob w2 = w_glob w1.
Proof.
  intros Hi. destruct (exec_and_ignore (CpuInitialize 0) w Hi I eq_refl)
    as (r & w1 & F & G & E & Hi1 & HE & Hc & HF & _ & Hig & Hi2).
  exists r, w1, (set_cheap w1 (w_cheap w)). split; [exact E|]. split; [done|]. split; [|done].
  split; [done|exact (eff_next _ _ _ _ HE)| | |done].
  - intros h. change (ext w1 h = ext w h). rewrite (eff_ext _ _ _ _ HE).
    destruct Hc as [? Hx|? Hx|? ? ? Hx|]; try discriminate Hx. unfold none. lia.
  - intros p. change (imb w1 p = imb w p). rewrite (eff_imb _ _ _ _ HE), HF. simpl. lia.
Qed.

(** With the CPU accelerator up, [hrx_cpu_device_get(0)] answers its first device. *)
Lemma cpu_device_get_first w d ds out :
  runtime_inv (w_glob w) -> ac_devices (g_cpu (w_glob w)) = d :: ds -> out <> 0 ->
  hrx_cpu_device_get 0 out w = Done 0 (set_mem w (<[out := d]> (w_mem w))).
Proof.
  intros (_ & (Hc & _ & Hdown) & _) Hd Hout. unfold hrx_cpu_device_get, accel_device_get.
  rewrite (proj2 (is_null_false out) Hout). unfold get_globals, mbind, M_bind. cbn.
  destruct (ac_initialized (g_cpu (w_glob w))) eqn:Ei.
  2:{ destruct (Hdown eq_refl) as [Hd' _]. rewrite Hd in Hd'. discriminate Hd'. }
  rewrite Hd in *. rewrite Hc. simpl. unfold write_out. by rewrite (proj2 (is_null_false out) Hout).
Qed.

(** The runtime is available: the CPU device is there when [ALLOC] is set up, and
    still there when it was set up before. *)
Definition alloc_ready (once : option ptr) (w : world) : Prop :=
  match once with
  | None => forall r w1, hrx_cpu_initialize 0 w = Done r w1 -> ac_devices (g_cpu (w_glob w1)) <> []
  | Some a => exists d, d ∈ ac_devices (g_cpu (w_glob w)) /\ a = d + ALLOCATOR_OFFSET
  end.

Lemma setup_allocator_spec once w :
  inv w -> alloc_ready once w ->
  wp (setup_allocator once) (fun a w' => balanced w w' /\
    exists d, d ∈ ac_devices (g_cpu (w_glob w')) /\ a = d + ALLOCATOR_OFFSET) w.
Proof.
  intros Hi Ha. destruct once as [a|]; simpl in *.
  { apply wp_ret. split; [by apply balanced_refl|done]. }
  destruct (init_ignored w Hi) as (r & w1 & w2 & E1 & E2 & Hb & Hg).
  specialize (Ha _ _ E1). destruct (ac_devices (g_cpu (w_glob w1))) as [|d ds] eqn:Ed; [done|].
  rewrite <- Hg in Ed. pose proof (bal_inv _ _ Hb) as Hi2.
  apply wp_bind, wp_Done. exists r, w1. split; [exact E1|]. apply wp_bind, wp_Done. exists tt, w2. split; [done|].
  apply (wp_local_ignored (fun out => CpuDeviceGet 0 out) null (fun _ v G _ => v = d /\ G = none));
    [apply Hi2|done|done| |].
  - intros w3 HS Hv Hn Hg3. apply wp_Done. eexists 0, _. split.
    { apply (cpu_device_get_first _ d ds); [rewrite Hg3; apply Hi2|by rewrite Hg3|done]. }
    pose proof (safe_set_mem w3 (<[w_next w2:=d]> (w_mem w3)) (safe_wf _ _ _ _ HS)) as [? ? _].
    exists d. split; [simpl; by rewrite lookup_insert_eq|]. eauto.
  - intros _ v _ w4 G HM _ [-> ->]. unfold hrx_device_allocator.
    assert (Hin : d ∈ ac_devices (g_cpu (w_glob w4))) by (rewrite (mv_glob _ _ _ HM), Ed; left).
    wp_use device_deref_spec; [apply (wf_globals _ (mv_wf _ _ _ HM)); by left|].
    intros dv w5 [-> _]. apply wp_ret. split.
    + eapply balanced_trans; [exact Hb|]. by apply moved_balanced.
    + by exists d.
Qed.

Lemma value_list_lifecycle_spec once data w :
  inv w -> Z.of_nat (length data) < 2 ^ 32 ->
  wp (value_list_lifecycle once data) (fun o w' => o = Some tt /\ balanced w w') w.
Proof.
  intros Hi Hl. unfold value_list_lifecycle. apply wp_bind.
  assert (Hinit : wp (if once then mret tt else st ← hrx_cpu_initialize 0; hrx_status_ignore st)
    (fun _ w' => balanced w w') w).
  { destruct once; [by apply wp_ret, balanced_refl|].
    destruct (init_ignored w Hi) as (r & w1 & w2 & E1 & E2 & Hb & _).
    apply wp_bind, wp_Done. exists r, w1. split; [done|]. apply wp_Done. by exists tt, w2. }
  eapply wp_mono; [exact Hinit|]. intros [] w1 Hb. pose proof (bal_inv _ _ Hb) as Hi1.
  pose proof (inv_wf _ Hi1) as Hwf1. apply wp_bind.
  eapply wp_mono; [apply (list_loop_spec w1 Hwf1 _ _ _ 0); [by apply pool_empty|lia..]|].
  intros o w2 (n' & hs & rs & -> & Hp). apply wp_bind.
  eapply wp_mono; [exact (release_pool KValueList w1 w2 n' hs rs Hwf1 Hp)|].
  intros [] w3 HM. apply wp_ret. split; [done|]. eapply balanced_trans; [exact Hb|]. by apply moved_balanced.
Qed.

Lemma buffer_lifecycle_spec once data w :
  inv w -> alloc_ready once w -> Z.of_nat (length data) < 2 ^ 32 ->
  wp (buffer_lifecycle once data) (fun o w' => o = Some tt /\ balanced w w') w.
Proof.
  intros Hi Ha Hl. unfold buffer_lifecycle. apply wp_bind.
  eapply wp_mono; [by apply setup_allocator_spec|]. intros a w1 (Hb & d & Hd & ->).
  pose proof (bal_inv _ _ Hb) as Hi1. pose proof (inv_wf _ Hi1) as Hwf1.
  assert (Hn : is_null (d + ALLOCATOR_OFFSET) = false).
  { pose proof (usable_high _ _ _ Hwf1 (wf_globals _ Hwf1 d (or_introl Hd))).
    apply is_null_false. unfold ALLOCATOR_OFFSET. lia. }
  rewrite Hn. apply wp_bind.
  eapply wp_mono; [apply (buffer_loop_spec w1 d Hwf1 Hd _ _ _ 0); [by apply pool_empty|done|lia..]|].
  intros o w2 (n' & hs & rs & -> & Hp). apply wp_bind.
  eapply wp_mono; [exact (release_pool KBuffer w1 w2 n' hs rs Hwf1 Hp)|].
  intros [] w3 HM. apply wp_ret. split; [done|]. eapply balanced_trans; [exact Hb|]. by apply moved_balanced.
Qed.

(** Without a device the target's null check on the allocator comes too late: the
    reference to the field of the null device is undefined behaviour. *)
Lemma buffer_target_needs_a_device w data r w1 :
  inv w -> hrx_cpu_initialize 0 w = Done r w1 -> ac_devices (g_cpu (w_glob w1)) = [] ->
  buffer_lifecycle None data w = Undefined.
Proof.
  intros Hi E1 Hd. destruct (init_ignored w Hi) as (r' & w1' & w2 & E1' & E2 & Hb & Hg).
  rewrite E1 in E1'. injection E1' as <- <-. rewrite <- Hg in Hd. pose proof (bal_inv _ _ Hb) as Hi2.
  pose proof (inv_runtime _ Hi2) as (_ & (Hc & _) & _).
  assert (Hget : wp ('(st, dev) ← with_local null (fun out => hrx_cpu_device_get 0 out);
    hrx_status_ignore st ;; mret dev) (fun dev w' => dev = 0 /\ wf w') w2).
  { apply (wp_local_ignored (fun out => CpuDeviceGet 0 out) null (fun _ v G _ => v = 0 /\ G = none));
      [apply Hi2|done|done| |intros _ v _ w4 G HM _ [-> ->]; by apply wp_ret, (conj eq_refl), HM].
    intros w3 HS Hv Hn Hg3. cbn [exec]. unfold hrx_cpu_device_get, accel_device_get.
    rewrite (proj2 (is_null_false _) Hn). apply wp_bind, wp_get_globals. cbn [acc cpu_slot].
    rewrite Hg3, Hc, Hd. pose proof (safe_wf _ _ _ _ HS) as Hwf3.
    destruct (ac_initialized _); simpl.
    all: eapply wp_mono; [by apply hrx_make_status_spec|]; intros st w4 (([? ? _] & Hfr & _) & _).
    all: exists 0; rewrite (proj1 (proj2 Hfr)); eauto 10. }
  apply wp_Done in Hget as (dev & w5 & E5 & -> & Hwf5).
  assert (Hset : setup_allocator None w = hrx_device_allocator 0 w5).
  { unfold setup_allocator. rewrite (bind_Done _ _ _ _ _ E1), (bind_Done _ _ _ _ _ E2).
    unfold mbind, M_bind in E5 |- *. destruct (with_local _ _ w2) as [[st dev] w3| |]; [|done|done].
    destruct (hrx_status_ignore st w3) as [[] w4| |]; [|done|done]. by injection E5 as -> ->. }
  unfold buffer_lifecycle, mbind, M_bind. rewrite Hset.
  unfold hrx_device_allocator, device_deref, handle_ref, mbind, M_bind.
  by rewrite (wf_heap_low _ Hwf5 0).
Qed.

(** C31: The fuzz targets find nothing.  On every input shorter than the range of their
    [u32] counters, whatever IREE answers while malloc succeeds, the value-list target
    and, provided that the CPU device is there, the buffer target run to their end: the
    loop consumes the input, no call panics or is undefined, no index is out of range.
    At the end the invariant holds, the client has exactly the references it had before,
    every foreign reference received is given back or held by a live object or static,
    the libc heap is as it was, and nothing made by the run is alive but what the
    initialization in its first lines keeps: no list, buffer, view, fence, stream,
    executable or function, also when buffers are released while mapped. *)
Theorem fuzz_targets_are_balanced w data :
  reachable w -> Z.of_nat (length data) < 2 ^ 32 ->
  (forall once, exists w', value_list_lifecycle once data w = Done (Some tt) w' /\ balanced w w'
     /\ forall k h, usable w' k h -> k <> KDevice -> k <> KSemaphore -> k <> KModule -> h < w_next w)
  /\ (forall once, alloc_ready once w ->
     exists w', buffer_lifecycle once data w = Done (Some tt) w' /\ balanced w w'
     /\ forall k h, usable w' k h -> k <> KDevice -> k <> KSemaphore -> k <> KModule -> h < w_next w).
Proof.
  intros Hr Hl. pose proof (reachable_inv w Hr) as Hi. pose proof (inv_wf _ Hi) as Hwf. split.
  - intros once. pose proof (value_list_lifecycle_spec once data w Hi Hl) as (o & w' & E & -> & Hb)%wp_Done.
    exists w'. split; [done|]. split; [done|]. intros k h Hu Hd Hs Hm.
    apply (balanced_no_leak w w' k h Hwf Hb); [by intros o q [|[|]]%links_kind|done|exact Hu].
  - intros once Ha.
    pose proof (buffer_lifecycle_spec once data w Hi Ha Hl) as (o & w' & E & -> & Hb)%wp_Done.
    exists w'. split; [done|]. split; [done|]. intros k h Hu Hd Hs Hm.
    apply (balanced_no_leak w w' k h Hwf Hb); [by intros o q [|[|]]%links_kind|done|exact Hu].
Qed.
End Runs.

(** A run from the start of the process that allocates, maps, retains, releases and
    leaves a mapped buffer to the cleanup. *)
Lemma fuzz_targets_are_balanced_witness :
  exists w', buffer_lifecycle None [0; 7; 3; 1; 2; 48; 1; 51; 5] world_initial = Done (Some tt) w'
    /\ balanced world_initial w'.
Proof.
  destruct (fuzz_targets_are_balanced world_initial [0; 7; 3; 1; 2; 48; 1; 51; 5]) as [_ Hb].
  - apply rtc_refl.
  - reflexivity.
  - destruct (Hb None) as (w' & E & Hw & _); [|exists w'; split; [exact E|exact Hw]].
    intros r w1 E1. assert (X : match hrx_cpu_initialize 0 world_initial with
      | Done _ w1 => ac_devices (g_cpu (w_glob w1)) <> [] | _ => True end) by (vm_compute; discriminate).
    rewrite E1 in X. exact X.
Defined.
