(* ===== verification/HipTable.v ===== *)
(** * The HIP interceptor ABI: crates/hip-function-table/src/lib.rs

    The 49 function slots of the table an interceptor receives and returns, the
    names HIP gives to copy directions, and the text helpers the interceptors
    share: glibc-style pointers, hexadecimal and decimal numbers, C strings read
    as UTF-8 and the [atoi] family. *)

From Stdlib Require Import Ascii.
From stdpp Require Import pretty.
From S2P Require Import Prelude.

(** The function slots, in the order of the fields of [HipFunctionTable]. *)
Inductive slot :=
  (** Device management *)
  | hipInit | hipDriverGetVersion | hipRuntimeGetVersion | hipGetDevice
  | hipGetDeviceCount | hipSetDevice | hipDeviceReset | hipDeviceSynchronize
  | hipGetDeviceProperties | hipDeviceGetAttribute | hipDeviceGetName
  (** Memory management *)
  | hipMalloc | hipFree | hipHostMalloc | hipHostFree | hipMemGetInfo
  (** Memory copy *)
  | hipMemcpy | hipMemcpyAsync | hipMemset | hipMemsetAsync
  (** Stream management *)
  | hipStreamCreate | hipStreamCreateWithFlags | hipStreamDestroy
  | hipStreamSynchronize | hipStreamQuery | hipStreamWaitEvent
  (** Event management *)
  | hipEventCreate | hipEventCreateWithFlags | hipEventDestroy | hipEventRecord
  | hipEventSynchronize | hipEventQuery | hipEventElapsedTime
  (** Module management *)
  | hipModuleLoad | hipModuleLoadData | hipModuleUnload | hipModuleGetFunction
  | hipModuleGetGlobal | hipModuleLaunchKernel | hipLaunchKernel
  | hipExtModuleLaunchKernel
  (** Fat binary registration *)
  | __hipRegisterFatBinary | __hipUnregisterFatBinary | __hipRegisterFunction
  | __hipRegisterVar
  (** Error handling *)
  | hipGetErrorString | hipGetErrorName | hipGetLastError | hipPeekAtLastError.

#[export] Instance slot_eq_dec : EqDecision slot.
Proof. solve_decision. Defined.

(** The symbol of each slot ([stringify!] in [load_all!]). *)
Definition slot_name (s : slot) : string :=
  match s with
  | hipInit => "hipInit" | hipDriverGetVersion => "hipDriverGetVersion"
  | hipRuntimeGetVersion => "hipRuntimeGetVersion" | hipGetDevice => "hipGetDevice"
  | hipGetDeviceCount => "hipGetDeviceCount" | hipSetDevice => "hipSetDevice"
  | hipDeviceReset => "hipDeviceReset" | hipDeviceSynchronize => "hipDeviceSynchronize"
  | hipGetDeviceProperties => "hipGetDeviceProperties"
  | hipDeviceGetAttribute => "hipDeviceGetAttribute" | hipDeviceGetName => "hipDeviceGetName"
  | hipMalloc => "hipMalloc" | hipFree => "hipFree" | hipHostMalloc => "hipHostMalloc"
  | hipHostFree => "hipHostFree" | hipMemGetInfo => "hipMemGetInfo"
  | hipMemcpy => "hipMemcpy" | hipMemcpyAsync => "hipMemcpyAsync"
  | hipMemset => "hipMemset" | hipMemsetAsync => "hipMemsetAsync"
  | hipStreamCreate => "hipStreamCreate" | hipStreamCreateWithFlags => "hipStreamCreateWithFlags"
  | hipStreamDestroy => "hipStreamDestroy" | hipStreamSynchronize => "hipStreamSynchronize"
  | hipStreamQuery => "hipStreamQuery" | hipStreamWaitEvent => "hipStreamWaitEvent"
  | hipEventCreate => "hipEventCreate" | hipEventCreateWithFlags => "hipEventCreateWithFlags"
  | hipEventDestroy => "hipEventDestroy" | hipEventRecord => "hipEventRecord"
  | hipEventSynchronize => "hipEventSynchronize" | hipEventQuery => "hipEventQuery"
  | hipEventElapsedTime => "hipEventElapsedTime"
  | hipModuleLoad => "hipModuleLoad" | hipModuleLoadData => "hipModuleLoadData"
  | hipModuleUnload => "hipModuleUnload" | hipModuleGetFunction => "hipModuleGetFunction"
  | hipModuleGetGlobal => "hipModuleGetGlobal" | hipModuleLaunchKernel => "hipModuleLaunchKernel"
  | hipLaunchKernel => "hipLaunchKernel" | hipExtModuleLaunchKernel => "hipExtModuleLaunchKernel"
  | __hipRegisterFatBinary => "__hipRegisterFatBinary"
  | __hipUnregisterFatBinary => "__hipUnregisterFatBinary"
  | __hipRegisterFunction => "__hipRegisterFunction" | __hipRegisterVar => "__hipRegisterVar"
  | hipGetErrorString => "hipGetErrorString" | hipGetErrorName => "hipGetErrorName"
  | hipGetLastError => "hipGetLastError" | hipPeekAtLastError => "hipPeekAtLastError"
  end.

(** The interceptor libraries of the repository. *)
Inductive interceptor := Noop | Logging | Tracer.

(** A function pointer: a symbol of the backend, or the wrapper an interceptor
    installs for a slot. *)
Inductive fnptr :=
  | Backend (symbol : ptr)
  | Wrapper (lib : interceptor) (s : slot).

(** [HipFunctionTable]; a [None] slot is a null function pointer. *)
Record HipFunctionTable := Table {
  tb_version : Z;
  tb_struct_size : Z;
  tb_slots : slot -> option fnptr;
}.

Definition table_set (t : HipFunctionTable) (s : slot) (f : option fnptr) : HipFunctionTable :=
  Table (tb_version t) (tb_struct_size t)
    (fun s' => if decide (s = s') then f else tb_slots t s').

Lemma table_set_eq t s f : tb_slots (table_set t s f) s = f.
Proof. unfold table_set, tb_slots at 1. by rewrite decide_True. Qed.

Lemma table_set_ne t s s' f : s <> s' -> tb_slots (table_set t s f) s' = tb_slots t s'.
Proof. intros. unfold table_set, tb_slots at 1. by rewrite decide_False. Qed.

(** Overriding a list of slots with the wrappers of one library. *)
Definition override (lib : interceptor) (ss : list slot) (t : HipFunctionTable) : HipFunctionTable :=
  foldl (fun t s => table_set t s (Some (Wrapper lib s))) t ss.

Lemma override_slot lib ss : forall t s,
  tb_slots (override lib ss t) s =
  if decide (s ∈ ss) then Some (Wrapper lib s) else tb_slots t s.
Proof.
  induction ss as [|s' ss IH]; intros t s.
  - case_decide as Hin; [by apply elem_of_nil in Hin|done].
  - change (override lib (s' :: ss) t) with (override lib ss (table_set t s' (Some (Wrapper lib s')))).
    rewrite IH. destruct (decide (s = s')) as [->|Hne].
    + rewrite table_set_eq. rewrite (decide_True (P := s' ∈ s' :: ss)) by apply list_elem_of_here.
      by case_decide.
    + rewrite table_set_ne by congruence.
      destruct (decide (s ∈ ss)) as [Hin|Hout].
      * by rewrite decide_True by by apply list_elem_of_further.
      * rewrite decide_False; [done|]. by intros [?|?]%elem_of_cons.
Qed.

(** [memcpy_kind_name]. *)
Definition memcpy_kind_name (kind : Z) : string :=
  if kind =? 0 then "H2H" else if kind =? 1 then "H2D" else if kind =? 2 then "D2H"
  else if kind =? 3 then "D2D" else if kind =? 4 then "Default" else "Unknown".

(** ** Numbers as text *)

Definition NL : string := String "010"%char EmptyString.

(** Lower-case hexadecimal digits. *)
Definition hex_digit (d : Z) : ascii :=
  ascii_of_nat (Z.to_nat (if d <? 10 then 48 + d else 87 + d)).

(** The last [n] hexadecimal digits of a number, leading zeros included. *)
Fixpoint hex_pad (n : nat) (z : Z) : string :=
  match n with
  | O => EmptyString
  | S n' => hex_pad n' (Z.shiftr z 4) +:+ String (hex_digit (Z.land z 15)) EmptyString
  end.

(** How many digits [{:x}] prints for a number below [2 ^ 64]. *)
Fixpoint hex_width (n : nat) (z : Z) : nat :=
  match n with
  | O => 1%nat
  | S n' => if Z.shiftr z 4 =? 0 then 1%nat else S (hex_width n' (Z.shiftr z 4))
  end.

(** [{:x}] of an unsigned number. *)
Definition hex (z : Z) : string := hex_pad (hex_width 15 z) z.

(** [{:0<w>x}]: at least [w] digits. *)
Definition hex0 (w : nat) (z : Z) : string := hex_pad (w `max` hex_width 15 z) z.

(** [{:06}] of a number below a million. *)
Definition dec6 (z : Z) : string :=
  let s := pretty z in
  String.append (String.string_of_list_ascii (replicate (6 - String.length s) "0"%char)) s.

(** A [dim3] as the launch wrappers print it. *)
Definition dims (x y z : Z) : string :=
  ("(" +:+ pretty x +:+ "," +:+ pretty y +:+ "," +:+ pretty z +:+ ")")%string.

(** [{:.6}] of an [f32] given by its bits: the exact value rounded to six
    decimals, ties to even. *)
Definition round_even (num den : Z) : Z :=
  let q := num / den in let r := num mod den in
  if 2 * r <? den then q else if den <? 2 * r then q + 1 else if Z.even q then q else q + 1.

Definition f32_6 (bits : Z) : string :=
  let sign := Z.testbit bits 31 in
  let e := Z.land (Z.shiftr bits 23) 255 in
  let m := Z.land bits 8388607 in
  if e =? 255 then
    if m =? 0 then (if sign then "-inf" else "inf")%string else "NaN"%string
  else
    let mant := if e =? 0 then m else m + 8388608 in
    let ex := (if e =? 0 then 1 else e) - 150 in
    let micro := if 0 <=? ex then mant * 2 ^ ex * 1000000
                 else round_even (mant * 1000000) (2 ^ (- ex)) in
    ((if sign then "-" else "") +:+ pretty (micro / 1000000) +:+ "." +:+ dec6 (micro mod 1000000))%string.

(** ** C strings as Rust strings *)

Definition byte_string (l : list Z) : string :=
  String.string_of_list_ascii ((fun b => ascii_of_nat (Z.to_nat b)) <$> l).

Definition in_range (lo hi b : Z) : bool := (lo <=? b) && (b <=? hi).

(** U+FFFD in UTF-8. *)
Definition REPLACEMENT : list Z := [239; 191; 189].

(** [String::from_utf8_lossy]: every maximal prefix of an ill-formed sequence
    becomes one replacement character. *)
Fixpoint utf8_lossy (l : list Z) : list Z :=
  match l with
  | [] => []
  | b :: t1 =>
      if b <? 128 then b :: utf8_lossy t1
      else if in_range 194 223 b then
        match t1 with
        | c :: t2 => if in_range 128 191 c then b :: c :: utf8_lossy t2
                     else REPLACEMENT ++ utf8_lossy t1
        | [] => REPLACEMENT
        end
      else if in_range 224 239 b then
        match t1 with
        | c :: t2 =>
            if in_range (if b =? 224 then 160 else 128) (if b =? 237 then 159 else 191) c then
              match t2 with
              | d :: t3 => if in_range 128 191 d then b :: c :: d :: utf8_lossy t3
                           else REPLACEMENT ++ utf8_lossy t2
              | [] => REPLACEMENT
              end
            else REPLACEMENT ++ utf8_lossy t1
        | [] => REPLACEMENT
        end
      else if in_range 240 244 b then
        match t1 with
        | c :: t2 =>
            if in_range (if b =? 240 then 144 else 128) (if b =? 244 then 143 else 191) c then
              match t2 with
              | d :: t3 =>
                  if in_range 128 191 d then
                    match t3 with
                    | e :: t4 => if in_range 128 191 e then b :: c :: d :: e :: utf8_lossy t4
                                 else REPLACEMENT ++ utf8_lossy t3
                    | [] => REPLACEMENT
                    end
                  else REPLACEMENT ++ utf8_lossy t2
              | [] => REPLACEMENT
              end
            else REPLACEMENT ++ utf8_lossy t1
        | [] => REPLACEMENT
        end
      else REPLACEMENT ++ utf8_lossy t1
  end.

(** ** Parsing configuration values *)

(** [str::trim_start]: the characters with the Unicode property White_Space, in
    their UTF-8 encodings. *)
Fixpoint trim_start (l : list Z) : list Z :=
  match l with
  | [] => []
  | b :: t1 =>
      if in_range 9 13 b || (b =? 32) then trim_start t1
      else match t1 with
      | c :: t2 =>
          if (b =? 194) && ((c =? 133) || (c =? 160)) then trim_start t2
          else match t2 with
          | d :: t3 =>
              if ((b =? 225) && (c =? 154) && (d =? 128))
                 || ((b =? 226) && (c =? 128)
                     && (in_range 128 138 d || (d =? 168) || (d =? 169) || (d =? 175)))
                 || ((b =? 226) && (c =? 129) && (d =? 159))
                 || ((b =? 227) && (c =? 128) && (d =? 128))
              then trim_start t3 else l
          | [] => l
          end
      | [] => l
      end
  end.

(** [chars().take_while(is_ascii_digit)]. *)
Fixpoint take_digits (l : list Z) : list Z :=
  match l with
  | b :: t => if in_range 48 57 b then b :: take_digits t else []
  | [] => []
  end.

(** [str::parse] of digits: an error when there are none or the value is above
    the type's maximum. *)
Definition digits_value (l : list Z) : Z := foldl (fun acc b => acc * 10 + (b - 48)) 0 l.

Definition parse_digits (max : Z) (l : list Z) : option Z :=
  match l with
  | [] => None
  | _ => if digits_value l <=? max then Some (digits_value l) else None
  end.

(** [atoi] and [atol] differ only in the width of the result. *)
Definition ato (max : Z) (s : list Z) : Z :=
  let s := trim_start s in
  let '(neg, rest) := match s with
                      | b :: t => if b =? 45 then (true, t)
                                  else if b =? 43 then (false, t) else (false, s)
                      | [] => (false, s)
                      end in
  let v := default 0 (parse_digits max (take_digits rest)) in
  if (neg : bool) then - v else v.

Definition atoi : list Z -> Z := ato I32_MAX.
Definition atol : list Z -> Z := ato I64_MAX.

(** The bytes of a string. *)
Definition bytes_of (s : string) : list Z :=
  (fun c => Z.of_nat (nat_of_ascii c)) <$> String.list_ascii_of_string s.

(** [.ok().filter(|s| !s.is_empty())]. *)
Definition nonempty (o : option string) : option string :=
  match o with Some s => if String.eqb s "" then None else Some s | None => None end.

Definition nonnull (p : ptr) : option ptr := if is_null p then None else Some p.
