(* ===== verification/HipMachine.v ===== *)
(** * The process around the HIP interceptors

    The memory the client shares with HIP, the open log files, the boxed function
    tables, the statics of the three crates that keep state and the environment:
    the dynamic loader, environment variables, the clock and the HIP backend,
    which is not part of the repository and answers every call as an arbitrary
    function of the calls before it and of the client's memory. *)

From stdpp Require Import pretty.
From S2P Require Import Prelude HipTable.

(** ** Environment *)

(** What a backend function answers: its result and what it writes. *)
Record hip_answer := Answer {
  an_ret : Z;
  an_writes : list (ptr * Z);
}.

(** The functions an interceptor library exports. *)
Inductive entry := InitOf (lib : interceptor) | ShutdownOf (lib : interceptor).

Class HIP := {
  hip_call : list (ptr * list Z) -> gmap Z Z -> ptr -> list Z -> hip_answer;
  hip_dlopen : string -> ptr;            (** 0 when the library cannot be loaded *)
  hip_dlsym : ptr -> string -> ptr;      (** 0 when the symbol is missing *)
  hip_dlerror : string;
  hip_entry : ptr -> option entry;       (** the function at an address *)
  hip_env : string -> option string;     (** [std::env::var] *)
  hip_fopen : string -> ptr;             (** 0 when the file cannot be opened *)
  hip_stderr : ptr;                      (** [fdopen(2, "w")] *)
  hip_clock : nat -> Z * Z;              (** the n-th reading: seconds, nanoseconds *)
  hip_unknown : ptr;                     (** the static string "unknown" *)
}.

(** ** State of the crates *)

(** [BufferType], [TrackedBuffer], [BufferTable], [KernelInfo] and [State] of
    crates/hip-buffer-tracer/src/lib.rs. *)
Inductive BufferType := Device | Host | Managed.

#[export] Instance BufferType_eq_dec : EqDecision BufferType.
Proof. solve_decision. Defined.

Record TrackedBuffer := Tracked {
  bf_ptr : ptr;
  bf_size : Z;
  bf_btype : BufferType;
  bf_in_use : bool;
  bf_alloc_id : Z;
}.

Record BufferTable := Buffers {
  bt_buffers : list TrackedBuffer;
  bt_count : Z;
  bt_next_alloc_id : Z;
}.

Record KernelInfo := Kernel { kn_host_func : ptr; kn_name : string }.

Record State := Tracing {
  tr_real : ptr;
  tr_wrapper : ptr;
  tr_trace_file : ptr;
  tr_trace_level : Z;
  tr_trace_sync : bool;
  tr_trace_dump : Z;
  tr_trace_dump_max : Z;
  tr_kernel_filter : option string;
  tr_kernel_count_limit : Z;
  tr_kernel_count : Z;
  tr_kernel_full_dump_list : option string;
  tr_owns_file : bool;
  tr_buffers : BufferTable;
  tr_kernels : list KernelInfo;
}.

(** [Logger] of crates/hip-logging/src/lib.rs. *)
Record Logger := Log { lg_file : ptr; lg_level : Z; lg_owns_file : bool }.

(** The statics of crates/hip-intercept/src/lib.rs; [ic_once] is the state of
    the [Once]. *)
Record Intercept := Interceptor {
  ic_once : bool;
  ic_backend_lib : ptr;
  ic_interceptor_lib : ptr;
  ic_active_table : ptr;
  ic_real_table : ptr;
  ic_interceptor_shutdown : ptr;
}.

Record hip_world := HipWorld {
  hw_mem : gmap Z Z;                         (** client memory, a scalar per cell *)
  hw_calls : list (ptr * list Z);            (** backend calls, latest first *)
  hw_files : gmap Z (list string);           (** open files: chunks written, latest first *)
  hw_err : list string;                      (** lines of [eprintln!], latest first *)
  hw_ticks : nat;                            (** clock readings so far *)
  hw_next : ptr;                             (** next unused heap address *)
  hw_tables : gmap Z HipFunctionTable;       (** live boxed tables *)
  hw_state : option State;                   (** the tracer's [STATE] *)
  hw_g_real : ptr;                           (** the logger's [G_REAL] *)
  hw_log : Logger;                           (** the logger's [LOG] *)
  hw_intercept : Intercept;
  hw_closed : list ptr;                      (** libraries given to [dlclose] *)
}.

Definition hip_initial (m : gmap Z Z) : hip_world :=
  HipWorld m [] ∅ [] 0 (2 ^ 40) ∅ None 0 (Log 0 2 false) (Interceptor false 0 0 0 0 0) [].

Definition set_hmem w m := HipWorld m (hw_calls w) (hw_files w) (hw_err w) (hw_ticks w) (hw_next w)
  (hw_tables w) (hw_state w) (hw_g_real w) (hw_log w) (hw_intercept w) (hw_closed w).
Definition set_calls w c := HipWorld (hw_mem w) c (hw_files w) (hw_err w) (hw_ticks w) (hw_next w)
  (hw_tables w) (hw_state w) (hw_g_real w) (hw_log w) (hw_intercept w) (hw_closed w).
Definition set_files w f := HipWorld (hw_mem w) (hw_calls w) f (hw_err w) (hw_ticks w) (hw_next w)
  (hw_tables w) (hw_state w) (hw_g_real w) (hw_log w) (hw_intercept w) (hw_closed w).
Definition set_err w e := HipWorld (hw_mem w) (hw_calls w) (hw_files w) e (hw_ticks w) (hw_next w)
  (hw_tables w) (hw_state w) (hw_g_real w) (hw_log w) (hw_intercept w) (hw_closed w).
Definition set_ticks w n := HipWorld (hw_mem w) (hw_calls w) (hw_files w) (hw_err w) n (hw_next w)
  (hw_tables w) (hw_state w) (hw_g_real w) (hw_log w) (hw_intercept w) (hw_closed w).
Definition set_hnext w n := HipWorld (hw_mem w) (hw_calls w) (hw_files w) (hw_err w) (hw_ticks w) n
  (hw_tables w) (hw_state w) (hw_g_real w) (hw_log w) (hw_intercept w) (hw_closed w).
Definition set_tables w t := HipWorld (hw_mem w) (hw_calls w) (hw_files w) (hw_err w) (hw_ticks w)
  (hw_next w) t (hw_state w) (hw_g_real w) (hw_log w) (hw_intercept w) (hw_closed w).
Definition set_tstate w s := HipWorld (hw_mem w) (hw_calls w) (hw_files w) (hw_err w) (hw_ticks w)
  (hw_next w) (hw_tables w) s (hw_g_real w) (hw_log w) (hw_intercept w) (hw_closed w).
Definition set_g_real w p := HipWorld (hw_mem w) (hw_calls w) (hw_files w) (hw_err w) (hw_ticks w)
  (hw_next w) (hw_tables w) (hw_state w) p (hw_log w) (hw_intercept w) (hw_closed w).
Definition set_log w l := HipWorld (hw_mem w) (hw_calls w) (hw_files w) (hw_err w) (hw_ticks w)
  (hw_next w) (hw_tables w) (hw_state w) (hw_g_real w) l (hw_intercept w) (hw_closed w).
Definition set_intercept w i := HipWorld (hw_mem w) (hw_calls w) (hw_files w) (hw_err w) (hw_ticks w)
  (hw_next w) (hw_tables w) (hw_state w) (hw_g_real w) (hw_log w) i (hw_closed w).
Definition set_closed w c := HipWorld (hw_mem w) (hw_calls w) (hw_files w) (hw_err w) (hw_ticks w)
  (hw_next w) (hw_tables w) (hw_state w) (hw_g_real w) (hw_log w) (hw_intercept w) c.

(** ** The monad *)

Inductive hres (A : Type) :=
  | Returns (a : A) (w : hip_world)
  | Panics                                   (** a Rust panic in an [extern "C"] function *)
  | Aborts (w : hip_world)                   (** [std::process::abort] *)
  | Faults.                                  (** undefined behaviour *)
Arguments Returns {A} _ _.
Arguments Panics {A}.
Arguments Aborts {A} _.
Arguments Faults {A}.

Definition HM (A : Type) : Type := hip_world -> hres A.

#[export] Instance HM_ret : MRet HM := fun A a w => Returns a w.
#[export] Instance HM_bind : MBind HM := fun A B f m w =>
  match m w with
  | Returns a w' => f a w'
  | Panics => Panics
  | Aborts w' => Aborts w'
  | Faults => Faults
  end.

Lemma hbind_returns {A B} (m : HM A) (f : A -> HM B) w a w' :
  m w = Returns a w' -> (m ≫= f) w = f a w'.
Proof. unfold mbind, HM_bind. by intros ->. Qed.

Definition hpanic {A} : HM A := fun _ => Panics.
Definition hfault {A} : HM A := fun _ => Faults.
Definition habort {A} : HM A := fun w => Aborts w.
Definition hread {A} (f : hip_world -> A) : HM A := fun w => Returns (f w) w.
Definition hmodify (f : hip_world -> hip_world) : HM unit := fun w => Returns tt (f w).

(** [Option::unwrap]. *)
Definition unwrap {A} (o : option A) : HM A :=
  match o with Some a => mret a | None => hpanic end.

(** ** Memory *)

Definition apply_writes (ws : list (ptr * Z)) (m : gmap Z Z) : gmap Z Z :=
  foldl (fun m pv => <[pv.1 := pv.2]> m) m ws.

Definition load (p : ptr) : HM Z := fun w =>
  match hw_mem w !! p with Some v => Returns v w | None => Faults end.

(** [if p.is_null() { dflt } else { *p }]. *)
Definition load_or (p : ptr) (dflt : Z) : HM Z := if is_null p then mret dflt else load p.

Fixpoint read_bytes (p : ptr) (n : nat) (m : gmap Z Z) : option (list Z) :=
  match n with
  | O => Some []
  | S n' => match m !! p with
            | Some b => cons b <$> read_bytes (p + 1) n' m
            | None => None
            end
  end.

(** [CStr::from_ptr]: the bytes before the first NUL.  A string cannot be longer
    than the memory, so its size bounds the scan. *)
Fixpoint c_string (p : ptr) (fuel : nat) (m : gmap Z Z) : option (list Z) :=
  match fuel with
  | O => None
  | S fuel => match m !! p with
              | Some b => if b =? 0 then Some [] else cons b <$> c_string (p + 1) fuel m
              | None => None
              end
  end.

Definition cstr_at (p : ptr) (m : gmap Z Z) : option (list Z) := c_string p (S (size m)) m.

(** [CStr::from_ptr(p).to_string_lossy()], with the given text for null. *)
Definition cstr_or (p : ptr) (dflt : string) : HM string := fun w =>
  if is_null p then Returns dflt w
  else match cstr_at p (hw_mem w) with
       | Some l => Returns (byte_string (utf8_lossy l)) w
       | None => Faults
       end.

(** ** Tables, files and the clock *)

Definition load_table (p : ptr) : HM HipFunctionTable := fun w =>
  match hw_tables w !! p with Some t => Returns t w | None => Faults end.

(** [Box::into_raw(Box::new(table))]. *)
Definition box_table (t : HipFunctionTable) : HM ptr := fun w =>
  Returns (hw_next w)
    (set_tables (set_hnext w (hw_next w + 4096)) (<[hw_next w := t]> (hw_tables w))).

(** [drop(Box::from_raw(p))]. *)
Definition drop_table (p : ptr) : HM unit := fun w =>
  match hw_tables w !! p with
  | Some _ => Returns tt (set_tables w (delete p (hw_tables w)))
  | None => Faults
  end.

Definition fwrite (file : ptr) (s : string) : HM unit := fun w =>
  match hw_files w !! file with
  | Some l => Returns tt (set_files w (<[file := s :: l]> (hw_files w)))
  | None => Faults
  end.

Definition fclose (file : ptr) : HM unit := fun w =>
  match hw_files w !! file with
  | Some _ => Returns tt (set_files w (delete file (hw_files w)))
  | None => Faults
  end.

Definition eprintln (s : string) : HM unit := hmodify (fun w => set_err w (s :: hw_err w)).

(** glibc [%p]: the [p] helper of both interceptors. *)
Definition fmt_p (q : ptr) : string := if is_null q then "(nil)" else "0x" +:+ hex q.

Section Environment.
Context `{HIP}.

(** A call of a backend function. *)
Definition call_backend (f : ptr) (args : list Z) : HM Z := fun w =>
  let a := hip_call (hw_calls w) (hw_mem w) f args in
  Returns (an_ret a)
    (set_calls (set_hmem w (apply_writes (an_writes a) (hw_mem w))) ((f, args) :: hw_calls w)).

(** [(table.slot.unwrap())(args)] on the table an interceptor was given.  That
    table is the one hip-intercept filled from the backend; it holds no wrapper. *)
Definition call_real (table : ptr) (s : slot) (args : list Z) : HM Z :=
  t ← load_table table;
  f ← unwrap (tb_slots t s);
  match f with
  | Backend a => call_backend a args
  | Wrapper _ _ => hfault
  end.

(** [now_ts]. *)
Definition now_ts : HM (Z * Z) := fun w =>
  Returns (hip_clock (hw_ticks w)) (set_ticks w (S (hw_ticks w))).

(** [fopen(path, "w")]. *)
Definition open_file (path : string) : HM ptr := fun w =>
  let f := hip_fopen path in
  Returns f (if is_null f then w else set_files w (<[f := []]> (hw_files w))).

(** [fdopen(2, "w")]. *)
Definition open_stderr : HM ptr := fun w =>
  let f := hip_stderr in
  Returns f (if is_null f then w else set_files w (<[f := default [] (hw_files w !! f)]> (hw_files w))).

(** A timestamped line: [format!("[{}.{:06}] {}\n", ...)]. *)
Definition stamped (file : ptr) (msg : string) : HM unit :=
  '(s, ns) ← now_ts;
  fwrite file ("[" +:+ pretty s +:+ "." +:+ dec6 (Z.quot ns 1000) +:+ "] " +:+ msg +:+ NL).

(** The log destination both interceptors open: the file an environment
    variable names, or standard error. *)
Definition open_destination (variable complaint : string) : HM (ptr * bool) :=
  match hip_env variable with
  | Some path =>
      if String.eqb path "" then f ← open_stderr; mret (f, false)
      else
        f ← open_file path;
        if is_null f then
          eprintln (complaint +:+ path) ;;
          f ← open_stderr;
          mret (f, false)
        else mret (f, true)
  | None => f ← open_stderr; mret (f, false)
  end.

(** [std::env::var(k).map(|s| atoi(&s)).unwrap_or(dflt)]. *)
Definition getenv_int (k : string) (dflt : Z) : Z :=
  match hip_env k with Some s => atoi (bytes_of s) | None => dflt end.
End Environment.
