(* ===== verification/HipTracer.v ===== *)
(** * The buffer tracer: crates/hip-buffer-tracer/src/lib.rs

    A stateful interceptor: it tracks allocations and kernel registrations and
    dumps or hashes the tracked buffers around kernel launches.  [STATE] is locked
    for the whole of every wrapper, so a wrapper is a function of the state. *)

From stdpp Require Import pretty.
From S2P Require Import Prelude HipTable HipMachine.

Definition MAX_TRACKED_BUFFERS : nat := Z.to_nat 65536.

Lemma MAX_TRACKED_BUFFERS_value : Z.of_nat MAX_TRACKED_BUFFERS = 65536.
Proof. apply Z2Nat.id. lia. Qed.

#[global] Opaque MAX_TRACKED_BUFFERS.

Definition buffer_type_name (t : BufferType) : string :=
  match t with Device => "device" | Host => "host" | Managed => "managed" end.

(** ** State updates *)

Definition set_buffers (st : State) (b : BufferTable) : State :=
  Tracing (tr_real st) (tr_wrapper st) (tr_trace_file st) (tr_trace_level st) (tr_trace_sync st)
    (tr_trace_dump st) (tr_trace_dump_max st) (tr_kernel_filter st) (tr_kernel_count_limit st)
    (tr_kernel_count st) (tr_kernel_full_dump_list st) (tr_owns_file st) b (tr_kernels st).
Definition set_kernels (st : State) (k : list KernelInfo) : State :=
  Tracing (tr_real st) (tr_wrapper st) (tr_trace_file st) (tr_trace_level st) (tr_trace_sync st)
    (tr_trace_dump st) (tr_trace_dump_max st) (tr_kernel_filter st) (tr_kernel_count_limit st)
    (tr_kernel_count st) (tr_kernel_full_dump_list st) (tr_owns_file st) (tr_buffers st) k.
Definition set_kernel_count (st : State) (n : Z) : State :=
  Tracing (tr_real st) (tr_wrapper st) (tr_trace_file st) (tr_trace_level st) (tr_trace_sync st)
    (tr_trace_dump st) (tr_trace_dump_max st) (tr_kernel_filter st) (tr_kernel_count_limit st)
    n (tr_kernel_full_dump_list st) (tr_owns_file st) (tr_buffers st) (tr_kernels st).
Definition set_handles (st : State) (wrapper file : ptr) : State :=
  Tracing (tr_real st) wrapper file (tr_trace_level st) (tr_trace_sync st)
    (tr_trace_dump st) (tr_trace_dump_max st) (tr_kernel_filter st) (tr_kernel_count_limit st)
    (tr_kernel_count st) (tr_kernel_full_dump_list st) (tr_owns_file st) (tr_buffers st)
    (tr_kernels st).

(** FNV-1a, one byte. *)
Definition FNV_OFFSET : Z := 0xcbf29ce484222325.
Definition FNV_PRIME : Z := 0x100000001b3.
Definition hash_step (hash b : Z) : Z := wrap_u64 (Z.lxor hash b * FNV_PRIME).

Definition compute_hash (data : list Z) : Z := foldl hash_step FNV_OFFSET data.

(** [str::contains] on bytes. *)
Fixpoint starts_with (pat s : list Z) : bool :=
  match pat, s with
  | [], _ => true
  | a :: pat', b :: s' => (a =? b) && starts_with pat' s'
  | _ :: _, [] => false
  end.

Fixpoint contains (s pat : list Z) : bool :=
  starts_with pat s || match s with [] => false | _ :: s' => contains s' pat end.

Definition str_contains (s pat : string) : bool := contains (bytes_of s) (bytes_of pat).

(** [str::split(':')]. *)
Fixpoint split_colon (s : list Z) : list (list Z) :=
  match s with
  | [] => [[]]
  | b :: s' => if b =? 58 then [] :: split_colon s'
               else match split_colon s' with
                    | [] => [[b]]
                    | tok :: rest => (b :: tok) :: rest
                    end
  end.

Section Tracer.
Context `{HIP}.

Definition trace_msg (st : State) (level : Z) (msg : string) : HM unit :=
  if (tr_trace_level st <? level) || is_null (tr_trace_file st) then mret tt
  else stamped (tr_trace_file st) msg.

Definition raw_write (st : State) (s : string) : HM unit :=
  if is_null (tr_trace_file st) then mret tt else fwrite (tr_trace_file st) s.

(** ** The buffer table *)

(** [iter().position(|b| !b.in_use)]. *)
Fixpoint free_slot (l : list TrackedBuffer) : option nat :=
  match l with
  | [] => None
  | b :: l' => if bf_in_use b then S <$> free_slot l' else Some O
  end.

Definition buffer_table_add (st : State) (p : ptr) (size : Z) (btype : BufferType) : HM State :=
  if is_null p || (size =? 0) then mret st
  else
    let t := tr_buffers st in
    match free_slot (bt_buffers t) with
    | None =>
        trace_msg st 1 ("WARNING: buffer table full, cannot track " +:+ fmt_p p) ;; mret st
    | Some i =>
        let id := bt_next_alloc_id t in
        mret (set_buffers st
          (Buffers (<[i := Tracked p size btype true id]> (bt_buffers t))
             (wrap_u64 (bt_count t + 1)) (wrap_u64 (id + 1))))
    end.

(** [iter_mut().find(|b| b.in_use && b.ptr == ptr)]. *)
Fixpoint tracked_slot (p : ptr) (l : list TrackedBuffer) : option nat :=
  match l with
  | [] => None
  | b :: l' => if bf_in_use b && (bf_ptr b =? p) then Some O else S <$> tracked_slot p l'
  end.

Definition not_in_use (b : TrackedBuffer) : TrackedBuffer :=
  Tracked (bf_ptr b) (bf_size b) (bf_btype b) false (bf_alloc_id b).

Definition buffer_table_remove (st : State) (p : ptr) : State :=
  if is_null p then st
  else
    let t := tr_buffers st in
    match tracked_slot p (bt_buffers t) with
    | Some i =>
        set_buffers st (Buffers (alter not_in_use i (bt_buffers t)) (wrap_u64 (bt_count t - 1))
                          (bt_next_alloc_id t))
    | None => st
    end.

(** ** The kernel table *)

Definition kernel_table_add (st : State) (host_func : ptr) (name : option string) : State :=
  if is_null host_func then st
  else if existsb (fun k => kn_host_func k =? host_func) (tr_kernels st) then st
  else
    let name := default ("kernel_" +:+ fmt_p host_func)%string name in
    set_kernels st (tr_kernels st ++ [Kernel host_func name]).

Definition kernel_table_get_name (st : State) (host_func : ptr) : option string :=
  kn_name <$> List.find (fun k => kn_host_func k =? host_func) (tr_kernels st).

(** ** Dumping *)

(** The text of the bytes [data[i..dump_size]]; reading past [data] panics. *)
Fixpoint hex_bytes (data : list Z) (i n : nat) : option string :=
  match n with
  | O => Some EmptyString
  | S n' =>
      b ← data !! i;
      rest ← hex_bytes data (S i) n';
      Some (hex0 2 b
        +:+ (if ((i + 1) mod 32 =? 0)%nat then NL +:+ "    "
             else if ((i + 1) mod 4 =? 0)%nat then " " else "")
        +:+ rest)%string
  end.

Definition dump_buffer_hex (st : State) (data : list Z) (size max_bytes : Z) : HM unit :=
  let dump_size := Z.min size max_bytes in
  out ← unwrap (hex_bytes data 0 (Z.to_nat dump_size));
  raw_write st ("    " +:+ out
    +:+ (if max_bytes <? size then "... (" +:+ pretty (size - max_bytes) +:+ " more bytes)" else "")
    +:+ NL).

(** The staging [Vec<u8>]: its address and length.  Its cells are part of memory
    while it lives; every resize is taken to move it. *)
Definition write_cells (p : ptr) (l : list Z) (m : gmap Z Z) : gmap Z Z :=
  apply_writes (imap (fun i b => (p + Z.of_nat i, b)) l) m.

Fixpoint free_cells (p : ptr) (n : nat) (m : gmap Z Z) : gmap Z Z :=
  match n with O => m | S n' => free_cells (p + 1) n' (delete p m) end.

Definition staging_resize (v : ptr * nat) (n : nat) : HM (ptr * nat) := fun w =>
  match read_bytes v.1 v.2 (hw_mem w) with
  | None => Faults
  | Some old =>
      let content := take n (old ++ replicate n 0) in
      let p := hw_next w in
      Returns (p, n)
        (set_hnext (set_hmem w (write_cells p content (free_cells v.1 v.2 (hw_mem w))))
           (p + Z.of_nat n + 4096))
  end.

Definition staging_drop (v : ptr * nat) : HM unit :=
  hmodify (fun w => set_hmem w (free_cells v.1 v.2 (hw_mem w))).

(** [from_raw_parts(p, n)]. *)
Definition slice (p : ptr) (n : Z) : HM (list Z) := fun w =>
  match read_bytes p (Z.to_nat n) (hw_mem w) with
  | Some l => Returns l w
  | None => Faults
  end.

Definition describe (b : TrackedBuffer) : string :=
  ("  [alloc " +:+ pretty (bf_alloc_id b) +:+ "] " +:+ buffer_type_name (bf_btype b) +:+ " "
   +:+ fmt_p (bf_ptr b) +:+ " size=" +:+ pretty (bf_size b))%string.

(** The tail of one iteration, once the bytes are at hand. *)
Definition report_buffer (st : State) (force_full_dump : bool) (max_dump : Z) (b : TrackedBuffer)
  (data : list Z) : HM unit :=
  if (tr_trace_dump st =? 2) && negb force_full_dump then
    raw_write st (describe b +:+ " hash=0x" +:+ hex0 16 (compute_hash data) +:+ NL)
  else
    raw_write st (describe b +:+ ":" +:+ NL) ;;
    dump_buffer_hex st data (bf_size b) max_dump.

(** One iteration of the loop over the table. *)
Definition dump_one (st : State) (force_full_dump : bool) (staging : ptr * nat) (b : TrackedBuffer)
  : HM (ptr * nat) :=
  if negb (bf_in_use b) || (bf_size b =? 0) then mret staging
  else
    let max_dump := if force_full_dump then bf_size b else tr_trace_dump_max st in
    let read_size :=
      if negb force_full_dump && (0 <? tr_trace_dump_max st) && (tr_trace_dump_max st <? bf_size b)
      then tr_trace_dump_max st else bf_size b in
    match bf_btype b with
    | Device =>
        staging ← staging_resize staging (Z.to_nat read_size);
        err ← call_real (tr_real st) hipMemcpy [staging.1; bf_ptr b; read_size; 2];
        if negb (err =? 0) then
          trace_msg st 1 (describe b +:+ " - MEMCPY FAILED: " +:+ pretty err) ;; mret staging
        else
          data ← slice staging.1 read_size;
          report_buffer st force_full_dump max_dump b data ;; mret staging
    | _ =>
        data ← slice (bf_ptr b) read_size;
        report_buffer st force_full_dump max_dump b data ;; mret staging
    end.

Fixpoint dump_loop (st : State) (force_full_dump : bool) (staging : ptr * nat)
  (l : list TrackedBuffer) : HM (ptr * nat) :=
  match l with
  | [] => mret staging
  | b :: l' => staging ← dump_one st force_full_dump staging b;
               dump_loop st force_full_dump staging l'
  end.

Definition dump_all_buffers_ex (st : State) (label : string) (force_full_dump : bool) : HM unit :=
  if tr_trace_dump st =? 0 then mret tt
  else
    let suffix := (if force_full_dump then " [FULL DUMP]" else "")%string in
    trace_msg st 3 ("=== Buffer Dump: " +:+ label +:+ " (" +:+ pretty (bt_count (tr_buffers st))
                      +:+ " buffers)" +:+ suffix +:+ " ===") ;;
    staging ← dump_loop st force_full_dump (0, O) (bt_buffers (tr_buffers st));
    staging_drop staging.

(** ** Which kernels to trace *)

Definition should_trace_kernel (st : State) (kernel_name : option string) : bool :=
  if (0 <? tr_kernel_count_limit st) && (tr_kernel_count_limit st <=? tr_kernel_count st) then false
  else match tr_kernel_filter st with
       | Some filter =>
           if String.eqb filter "" then true
           else match kernel_name with
                | Some n => str_contains n filter
                | None => false
                end
       | None => true
       end.

Fixpoint full_dump_loop (st : State) (name : string) (tokens : list (list Z)) : HM bool :=
  match tokens with
  | [] => mret false
  | token :: rest =>
      if negb (Nat.eqb (length token) 0) && contains (bytes_of name) token then
        trace_msg st 3 ("Full dump match: kernel='" +:+ name +:+ "' matches token='"
                          +:+ byte_string token +:+ "'") ;;
        mret true
      else full_dump_loop st name rest
  end.

Definition should_full_dump_kernel (st : State) (kernel_name : option string) : HM bool :=
  match tr_kernel_full_dump_list st, kernel_name with
  | Some l, Some n => if String.eqb l "" then mret false
                      else full_dump_loop st n (split_colon (bytes_of l))
  | _, _ => mret false
  end.

(** [with_state!]: the state is present once the interceptor is initialized. *)
Definition with_state (body : State -> HM (Z * State)) : HM Z :=
  o ← hread hw_state;
  st ← unwrap o;
  '(r, st') ← body st;
  hmodify (fun w => set_tstate w (Some st')) ;;
  mret r.
(** ** Memory management *)

(** The address the client receives is tracked when the call succeeds. *)
Definition track_result (st : State) (err ptr size : Z) (btype : BufferType) : HM State :=
  if (err =? 0) && negb (is_null ptr) then
    pv ← load ptr;
    if negb (is_null pv) then buffer_table_add st pv size btype else mret st
  else mret st.

Definition wrap_hipMalloc (ptr size : Z) : HM Z :=
  with_state (fun st =>
    err ← call_real (tr_real st) hipMalloc [ptr; size];
    st ← track_result st err ptr size Device;
    pv ← load_or ptr null;
    trace_msg st 2 ("hipMalloc(size=" +:+ pretty size +:+ ") -> ptr=" +:+ fmt_p pv +:+ ", ret="
                      +:+ pretty err) ;;
    mret (err, st)).

Definition wrap_hipFree (ptr : Z) : HM Z :=
  with_state (fun st =>
    let st := buffer_table_remove st ptr in
    err ← call_real (tr_real st) hipFree [ptr];
    trace_msg st 2 ("hipFree(" +:+ fmt_p ptr +:+ ") -> " +:+ pretty err) ;;
    mret (err, st)).

Definition wrap_hipHostMalloc (ptr size flags : Z) : HM Z :=
  with_state (fun st =>
    err ← call_real (tr_real st) hipHostMalloc [ptr; size; flags];
    st ← track_result st err ptr size Host;
    pv ← load_or ptr null;
    trace_msg st 2 ("hipHostMalloc(size=" +:+ pretty size +:+ ", flags=0x" +:+ hex flags
                      +:+ ") -> ptr=" +:+ fmt_p pv +:+ ", ret=" +:+ pretty err) ;;
    mret (err, st)).

Definition wrap_hipHostFree (ptr : Z) : HM Z :=
  with_state (fun st =>
    let st := buffer_table_remove st ptr in
    err ← call_real (tr_real st) hipHostFree [ptr];
    trace_msg st 2 ("hipHostFree(" +:+ fmt_p ptr +:+ ") -> " +:+ pretty err) ;;
    mret (err, st)).

(** ** Memory operations *)

Definition wrap_hipMemcpy (dst src n kind : Z) : HM Z :=
  with_state (fun st =>
    err ← call_real (tr_real st) hipMemcpy [dst; src; n; kind];
    trace_msg st 2 ("hipMemcpy(dst=" +:+ fmt_p dst +:+ ", src=" +:+ fmt_p src +:+ ", size=" +:+ pretty n +:+ 
                      ", kind=" +:+ memcpy_kind_name kind +:+ ") -> " +:+ pretty err) ;;
    mret (err, st)).

Definition wrap_hipMemcpyAsync (dst src n kind stream : Z) : HM Z :=
  with_state (fun st =>
    err ← call_real (tr_real st) hipMemcpyAsync [dst; src; n; kind; stream];
    trace_msg st 2 ("hipMemcpyAsync(dst=" +:+ fmt_p dst +:+ ", src=" +:+ fmt_p src +:+ ", size=" +:+ pretty n +:+ 
                      ", kind=" +:+ memcpy_kind_name kind +:+ ", stream=" +:+ fmt_p stream +:+ ") -> " +:+ pretty err) ;;
    mret (err, st)).

Definition wrap_hipMemset (dst value n : Z) : HM Z :=
  with_state (fun st =>
    err ← call_real (tr_real st) hipMemset [dst; value; n];
    trace_msg st 2 ("hipMemset(dst=" +:+ fmt_p dst +:+ ", value=0x" +:+ hex0 2 (wrap_u32 value) +:+ ", size=" +:+ 
                      pretty n +:+ ") -> " +:+ pretty err) ;;
    mret (err, st)).

Definition wrap_hipMemsetAsync (dst value n stream : Z) : HM Z :=
  with_state (fun st =>
    err ← call_real (tr_real st) hipMemsetAsync [dst; value; n; stream];
    trace_msg st 2 ("hipMemsetAsync(dst=" +:+ fmt_p dst +:+ ", value=0x" +:+ hex0 2 (wrap_u32 value) +:+ ", size=" +:+ 
                      pretty n +:+ ", stream=" +:+ fmt_p stream +:+ ") -> " +:+ pretty err) ;;
    mret (err, st)).

(** ** Device management *)

Definition wrap_hipInit (flags : Z) : HM Z :=
  with_state (fun st =>
    err ← call_real (tr_real st) hipInit [flags];
    trace_msg st 2 ("hipInit(flags=0x" +:+ hex flags +:+ ") -> " +:+ pretty err) ;;
    mret (err, st)).

Definition wrap_hipGetDevice (device_id : Z) : HM Z :=
  with_state (fun st =>
    err ← call_real (tr_real st) hipGetDevice [device_id];
    v ← load_or device_id (-1);
    trace_msg st 2 ("hipGetDevice() -> device=" +:+ pretty v +:+ ", ret=" +:+ pretty err) ;;
    mret (err, st)).

Definition wrap_hipGetDeviceCount (count : Z) : HM Z :=
  with_state (fun st =>
    err ← call_real (tr_real st) hipGetDeviceCount [count];
    v ← load_or count (-1);
    trace_msg st 2 ("hipGetDeviceCount() -> count=" +:+ pretty v +:+ ", ret=" +:+ pretty err) ;;
    mret (err, st)).

Definition wrap_hipSetDevice (device_id : Z) : HM Z :=
  with_state (fun st =>
    err ← call_real (tr_real st) hipSetDevice [device_id];
    trace_msg st 2 ("hipSetDevice(" +:+ pretty device_id +:+ ") -> " +:+ pretty err) ;;
    mret (err, st)).

Definition wrap_hipDeviceSynchronize : HM Z :=
  with_state (fun st =>
    err ← call_real (tr_real st) hipDeviceSynchronize [];
    trace_msg st 2 ("hipDeviceSynchronize() -> " +:+ pretty err) ;;
    mret (err, st)).

(** ** Streams and events *)

Definition wrap_hipStreamCreate (stream : Z) : HM Z :=
  with_state (fun st =>
    err ← call_real (tr_real st) hipStreamCreate [stream];
    sv ← load_or stream null;
    trace_msg st 2 ("hipStreamCreate() -> stream=" +:+ fmt_p sv +:+ ", ret=" +:+ pretty err) ;;
    mret (err, st)).

Definition wrap_hipStreamCreateWithFlags (stream flags : Z) : HM Z :=
  with_state (fun st =>
    err ← call_real (tr_real st) hipStreamCreateWithFlags [stream; flags];
    sv ← load_or stream null;
    trace_msg st 2 ("hipStreamCreateWithFlags(flags=0x" +:+ hex flags +:+ ") -> stream=" +:+ fmt_p sv +:+ 
                      ", ret=" +:+ pretty err) ;;
    mret (err, st)).

Definition wrap_hipStreamDestroy (stream : Z) : HM Z :=
  with_state (fun st =>
    err ← call_real (tr_real st) hipStreamDestroy [stream];
    trace_msg st 2 ("hipStreamDestroy(stream=" +:+ fmt_p stream +:+ ") -> " +:+ pretty err) ;;
    mret (err, st)).

Definition wrap_hipStreamSynchronize (stream : Z) : HM Z :=
  with_state (fun st =>
    err ← call_real (tr_real st) hipStreamSynchronize [stream];
    trace_msg st 2 ("hipStreamSynchronize(stream=" +:+ fmt_p stream +:+ ") -> " +:+ pretty err) ;;
    mret (err, st)).

Definition wrap_hipEventCreate (event : Z) : HM Z :=
  with_state (fun st =>
    err ← call_real (tr_real st) hipEventCreate [event];
    ev ← load_or event null;
    trace_msg st 2 ("hipEventCreate() -> event=" +:+ fmt_p ev +:+ ", ret=" +:+ pretty err) ;;
    mret (err, st)).

Definition wrap_hipEventCreateWithFlags (event flags : Z) : HM Z :=
  with_state (fun st =>
    err ← call_real (tr_real st) hipEventCreateWithFlags [event; flags];
    ev ← load_or event null;
    trace_msg st 2 ("hipEventCreateWithFlags(flags=0x" +:+ hex flags +:+ ") -> event=" +:+ fmt_p ev +:+ 
                      ", ret=" +:+ pretty err) ;;
    mret (err, st)).

Definition wrap_hipEventDestroy (event : Z) : HM Z :=
  with_state (fun st =>
    err ← call_real (tr_real st) hipEventDestroy [event];
    trace_msg st 2 ("hipEventDestroy(event=" +:+ fmt_p event +:+ ") -> " +:+ pretty err) ;;
    mret (err, st)).

Definition wrap_hipEventRecord (event stream : Z) : HM Z :=
  with_state (fun st =>
    err ← call_real (tr_real st) hipEventRecord [event; stream];
    trace_msg st 2 ("hipEventRecord(event=" +:+ fmt_p event +:+ ", stream=" +:+ fmt_p stream +:+ ") -> " +:+ pretty err) ;;
    mret (err, st)).

Definition wrap_hipEventSynchronize (event : Z) : HM Z :=
  with_state (fun st =>
    err ← call_real (tr_real st) hipEventSynchronize [event];
    trace_msg st 2 ("hipEventSynchronize(event=" +:+ fmt_p event +:+ ") -> " +:+ pretty err) ;;
    mret (err, st)).

(** ** Kernel launches *)

(** [hipDeviceSynchronize] and a dump, when launches are synchronized. *)
Definition dump_point (st : State) (do_trace do_full : bool) (label : string) : HM unit :=
  if do_trace && tr_trace_sync st then
    call_real (tr_real st) hipDeviceSynchronize [] ;;
    dump_all_buffers_ex st label do_full
  else mret tt.

(** The three launch wrappers have one body: [message] is the trace line for the
    name of the kernel and [args] the arguments of the real function [s]. *)
Definition traced_launch (func : ptr) (message : string -> string) (s : slot) (args : list Z) : HM Z :=
  with_state (fun st =>
    let name := kernel_table_get_name st func in
    let do_trace := should_trace_kernel st name in
    do_full ← should_full_dump_kernel st name;
    dump_point st do_trace do_full
      ("BEFORE kernel #" +:+ pretty (tr_kernel_count st) +:+ ": "
         +:+ default "(unknown)"%string name) ;;
    trace_msg st 2 (message (default "?"%string name)) ;;
    err ← call_real (tr_real st) s args;
    dump_point st do_trace do_full
      ("AFTER kernel #" +:+ pretty (tr_kernel_count st) +:+ ": "
         +:+ default "(unknown)"%string name +:+ " (ret=" +:+ pretty err +:+ ")") ;;
    let st := if do_trace then set_kernel_count st (wrap_i32 (tr_kernel_count st + 1)) else st in
    trace_msg st 2 ("  -> " +:+ pretty err) ;;
    mret (err, st)).

Definition wrap_hipModuleLaunchKernel
  (f gx gy gz bx by_ bz shared stream kernel_params extra : Z) : HM Z :=
  traced_launch f
    (fun name => "hipModuleLaunchKernel(func=" +:+ fmt_p f +:+ " [" +:+ name +:+ "], grid="
       +:+ dims gx gy gz +:+ ", block=" +:+ dims bx by_ bz +:+ ", shared=" +:+ pretty shared
       +:+ ", stream=" +:+ fmt_p stream +:+ ")")%string
    hipModuleLaunchKernel [f; gx; gy; gz; bx; by_; bz; shared; stream; kernel_params; extra].

(** The [dim3] arguments are passed as their three fields. *)
Definition wrap_hipLaunchKernel
  (function_address nx ny nz dx dy dz args shared stream : Z) : HM Z :=
  traced_launch function_address
    (fun name => "hipLaunchKernel(func=" +:+ fmt_p function_address +:+ " [" +:+ name +:+ "], grid="
       +:+ dims nx ny nz +:+ ", block=" +:+ dims dx dy dz +:+ ", shared=" +:+ pretty shared
       +:+ ", stream=" +:+ fmt_p stream +:+ ")")%string
    hipLaunchKernel [function_address; nx; ny; nz; dx; dy; dz; args; shared; stream].

Definition wrap_hipExtModuleLaunchKernel
  (f gx gy gz lx ly lz shared stream kernel_params extra start_event stop_event flags : Z) : HM Z :=
  traced_launch f
    (fun name => "hipExtModuleLaunchKernel(func=" +:+ fmt_p f +:+ " [" +:+ name +:+ "], globalSize="
       +:+ dims gx gy gz +:+ ", localSize=" +:+ dims lx ly lz +:+ ", shared=" +:+ pretty shared
       +:+ ", stream=" +:+ fmt_p stream +:+ ", flags=0x" +:+ hex flags +:+ ")")%string
    hipExtModuleLaunchKernel
    [f; gx; gy; gz; lx; ly; lz; shared; stream; kernel_params; extra; start_event; stop_event; flags].

(** ** Fat binaries *)

Definition wrap___hipRegisterFatBinary (data : Z) : HM Z :=
  with_state (fun st =>
    result ← call_real (tr_real st) __hipRegisterFatBinary [data];
    trace_msg st 2 ("__hipRegisterFatBinary(data=" +:+ fmt_p data +:+ ") -> handle="
                      +:+ fmt_p result) ;;
    mret (result, st)).

(** The functions that return nothing answer 0 here. *)
Definition wrap___hipUnregisterFatBinary (handle : Z) : HM Z :=
  with_state (fun st =>
    trace_msg st 2 ("__hipUnregisterFatBinary(handle=" +:+ fmt_p handle +:+ ")") ;;
    call_real (tr_real st) __hipUnregisterFatBinary [handle] ;;
    mret (0, st)).

Definition wrap___hipRegisterFunction
  (handle host_fun device_fun device_name thread_limit tid bid block_dim grid_dim w_size : Z) : HM Z :=
  with_state (fun st =>
    name ← (if is_null device_name then mret None
            else n ← cstr_or device_name ""; mret (Some n));
    let st := kernel_table_add st host_fun name in
    device ← cstr_or device_name "(null)";
    trace_msg st 2 ("__hipRegisterFunction(handle=" +:+ fmt_p handle +:+ ", host=" +:+ fmt_p host_fun
                      +:+ ", device=" +:+ device +:+ ")") ;;
    call_real (tr_real st) __hipRegisterFunction
      [handle; host_fun; device_fun; device_name; thread_limit; tid; bid; block_dim; grid_dim; w_size] ;;
    mret (0, st)).

Definition wrap___hipRegisterVar
  (handle host_var device_address device_name ext size constant global : Z) : HM Z :=
  with_state (fun st =>
    name ← cstr_or device_name "(null)";
    trace_msg st 2 ("__hipRegisterVar(handle=" +:+ fmt_p handle +:+ ", name=" +:+ name
                      +:+ ", size=" +:+ pretty size +:+ ")") ;;
    call_real (tr_real st) __hipRegisterVar
      [handle; host_var; device_address; device_name; ext; size; constant; global] ;;
    mret (0, st)).

(** The wrapper behind each overridden slot, by its signature. *)
Definition wrap (s : slot) (args : list Z) : HM Z :=
  match s, args with
  | hipInit, [a] => wrap_hipInit a
  | hipGetDevice, [a] => wrap_hipGetDevice a
  | hipGetDeviceCount, [a] => wrap_hipGetDeviceCount a
  | hipSetDevice, [a] => wrap_hipSetDevice a
  | hipDeviceSynchronize, [] => wrap_hipDeviceSynchronize
  | hipMalloc, [a; b] => wrap_hipMalloc a b
  | hipFree, [a] => wrap_hipFree a
  | hipHostMalloc, [a; b; c] => wrap_hipHostMalloc a b c
  | hipHostFree, [a] => wrap_hipHostFree a
  | hipMemcpy, [a; b; c; d] => wrap_hipMemcpy a b c d
  | hipMemcpyAsync, [a; b; c; d; e] => wrap_hipMemcpyAsync a b c d e
  | hipMemset, [a; b; c] => wrap_hipMemset a b c
  | hipMemsetAsync, [a; b; c; d] => wrap_hipMemsetAsync a b c d
  | hipStreamCreate, [a] => wrap_hipStreamCreate a
  | hipStreamCreateWithFlags, [a; b] => wrap_hipStreamCreateWithFlags a b
  | hipStreamDestroy, [a] => wrap_hipStreamDestroy a
  | hipStreamSynchronize, [a] => wrap_hipStreamSynchronize a
  | hipEventCreate, [a] => wrap_hipEventCreate a
  | hipEventCreateWithFlags, [a; b] => wrap_hipEventCreateWithFlags a b
  | hipEventDestroy, [a] => wrap_hipEventDestroy a
  | hipEventRecord, [a; b] => wrap_hipEventRecord a b
  | hipEventSynchronize, [a] => wrap_hipEventSynchronize a
  | hipModuleLaunchKernel, [a; b; c; d; e; f; g; h; i; j; k] =>
      wrap_hipModuleLaunchKernel a b c d e f g h i j k
  | hipLaunchKernel, [a; b; c; d; e; f; g; h; i; j] => wrap_hipLaunchKernel a b c d e f g h i j
  | hipExtModuleLaunchKernel, [a; b; c; d; e; f; g; h; i; j; k; l; m; n] =>
      wrap_hipExtModuleLaunchKernel a b c d e f g h i j k l m n
  | __hipRegisterFatBinary, [a] => wrap___hipRegisterFatBinary a
  | __hipUnregisterFatBinary, [a] => wrap___hipUnregisterFatBinary a
  | __hipRegisterFunction, [a; b; c; d; e; f; g; h; i; j] =>
      wrap___hipRegisterFunction a b c d e f g h i j
  | __hipRegisterVar, [a; b; c; d; e; f; g; h] => wrap___hipRegisterVar a b c d e f g h
  | _, _ => hfault
  end.

(** ** Entry points *)

(** The slots [hip_interceptor_init] overrides. *)
Definition wrapped_slots : list slot :=
  [hipInit; hipGetDevice; hipGetDeviceCount; hipSetDevice; hipDeviceSynchronize; hipMalloc; hipFree;
   hipHostMalloc; hipHostFree; hipMemcpy; hipMemcpyAsync; hipMemset; hipMemsetAsync; hipStreamCreate;
   hipStreamCreateWithFlags; hipStreamDestroy; hipStreamSynchronize; hipEventCreate;
   hipEventCreateWithFlags; hipEventDestroy; hipEventRecord; hipEventSynchronize;
   hipModuleLaunchKernel; hipLaunchKernel; hipExtModuleLaunchKernel; __hipRegisterFatBinary;
   __hipUnregisterFatBinary; __hipRegisterFunction; __hipRegisterVar].

Definition buffer_table_new : BufferTable :=
  Buffers (replicate MAX_TRACKED_BUFFERS (Tracked null 0 Device false 0)) 0 1.

(** The banner, in the order of the lines. *)
Definition banner (st : State) : HM unit :=
  (match tr_kernel_full_dump_list st with
   | Some l => trace_msg st 1 ("Full dump enabled for kernels (len="
                 +:+ pretty (Z.of_nat (String.length l)) +:+ "): " +:+ l)
   | None => mret tt
   end) ;;
  trace_msg st 1 "HIP Buffer Tracer initialized" ;;
  trace_msg st 1 ("  trace_level=" +:+ pretty (tr_trace_level st) +:+ ", trace_sync="
    +:+ (if tr_trace_sync st then "1" else "0") +:+ ", trace_dump=" +:+ pretty (tr_trace_dump st)
    +:+ ", dump_max=" +:+ pretty (tr_trace_dump_max st)) ;;
  (match tr_kernel_filter st with
   | Some f => if String.eqb f "" then mret tt else trace_msg st 1 ("  kernel_filter=" +:+ f)
   | None => mret tt
   end) ;;
  (if 0 <? tr_kernel_count_limit st
   then trace_msg st 1 ("  kernel_count_limit=" +:+ pretty (tr_kernel_count_limit st))
   else mret tt).

Definition hip_interceptor_init (real_functions : ptr) : HM ptr :=
  '(file, owns_file) ← open_destination "HIP_TRACE_FILE"
                         "hip_buffer_tracer: failed to open trace file: ";
  let trace_level := getenv_int "HIP_TRACE_LEVEL" 2 in
  let trace_sync := negb (getenv_int "HIP_TRACE_SYNC" 0 =? 0) in
  let trace_dump := getenv_int "HIP_TRACE_DUMP" 0 in
  let trace_dump_max := match hip_env "HIP_TRACE_DUMP_MAX" with
                        | Some s => wrap_u64 (atol (bytes_of s))
                        | None => 1024
                        end in
  let kernel_filter := hip_env "HIP_TRACE_KERNEL_FILTER" in
  let kernel_count_limit := getenv_int "HIP_TRACE_KERNEL_COUNT" 0 in
  let kernel_full_dump_list := nonempty (hip_env "HIP_TRACE_KERNEL_FULL_DUMP") in
  real ← load_table real_functions;
  wrapper_ptr ← box_table (override Tracer wrapped_slots real);
  let st := Tracing real_functions wrapper_ptr file trace_level trace_sync trace_dump trace_dump_max
              kernel_filter kernel_count_limit 0 kernel_full_dump_list owns_file buffer_table_new [] in
  hmodify (fun w => set_tstate w (Some st)) ;;
  banner st ;;
  mret wrapper_ptr.

Definition hip_interceptor_shutdown : HM unit :=
  o ← hread hw_state;
  match o with
  | None => mret tt
  | Some st =>
      trace_msg st 1 "HIP Buffer Tracer shutting down" ;;
      trace_msg st 1 ("  Total kernels traced: " +:+ pretty (tr_kernel_count st)) ;;
      trace_msg st 1 ("  Total buffers tracked: " +:+ pretty (bt_count (tr_buffers st))) ;;
      file ← (if tr_owns_file st && negb (is_null (tr_trace_file st))
              then fclose (tr_trace_file st) ;; mret null else mret (tr_trace_file st));
      wrapper ← (if negb (is_null (tr_wrapper st))
                 then drop_table (tr_wrapper st) ;; mret null else mret (tr_wrapper st));
      hmodify (fun w => set_tstate w (Some (set_handles st wrapper file)))
  end.
End Tracer.
