(* ===== verification/HipLogging.v ===== *)
(** * The logging interceptor: crates/hip-logging/src/lib.rs

    Every wrapper calls the real function and writes one line about it to the log
    file; the registration wrappers write the line first. *)

From stdpp Require Import pretty.
From S2P Require Import Prelude HipTable HipMachine.

(** [device_attribute_name]. *)
Definition device_attribute_names : list (Z * string) :=
  [(0, "MaxThreadsPerBlock"%string); (1, "MaxBlockDimX"%string); (2, "MaxBlockDimY"%string);
   (3, "MaxBlockDimZ"%string); (4, "MaxGridDimX"%string); (5, "MaxGridDimY"%string);
   (6, "MaxGridDimZ"%string); (7, "MaxSharedMemoryPerBlock"%string);
   (8, "TotalConstantMemory"%string); (9, "WarpSize"%string);
   (10, "MaxRegistersPerBlock"%string); (11, "ClockRate"%string);
   (15, "MemoryClockRate"%string); (16, "MemoryBusWidth"%string);
   (17, "MultiProcessorCount"%string); (19, "ComputeCapabilityMajor"%string);
   (20, "ComputeCapabilityMinor"%string); (21, "L2CacheSize"%string);
   (22, "MaxThreadsPerMultiProcessor"%string); (24, "ConcurrentKernels"%string);
   (28, "PCIBusId"%string); (29, "PCIDeviceId"%string);
   (32, "MaxSharedMemoryPerMultiprocessor"%string); (43, "IsMultiGpuBoard"%string);
   (70, "CooperativeLaunch"%string); (71, "CooperativeMultiDeviceLaunch"%string);
   (87, "PageableMemoryAccess"%string); (95, "ManagedMemory"%string);
   (96, "DirectManagedMemAccessFromHost"%string); (100, "ConcurrentManagedAccess"%string);
   (101, "PageableMemoryAccessUsesHostPageTables"%string); (1000, "GCN_ARCH"%string);
   (1003, "GCN_ARCH_NAME"%string)].

Definition device_attribute_name (attr : Z) : string :=
  match List.find (fun p => p.1 =? attr) device_attribute_names with
  | Some (_, s) => s
  | None => ("attr_" +:+ pretty attr)%string
  end.

Section Logging.
Context `{HIP}.

(** [real]: the table given to [hip_interceptor_init]. *)
Definition real : HM ptr := hread hw_g_real.

Definition log_msg (level : Z) (msg : string) : HM unit :=
  g ← hread hw_log;
  if (lg_level g <? level) || is_null (lg_file g) then mret tt
  else stamped (lg_file g) msg.

Definition cstr (p : ptr) : HM string := cstr_or p "(null)".

(** ** Devices *)

Definition wrap_hipInit (flags : Z) : HM Z :=
  t ← real;
  err ← call_real t hipInit [flags];
  log_msg 2 ("hipInit(flags=0x" +:+ hex flags +:+ ") -> " +:+ pretty err) ;;
  mret err.

Definition wrap_hipDriverGetVersion (v : Z) : HM Z :=
  t ← real;
  err ← call_real t hipDriverGetVersion [v];
  val ← load_or v (-1);
  log_msg 2 ("hipDriverGetVersion() -> version=" +:+ pretty val +:+ ", ret=" +:+ pretty err) ;;
  mret err.

Definition wrap_hipRuntimeGetVersion (v : Z) : HM Z :=
  t ← real;
  err ← call_real t hipRuntimeGetVersion [v];
  val ← load_or v (-1);
  log_msg 2 ("hipRuntimeGetVersion() -> version=" +:+ pretty val +:+ ", ret=" +:+ pretty err) ;;
  mret err.

Definition wrap_hipGetDevice (id : Z) : HM Z :=
  t ← real;
  err ← call_real t hipGetDevice [id];
  val ← load_or id (-1);
  log_msg 2 ("hipGetDevice() -> device=" +:+ pretty val +:+ ", ret=" +:+ pretty err) ;;
  mret err.

Definition wrap_hipGetDeviceCount (count : Z) : HM Z :=
  t ← real;
  err ← call_real t hipGetDeviceCount [count];
  val ← load_or count (-1);
  log_msg 2 ("hipGetDeviceCount() -> count=" +:+ pretty val +:+ ", ret=" +:+ pretty err) ;;
  mret err.

Definition wrap_hipSetDevice (id : Z) : HM Z :=
  t ← real;
  err ← call_real t hipSetDevice [id];
  log_msg 2 ("hipSetDevice(" +:+ pretty id +:+ ") -> " +:+ pretty err) ;;
  mret err.

Definition wrap_hipDeviceSynchronize : HM Z :=
  t ← real;
  err ← call_real t hipDeviceSynchronize [];
  log_msg 2 ("hipDeviceSynchronize() -> " +:+ pretty err) ;;
  mret err.

Definition wrap_hipGetDeviceProperties (prop id : Z) : HM Z :=
  t ← real;
  err ← call_real t hipGetDeviceProperties [prop; id];
  (if (err =? 0) && negb (is_null prop) then
     log_msg 2 ("hipGetDeviceProperties(device=" +:+ pretty id +:+ ") -> ret=" +:+ pretty err) ;;
     name ← cstr prop;
     log_msg 2 ("  DeviceProps: name=" +:+ name) ;;
     log_msg 2 "  DeviceProps: (use hipDeviceGetAttribute logs for individual fields)"
   else
     log_msg 2 ("hipGetDeviceProperties(device=" +:+ pretty id +:+ ") -> ret=" +:+ pretty err)) ;;
  mret err.

Definition wrap_hipDeviceGetAttribute (value attr id : Z) : HM Z :=
  t ← real;
  err ← call_real t hipDeviceGetAttribute [value; attr; id];
  val ← load_or value (-1);
  log_msg 2 ("hipDeviceGetAttribute(attr=" +:+ device_attribute_name attr +:+ "("
             +:+ pretty attr +:+ "), device=" +:+ pretty id +:+ ") -> value=" +:+ pretty val
             +:+ ", ret=" +:+ pretty err) ;;
  mret err.

Definition wrap_hipDeviceGetName (name len id : Z) : HM Z :=
  t ← real;
  err ← call_real t hipDeviceGetName [name; len; id];
  text ← cstr name;
  log_msg 2 ("hipDeviceGetName(device=" +:+ pretty id +:+ ") -> name=" +:+ text +:+ ", ret="
             +:+ pretty err) ;;
  mret err.

(** ** Memory *)

Definition wrap_hipMemGetInfo (free_mem total : Z) : HM Z :=
  t ← real;
  err ← call_real t hipMemGetInfo [free_mem; total];
  f ← load_or free_mem 0;
  tot ← load_or total 0;
  log_msg 2 ("hipMemGetInfo() -> free=" +:+ pretty f +:+ ", total=" +:+ pretty tot
             +:+ ", ret=" +:+ pretty err) ;;
  mret err.

Definition wrap_hipMalloc (ptr size : Z) : HM Z :=
  t ← real;
  err ← call_real t hipMalloc [ptr; size];
  pv ← load_or ptr null;
  log_msg 2 ("hipMalloc(size=" +:+ pretty size +:+ ") -> ptr=" +:+ fmt_p pv +:+ ", ret="
             +:+ pretty err) ;;
  mret err.

Definition wrap_hipFree (ptr : Z) : HM Z :=
  t ← real;
  err ← call_real t hipFree [ptr];
  log_msg 2 ("hipFree(" +:+ fmt_p ptr +:+ ") -> " +:+ pretty err) ;;
  mret err.

Definition wrap_hipHostMalloc (ptr size flags : Z) : HM Z :=
  t ← real;
  err ← call_real t hipHostMalloc [ptr; size; flags];
  pv ← load_or ptr null;
  log_msg 2 ("hipHostMalloc(size=" +:+ pretty size +:+ ", flags=0x" +:+ hex flags
             +:+ ") -> ptr=" +:+ fmt_p pv +:+ ", ret=" +:+ pretty err) ;;
  mret err.

Definition wrap_hipHostFree (ptr : Z) : HM Z :=
  t ← real;
  err ← call_real t hipHostFree [ptr];
  log_msg 2 ("hipHostFree(" +:+ fmt_p ptr +:+ ") -> " +:+ pretty err) ;;
  mret err.

Definition wrap_hipMemcpy (dst src n kind : Z) : HM Z :=
  t ← real;
  err ← call_real t hipMemcpy [dst; src; n; kind];
  log_msg 2 ("hipMemcpy(dst=" +:+ fmt_p dst +:+ ", src=" +:+ fmt_p src +:+ ", size="
             +:+ pretty n +:+ ", kind=" +:+ memcpy_kind_name kind +:+ ") -> " +:+ pretty err) ;;
  mret err.

Definition wrap_hipMemcpyAsync (dst src n kind stream : Z) : HM Z :=
  t ← real;
  err ← call_real t hipMemcpyAsync [dst; src; n; kind; stream];
  log_msg 2 ("hipMemcpyAsync(dst=" +:+ fmt_p dst +:+ ", src=" +:+ fmt_p src +:+ ", size="
             +:+ pretty n +:+ ", kind=" +:+ memcpy_kind_name kind +:+ ", stream="
             +:+ fmt_p stream +:+ ") -> " +:+ pretty err) ;;
  mret err.

Definition wrap_hipMemset (dst value n : Z) : HM Z :=
  t ← real;
  err ← call_real t hipMemset [dst; value; n];
  log_msg 2 ("hipMemset(dst=" +:+ fmt_p dst +:+ ", value=0x" +:+ hex0 2 (wrap_u32 value)
             +:+ ", size=" +:+ pretty n +:+ ") -> " +:+ pretty err) ;;
  mret err.

Definition wrap_hipMemsetAsync (dst value n stream : Z) : HM Z :=
  t ← real;
  err ← call_real t hipMemsetAsync [dst; value; n; stream];
  log_msg 2 ("hipMemsetAsync(dst=" +:+ fmt_p dst +:+ ", value=0x"
             +:+ hex0 2 (wrap_u32 value) +:+ ", size=" +:+ pretty n +:+ ", stream="
             +:+ fmt_p stream +:+ ") -> " +:+ pretty err) ;;
  mret err.

(** ** Streams and events *)

Definition wrap_hipStreamCreate (stream : Z) : HM Z :=
  t ← real;
  err ← call_real t hipStreamCreate [stream];
  sv ← load_or stream null;
  log_msg 2 ("hipStreamCreate() -> stream=" +:+ fmt_p sv +:+ ", ret=" +:+ pretty err) ;;
  mret err.

Definition wrap_hipStreamCreateWithFlags (stream flags : Z) : HM Z :=
  t ← real;
  err ← call_real t hipStreamCreateWithFlags [stream; flags];
  sv ← load_or stream null;
  log_msg 2 ("hipStreamCreateWithFlags(flags=0x" +:+ hex flags +:+ ") -> stream="
             +:+ fmt_p sv +:+ ", ret=" +:+ pretty err) ;;
  mret err.

Definition wrap_hipStreamDestroy (stream : Z) : HM Z :=
  t ← real;
  err ← call_real t hipStreamDestroy [stream];
  log_msg 2 ("hipStreamDestroy(stream=" +:+ fmt_p stream +:+ ") -> " +:+ pretty err) ;;
  mret err.

Definition wrap_hipStreamSynchronize (stream : Z) : HM Z :=
  t ← real;
  err ← call_real t hipStreamSynchronize [stream];
  log_msg 2 ("hipStreamSynchronize(stream=" +:+ fmt_p stream +:+ ") -> " +:+ pretty err) ;;
  mret err.

Definition wrap_hipStreamQuery (stream : Z) : HM Z :=
  t ← real;
  err ← call_real t hipStreamQuery [stream];
  log_msg 2 ("hipStreamQuery(stream=" +:+ fmt_p stream +:+ ") -> " +:+ pretty err) ;;
  mret err.

Definition wrap_hipStreamWaitEvent (stream event flags : Z) : HM Z :=
  t ← real;
  err ← call_real t hipStreamWaitEvent [stream; event; flags];
  log_msg 2 ("hipStreamWaitEvent(stream=" +:+ fmt_p stream +:+ ", event=" +:+ fmt_p event
             +:+ ", flags=0x" +:+ hex flags +:+ ") -> " +:+ pretty err) ;;
  mret err.

Definition wrap_hipEventCreate (event : Z) : HM Z :=
  t ← real;
  err ← call_real t hipEventCreate [event];
  ev ← load_or event null;
  log_msg 2 ("hipEventCreate() -> event=" +:+ fmt_p ev +:+ ", ret=" +:+ pretty err) ;;
  mret err.

Definition wrap_hipEventCreateWithFlags (event flags : Z) : HM Z :=
  t ← real;
  err ← call_real t hipEventCreateWithFlags [event; flags];
  ev ← load_or event null;
  log_msg 2 ("hipEventCreateWithFlags(flags=0x" +:+ hex flags +:+ ") -> event=" +:+ fmt_p ev
             +:+ ", ret=" +:+ pretty err) ;;
  mret err.

Definition wrap_hipEventDestroy (event : Z) : HM Z :=
  t ← real;
  err ← call_real t hipEventDestroy [event];
  log_msg 2 ("hipEventDestroy(event=" +:+ fmt_p event +:+ ") -> " +:+ pretty err) ;;
  mret err.

Definition wrap_hipEventRecord (event stream : Z) : HM Z :=
  t ← real;
  err ← call_real t hipEventRecord [event; stream];
  log_msg 2 ("hipEventRecord(event=" +:+ fmt_p event +:+ ", stream=" +:+ fmt_p stream
             +:+ ") -> " +:+ pretty err) ;;
  mret err.

Definition wrap_hipEventSynchronize (event : Z) : HM Z :=
  t ← real;
  err ← call_real t hipEventSynchronize [event];
  log_msg 2 ("hipEventSynchronize(event=" +:+ fmt_p event +:+ ") -> " +:+ pretty err) ;;
  mret err.

Definition wrap_hipEventQuery (event : Z) : HM Z :=
  t ← real;
  err ← call_real t hipEventQuery [event];
  log_msg 2 ("hipEventQuery(event=" +:+ fmt_p event +:+ ") -> " +:+ pretty err) ;;
  mret err.

(** The elapsed time is an [f32]; its cell holds its bits. *)
Definition wrap_hipEventElapsedTime (ms start stop : Z) : HM Z :=
  t ← real;
  err ← call_real t hipEventElapsedTime [ms; start; stop];
  v ← load_or ms 0;
  log_msg 2 ("hipEventElapsedTime(start=" +:+ fmt_p start +:+ ", stop=" +:+ fmt_p stop
             +:+ ") -> ms=" +:+ f32_6 v +:+ ", ret=" +:+ pretty err) ;;
  mret err.

(** ** Kernel launches *)

Definition wrap_hipModuleLaunchKernel (f gx gy gz bx by_ bz shared stream kernel_params extra : Z) : HM Z :=
  t ← real;
  err ← call_real t hipModuleLaunchKernel [f; gx; gy; gz; bx; by_; bz; shared; stream; kernel_params; extra];
  log_msg 2 ("hipModuleLaunchKernel(func=" +:+ fmt_p f +:+ ", grid=" +:+ dims gx gy gz
             +:+ ", block=" +:+ dims bx by_ bz +:+ ", shared=" +:+ pretty shared
             +:+ ", stream=" +:+ fmt_p stream +:+ ", extra=" +:+ fmt_p extra +:+ ") -> "
             +:+ pretty err) ;;
  mret err.

Definition wrap_hipExtModuleLaunchKernel (f gx gy gz lx ly lz shared stream kernel_params extra start_event stop_event flags : Z) : HM Z :=
  t ← real;
  err ← call_real t hipExtModuleLaunchKernel [f; gx; gy; gz; lx; ly; lz; shared; stream; kernel_params; extra; start_event; stop_event; flags];
  log_msg 2 ("hipExtModuleLaunchKernel(func=" +:+ fmt_p f +:+ ", grid=" +:+ dims gx gy gz
             +:+ ", block=" +:+ dims lx ly lz +:+ ", shared=" +:+ pretty shared
             +:+ ", stream=" +:+ fmt_p stream +:+ ", flags=0x" +:+ hex flags +:+ ") -> "
             +:+ pretty err) ;;
  mret err.

Definition wrap_hipLaunchKernel (func nx ny nz dx dy dz args shared stream : Z) : HM Z :=
  t ← real;
  err ← call_real t hipLaunchKernel [func; nx; ny; nz; dx; dy; dz; args; shared; stream];
  log_msg 2 ("hipLaunchKernel(func=" +:+ fmt_p func +:+ ", grid=" +:+ dims nx ny nz
             +:+ ", block=" +:+ dims dx dy dz +:+ ", shared=" +:+ pretty shared
             +:+ ", stream=" +:+ fmt_p stream +:+ ") -> " +:+ pretty err) ;;
  mret err.

Definition wrap_hipGetLastError : HM Z :=
  t ← real;
  err ← call_real t hipGetLastError [];
  (if negb (err =? 0) then log_msg 1 ("hipGetLastError() -> " +:+ pretty err +:+ " (ERROR)")
   else log_msg 3 "hipGetLastError() -> 0") ;;
  mret err.

Definition wrap_hipPeekAtLastError : HM Z :=
  t ← real;
  err ← call_real t hipPeekAtLastError [];
  (if negb (err =? 0) then log_msg 1 ("hipPeekAtLastError() -> " +:+ pretty err +:+ " (ERROR)")
   else log_msg 3 "hipPeekAtLastError() -> 0") ;;
  mret err.

(** ** Fat binaries *)

Definition wrap___hipRegisterFatBinary (data : Z) : HM Z :=
  t ← real;
  result ← call_real t __hipRegisterFatBinary [data];
  log_msg 2 ("__hipRegisterFatBinary(data=" +:+ fmt_p data +:+ ") -> handle=" +:+ fmt_p result) ;;
  mret result.

(** The functions that return nothing answer 0 here. *)
Definition wrap___hipUnregisterFatBinary (handle : Z) : HM Z :=
  log_msg 2 ("__hipUnregisterFatBinary(handle=" +:+ fmt_p handle +:+ ")") ;;
  t ← real;
  call_real t __hipUnregisterFatBinary [handle] ;;
  mret 0.

Definition wrap___hipRegisterFunction
  (handle host_fun device_fun device_name thread_limit tid bid block_dim grid_dim w_size : Z) : HM Z :=
  device ← cstr device_name;
  log_msg 2 ("__hipRegisterFunction(handle=" +:+ fmt_p handle +:+ ", host=" +:+ fmt_p host_fun
               +:+ ", device=" +:+ device +:+ ")") ;;
  t ← real;
  call_real t __hipRegisterFunction
    [handle; host_fun; device_fun; device_name; thread_limit; tid; bid; block_dim; grid_dim; w_size] ;;
  mret 0.

Definition wrap___hipRegisterVar
  (handle host_var device_address device_name ext size constant global : Z) : HM Z :=
  name ← cstr device_name;
  log_msg 2 ("__hipRegisterVar(handle=" +:+ fmt_p handle +:+ ", name=" +:+ name +:+ ", size="
               +:+ pretty size +:+ ")") ;;
  t ← real;
  call_real t __hipRegisterVar
    [handle; host_var; device_address; device_name; ext; size; constant; global] ;;
  mret 0.

(** The wrapper behind each overridden slot, by its signature. *)
Definition wrap (s : slot) (args : list Z) : HM Z :=
  match s, args with
  | hipInit, [a] => wrap_hipInit a
  | hipDriverGetVersion, [a] => wrap_hipDriverGetVersion a
  | hipRuntimeGetVersion, [a] => wrap_hipRuntimeGetVersion a
  | hipGetDevice, [a] => wrap_hipGetDevice a
  | hipGetDeviceCount, [a] => wrap_hipGetDeviceCount a
  | hipSetDevice, [a] => wrap_hipSetDevice a
  | hipDeviceSynchronize, [] => wrap_hipDeviceSynchronize
  | hipGetDeviceProperties, [a; b] => wrap_hipGetDeviceProperties a b
  | hipDeviceGetAttribute, [a; b; c] => wrap_hipDeviceGetAttribute a b c
  | hipDeviceGetName, [a; b; c] => wrap_hipDeviceGetName a b c
  | hipMalloc, [a; b] => wrap_hipMalloc a b
  | hipFree, [a] => wrap_hipFree a
  | hipHostMalloc, [a; b; c] => wrap_hipHostMalloc a b c
  | hipHostFree, [a] => wrap_hipHostFree a
  | hipMemGetInfo, [a; b] => wrap_hipMemGetInfo a b
  | hipMemcpy, [a; b; c; d] => wrap_hipMemcpy a b c d
  | hipMemcpyAsync, [a; b; c; d; e] => wrap_hipMemcpyAsync a b c d e
  | hipMemset, [a; b; c] => wrap_hipMemset a b c
  | hipMemsetAsync, [a; b; c; d] => wrap_hipMemsetAsync a b c d
  | hipStreamCreate, [a] => wrap_hipStreamCreate a
  | hipStreamCreateWithFlags, [a; b] => wrap_hipStreamCreateWithFlags a b
  | hipStreamDestroy, [a] => wrap_hipStreamDestroy a
  | hipStreamSynchronize, [a] => wrap_hipStreamSynchronize a
  | hipStreamQuery, [a] => wrap_hipStreamQuery a
  | hipStreamWaitEvent, [a; b; c] => wrap_hipStreamWaitEvent a b c
  | hipEventCreate, [a] => wrap_hipEventCreate a
  | hipEventCreateWithFlags, [a; b] => wrap_hipEventCreateWithFlags a b
  | hipEventDestroy, [a] => wrap_hipEventDestroy a
  | hipEventRecord, [a; b] => wrap_hipEventRecord a b
  | hipEventSynchronize, [a] => wrap_hipEventSynchronize a
  | hipEventQuery, [a] => wrap_hipEventQuery a
  | hipEventElapsedTime, [a; b; c] => wrap_hipEventElapsedTime a b c
  | hipModuleLaunchKernel, [a; b; c; d; e; f; g; h; i; j; k] => wrap_hipModuleLaunchKernel a b c d e f g h i j k
  | hipExtModuleLaunchKernel, [a; b; c; d; e; f; g; h; i; j; k; l; m; n] => wrap_hipExtModuleLaunchKernel a b c d e f g h i j k l m n
  | hipLaunchKernel, [a; b; c; d; e; f; g; h; i; j] => wrap_hipLaunchKernel a b c d e f g h i j
  | __hipRegisterFatBinary, [a] => wrap___hipRegisterFatBinary a
  | __hipUnregisterFatBinary, [a] => wrap___hipUnregisterFatBinary a
  | __hipRegisterFunction, [a; b; c; d; e; f; g; h; i; j] => wrap___hipRegisterFunction a b c d e f g h i j
  | __hipRegisterVar, [a; b; c; d; e; f; g; h] => wrap___hipRegisterVar a b c d e f g h
  | hipGetLastError, [] => wrap_hipGetLastError
  | hipPeekAtLastError, [] => wrap_hipPeekAtLastError
  | _, _ => hfault
  end.

(** ** Entry points *)

(** The slots [hip_interceptor_init] overrides. *)
Definition wrapped_slots : list slot :=
  [hipInit; hipDriverGetVersion; hipRuntimeGetVersion; hipGetDevice; hipGetDeviceCount;
   hipSetDevice; hipDeviceSynchronize; hipGetDeviceProperties; hipDeviceGetAttribute;
   hipDeviceGetName; hipMalloc; hipFree; hipHostMalloc; hipHostFree; hipMemGetInfo; hipMemcpy;
   hipMemcpyAsync; hipMemset; hipMemsetAsync; hipStreamCreate; hipStreamCreateWithFlags;
   hipStreamDestroy; hipStreamSynchronize; hipStreamQuery; hipStreamWaitEvent; hipEventCreate;
   hipEventCreateWithFlags; hipEventDestroy; hipEventRecord; hipEventSynchronize;
   hipEventQuery; hipEventElapsedTime; hipModuleLaunchKernel; hipExtModuleLaunchKernel;
   hipLaunchKernel; __hipRegisterFatBinary; __hipUnregisterFatBinary; __hipRegisterFunction;
   __hipRegisterVar; hipGetLastError; hipPeekAtLastError].

Definition hip_interceptor_init (real_functions : ptr) : HM ptr :=
  hmodify (fun w => set_g_real w real_functions) ;;
  '(file, owns_file) ← open_destination "HIP_LOG_FILE" "hip_logging: failed to open log file: ";
  let level := getenv_int "HIP_LOG_LEVEL" 2 in
  hmodify (fun w => set_log w (Log file level owns_file)) ;;
  log_msg 1 ("HIP Logging initialized (level=" +:+ pretty level +:+ ")") ;;
  t ← load_table real_functions;
  box_table (override Logging wrapped_slots t).

Definition hip_interceptor_shutdown : HM unit :=
  log_msg 1 "HIP Logging shutting down" ;;
  g ← hread hw_log;
  if lg_owns_file g && negb (is_null (lg_file g)) then
    fclose (lg_file g) ;;
    hmodify (fun w => set_log w (Log null (lg_level g) (lg_owns_file g)))
  else mret tt.
End Logging.
