(* ===== verification/HipIntercept.v ===== *)
(** * The interception library: crates/hip-intercept/src/lib.rs and
      crates/hip-noop/src/lib.rs

    The library loaded in place of the HIP runtime: it resolves the backend into
    the real table, lets an interceptor replace it by a wrapper table and routes
    the 49 table functions through the active table.  The direct-passthrough
    exports are generated; [direct] is their common shape. *)

From S2P Require Import Prelude HipTable HipMachine HipTracer HipLogging.

(** ** The no-op interceptor (crates/hip-noop/src/lib.rs) *)

Definition noop_interceptor_init (real_functions : ptr) : HM ptr := mret null.
Definition noop_interceptor_shutdown : HM unit := mret tt.

Section Intercept.
Context `{HIP}.

(** ** Dispatch *)

(** Calling a function pointer of the active table. *)
Definition invoke (f : fnptr) (args : list Z) : HM Z :=
  match f with
  | Backend a => call_backend a args
  | Wrapper Tracer s => HipTracer.wrap s args
  | Wrapper Logging s => HipLogging.wrap s args
  | Wrapper Noop _ => hfault
  end.

(** Calling what [dlsym] found as [hip_interceptor_init]. *)
Definition run_init (f : ptr) (table : ptr) : HM ptr :=
  match hip_entry f with
  | Some (InitOf Tracer) => HipTracer.hip_interceptor_init table
  | Some (InitOf Logging) => HipLogging.hip_interceptor_init table
  | Some (InitOf Noop) => noop_interceptor_init table
  | _ => hfault
  end.

(** Calling what [dlsym] found as [hip_interceptor_shutdown]. *)
Definition run_shutdown (f : ptr) : HM unit :=
  match hip_entry f with
  | Some (ShutdownOf Tracer) => HipTracer.hip_interceptor_shutdown
  | Some (ShutdownOf Logging) => HipLogging.hip_interceptor_shutdown
  | Some (ShutdownOf Noop) => noop_interceptor_shutdown
  | _ => hfault
  end.

(** ** Initialization *)

Definition put_intercept (i : Intercept) : HM unit := hmodify (fun w => set_intercept w i).

(** The slots of [load_all!], in order. *)
Definition loaded_slots : list slot :=
  [hipInit; hipDriverGetVersion; hipRuntimeGetVersion; hipGetDevice; hipGetDeviceCount; hipSetDevice;
   hipDeviceReset; hipDeviceSynchronize; hipGetDeviceProperties; hipDeviceGetAttribute;
   hipDeviceGetName; hipMalloc; hipFree; hipHostMalloc; hipHostFree; hipMemGetInfo; hipMemcpy;
   hipMemcpyAsync; hipMemset; hipMemsetAsync; hipStreamCreate; hipStreamCreateWithFlags;
   hipStreamDestroy; hipStreamSynchronize; hipStreamQuery; hipStreamWaitEvent; hipEventCreate;
   hipEventCreateWithFlags; hipEventDestroy; hipEventRecord; hipEventSynchronize; hipEventQuery;
   hipEventElapsedTime; hipModuleLoad; hipModuleLoadData; hipModuleUnload; hipModuleGetFunction;
   hipModuleGetGlobal; hipModuleLaunchKernel; hipLaunchKernel; hipExtModuleLaunchKernel;
   __hipRegisterFatBinary; __hipUnregisterFatBinary; __hipRegisterFunction; __hipRegisterVar;
   hipGetErrorString; hipGetErrorName; hipGetLastError; hipPeekAtLastError].

(** A null symbol transmutes to [None]. *)
Definition load_sym (lib : ptr) (name : string) : option fnptr :=
  let s := hip_dlsym lib name in if is_null s then None else Some (Backend s).

Definition load_all (lib : ptr) (t : HipFunctionTable) : HipFunctionTable :=
  foldl (fun t s => table_set t s (load_sym lib (slot_name s))) t loaded_slots.

(** [core::mem::zeroed()]. *)
Definition table_zeroed : HipFunctionTable := Table 0 0 (fun _ => None).

Definition TABLE_SIZE : Z := 8 + 49 * 8.

Definition real_table_of (backend : ptr) : HipFunctionTable :=
  Table 1 TABLE_SIZE (tb_slots (load_all backend table_zeroed)).

(** Step 3: the optional interceptor. *)
Definition load_interceptor (real_ptr : ptr) : HM unit :=
  match hip_env "HIP_INTERCEPTION_LIBRARY" with
  | None => mret tt
  | Some path =>
      if String.eqb path "" then mret tt
      else
        let ilib := hip_dlopen path in
        if is_null ilib then mret tt
        else
          i ← hread hw_intercept;
          put_intercept (Interceptor (ic_once i) (ic_backend_lib i) ilib (ic_active_table i)
                           (ic_real_table i) (ic_interceptor_shutdown i)) ;;
          let init := hip_dlsym ilib "hip_interceptor_init" in
          (if is_null init then mret tt
           else
             table ← run_init init real_ptr;
             if is_null table then mret tt
             else
               i ← hread hw_intercept;
               put_intercept (Interceptor (ic_once i) (ic_backend_lib i) (ic_interceptor_lib i) table
                                (ic_real_table i) (ic_interceptor_shutdown i))) ;;
          let sh := hip_dlsym ilib "hip_interceptor_shutdown" in
          i ← hread hw_intercept;
          put_intercept (Interceptor (ic_once i) (ic_backend_lib i) (ic_interceptor_lib i)
                           (ic_active_table i) (ic_real_table i) sh)
  end.

Definition DEFAULT_BACKEND : string := "/opt/rocm/lib/libamdhip64.so".

Definition backend_path : string :=
  default DEFAULT_BACKEND (nonempty (hip_env "HIP_PASSTHROUGH_BACKEND_LIB")).

Definition intercept_init : HM unit :=
  let backend := hip_dlopen backend_path in
  if is_null backend then
    eprintln ("hip_intercept: failed to load backend: " +:+ hip_dlerror) ;;
    habort
  else
    real_ptr ← box_table (real_table_of backend);
    i ← hread hw_intercept;
    put_intercept (Interceptor (ic_once i) backend (ic_interceptor_lib i) real_ptr real_ptr
                     (ic_interceptor_shutdown i)) ;;
    load_interceptor real_ptr.

(** [INIT.call_once(intercept_init)]. *)
Definition ensure_init : HM unit :=
  i ← hread hw_intercept;
  if ic_once i then mret tt
  else
    intercept_init ;;
    i ← hread hw_intercept;
    put_intercept (Interceptor true (ic_backend_lib i) (ic_interceptor_lib i) (ic_active_table i)
                     (ic_real_table i) (ic_interceptor_shutdown i)).

Definition early_init : HM unit := ensure_init.

(** The destructor.  [dlclose] only records the handle: whether the loader unmaps
    the library is up to it. *)
Definition intercept_fini : HM unit :=
  i ← hread hw_intercept;
  (if is_null (ic_interceptor_shutdown i) then mret tt
   else run_shutdown (ic_interceptor_shutdown i)) ;;
  i ← hread hw_intercept;
  if is_null (ic_interceptor_lib i) then mret tt
  else hmodify (fun w => set_closed w (ic_interceptor_lib i :: hw_closed w)).

(** ** Exports *)

Definition active : HM ptr :=
  i ← hread hw_intercept;
  if is_null (ic_active_table i) then
    ensure_init ;;
    i ← hread hw_intercept; mret (ic_active_table i)
  else mret (ic_active_table i).

Definition hip_passthrough_get_real_table : HM ptr :=
  ensure_init ;;
  i ← hread hw_intercept;
  mret (ic_real_table i).

Definition hip_passthrough_get_active_table : HM ptr := ensure_init ;; active.

(** What an export answers when its slot is empty. *)
Definition missing_slot (s : slot) : Z :=
  match s with
  | hipGetErrorString | hipGetErrorName => hip_unknown
  | _ => 0
  end.

(** The exports without a result; they answer 0 here. *)
Definition returns_nothing (s : slot) : bool :=
  match s with
  | __hipUnregisterFatBinary | __hipRegisterFunction | __hipRegisterVar => true
  | _ => false
  end.

(** [fwd!] and the manual exports: the function named like the slot. *)
Definition fwd (s : slot) (args : list Z) : HM Z :=
  ensure_init ;;
  a ← active;
  t ← load_table a;
  match tb_slots t s with
  | Some f => r ← invoke f args; mret (if returns_nothing s then 0 else r)
  | None => mret (missing_slot s)
  end.

(** [backend_sym]. *)
Definition backend_sym (name : string) : HM ptr :=
  ensure_init ;;
  i ← hread hw_intercept;
  if is_null (ic_backend_lib i) then mret null
  else mret (hip_dlsym (ic_backend_lib i) name).
End Intercept.
