(* ===== verification/HipPassthrough.v ===== *)
(** * Direct passthrough: crates/hip-intercept/src/passthrough_generated.rs

    The generated exports resolve their symbol in the backend and forward to it,
    past the active table.  They differ in name, number of arguments and in what
    they answer when the backend lacks the symbol; the tables below list them in
    the order of the file. *)

From S2P Require Import Prelude HipTable HipMachine HipTracer HipLogging HipIntercept.

(** The answer without a backend symbol: the error 1, the string "unknown", or
    nothing. *)
Inductive missing := MissingError | MissingUnknown | MissingNothing.

Record export := Export { ex_name : string; ex_arity : nat; ex_missing : missing }.

(** Stream-ordered allocation and memory pools. *)
Definition pool_exports : list export :=
  [Export "hipGetDevicePropertiesR0600" 2 MissingError;
   Export "hipMemcpyWithStream" 5 MissingError;
   Export "hipMallocAsync" 3 MissingError;
   Export "hipFreeAsync" 2 MissingError;
   Export "hipMemPoolCreate" 2 MissingError;
   Export "hipMemPoolDestroy" 1 MissingError;
   Export "hipDeviceGetDefaultMemPool" 2 MissingError;
   Export "hipDeviceSetMemPool" 2 MissingError;
   Export "hipDeviceGetMemPool" 2 MissingError;
   Export "hipMallocFromPoolAsync" 4 MissingError;
   Export "hipMemPoolSetAttribute" 3 MissingError;
   Export "hipMemPoolGetAttribute" 3 MissingError;
   Export "hipMemPoolTrimTo" 2 MissingError].

(** Two-dimensional and driver-style copies and fills. *)
Definition copy_exports : list export :=
  [Export "hipMemcpy2D" 7 MissingError;
   Export "hipMemcpy2DAsync" 8 MissingError;
   Export "hipMemcpyDtoD" 3 MissingError;
   Export "hipMemcpyDtoDAsync" 4 MissingError;
   Export "hipMemcpyDtoH" 3 MissingError;
   Export "hipMemcpyDtoHAsync" 4 MissingError;
   Export "hipMemcpyHtoD" 3 MissingError;
   Export "hipMemcpyHtoDAsync" 4 MissingError;
   Export "hipMemset2D" 5 MissingError;
   Export "hipMemset2DAsync" 6 MissingError;
   Export "hipMemsetD8" 3 MissingError;
   Export "hipMemsetD8Async" 4 MissingError;
   Export "hipMemsetD16" 3 MissingError;
   Export "hipMemsetD16Async" 4 MissingError;
   Export "hipMemsetD32" 3 MissingError;
   Export "hipMemsetD32Async" 4 MissingError].

(** Pointer and function attributes, occupancy. *)
Definition attribute_exports : list export :=
  [Export "hipPointerGetAttributes" 2 MissingError;
   Export "hipPointerGetAttribute" 3 MissingError;
   Export "hipDrvPointerGetAttributes" 4 MissingError;
   Export "hipFuncSetAttribute" 3 MissingError;
   Export "hipFuncSetCacheConfig" 2 MissingError;
   Export "hipFuncSetSharedMemConfig" 2 MissingError;
   Export "hipFuncGetAttributes" 2 MissingError;
   Export "hipFuncGetAttribute" 3 MissingError;
   Export "hipOccupancyMaxActiveBlocksPerMultiprocessor" 4 MissingError;
   Export "hipOccupancyMaxActiveBlocksPerMultiprocessorWithFlags" 5 MissingError;
   Export "hipOccupancyMaxPotentialBlockSize" 5 MissingError].

(** Stream priorities, peer access, PCI ids and IPC handles. *)
Definition peer_exports : list export :=
  [Export "hipDeviceGetStreamPriorityRange" 2 MissingError;
   Export "hipDeviceCanAccessPeer" 3 MissingError;
   Export "hipDeviceEnablePeerAccess" 2 MissingError;
   Export "hipDeviceDisablePeerAccess" 1 MissingError;
   Export "hipDeviceGetByPCIBusId" 2 MissingError;
   Export "hipDeviceGetPCIBusId" 3 MissingError;
   Export "hipIpcGetMemHandle" 2 MissingError;
   Export "hipIpcOpenMemHandle" 3 MissingError;
   Export "hipIpcCloseMemHandle" 1 MissingError;
   Export "hipIpcGetEventHandle" 2 MissingError;
   Export "hipIpcOpenEventHandle" 2 MissingError].

(** Host callbacks, stream capture and graph launch. *)
Definition capture_exports : list export :=
  [Export "hipLaunchHostFunc" 3 MissingError;
   Export "hipStreamAddCallback" 4 MissingError;
   Export "hipStreamGetCaptureInfo" 3 MissingError;
   Export "hipStreamBeginCapture" 2 MissingError;
   Export "hipStreamEndCapture" 2 MissingError;
   Export "hipGraphCreate" 2 MissingError;
   Export "hipGraphDestroy" 1 MissingError;
   Export "hipGraphInstantiate" 5 MissingError;
   Export "hipGraphLaunch" 2 MissingError;
   Export "hipGraphExecDestroy" 1 MissingError].

(** Host registration, modules and managed memory. *)
Definition host_exports : list export :=
  [Export "hipHostRegister" 3 MissingError;
   Export "hipHostUnregister" 1 MissingError;
   Export "hipHostGetDevicePointer" 3 MissingError;
   Export "hipHostGetFlags" 2 MissingError;
   Export "hipModuleLoadDataEx" 5 MissingError;
   Export "hipModuleOccupancyMaxPotentialBlockSize" 5 MissingError;
   Export "hipModuleOccupancyMaxActiveBlocksPerMultiprocessor" 4 MissingError;
   Export "hipMallocPitch" 4 MissingError;
   Export "hipMallocManaged" 3 MissingError;
   Export "hipMemPrefetchAsync" 4 MissingError;
   Export "hipMemAdvise" 4 MissingError;
   Export "hipMemRangeGetAttribute" 5 MissingError].

(** Contexts and devices. *)
Definition context_exports : list export :=
  [Export "hipCtxCreate" 3 MissingError;
   Export "hipCtxDestroy" 1 MissingError;
   Export "hipCtxGetCurrent" 1 MissingError;
   Export "hipCtxSetCurrent" 1 MissingError;
   Export "hipCtxPushCurrent" 1 MissingError;
   Export "hipCtxPopCurrent" 1 MissingError;
   Export "hipCtxGetDevice" 1 MissingError;
   Export "hipCtxSynchronize" 0 MissingError;
   Export "hipDevicePrimaryCtxRetain" 2 MissingError;
   Export "hipDevicePrimaryCtxRelease" 1 MissingError;
   Export "hipDevicePrimaryCtxSetFlags" 2 MissingError;
   Export "hipDevicePrimaryCtxGetState" 3 MissingError;
   Export "hipDevicePrimaryCtxReset" 1 MissingError;
   Export "hipDeviceGet" 2 MissingError;
   Export "hipDeviceComputeCapability" 3 MissingError;
   Export "hipDeviceTotalMem" 2 MissingError].

(** Driver allocation, symbols and peer copies. *)
Definition symbol_exports : list export :=
  [Export "hipMemGetAddressRange" 3 MissingError;
   Export "hipMemAllocPitch" 5 MissingError;
   Export "hipMemAlloc" 2 MissingError;
   Export "hipMemFree" 1 MissingError;
   Export "hipMemcpyFromSymbol" 5 MissingError;
   Export "hipMemcpyFromSymbolAsync" 6 MissingError;
   Export "hipMemcpyToSymbol" 5 MissingError;
   Export "hipMemcpyToSymbolAsync" 6 MissingError;
   Export "hipGetSymbolAddress" 2 MissingError;
   Export "hipGetSymbolSize" 2 MissingError;
   Export "hipMemcpyPeer" 5 MissingError;
   Export "hipMemcpyPeerAsync" 6 MissingError].

(** Texture references and device configuration. *)
Definition config_exports : list export :=
  [Export "hipBindTexture" 5 MissingError;
   Export "hipUnbindTexture" 1 MissingError;
   Export "hipExtLaunchKernel" 9 MissingError;
   Export "hipDeviceSetCacheConfig" 1 MissingError;
   Export "hipDeviceGetCacheConfig" 1 MissingError;
   Export "hipDeviceSetSharedMemConfig" 1 MissingError;
   Export "hipDeviceGetSharedMemConfig" 1 MissingError;
   Export "hipDeviceGetLimit" 2 MissingError;
   Export "hipDeviceSetLimit" 2 MissingError;
   Export "hipDeviceGetUuid" 2 MissingError;
   Export "hipSetDeviceFlags" 1 MissingError;
   Export "hipGetDeviceFlags" 1 MissingError;
   Export "hipChooseDevice" 2 MissingError].

(** External memory and semaphores, error names. *)
Definition external_exports : list export :=
  [Export "hipImportExternalMemory" 2 MissingError;
   Export "hipExternalMemoryGetMappedBuffer" 3 MissingError;
   Export "hipDestroyExternalMemory" 1 MissingError;
   Export "hipImportExternalSemaphore" 2 MissingError;
   Export "hipSignalExternalSemaphoresAsync" 4 MissingError;
   Export "hipWaitExternalSemaphoresAsync" 4 MissingError;
   Export "hipDestroyExternalSemaphore" 1 MissingError;
   Export "hipExtGetLastError" 0 MissingError;
   Export "hipDrvGetErrorString" 2 MissingUnknown;
   Export "hipDrvGetErrorName" 2 MissingUnknown;
   Export "hipThreadExchangeStreamCaptureMode" 1 MissingError].

(** Sharing of pools and graph construction. *)
Definition sharing_exports : list export :=
  [Export "hipMemPoolSetAccess" 3 MissingError;
   Export "hipMemPoolGetAccess" 3 MissingError;
   Export "hipMemPoolExportToShareableHandle" 4 MissingError;
   Export "hipMemPoolImportFromShareableHandle" 4 MissingError;
   Export "hipMemPoolExportPointer" 2 MissingError;
   Export "hipMemPoolImportPointer" 3 MissingError;
   Export "hipGraphInstantiateWithFlags" 3 MissingError;
   Export "hipGraphUpload" 2 MissingError;
   Export "hipGraphAddMemcpyNode" 5 MissingError;
   Export "hipGraphAddMemsetNode" 5 MissingError;
   Export "hipGraphAddKernelNode" 5 MissingError;
   Export "hipGraphGetNodes" 3 MissingError;
   Export "hipGraphGetRootNodes" 3 MissingError;
   Export "hipGraphNodeGetType" 2 MissingError;
   Export "hipStreamGetCaptureInfo_v2" 6 MissingError].

(** Cooperative launches and arrays. *)
Definition array_exports : list export :=
  [Export "hipLaunchCooperativeKernel" 6 MissingError;
   Export "hipOccupancyMaxPotentialBlockSizeWithFlags" 6 MissingError;
   Export "hipMallocArray" 5 MissingError;
   Export "hipFreeArray" 1 MissingError;
   Export "hipMalloc3DArray" 4 MissingError;
   Export "hipArrayGetInfo" 4 MissingError;
   Export "hipMemcpy3D" 1 MissingError;
   Export "hipMemcpy3DAsync" 2 MissingError;
   Export "hipMemcpyToArray" 6 MissingError;
   Export "hipMemcpyFromArray" 6 MissingError;
   Export "hipMemcpy2DToArray" 8 MissingError;
   Export "hipMemcpy2DFromArray" 8 MissingError;
   Export "hipMemcpyAtoH" 4 MissingError;
   Export "hipMemcpyHtoA" 4 MissingError].

(** Mipmaps, surfaces and texture objects. *)
Definition object_exports : list export :=
  [Export "hipMallocMipmappedArray" 5 MissingError;
   Export "hipFreeMipmappedArray" 1 MissingError;
   Export "hipGetMipmappedArrayLevel" 3 MissingError;
   Export "hipExtMallocWithFlags" 3 MissingError;
   Export "hipRuntimeGetVersion_r" 1 MissingError;
   Export "hipCreateSurfaceObject" 2 MissingError;
   Export "hipDestroySurfaceObject" 1 MissingError;
   Export "hipCreateTextureObject" 4 MissingError;
   Export "hipDestroyTextureObject" 1 MissingError;
   Export "hipGetTextureObjectResourceDesc" 2 MissingError;
   Export "hipGetTextureObjectTextureDesc" 2 MissingError;
   Export "hipGetChannelDesc" 2 MissingError].

(** Texture references and user objects. *)
Definition texref_exports : list export :=
  [Export "hipTexRefSetArray" 3 MissingError;
   Export "hipTexRefSetAddress" 4 MissingError;
   Export "hipTexRefSetAddress2D" 4 MissingError;
   Export "hipTexRefSetFormat" 3 MissingError;
   Export "hipTexRefSetFlags" 2 MissingError;
   Export "hipTexRefSetFilterMode" 2 MissingError;
   Export "hipTexRefSetAddressMode" 3 MissingError;
   Export "hipTexRefGetAddress" 2 MissingError;
   Export "hipModuleGetTexRef" 3 MissingError;
   Export "hipStreamUpdateCaptureDependencies" 4 MissingError;
   Export "hipUserObjectCreate" 5 MissingError;
   Export "hipUserObjectRelease" 2 MissingError;
   Export "hipUserObjectRetain" 2 MissingError;
   Export "hipGraphRetainUserObject" 4 MissingError;
   Export "hipGraphReleaseUserObject" 3 MissingError].

(** Graph nodes and dependencies. *)
Definition node_exports : list export :=
  [Export "hipGraphAddHostNode" 5 MissingError;
   Export "hipGraphAddEventRecordNode" 5 MissingError;
   Export "hipGraphAddEventWaitNode" 5 MissingError;
   Export "hipGraphAddChildGraphNode" 5 MissingError;
   Export "hipGraphAddEmptyNode" 4 MissingError;
   Export "hipGraphAddDependencies" 4 MissingError;
   Export "hipGraphRemoveDependencies" 4 MissingError;
   Export "hipGraphDestroyNode" 1 MissingError;
   Export "hipGraphClone" 2 MissingError;
   Export "hipGraphNodeFindInClone" 3 MissingError;
   Export "hipGraphNodeGetDependencies" 3 MissingError;
   Export "hipGraphNodeGetDependentNodes" 3 MissingError;
   Export "hipGraphGetEdges" 4 MissingError;
   Export "hipGraphExecUpdate" 4 MissingError].

(** Parameters of graph nodes. *)
Definition params_exports : list export :=
  [Export "hipGraphKernelNodeGetParams" 2 MissingError;
   Export "hipGraphKernelNodeSetParams" 2 MissingError;
   Export "hipGraphExecKernelNodeSetParams" 3 MissingError;
   Export "hipGraphMemcpyNodeGetParams" 2 MissingError;
   Export "hipGraphMemcpyNodeSetParams" 2 MissingError;
   Export "hipGraphMemsetNodeGetParams" 2 MissingError;
   Export "hipGraphMemsetNodeSetParams" 2 MissingError;
   Export "hipGraphHostNodeGetParams" 2 MissingError;
   Export "hipGraphHostNodeSetParams" 2 MissingError;
   Export "hipGraphChildGraphNodeGetGraph" 2 MissingError;
   Export "hipGraphEventRecordNodeGetEvent" 2 MissingError;
   Export "hipGraphEventRecordNodeSetEvent" 2 MissingError;
   Export "hipGraphEventWaitNodeGetEvent" 2 MissingError;
   Export "hipGraphEventWaitNodeSetEvent" 2 MissingError;
   Export "hipGraphDebugDotPrint" 3 MissingError].

(** Graph memory, stream queries and kernel names. *)
Definition graphmem_exports : list export :=
  [Export "hipGraphAddMemFreeNode" 5 MissingError;
   Export "hipGraphAddMemAllocNode" 5 MissingError;
   Export "hipGraphMemAllocNodeGetParams" 2 MissingError;
   Export "hipGraphMemFreeNodeGetParams" 2 MissingError;
   Export "hipDeviceGraphMemTrim" 1 MissingError;
   Export "hipDeviceGetGraphMemAttribute" 3 MissingError;
   Export "hipDeviceSetGraphMemAttribute" 3 MissingError;
   Export "hipStreamGetDevice" 2 MissingError;
   Export "hipStreamAttachMemAsync" 4 MissingError;
   Export "hipKernelNameRef" 1 MissingUnknown;
   Export "hipKernelNameRefByPtr" 2 MissingUnknown;
   Export "hipLaunchKernelGGL" 6 MissingError].

(** Occupancy, profiler and legacy launches. *)
Definition launch_exports : list export :=
  [Export "hipModuleOccupancyMaxPotentialBlockSizeWithFlags" 6 MissingError;
   Export "hipModuleOccupancyMaxActiveBlocksPerMultiprocessorWithFlags" 5 MissingError;
   Export "hipProfilerStart" 0 MissingError;
   Export "hipProfilerStop" 0 MissingError;
   Export "hipApiVersion" 1 MissingError;
   Export "hipMallocHost" 2 MissingError;
   Export "hipFreeHost" 1 MissingError;
   Export "hipConfigureCall" 4 MissingError;
   Export "hipSetupArgument" 3 MissingError;
   Export "hipLaunchByPtr" 1 MissingError;
   Export "hipLaunchCooperativeKernelMultiDevice" 3 MissingError;
   Export "hipExtLaunchMultiKernelMultiDevice" 3 MissingError].

(** Virtual memory management. *)
Definition vmm_exports : list export :=
  [Export "hipMemGetAllocationGranularity" 3 MissingError;
   Export "hipMemAddressReserve" 5 MissingError;
   Export "hipMemAddressFree" 2 MissingError;
   Export "hipMemCreate" 4 MissingError;
   Export "hipMemRelease" 1 MissingError;
   Export "hipMemMap" 5 MissingError;
   Export "hipMemUnmap" 2 MissingError;
   Export "hipMemSetAccess" 4 MissingError;
   Export "hipMemGetAccess" 3 MissingError;
   Export "hipMemExportToShareableHandle" 4 MissingError;
   Export "hipMemImportFromShareableHandle" 3 MissingError;
   Export "hipMemGetAllocationPropertiesFromHandle" 2 MissingError;
   Export "hipMemRetainAllocationHandle" 2 MissingError;
   Export "hipMemPtrGetInfo" 2 MissingError].

(** Extensions and array descriptors. *)
Definition extension_exports : list export :=
  [Export "hipExtStreamCreateWithCUMask" 3 MissingError;
   Export "hipExtStreamGetCUMask" 3 MissingError;
   Export "hipHccModuleLaunchKernel" 13 MissingError;
   Export "hipDeviceGetUuidString" 2 MissingError;
   Export "hipMalloc3D" 2 MissingError;
   Export "hipMemset3D" 3 MissingError;
   Export "hipMemset3DAsync" 4 MissingError;
   Export "hipGetArrayDescriptor" 2 MissingError;
   Export "hipArrayCreate" 2 MissingError;
   Export "hipArray3DCreate" 2 MissingError;
   Export "hipArrayGetDescriptor" 2 MissingError;
   Export "hipArray3DGetDescriptor" 2 MissingError;
   Export "hipExternalMemoryGetMappedMipmappedArray" 3 MissingError].

(** Cooperative module launches and driver copies. *)
Definition driver_exports : list export :=
  [Export "hipDeviceGetDefaultMemPoolR0600" 2 MissingError;
   Export "hipModuleLaunchCooperativeKernel" 10 MissingError;
   Export "hipModuleLaunchCooperativeKernelMultiDevice" 3 MissingError;
   Export "hipOccupancyMaxPotentialBlockSizeVariableSMem" 5 MissingError;
   Export "hipOccupancyMaxPotentialBlockSizeVariableSMemWithFlags" 6 MissingError;
   Export "hipDeviceGetP2PAttribute" 4 MissingError;
   Export "hipDeviceGetArchConfig" 3 MissingError;
   Export "hipDrvMemcpy2DUnaligned" 1 MissingError;
   Export "hipDrvMemcpy3D" 1 MissingError;
   Export "hipDrvMemcpy3DAsync" 2 MissingError;
   Export "hipModuleLoadGlobal" 4 MissingError;
   Export "hipDeviceGetAttributeByName" 3 MissingError].

(** Stream values and run-time compilation. *)
Definition rtc_exports : list export :=
  [Export "hipStreamWriteValue32" 4 MissingError;
   Export "hipStreamWriteValue64" 4 MissingError;
   Export "hipStreamWaitValue32" 5 MissingError;
   Export "hipStreamWaitValue64" 5 MissingError;
   Export "hipDrvMemcpy2D" 1 MissingError;
   Export "hipRtcCompileProgram" 3 MissingError;
   Export "hipRtcCreateProgram" 6 MissingError;
   Export "hipRtcDestroyProgram" 1 MissingError;
   Export "hipRtcGetCode" 2 MissingError;
   Export "hipRtcGetCodeSize" 2 MissingError;
   Export "hipRtcGetProgramLog" 2 MissingError;
   Export "hipRtcGetProgramLogSize" 2 MissingError].

(** Graphics interoperation. *)
Definition graphics_exports : list export :=
  [Export "hipGetDeviceProperties_v2" 2 MissingError;
   Export "hipGLGetDevices" 4 MissingError;
   Export "hipGraphicsGLRegisterBuffer" 3 MissingError;
   Export "hipGraphicsGLRegisterImage" 4 MissingError;
   Export "hipGraphicsMapResources" 3 MissingError;
   Export "hipGraphicsUnmapResources" 3 MissingError;
   Export "hipGraphicsResourceGetMappedPointer" 3 MissingError;
   Export "hipGraphicsSubResourceGetMappedArray" 4 MissingError;
   Export "hipGraphicsUnregisterResource" 1 MissingError].

(** Stream queries and call configuration, registration. *)
Definition stream_exports : list export :=
  [Export "hipGetStreamDeviceId" 2 MissingError;
   Export "hipStreamIsCapturing" 2 MissingError;
   Export "hipStreamCreateWithPriority" 3 MissingError;
   Export "hipStreamGetPriority" 2 MissingError;
   Export "hipStreamGetFlags" 2 MissingError;
   Export "__hipPushCallConfiguration" 4 MissingError;
   Export "__hipPopCallConfiguration" 4 MissingError;
   Export "__hipRegisterSurface" 6 MissingNothing;
   Export "__hipRegisterTexture" 7 MissingNothing;
   Export "__hipRegisterManagedVar" 6 MissingNothing].

Definition passthrough_exports : list export :=
  pool_exports ++ copy_exports ++ attribute_exports ++ peer_exports ++ capture_exports ++
  host_exports ++ context_exports ++ symbol_exports ++ config_exports ++ external_exports
  ++ sharing_exports ++ array_exports ++ object_exports ++ texref_exports ++ node_exports
  ++ params_exports ++ graphmem_exports ++ launch_exports ++ vmm_exports ++
  extension_exports ++ driver_exports ++ rtc_exports ++ graphics_exports ++ stream_exports.

(** Every symbol the interception library exports: the routed functions, the two
    accessors and the direct ones. *)
Definition exported_symbols : list string :=
  (slot_name <$> loaded_slots)
    ++ ["hip_passthrough_get_real_table"; "hip_passthrough_get_active_table"]%string
    ++ (ex_name <$> passthrough_exports).

(** No symbol is exported twice: the full surface is 355 symbols. *)
Lemma exported_symbols_distinct : NoDup exported_symbols /\ length exported_symbols = 355%nat.
Proof. split; [apply (bool_decide_unpack _)|]; by vm_compute. Qed.

Section Passthrough.
Context `{HIP}.

Definition missing_answer (m : missing) : Z :=
  match m with MissingError => 1 | MissingUnknown => hip_unknown | MissingNothing => 0 end.

(** The body of a generated export. *)
Definition direct (e : export) (args : list Z) : HM Z :=
  if negb (Nat.eqb (length args) (ex_arity e)) then hfault
  else
    ensure_init ;;
    p ← backend_sym (ex_name e);
    if is_null p then mret (missing_answer (ex_missing e))
    else
      r ← call_backend p args;
      mret (match ex_missing e with MissingNothing => 0 | _ => r end).
End Passthrough.
