(* ===== verification/HipScenario.v ===== *)
(** * A concrete HIP environment

    A backend that allocates, copies and otherwise answers success, and a loader
    that finds the backend and the three interceptor libraries.  The witnesses of
    the interceptor theorems run in it. *)

From S2P Require Import Prelude HipTable HipMachine HipTracer HipLogging HipIntercept.

(** Symbols of the backend: an address per slot, and one direct export. *)
Definition mock_symbol (name : string) : ptr :=
  match list_find (fun s => slot_name s = name) loaded_slots with
  | Some (i, _) => 1000 + Z.of_nat i
  | None => if String.eqb name "hipMallocAsync" then 2000 else 0
  end.

Definition mock_dlsym (lib : ptr) (name : string) : ptr :=
  if lib =? 16 then mock_symbol name
  else if String.eqb name "hip_interceptor_init" then lib * 100 + 1
  else if String.eqb name "hip_interceptor_shutdown" then lib * 100 + 2
  else 0.

Definition mock_dlopen (path : string) : ptr :=
  if String.eqb path DEFAULT_BACKEND then 16
  else if String.eqb path "tracer.so" then 32
  else if String.eqb path "logging.so" then 48
  else if String.eqb path "noop.so" then 64
  else 0.

Definition mock_entry (f : ptr) : option entry :=
  if f =? 3201 then Some (InitOf Tracer) else if f =? 3202 then Some (ShutdownOf Tracer)
  else if f =? 4801 then Some (InitOf Logging) else if f =? 4802 then Some (ShutdownOf Logging)
  else if f =? 6401 then Some (InitOf Noop) else if f =? 6402 then Some (ShutdownOf Noop)
  else None.

(** [hipMalloc] and [hipHostMalloc] hand out a new address, [hipMemcpy] to the
    host writes the bytes 1, 2, 3, ... *)
Definition mock_call (h : list (ptr * list Z)) (m : gmap Z Z) (f : ptr) (args : list Z) : hip_answer :=
  if (f =? mock_symbol "hipMalloc") || (f =? mock_symbol "hipHostMalloc") then
    match args with
    | p :: _ => Answer 0 [(p, 65536 + 4096 * Z.of_nat (length h))]
    | [] => Answer 1 []
    end
  else if f =? mock_symbol "hipMemcpy" then
    match args with
    | [dst; src; n; kind] =>
        if kind =? 2 then Answer 0 ((fun i => (dst + Z.of_nat i, Z.of_nat (S i))) <$> seq 0 (Z.to_nat n))
        else Answer 0 []
    | _ => Answer 1 []
    end
  else Answer 0 [].

Definition mock_hip (env : string -> option string) : HIP := {|
  hip_call := mock_call;
  hip_dlopen := mock_dlopen;
  hip_dlsym := mock_dlsym;
  hip_dlerror := "cannot open shared object file";
  hip_entry := mock_entry;
  hip_env := env;
  hip_fopen := fun path => if String.eqb path "trace.log" then 8192 else 0;
  hip_stderr := 4096;
  hip_clock := fun n => (Z.of_nat n, 1000 * Z.of_nat n);
  hip_unknown := 9000;
|}.

(** Environments: an interceptor library and further settings. *)
Definition mock_env (settings : list (string * string)) (k : string) : option string :=
  snd <$> List.find (fun p => String.eqb p.1 k) settings.

Definition tracing : HIP :=
  mock_hip (mock_env [("HIP_INTERCEPTION_LIBRARY", "tracer.so"); ("HIP_TRACE_FILE", "trace.log")]%string).

Definition logging : HIP :=
  mock_hip (mock_env [("HIP_INTERCEPTION_LIBRARY", "logging.so")]%string).

Definition no_backend : HIP :=
  mock_hip (mock_env [("HIP_PASSTHROUGH_BACKEND_LIB", "missing.so")]%string).
