(* ===== verification/HipLogic.v ===== *)
(** * Reasoning about the interceptors

    [hwp] is the weakest precondition of an interceptor function (it returns and
    the result satisfies the postcondition), [hush] the relation between worlds
    that differ in log output only, and the rules for the operations every wrapper
    is made of. *)

From S2P Require Import Prelude HipTable HipMachine.

Definition hwp {A} (m : HM A) (Q : A -> hip_world -> Prop) (w : hip_world) : Prop :=
  match m w with Returns a w' => Q a w' | _ => False end.

Lemma hwp_ret {A} (a : A) (Q : A -> hip_world -> Prop) w : Q a w -> hwp (mret a) Q w.
Proof. done. Qed.

Lemma hwp_bind {A B} (m : HM A) (f : A -> HM B) Q w :
  hwp m (fun a w' => hwp (f a) Q w') w -> hwp (m ≫= f) Q w.
Proof. unfold hwp, mbind, HM_bind. by destruct (m w). Qed.

Lemma hwp_mono {A} (m : HM A) (P Q : A -> hip_world -> Prop) w :
  hwp m P w -> (forall a w', P a w' -> Q a w') -> hwp m Q w.
Proof. unfold hwp. destruct (m w); auto. Qed.

Lemma hwp_read {A} (f : hip_world -> A) (Q : A -> hip_world -> Prop) w :
  Q (f w) w -> hwp (hread f) Q w.
Proof. done. Qed.

Lemma hwp_modify f (Q : unit -> hip_world -> Prop) w : Q tt (f w) -> hwp (hmodify f) Q w.
Proof. done. Qed.

Lemma hwp_returns {A} (m : HM A) Q w :
  hwp m Q w <-> exists a w', m w = Returns a w' /\ Q a w'.
Proof.
  unfold hwp. split.
  - destruct (m w) as [a w'| | |]; intros HQ; try done. by exists a, w'.
  - by intros (a & w' & -> & HQ).
Qed.

Lemma hwp_if {A} (b : bool) (m1 m2 : HM A) Q w :
  (b = true -> hwp m1 Q w) -> (b = false -> hwp m2 Q w) -> hwp (if b then m1 else m2) Q w.
Proof. destruct b; auto. Qed.

(** ** Worlds that differ in log output only *)

Definition keeps_open (f f' : gmap Z (list string)) : Prop :=
  forall k, is_Some (f !! k) -> is_Some (f' !! k).

Definition hush (w w' : hip_world) : Prop :=
  exists f n e, w' = set_err (set_ticks (set_files w f) n) e /\ keeps_open (hw_files w) f.

#[export] Instance hush_preorder : PreOrder hush.
Proof.
  split.
  - intros w. exists (hw_files w), (hw_ticks w), (hw_err w). split; [by destruct w|by intros k].
  - intros w1 w2 w3 (f & n & e & -> & Hf) (f' & n' & e' & -> & Hf').
    exists f', n', e'. split; [done|]. intros k Hk. apply Hf', Hf, Hk.
Qed.

(** A log destination: null or open. *)
Definition file_ok (file : ptr) (w : hip_world) : Prop := file = 0 \/ is_Some (hw_files w !! file).

Lemma hush_file_ok file w w' : hush w w' -> file_ok file w -> file_ok file w'.
Proof. intros (f & n & e & -> & Hf) [Hz|Ho]; [by left|right]. by apply Hf. Qed.

Lemma hush_mem w w' : hush w w' -> hw_mem w' = hw_mem w.
Proof. by intros (f & n & e & -> & _). Qed.
Lemma hush_calls w w' : hush w w' -> hw_calls w' = hw_calls w.
Proof. by intros (f & n & e & -> & _). Qed.
Lemma hush_tables w w' : hush w w' -> hw_tables w' = hw_tables w.
Proof. by intros (f & n & e & -> & _). Qed.
Lemma hush_state w w' : hush w w' -> hw_state w' = hw_state w.
Proof. by intros (f & n & e & -> & _). Qed.
Lemma hush_g_real w w' : hush w w' -> hw_g_real w' = hw_g_real w.
Proof. by intros (f & n & e & -> & _). Qed.
Lemma hush_log w w' : hush w w' -> hw_log w' = hw_log w.
Proof. by intros (f & n & e & -> & _). Qed.
Lemma hush_intercept w w' : hush w w' -> hw_intercept w' = hw_intercept w.
Proof. by intros (f & n & e & -> & _). Qed.
Lemma hush_next w w' : hush w w' -> hw_next w' = hw_next w.
Proof. by intros (f & n & e & -> & _). Qed.

Section Rules.
Context `{HIP}.

Lemma fwrite_hush file s w :
  is_Some (hw_files w !! file) -> exists w', fwrite file s w = Returns tt w' /\ hush w w'.
Proof.
  intros [l Hl]. unfold fwrite. rewrite Hl. eexists. split; [done|].
  exists (<[file := s :: l]> (hw_files w)), (hw_ticks w), (hw_err w). split; [by destruct w|].
  intros k Hk. destruct (decide (file = k)) as [->|Hne].
  - by rewrite lookup_insert_eq.
  - by rewrite lookup_insert_ne by done.
Qed.

Lemma stamped_hush file msg w :
  is_Some (hw_files w !! file) -> exists w', stamped file msg w = Returns tt w' /\ hush w w'.
Proof.
  intros Hf. unfold stamped.
  erewrite (hbind_returns now_ts) by done. destruct (hip_clock (hw_ticks w)) as [s ns].
  destruct (fwrite_hush file
    ("[" +:+ pretty.pretty s +:+ "." +:+ dec6 (Z.quot ns 1000) +:+ "] " +:+ msg +:+ NL)
    (set_ticks w (S (hw_ticks w))) Hf) as (w' & E & Hh).
  exists w'. split; [done|]. etransitivity; [|done].
  exists (hw_files w), (S (hw_ticks w)), (hw_err w). split; [by destruct w|by intros k].
Qed.

(** What a backend call leaves. *)
Definition after_call (f : ptr) (args : list Z) (w : hip_world) : hip_world :=
  set_calls (set_hmem w (apply_writes (an_writes (hip_call (hw_calls w) (hw_mem w) f args)) (hw_mem w)))
    ((f, args) :: hw_calls w).

Definition answer (f : ptr) (args : list Z) (w : hip_world) : Z :=
  an_ret (hip_call (hw_calls w) (hw_mem w) f args).

Lemma hwp_call_real table t s f args Q w :
  hw_tables w !! table = Some t -> tb_slots t s = Some (Backend f) ->
  Q (answer f args w) (after_call f args w) -> hwp (call_real table s args) Q w.
Proof.
  intros Ht Hs HQ. unfold call_real. apply hwp_bind. unfold hwp at 1, load_table. rewrite Ht.
  apply hwp_bind. rewrite Hs. exact HQ.
Qed.

Lemma hwp_load_or p dflt Q w :
  (p = 0 \/ is_Some (hw_mem w !! p)) -> (forall v, Q v w) -> hwp (load_or p dflt) Q w.
Proof.
  intros Hp HQ. unfold load_or. destruct (is_null p) eqn:E; [apply hwp_ret, HQ|].
  bool_to_prop. destruct Hp as [?|[v Hv]]; [done|]. unfold hwp, load. by rewrite Hv.
Qed.

Lemma hwp_cstr_or p dflt Q w :
  (p = 0 \/ is_Some (cstr_at p (hw_mem w))) -> (forall s, Q s w) -> hwp (cstr_or p dflt) Q w.
Proof.
  intros Hp HQ. unfold hwp, cstr_or. destruct (is_null p) eqn:E; [apply HQ|].
  bool_to_prop. destruct Hp as [?|[v Hv]]; [done|]. by rewrite Hv.
Qed.

Lemma hush_after_call f args w w' :
  hush w w' -> hush (after_call f args w) (after_call f args w').
Proof.
  intros (fs & n & e & -> & Hf). exists fs, n, e. split; [by destruct w|done].
Qed.

Lemma hush_answer f args w w' : hush w w' -> answer f args w' = answer f args w.
Proof. by intros (fs & n & e & -> & Hf). Qed.

(** Opening a destination gives a usable one. *)
Lemma open_stderr_ok w : exists w', open_stderr w = Returns hip_stderr w' /\ file_ok hip_stderr w' /\ hush w w'.
Proof.
  unfold open_stderr, file_ok. destruct (is_null hip_stderr) eqn:E; bool_to_prop.
  - exists w. split_and!; [done|by left|reflexivity].
  - eexists. split_and!; [done|right; simpl; by rewrite lookup_insert_eq|].
    exists (<[hip_stderr := default [] (hw_files w !! hip_stderr)]> (hw_files w)), (hw_ticks w), (hw_err w).
    split; [by destruct w|].
    intros k Hk. destruct (decide (hip_stderr = k)) as [->|Hne];
      [by rewrite lookup_insert_eq|by rewrite lookup_insert_ne].
Qed.

Lemma hwp_open_destination variable complaint Q w :
  (forall f b w', file_ok f w' -> hush w w' -> Q (f, b) w') ->
  hwp (open_destination variable complaint) Q w.
Proof.
  intros HQ.
  assert (forall w1, hush w w1 -> hwp (f ← open_stderr; mret (f, false)) Q w1) as Hs.
  { intros w1 Hh. apply hwp_bind. destruct (open_stderr_ok w1) as (w' & E & Hf & Hh').
    unfold hwp at 1. rewrite E. apply hwp_ret, HQ; [done|by transitivity w1]. }
  unfold open_destination. destruct (hip_env variable) as [path|]; [|by apply Hs].
  apply hwp_if; intros _; [by apply Hs|]. apply hwp_bind. unfold hwp at 1, open_file.
  destruct (is_null (hip_fopen path)) eqn:E.
  - apply hwp_bind, hwp_modify, Hs. exists (hw_files w), (hw_ticks w), ((complaint +:+ path) :: hw_err w).
    split; [by destruct w|by intros k].
  - apply hwp_ret, HQ.
    + right. simpl. by rewrite lookup_insert_eq.
    + exists (<[hip_fopen path := []]> (hw_files w)), (hw_ticks w), (hw_err w). split; [by destruct w|].
      intros k Hk. destruct (decide (hip_fopen path = k)) as [->|Hne];
        [by rewrite lookup_insert_eq|by rewrite lookup_insert_ne].
Qed.
End Rules.
