(* ===== verification/HipTransparency.v ===== *)
(** * Interception is transparent

    A client that runs on the interception library, with or without an interceptor
    of the repository, gets the answers the backend alone would give. *)

From S2P Require Import Prelude HipTable HipMachine HipTracer HipLogging HipIntercept HipPassthrough HipLogic.

(** ** What a client owes a HIP function *)

(** The number of scalar arguments of each slot; a [dim3] counts as three. *)
Definition arity (s : slot) : nat :=
  match s with
  | hipDeviceReset | hipDeviceSynchronize | hipGetLastError | hipPeekAtLastError => 0
  | hipInit | hipDriverGetVersion | hipRuntimeGetVersion | hipGetDevice | hipGetDeviceCount
  | hipSetDevice | hipFree | hipHostFree | hipStreamCreate | hipStreamDestroy | hipStreamSynchronize
  | hipStreamQuery | hipEventCreate | hipEventDestroy | hipEventSynchronize | hipEventQuery
  | hipModuleUnload | __hipRegisterFatBinary | __hipUnregisterFatBinary | hipGetErrorString
  | hipGetErrorName => 1
  | hipGetDeviceProperties | hipMalloc | hipMemGetInfo | hipStreamCreateWithFlags
  | hipEventCreateWithFlags | hipEventRecord | hipModuleLoad | hipModuleLoadData => 2
  | hipDeviceGetAttribute | hipDeviceGetName | hipHostMalloc | hipMemset | hipStreamWaitEvent
  | hipEventElapsedTime | hipModuleGetFunction => 3
  | hipMemcpy | hipMemsetAsync | hipModuleGetGlobal => 4
  | hipMemcpyAsync => 5
  | __hipRegisterVar => 8
  | hipLaunchKernel | __hipRegisterFunction => 10
  | hipModuleLaunchKernel => 11
  | hipExtModuleLaunchKernel => 14
  end%nat.

Definition mapped_or_null (p : ptr) (m : gmap Z Z) : Prop := p = 0 \/ is_Some (m !! p).
Definition text_or_null (p : ptr) (m : gmap Z Z) : Prop := p = 0 \/ is_Some (cstr_at p m).

(** Out-parameters can be read once the function has answered, names are
    NUL-terminated: [m] is memory before, [m'] after the call, [r] the answer. *)
Definition printable (s : slot) (args : list Z) (m m' : gmap Z Z) (r : Z) : Prop :=
  match s, args with
  | (hipDriverGetVersion | hipRuntimeGetVersion | hipGetDevice | hipGetDeviceCount
     | hipStreamCreate | hipEventCreate), p :: _ => mapped_or_null p m'
  | (hipMalloc | hipHostMalloc | hipStreamCreateWithFlags | hipEventCreateWithFlags
     | hipDeviceGetAttribute | hipEventElapsedTime), p :: _ => mapped_or_null p m'
  | hipMemGetInfo, p :: q :: _ => mapped_or_null p m' /\ mapped_or_null q m'
  | hipDeviceGetName, p :: _ => text_or_null p m'
  | hipGetDeviceProperties, p :: _ => r = 0 -> text_or_null p m'
  | (__hipRegisterFunction | __hipRegisterVar), _ :: _ :: _ :: n :: _ => text_or_null n m
  | _, _ => True
  end.

Section Wrappers.
Context `{HIP}.

(** ** The logger *)

(** The real table is [t], where [s] is the backend function [f]. *)
Definition resolves (table : ptr) (t : HipFunctionTable) (s : slot) (f : ptr) (w : hip_world) : Prop :=
  hw_tables w !! table = Some t /\ tb_slots t s = Some (Backend f).

Lemma hush_resolves table t s f w w' : hush w w' -> resolves table t s f w -> resolves table t s f w'.
Proof. intros Hh [Ht Hs]. split; [|done]. by rewrite (hush_tables _ _ Hh). Qed.

Definition logger_ok (table : ptr) (w : hip_world) : Prop :=
  hw_g_real w = table /\ file_ok (lg_file (hw_log w)) w.

Lemma hush_logger_ok table w w' : hush w w' -> logger_ok table w -> logger_ok table w'.
Proof.
  intros Hh [Hg Hf]. split; [by rewrite (hush_g_real _ _ Hh)|].
  rewrite (hush_log _ _ Hh). by apply (hush_file_ok _ w).
Qed.

Lemma logger_ok_after_call table f args w : logger_ok table w -> logger_ok table (after_call f args w).
Proof. done. Qed.

Lemma hwp_log_msg table level msg Q w :
  logger_ok table w -> (forall w', hush w w' -> Q tt w') -> hwp (HipLogging.log_msg level msg) Q w.
Proof.
  intros [_ Hf] HQ. unfold HipLogging.log_msg. apply hwp_bind, hwp_read, hwp_if; intros Hc.
  - apply hwp_ret, HQ. reflexivity.
  - bool_to_prop. destruct Hf as [?|Ho]; [done|].
    destruct (stamped_hush (lg_file (hw_log w)) msg w Ho) as (w' & E & Hh).
    unfold hwp. rewrite E. by apply HQ.
Qed.

(** A wrapper forwards when it answers what the backend function answers and
    leaves what it leaves, up to log output. *)
Definition forwards (s : slot) (f : ptr) (args : list Z) (w : hip_world) (r : Z) (w' : hip_world) : Prop :=
  (returns_nothing s = false -> r = answer f args w) /\ hush (after_call f args w) w'.
End Wrappers.

(** Split an argument list of known length into its scalars. *)
Ltac scalars args :=
  lazymatch goal with
  | E : length args = O |- _ => destruct args; [clear E|discriminate E]
  | E : length args = S _ |- _ =>
      let a := fresh "a" in let rest := fresh "rest" in
      destruct args as [|a rest]; [discriminate E|]; apply (f_equal pred) in E;
      cbn [length pred] in E; scalars rest
  end.

(** Unfold the operation a goal is about. *)
Ltac unfold_head m :=
  lazymatch m with
  | ?g _ => unfold_head g
  | ?g => unfold g
  end.

Ltac wrapper := lazymatch goal with |- hwp ?m _ _ => unfold_head m end.

(** Keep only the slots of a list: [Hin] decides membership. *)
Ltac only_wrapped Hin :=
  apply (bool_decide_eq_true_2 _) in Hin; vm_compute in Hin;
  first [discriminate Hin | clear Hin].

(** The steps of a logging wrapper: the real table, the call, the values it
    prints, the line. *)
Ltac logging_step :=
  lazymatch goal with
  | |- hwp (mbind _ _) _ _ => apply hwp_bind
  | |- hwp HipLogging.real _ _ => apply hwp_read
  | |- hwp (mret _) _ _ => apply hwp_ret
  | |- hwp (HipLogging.log_msg _ _) _ _ =>
      eapply hwp_log_msg; [by eauto using hush_logger_ok, logger_ok_after_call|intros ? ?]
  | |- hwp (load_or _ _) _ _ => apply hwp_load_or; [done|intros ?]
  | |- hwp (HipLogging.cstr _) _ _ => apply hwp_cstr_or; [by eauto|intros ?]
  | |- hwp (if _ then _ else _) _ _ => apply hwp_if; intros ?
  | Hr : resolves _ _ _ _ ?w, Hg : hw_g_real ?w = _ |- hwp (call_real (hw_g_real ?w) _ _) _ ?w =>
      rewrite Hg; eapply hwp_call_real; [apply Hr|apply Hr|]
  end.

Section Logging.
Context `{HIP}.

(** A call after the line was written. *)
Lemma logging_late table t s f args w w' :
  returns_nothing s = true -> hw_g_real w = table -> resolves table t s f w -> hush w w' ->
  hwp (call_real (hw_g_real w') s args) (fun _ w'' => hwp (mret 0) (forwards s f args w) w'') w'.
Proof.
  intros Hn Hg Hr Hh. destruct (hush_resolves _ _ _ _ _ _ Hh Hr) as [Ht Hs].
  rewrite (hush_g_real _ _ Hh), Hg. eapply hwp_call_real; [done|done|]. apply hwp_ret.
  split; [by rewrite Hn|by apply hush_after_call].
Qed.

Lemma logging_forwards table t s f args w :
  logger_ok table w -> resolves table t s f w ->
  s ∈ HipLogging.wrapped_slots -> length args = arity s ->
  printable s args (hw_mem w) (hw_mem (after_call f args w)) (answer f args w) ->
  hwp (HipLogging.wrap s args) (forwards s f args w) w.
Proof.
  intros Hl Hr Hin Hargs Hp. pose proof Hl as [Hg _].
  destruct s; only_wrapped Hin; cbn [arity] in Hargs; scalars args; cbn [printable] in Hp;
    cbn [HipLogging.wrap]; wrapper; repeat (logging_step; cbn beta).
  all: try (split; [done|]; repeat (etransitivity; [|eassumption]); reflexivity).
  - bool_to_prop. apply hwp_cstr_or.
    + rewrite (hush_mem _ _ ltac:(eassumption)). by apply Hp.
    + intros ?. repeat (logging_step; cbn beta).
      split; [done|]. repeat (etransitivity; [|eassumption]). reflexivity.
  - destruct Hp as [Hp1 Hp2]. apply hwp_load_or; [done|intros ?].
    repeat (logging_step; cbn beta). by split.
  - by apply (logging_late table t).
  - by apply (logging_late table t).
  - by apply (logging_late table t).
Qed.
End Logging.

(** ** The tracer, without synchronized launches *)

Section TracerRules.
Context `{HIP}.

(** What a wrapper relies on in the tracer's state. *)
Definition quiet_state (table : ptr) (w : hip_world) (st : State) : Prop :=
  tr_real st = table /\ tr_trace_sync st = false /\ file_ok (tr_trace_file st) w.

Definition tracer_ok (table : ptr) (w : hip_world) : Prop :=
  exists st, hw_state w = Some st /\ quiet_state table w st.

Lemma hush_quiet_state table w w' st : hush w w' -> quiet_state table w st -> quiet_state table w' st.
Proof. intros Hh (? & ? & ?). split_and!; [done..|]. by apply (hush_file_ok _ w). Qed.

Lemma quiet_state_after_call table f args w st :
  quiet_state table w st -> quiet_state table (after_call f args w) st.
Proof. done. Qed.

Lemma hwp_trace_line st level msg Q w :
  file_ok (tr_trace_file st) w -> (forall w', hush w w' -> Q tt w') -> hwp (trace_msg st level msg) Q w.
Proof.
  intros Hf HQ. unfold trace_msg. apply hwp_if; intros Hc.
  - apply hwp_ret, HQ. reflexivity.
  - bool_to_prop. destruct Hf as [?|Ho]; [done|].
    destruct (stamped_hush (tr_trace_file st) msg w Ho) as (w' & E & Hh).
    unfold hwp. rewrite E. by apply HQ.
Qed.

Lemma hwp_trace_msg table st level msg Q w :
  quiet_state table w st -> (forall w', hush w w' -> Q tt w') -> hwp (trace_msg st level msg) Q w.
Proof. intros (_ & _ & Hf). by apply hwp_trace_line. Qed.

Lemma hwp_with_state (body : State -> HM (Z * State)) st Q w :
  hw_state w = Some st ->
  hwp (body st) (fun r w' => Q r.1 (set_tstate w' (Some r.2))) w -> hwp (with_state body) Q w.
Proof.
  intros Hst Hb. unfold with_state. apply hwp_bind, hwp_read, hwp_bind. rewrite Hst.
  apply hwp_ret, hwp_bind. eapply hwp_mono; [exact Hb|]. by intros [r st'] w' HQ.
Qed.

(** The tables may change, the configuration does not. *)
Lemma hwp_buffer_table_add table st p size btype Q w :
  quiet_state table w st ->
  (forall st' w', hush w w' -> quiet_state table w' st' -> Q st' w') ->
  hwp (buffer_table_add st p size btype) Q w.
Proof.
  intros Hq HQ. unfold buffer_table_add. apply hwp_if; intros _; [by apply hwp_ret, HQ|].
  destruct (free_slot _) as [i|].
  - by apply hwp_ret, HQ.
  - apply hwp_bind. eapply hwp_trace_msg; [done|]. intros w' Hh.
    apply hwp_ret, HQ; [done|]. by apply (hush_quiet_state _ w).
Qed.

Lemma hwp_track_result table st err p size btype Q w :
  quiet_state table w st -> mapped_or_null p (hw_mem w) ->
  (forall st' w', hush w w' -> quiet_state table w' st' -> Q st' w') ->
  hwp (track_result st err p size btype) Q w.
Proof.
  intros Hq Hp HQ. unfold track_result. apply hwp_if; intros Hc; [|by apply hwp_ret, HQ].
  bool_to_prop. apply hwp_bind. destruct Hp as [?|[v Hv]]; [done|].
  unfold hwp at 1, load. rewrite Hv. apply hwp_if; intros _; [|by apply hwp_ret, HQ].
  by apply (hwp_buffer_table_add table).
Qed.

Lemma quiet_state_remove table w st p : quiet_state table w st -> quiet_state table w (buffer_table_remove st p).
Proof.
  intros Hq. unfold buffer_table_remove. destruct (is_null p); [done|].
  by destruct (tracked_slot _ _).
Qed.

Lemma quiet_state_kernel table w st p n : quiet_state table w st -> quiet_state table w (kernel_table_add st p n).
Proof.
  intros Hq. unfold kernel_table_add. destruct (is_null p); [done|]. by destruct (existsb _ _).
Qed.

Lemma hwp_full_dump_loop st name tokens Q w :
  file_ok (tr_trace_file st) w -> (forall b w', hush w w' -> Q b w') ->
  hwp (full_dump_loop st name tokens) Q w.
Proof.
  intros Hf HQ. induction tokens as [|token tokens IH]; cbn [full_dump_loop].
  - apply hwp_ret, HQ. reflexivity.
  - apply hwp_if; intros _; [|exact IH]. apply hwp_bind, hwp_trace_line; [done|].
    intros w' Hh. by apply hwp_ret, HQ.
Qed.

Lemma hwp_should_full_dump st name Q w :
  file_ok (tr_trace_file st) w -> (forall b w', hush w w' -> Q b w') ->
  hwp (should_full_dump_kernel st name) Q w.
Proof.
  intros Hf HQ. unfold should_full_dump_kernel.
  assert (hwp (mret false : HM bool) Q w) by (apply hwp_ret, HQ; reflexivity).
  destruct (tr_kernel_full_dump_list st), name; try done.
  apply hwp_if; intros _; [done|]. by apply hwp_full_dump_loop.
Qed.

Lemma hwp_dump_point_off st do_trace do_full label Q w :
  tr_trace_sync st = false -> Q tt w -> hwp (dump_point st do_trace do_full label) Q w.
Proof. intros Hs HQ. unfold dump_point. by rewrite Hs, andb_false_r. Qed.

(** As [forwards], with a new tracer state. *)
Definition tforwards (table : ptr) (s : slot) (f : ptr) (args : list Z) (w : hip_world) (r : Z)
  (w' : hip_world) : Prop :=
  (returns_nothing s = false -> r = answer f args w)
  /\ exists st', quiet_state table w' st' /\ hush (set_tstate (after_call f args w) (Some st')) w'.

Lemma tforwards_intro table s f args w r w' st' :
  (returns_nothing s = false -> r = answer f args w) -> hush (after_call f args w) w' ->
  quiet_state table w' st' -> tforwards table s f args w r (set_tstate w' (Some st')).
Proof.
  intros Hr (fs & n & e & -> & Hf) Hq. split; [done|]. exists st'. split; [done|].
  exists fs, n, e. split; [by destruct w|done].
Qed.
End TracerRules.

Create HintDb tracer.
#[export] Hint Resolve hush_quiet_state quiet_state_after_call quiet_state_remove quiet_state_kernel : tracer.

(** The steps of a tracing wrapper. *)
Ltac tracer_step :=
  lazymatch goal with
  | |- hwp (mbind _ _) _ _ => apply hwp_bind
  | |- hwp (mret _) _ _ => apply hwp_ret
  | |- hwp (trace_msg _ _ _) _ _ => eapply hwp_trace_msg; [by eauto with tracer|intros ? ?]
  | |- hwp (load_or _ _) _ _ => apply hwp_load_or; [done|intros ?]
  | |- hwp (cstr_or _ _) _ _ => apply hwp_cstr_or; [by eauto|intros ?]
  | |- hwp (if _ then _ else _) _ _ => apply hwp_if; intros ?
  | Hr : resolves ?table _ _ _ ?w |- hwp (call_real ?table _ _) _ ?w =>
      eapply hwp_call_real; [apply Hr|apply Hr|]
  end.

Ltac tracer_done :=
  apply tforwards_intro; [done|repeat (etransitivity; [|eassumption]); reflexivity|by eauto with tracer].

Ltac tracer_end := intros ? ?; cbn beta; repeat (tracer_step; cbn beta); tracer_done.

Section Tracing.
Context `{HIP}.

Lemma traced_launch_forwards table t s f args w func message :
  tracer_ok table w -> resolves table t s f w ->
  hwp (traced_launch func message s args) (tforwards table s f args w) w.
Proof.
  intros (st & Hst & Hq) Hr. pose proof Hq as (Hreal & Hsync & Hfile).
  apply (hwp_with_state _ st); [done|]. apply hwp_bind.
  apply hwp_should_full_dump; [done|]. intros do_full w1 H1.
  apply hwp_bind, hwp_dump_point_off; [done|]. apply hwp_bind.
  eapply hwp_trace_msg; [by eauto with tracer|]. intros w2 H2. apply hwp_bind.
  assert (hush w w2) as H02 by by transitivity w1.
  destruct (hush_resolves _ _ _ _ _ _ H02 Hr) as [Ht2 Hs2]. rewrite Hreal.
  eapply hwp_call_real; [done|done|]. apply hwp_bind, hwp_dump_point_off; [done|]. apply hwp_bind.
  assert (quiet_state table (after_call f args w2) (if should_trace_kernel st (kernel_table_get_name st func)
    then set_kernel_count st (wrap_i32 (tr_kernel_count st + 1)) else st)) as Hq'.
  { apply quiet_state_after_call, (hush_quiet_state _ w); [done|]. by destruct (should_trace_kernel _ _). }
  eapply hwp_trace_msg; [done|]. intros w3 H3. apply hwp_ret.
  apply tforwards_intro.
  - intros _. by apply hush_answer.
  - transitivity (after_call f args w2); [by apply hush_after_call|done].
  - by apply (hush_quiet_state _ (after_call f args w2)).
Qed.

(** The rest of an allocation wrapper once the backend has answered. *)
Lemma tracer_alloc table s f args w st p size btype (msg : Z -> string) :
  quiet_state table (after_call f args w) st -> mapped_or_null p (hw_mem (after_call f args w)) ->
  hwp (track_result st (answer f args w) p size btype)
    (fun st' w' => hwp (pv ← load_or p null; trace_msg st' 2 (msg pv) ;; mret (answer f args w, st'))
       (fun r w'' => tforwards table s f args w r.1 (set_tstate w'' (Some r.2))) w')
    (after_call f args w).
Proof.
  intros Hq Hp. apply (hwp_track_result table); [done|done|]. intros st' w' Hh Hq'.
  apply hwp_bind, hwp_load_or; [by rewrite (hush_mem _ _ Hh)|]. intros pv.
  apply hwp_bind. apply (hwp_trace_msg table); [done|]. intros w'' Hh'.
  apply hwp_ret, tforwards_intro; [done|by transitivity w'|by apply (hush_quiet_state _ w')].
Qed.

(** A call with a new tracer state, and the rest of the wrapper. *)
Lemma tracer_call table t s f args w w' st (k : Z -> HM (Z * State)) :
  quiet_state table w st -> resolves table t s f w -> hush w w' ->
  (forall w'', hush (after_call f args w) w'' ->
     hwp (k (answer f args w)) (fun r w3 => tforwards table s f args w r.1 (set_tstate w3 (Some r.2))) w'') ->
  hwp (call_real (tr_real st) s args)
    (fun e w'' => hwp (k e) (fun r w3 => tforwards table s f args w r.1 (set_tstate w3 (Some r.2))) w'') w'.
Proof.
  intros (-> & _ & _) Hr Hh Hk. destruct (hush_resolves _ _ _ _ _ _ Hh Hr) as [Ht Hs].
  eapply hwp_call_real; [done|done|]. rewrite (hush_answer _ _ _ _ Hh).
  apply Hk. by apply hush_after_call.
Qed.

Lemma tracer_forwards table t s f args w :
  tracer_ok table w -> resolves table t s f w ->
  s ∈ HipTracer.wrapped_slots -> length args = arity s ->
  printable s args (hw_mem w) (hw_mem (after_call f args w)) (answer f args w) ->
  hwp (HipTracer.wrap s args) (tforwards table s f args w) w.
Proof.
  intros Htr Hr Hin Hargs Hp.
  destruct s; only_wrapped Hin; cbn [arity] in Hargs; scalars args; cbn [printable] in Hp;
    cbn [HipTracer.wrap]; wrapper; try (by eapply traced_launch_forwards).
  all: destruct Htr as (st & Hst & Hq); pose proof Hq as (Hreal & _ & _);
    apply (hwp_with_state _ st); [done|]; rewrite ?Hreal.
  all: repeat (tracer_step; cbn beta).
  all: try tracer_done.
  - by apply (tracer_alloc table hipMalloc f [a; a0] w st).
  - eapply (tracer_call table); [by eauto with tracer|done|reflexivity|]. tracer_end.
  - by apply (tracer_alloc table hipHostMalloc f [a; a0; a1] w st).
  - eapply (tracer_call table); [by eauto with tracer|done|reflexivity|]. tracer_end.
  - rewrite <- Hreal at 1. eapply (tracer_call table); [by eauto with tracer..|]. tracer_end.
  - eapply (tracer_call table); [by eauto with tracer..|]. tracer_end.
  - eapply (tracer_call table); [by eauto with tracer..|]. tracer_end.
  - rewrite <- Hreal at 1. eapply (tracer_call table); [by eauto with tracer..|]. tracer_end.
Qed.
End Tracing.
