(* ===== verification/HipProgram.v ===== *)
(** * Programs on the interception library

    Loading the library builds the table the environment asks for, and a client
    program then sees the backend's answers whichever interceptor is loaded. *)

From S2P Require Import Prelude HipTable HipMachine HipTracer HipLogging HipIntercept HipPassthrough HipScenario HipLogic HipTransparency.

Section Setup.
Context `{HIP}.

(** ** What the environment selects *)

Definition backend_lib : ptr := hip_dlopen backend_path.

(** The interceptor library that is loaded, if any. *)
Definition interceptor_lib : option ptr :=
  match nonempty (hip_env "HIP_INTERCEPTION_LIBRARY") with
  | Some path => nonnull (hip_dlopen path)
  | None => None
  end.

(** The interceptor whose [hip_interceptor_init] it exports. *)
Definition chosen : option interceptor :=
  match interceptor_lib with
  | Some ilib => match hip_entry (hip_dlsym ilib "hip_interceptor_init") with
                 | Some (InitOf lib) => Some lib
                 | _ => None
                 end
  | None => None
  end.

(** The backend loads, and an interceptor library exports an interceptor. *)
Definition loadable : Prop :=
  backend_lib <> 0 /\
  forall ilib, interceptor_lib = Some ilib ->
    hip_dlsym ilib "hip_interceptor_init" <> 0 /\
    exists lib, hip_entry (hip_dlsym ilib "hip_interceptor_init") = Some (InitOf lib).

Definition overridden (lib : option interceptor) : list slot :=
  match lib with
  | Some Tracer => HipTracer.wrapped_slots
  | Some Logging => HipLogging.wrapped_slots
  | _ => []
  end.

(** What a slot of the active table points to. *)
Definition active_slot (s : slot) : option fnptr :=
  match chosen with
  | Some lib => if decide (s ∈ overridden chosen) then Some (Wrapper lib s)
                else load_sym backend_lib (slot_name s)
  | None => load_sym backend_lib (slot_name s)
  end.

(** ** The loaded library *)

(** The tracer's state once it is loaded. *)
Definition tracer_loaded (w : hip_world) : Prop :=
  exists st, hw_state w = Some st /\ tr_real st = ic_real_table (hw_intercept w)
    /\ tr_trace_sync st = negb (getenv_int "HIP_TRACE_SYNC" 0 =? 0)
    /\ file_ok (tr_trace_file st) w.

Definition loaded (w : hip_world) : Prop :=
  let i := hw_intercept w in
  ic_once i = true /\ ic_backend_lib i = backend_lib
  /\ ic_active_table i <> 0
  /\ (exists t, hw_tables w !! ic_real_table i = Some t
        /\ forall s, tb_slots t s = load_sym backend_lib (slot_name s))
  /\ (exists t, hw_tables w !! ic_active_table i = Some t /\ forall s, tb_slots t s = active_slot s)
  /\ match chosen with
     | Some Tracer => tracer_loaded w
     | Some Logging => logger_ok (ic_real_table i) w
     | _ => True
     end.

(** ** The real table *)

Lemma load_fold lib ss : forall t s,
  tb_slots (foldl (fun t s => table_set t s (load_sym lib (slot_name s))) t ss) s =
  if decide (s ∈ ss) then load_sym lib (slot_name s) else tb_slots t s.
Proof.
  induction ss as [|s' ss IH]; intros t s; cbn [foldl].
  - case_decide as Hin; [by apply elem_of_nil in Hin|done].
  - rewrite IH. destruct (decide (s = s')) as [->|Hne].
    + rewrite table_set_eq. rewrite (decide_True (P := s' ∈ s' :: ss)) by apply list_elem_of_here.
      by case_decide.
    + rewrite table_set_ne by congruence.
      destruct (decide (s ∈ ss)) as [Hin|Hout].
      * by rewrite decide_True by by apply list_elem_of_further.
      * rewrite decide_False; [done|]. by intros [?|?]%elem_of_cons.
Qed.

(** [load_all!] fills every field of the table. *)
Lemma loaded_slots_all s : s ∈ loaded_slots.
Proof. destruct s; repeat first [apply list_elem_of_here|apply list_elem_of_further]. Qed.

Lemma load_all_slot lib t s : tb_slots (load_all lib t) s = load_sym lib (slot_name s).
Proof. unfold load_all. rewrite load_fold. apply decide_True, loaded_slots_all. Qed.

Lemma table_slots v size f s : tb_slots (Table v size f) s = f s.
Proof. done. Qed.

Lemma real_table_slot lib s : tb_slots (real_table_of lib) s = load_sym lib (slot_name s).
Proof. unfold real_table_of. rewrite table_slots. apply load_all_slot. Qed.

(** ** Loading an interceptor *)

(** A computation that only writes to an open log. *)
Definition logs_only (file : ptr) (m : HM unit) : Prop :=
  forall w, file_ok file w -> hwp m (fun _ w' => hush w w') w.

Lemma logs_only_ret file : logs_only file (mret tt).
Proof. intros w _. apply hwp_ret. reflexivity. Qed.

Lemma logs_only_seq file m1 m2 : logs_only file m1 -> logs_only file m2 -> logs_only file (m1 ;; m2).
Proof.
  intros H1 H2 w Hf. apply hwp_bind. eapply hwp_mono; [by apply H1|]. intros [] w1 Hw1. cbn beta.
  eapply hwp_mono; [apply H2; by apply (hush_file_ok _ w)|]. intros [] w2 Hw2. cbn beta.
  by transitivity w1.
Qed.

Lemma logs_only_if file (b : bool) m1 m2 :
  logs_only file m1 -> logs_only file m2 -> logs_only file (if b then m1 else m2).
Proof. by destruct b. Qed.

Lemma logs_only_trace st level msg : logs_only (tr_trace_file st) (trace_msg st level msg).
Proof. intros w Hf. by apply hwp_trace_line. Qed.

Lemma banner_logs_only st : logs_only (tr_trace_file st) (banner st).
Proof.
  unfold banner. destruct (tr_kernel_full_dump_list st), (tr_kernel_filter st);
    repeat first [apply logs_only_seq|apply logs_only_trace|apply logs_only_ret|apply logs_only_if].
Qed.

(** What loading an interceptor leaves as it was. *)
Definition same_client (w w' : hip_world) : Prop :=
  hw_mem w' = hw_mem w /\ hw_calls w' = hw_calls w /\ hw_intercept w' = hw_intercept w.

Lemma hush_same_client w w' : hush w w' -> same_client w w'.
Proof. intros Hh. split_and!; [by apply hush_mem|by apply hush_calls|by apply hush_intercept]. Qed.

Lemma tracer_init_ok R t w :
  hw_tables w !! R = Some t ->
  hwp (HipTracer.hip_interceptor_init R) (fun p w' =>
    p = hw_next w /\ same_client w w'
    /\ hw_tables w' = <[hw_next w := override Tracer HipTracer.wrapped_slots t]> (hw_tables w)
    /\ exists st, hw_state w' = Some st /\ tr_real st = R /\ tr_wrapper st = hw_next w
         /\ tr_trace_sync st = negb (getenv_int "HIP_TRACE_SYNC" 0 =? 0)
         /\ file_ok (tr_trace_file st) w') w.
Proof.
  intros HR. unfold HipTracer.hip_interceptor_init. apply hwp_bind, hwp_open_destination.
  intros f b w1 Hf H1. apply hwp_bind. unfold hwp at 1, load_table.
  rewrite (hush_tables _ _ H1), HR. apply hwp_bind. unfold hwp at 1, box_table.
  apply hwp_bind, hwp_modify, hwp_bind.
  eapply hwp_mono; [apply banner_logs_only; exact Hf|].
  intros [] w2 H2. cbn beta. apply hwp_ret. split; [apply (hush_next _ _ H1)|].
  split; [|split].
  - destruct (hush_same_client _ _ H1) as (M1 & C1 & I1), (hush_same_client _ _ H2) as (M2 & C2 & I2).
    cbn [hw_mem hw_calls hw_intercept set_tstate set_tables set_hnext] in *. split_and!; congruence.
  - rewrite (hush_tables _ _ H2). cbn [hw_tables set_tstate set_tables set_hnext].
    by rewrite (hush_tables _ _ H1), (hush_next _ _ H1).
  - eexists. rewrite (hush_state _ _ H2). split; [done|]. split; [done|].
    split; [apply (hush_next _ _ H1)|]. split; [done|]. by apply (hush_file_ok _ _ _ H2).
Qed.

Lemma logging_init_ok R t w :
  hw_tables w !! R = Some t ->
  hwp (HipLogging.hip_interceptor_init R) (fun p w' =>
    p = hw_next w /\ same_client w w'
    /\ hw_tables w' = <[hw_next w := override Logging HipLogging.wrapped_slots t]> (hw_tables w)
    /\ logger_ok R w') w.
Proof.
  intros HR. unfold HipLogging.hip_interceptor_init.
  apply hwp_bind, hwp_modify, hwp_bind, hwp_open_destination. intros f b w1 Hf H1.
  apply hwp_bind, hwp_modify, hwp_bind. eapply (hwp_log_msg R).
  { split; [cbn; by rewrite (hush_g_real _ _ H1)|done]. }
  intros w2 H2. apply hwp_bind. unfold hwp at 1, load_table.
  rewrite (hush_tables _ _ H2). cbn [hw_tables set_log]. rewrite (hush_tables _ _ H1).
  cbn [hw_tables set_g_real]. rewrite HR. unfold hwp, box_table.
  destruct (hush_same_client _ _ H1) as (M1 & C1 & I1), (hush_same_client _ _ H2) as (M2 & C2 & I2).
  pose proof (hush_next _ _ H1) as N1. pose proof (hush_next _ _ H2) as N2.
  pose proof (hush_tables _ _ H1) as T1. pose proof (hush_tables _ _ H2) as T2.
  cbn in *. split; [congruence|]. split; [split_and!; cbn; congruence|].
  split; [congruence|]. split; cbn.
  - rewrite (hush_g_real _ _ H2). cbn. by rewrite (hush_g_real _ _ H1).
  - rewrite (hush_log _ _ H2). by apply (hush_file_ok _ _ _ H2).
Qed.

(** ** Loading the library *)

(** The library after the real table was built. *)
Definition bare (R : ptr) (w : hip_world) : Prop :=
  (exists ilib, hw_intercept w = Interceptor false backend_lib ilib R R 0)
  /\ hw_tables w !! R = Some (real_table_of backend_lib)
  /\ 0 < R < hw_next w.

(** The interceptor's part of [loaded], and for the tracer that [a] is its
    wrapper table. *)
Definition interceptor_ready (R a : ptr) (w : hip_world) : Prop :=
  match chosen with
  | Some Tracer =>
      exists st, hw_state w = Some st /\ tr_real st = R /\ tr_wrapper st = a
        /\ tr_trace_sync st = negb (getenv_int "HIP_TRACE_SYNC" 0 =? 0)
        /\ file_ok (tr_trace_file st) w
  | Some Logging => logger_ok R w
  | _ => True
  end.

(** A boxed wrapper table becomes the active one. *)
Lemma wrapper_active R w w' lib :
  bare R w -> chosen = Some lib -> same_client w w' -> interceptor_ready R (hw_next w) w' ->
  hw_tables w' = <[hw_next w := override lib (overridden (Some lib)) (real_table_of backend_lib)]> (hw_tables w) ->
  same_client w w'
    /\ hw_tables w' !! R = Some (real_table_of backend_lib)
    /\ let a := if is_null (hw_next w) then R else hw_next w in
       interceptor_ready R a w' /\ a <> 0 /\ exists t, hw_tables w' !! a = Some t /\ forall s, tb_slots t s = active_slot s.
Proof.
  intros (Hi & HR & Hlt) Hc Hs Hr Ht.
  rewrite (proj2 (is_null_false (hw_next w))) by lia. cbn zeta.
  rewrite Ht, lookup_insert_ne by lia. split_and!; [done..|lia|].
  eexists. split; [apply lookup_insert_eq|]. intros s. rewrite override_slot, real_table_slot.
  unfold active_slot. by rewrite Hc.
Qed.

(** Running the interceptor's initializer: the table that becomes active. *)
Lemma run_init_ok R w lib ilib :
  bare R w -> interceptor_lib = Some ilib ->
  hip_entry (hip_dlsym ilib "hip_interceptor_init") = Some (InitOf lib) ->
  hwp (run_init (hip_dlsym ilib "hip_interceptor_init") R) (fun p w' =>
    same_client w w'
    /\ hw_tables w' !! R = Some (real_table_of backend_lib)
    /\ let a := if is_null p then R else p in
       interceptor_ready R a w' /\ a <> 0 /\ exists t, hw_tables w' !! a = Some t /\ forall s, tb_slots t s = active_slot s) w.
Proof.
  intros Hb Hlib He. pose proof Hb as (Hi & HR & Hlt).
  assert (chosen = Some lib) as Hc by (unfold chosen; by rewrite Hlib, He).
  unfold run_init. rewrite He. destruct lib.
  - apply hwp_ret. unfold interceptor_ready, active_slot. rewrite Hc. cbn zeta.
    split_and!; [done..|cbn; lia|]. eexists. split; [done|]. intros s. rewrite real_table_slot.
    by case_decide as Hin; [apply elem_of_nil in Hin|].
  - eapply hwp_mono; [by apply (logging_init_ok _ _ _ HR)|]. intros p w' (-> & Hs & Ht & Hl).
    apply (wrapper_active R w w' Logging); try done. unfold interceptor_ready. by rewrite Hc.
  - eapply hwp_mono; [by apply (tracer_init_ok _ _ _ HR)|]. intros p w' (-> & Hs & Ht & Hl).
    apply (wrapper_active R w w' Tracer); try done. unfold interceptor_ready. by rewrite Hc.
Qed.

(** The loaded interceptor library and its shutdown function. *)
Definition exported (ilib sh : ptr) : Prop :=
  forall l, interceptor_lib = Some l -> ilib = l /\ sh = hip_dlsym l "hip_interceptor_shutdown".

(** Step 3 of [intercept_init]. *)
Lemma load_interceptor_ok R w :
  loadable -> bare R w ->
  hwp (load_interceptor R) (fun _ w' =>
    hw_mem w' = hw_mem w /\ hw_calls w' = hw_calls w
    /\ hw_tables w' !! R = Some (real_table_of backend_lib)
    /\ exists ilib a sh, hw_intercept w' = Interceptor false backend_lib ilib a R sh
         /\ exported ilib sh /\ interceptor_ready R a w' /\ a <> 0 /\ exists t, hw_tables w' !! a = Some t /\ forall s, tb_slots t s = active_slot s) w.
Proof.
  intros [_ Hload] Hb. pose proof Hb as ([il Hi] & HR & Hlt).
  assert (interceptor_lib = None -> hw_mem w = hw_mem w /\ hw_calls w = hw_calls w
    /\ hw_tables w !! R = Some (real_table_of backend_lib)
    /\ exists ilib a sh, hw_intercept w = Interceptor false backend_lib ilib a R sh
         /\ exported ilib sh /\ interceptor_ready R a w
         /\ a <> 0 /\ exists t, hw_tables w !! a = Some t /\ forall s, tb_slots t s = active_slot s) as Hnone.
  { intros Hl. assert (chosen = None) as Hc by (unfold chosen; by rewrite Hl).
    unfold interceptor_ready, active_slot, exported. rewrite Hc, Hl. split_and!; [done..|].
    exists il, R, 0. split_and!; [done|done|done|lia|]. eexists. split; [done|]. intros s. apply real_table_slot. }
  unfold load_interceptor. unfold interceptor_lib, nonempty in Hnone.
  destruct (hip_env "HIP_INTERCEPTION_LIBRARY") as [path|] eqn:Henv; [|by apply hwp_ret, Hnone].
  apply hwp_if; intros Hp; rewrite Hp in Hnone; [by apply hwp_ret, Hnone|].
  unfold nonnull in Hnone. destruct (is_null (hip_dlopen path)) eqn:Hn; [by apply hwp_ret, Hnone|].
  clear Hnone. assert (interceptor_lib = Some (hip_dlopen path)) as Hlib.
  { unfold interceptor_lib, nonempty, nonnull. by rewrite Henv, Hp, Hn. }
  destruct (Hload _ Hlib) as [Hsym [lib He]].
  apply hwp_bind, hwp_read, hwp_bind, hwp_modify, hwp_bind.
  rewrite (proj2 (is_null_false _) Hsym). apply hwp_bind. rewrite Hi.
  eapply hwp_mono.
  { eapply (run_init_ok R _ lib); [|done|done]. split_and!; [by eexists|done|apply Hlt..]. }
  intros p w2 ((M2 & C2 & I2) & HR2 & Hr & Ha & t & Hat & Hslots). cbn beta.
  cbn [hw_mem hw_calls hw_intercept set_intercept] in *.
  apply hwp_if; intros Hpn; rewrite Hpn in Hr, Ha, Hat; [apply hwp_ret|apply hwp_bind, hwp_read, hwp_modify].
  all: apply hwp_bind, hwp_read, hwp_modify; cbn; rewrite I2.
  all: split_and!; [done..|]; eexists _, _, _; split; [done|].
  all: split_and!; [by intros l Hl; rewrite Hlib in Hl; injection Hl as <-|done|done|by exists t].
Qed.

(** The first call of any export loads the library. *)
Lemma ensure_init_ok m :
  loadable ->
  hwp ensure_init (fun _ w => loaded w /\ hw_mem w = m /\ hw_calls w = []
    /\ let i := hw_intercept w in
       interceptor_ready (ic_real_table i) (ic_active_table i) w
       /\ exported (ic_interceptor_lib i) (ic_interceptor_shutdown i)) (hip_initial m).
Proof.
  intros Hload. unfold ensure_init. apply hwp_bind, hwp_read. cbn [hip_initial hw_intercept ic_once].
  apply hwp_bind. unfold intercept_init. destruct Hload as [Hb Hload]. fold backend_lib.
  rewrite (proj2 (is_null_false _) Hb). apply hwp_bind. unfold hwp at 1, box_table.
  apply hwp_bind, hwp_read, hwp_bind, hwp_modify.
  eapply hwp_mono.
  { apply load_interceptor_ok; [done|]. split_and!; [by eexists|cbn; apply lookup_insert_eq|done..]. }
  cbn [hip_initial hw_mem hw_calls set_intercept set_tables set_hnext].
  intros [] w (Hm & Hc & HR & ilib & a & sh & Hi & He & Hr & Ha & t & Hat & Hslots). cbn beta.
  apply hwp_bind, hwp_read, hwp_modify. rewrite Hi. split; [|done].
  unfold loaded. split_and!; cbn; try done.
  - eexists. split; [done|]. intros s. apply real_table_slot.
  - by exists t.
  - unfold interceptor_ready in Hr. destruct chosen as [[]|]; try done.
    destruct Hr as (st & Hs & HR' & _ & Hy & Hf). by exists st.
Qed.

(** ** Client programs *)

(** A call of an export: one of the 49 routed through the table, or one of the
    direct ones. *)
Inductive hcall :=
  | Routed (s : slot) (args : list Z)
  | Straight (e : export) (args : list Z).

Definition run1 (c : hcall) : HM Z :=
  match c with Routed s args => fwd s args | Straight e args => direct e args end.

Fixpoint run (cs : list hcall) : HM (list Z) :=
  match cs with
  | [] => mret []
  | c :: cs' => r ← run1 c; rs ← run cs'; mret (r :: rs)
  end.

(** The same calls on the backend alone: its memory and the calls it has seen. *)
Definition view : Type := gmap Z Z * list (ptr * list Z).

Definition hip_view (w : hip_world) : view := (hw_mem w, hw_calls w).

Definition plain_call (f : ptr) (args : list Z) (v : view) : Z * view :=
  let a := hip_call v.2 v.1 f args in
  (an_ret a, (apply_writes (an_writes a) v.1, (f, args) :: v.2)).

Definition plain1 (c : hcall) (v : view) : Z * view :=
  match c with
  | Routed s args =>
      let f := hip_dlsym backend_lib (slot_name s) in
      if is_null f then (missing_slot s, v)
      else let rv := plain_call f args v in (if returns_nothing s then 0 else rv.1, rv.2)
  | Straight e args =>
      let f := hip_dlsym backend_lib (ex_name e) in
      if is_null f then (missing_answer (ex_missing e), v)
      else let rv := plain_call f args v in
           (match ex_missing e with MissingNothing => 0 | _ => rv.1 end, rv.2)
  end.

Fixpoint plain (cs : list hcall) (v : view) : list Z * view :=
  match cs with
  | [] => ([], v)
  | c :: cs' => let rv := plain1 c v in let rsv := plain cs' rv.2 in (rv.1 :: rsv.1, rsv.2)
  end.

(** A call with the arguments its prototype asks for.  A function an interceptor
    wraps must exist in the backend and leave its out-parameters readable. *)
Definition legal_call (c : hcall) (v : view) : Prop :=
  match c with
  | Routed s args =>
      length args = arity s
      /\ (s ∈ overridden chosen ->
          let f := hip_dlsym backend_lib (slot_name s) in
          f <> 0 /\ printable s args v.1 (plain_call f args v).2.1 (plain_call f args v).1)
  | Straight e args => length args = ex_arity e
  end.

Fixpoint legal_calls (cs : list hcall) (v : view) : Prop :=
  match cs with
  | [] => True
  | c :: cs' => legal_call c v /\ legal_calls cs' (plain1 c v).2
  end.

(** The tracer makes calls of its own only when it synchronizes launches. *)
Definition no_extra_calls : Prop := chosen = Some Tracer -> getenv_int "HIP_TRACE_SYNC" 0 = 0.

(** ** One call *)

Lemma ensure_init_again w : loaded w -> ensure_init w = Returns tt w.
Proof. intros (Ho & _). unfold ensure_init, mbind, HM_bind, hread. by rewrite Ho. Qed.

Lemma active_loaded w : loaded w -> active w = Returns (ic_active_table (hw_intercept w)) w.
Proof.
  intros (_ & _ & Ha & _). unfold active, mbind, HM_bind, hread.
  by rewrite (proj2 (is_null_false _) Ha).
Qed.

(** A backend call keeps the library loaded. *)
Lemma loaded_after_call f args w : loaded w -> loaded (after_call f args w).
Proof. done. Qed.

Lemma loaded_hush w w' : hush w w' -> loaded w -> loaded w'.
Proof.
  intros Hh (Ho & Hb & Ha & Hr & Ht & Hi). unfold loaded.
  rewrite (hush_intercept _ _ Hh), (hush_tables _ _ Hh). split_and!; [done..|].
  destruct chosen as [[]|]; try done.
  - by apply (hush_logger_ok _ w).
  - destruct Hi as (st & Hs & HR & Hy & Hf). exists st.
    rewrite (hush_state _ _ Hh), (hush_intercept _ _ Hh). split_and!; [done..|by apply (hush_file_ok _ w)].
Qed.

(** What one call has to establish. *)
Definition sees_backend (c : hcall) (w : hip_world) (r : Z) (w' : hip_world) : Prop :=
  loaded w' /\ (r, hip_view w') = plain1 c (hip_view w).

Lemma hwp_fwd s args Q w :
  loaded w ->
  match active_slot s with
  | Some f => hwp (invoke f args) (fun r w' => Q (if returns_nothing s then 0 else r) w') w
  | None => Q (missing_slot s) w
  end -> hwp (fwd s args) Q w.
Proof.
  intros Hl HQ. unfold fwd. apply hwp_bind. unfold hwp at 1. rewrite (ensure_init_again _ Hl).
  apply hwp_bind. unfold hwp at 1. rewrite (active_loaded _ Hl). apply hwp_bind.
  destruct Hl as (_ & _ & _ & _ & (t & Ht & Hs) & _). unfold hwp at 1, load_table. rewrite Ht, Hs.
  destruct (active_slot s) as [f|]; [|exact HQ]. by apply hwp_bind.
Qed.

(** A slot nobody wraps. *)
Lemma routed_bare s args w :
  loaded w -> active_slot s = load_sym backend_lib (slot_name s) ->
  hwp (fwd s args) (sees_backend (Routed s args) w) w.
Proof.
  intros Hl Hs. apply hwp_fwd; [done|]. rewrite Hs. unfold load_sym, sees_backend, plain1.
  destruct (is_null _); [done|]. by destruct (returns_nothing s).
Qed.

Lemma real_resolves s w :
  loaded w -> hip_dlsym backend_lib (slot_name s) <> 0 ->
  exists t, resolves (ic_real_table (hw_intercept w)) t s (hip_dlsym backend_lib (slot_name s)) w.
Proof.
  intros (_ & _ & _ & (t & Ht & Hs) & _) Hf. exists t. split; [done|].
  rewrite Hs. unfold load_sym. by rewrite (proj2 (is_null_false _) Hf).
Qed.

(** A wrapped slot, given that the wrapper forwards. *)
Lemma routed_view s args w r w' :
  hip_dlsym backend_lib (slot_name s) <> 0 ->
  (returns_nothing s = false -> r = answer (hip_dlsym backend_lib (slot_name s)) args w) ->
  hip_view w' = hip_view (after_call (hip_dlsym backend_lib (slot_name s)) args w) ->
  (if returns_nothing s then 0 else r, hip_view w') = plain1 (Routed s args) (hip_view w).
Proof.
  intros Hf Hr ->. unfold plain1. rewrite (proj2 (is_null_false _) Hf).
  destruct (returns_nothing s); [done|]. by rewrite Hr.
Qed.

Lemma routed_logging s args w :
  loaded w -> chosen = Some Logging -> s ∈ HipLogging.wrapped_slots ->
  legal_call (Routed s args) (hip_view w) ->
  hwp (fwd s args) (sees_backend (Routed s args) w) w.
Proof.
  intros Hl Hc Hin [Hargs Hp]. rewrite Hc in Hp. destruct (Hp Hin) as [Hf Hpr].
  destruct (real_resolves s w Hl Hf) as [t Hr].
  apply hwp_fwd; [done|]. unfold active_slot. rewrite Hc. rewrite decide_True by done.
  cbn [invoke]. eapply hwp_mono.
  - eapply (logging_forwards _ t); [|done..]. destruct Hl as (_ & _ & _ & _ & _ & Hi). by rewrite Hc in Hi.
  - intros r w' [Hret Hh]. split; [by apply (loaded_hush _ _ Hh)|].
    apply routed_view; [done|done|]. unfold hip_view. by rewrite (hush_mem _ _ Hh), (hush_calls _ _ Hh).
Qed.

Lemma routed_tracer s args w :
  loaded w -> chosen = Some Tracer -> getenv_int "HIP_TRACE_SYNC" 0 = 0 -> s ∈ HipTracer.wrapped_slots ->
  legal_call (Routed s args) (hip_view w) ->
  hwp (fwd s args) (sees_backend (Routed s args) w) w.
Proof.
  intros Hl Hc Hsync Hin [Hargs Hp]. rewrite Hc in Hp. destruct (Hp Hin) as [Hf Hpr].
  destruct (real_resolves s w Hl Hf) as [t Hr].
  apply hwp_fwd; [done|]. unfold active_slot. rewrite Hc. rewrite decide_True by done.
  cbn [invoke]. pose proof Hl as (Ho & Hb & Ha & Hre & Hac & Hi). rewrite Hc in Hi.
  eapply hwp_mono.
  - eapply (tracer_forwards _ t); [|done..]. destruct Hi as (st & Hs & HR & Hy & Hfile).
    exists st. split; [done|]. split_and!; [done| |done]. by rewrite Hy, Hsync.
  - intros r w' [Hret (st' & (HR' & Hy' & Hf') & Hh)]. split.
    + unfold loaded. rewrite (hush_intercept _ _ Hh), (hush_tables _ _ Hh), Hc. split_and!; [done..|].
      exists st'. rewrite (hush_state _ _ Hh), (hush_intercept _ _ Hh). split_and!; [done..| |done].
      by rewrite Hy', Hsync.
    + apply routed_view; [done|done|]. unfold hip_view. by rewrite (hush_mem _ _ Hh), (hush_calls _ _ Hh).
Qed.

Lemma run1_sees_backend c w :
  loadable -> no_extra_calls -> loaded w -> legal_call c (hip_view w) ->
  hwp (run1 c) (sees_backend c w) w.
Proof.
  intros [Hbl _] Hx Hl Hc. destruct c as [s args|e args]; cbn [run1].
  - destruct (decide (s ∈ overridden chosen)) as [Hin|Hout].
    + destruct chosen as [[]|] eqn:Hch; try (by apply elem_of_nil in Hin).
      * by apply routed_logging.
      * apply routed_tracer; [done|done|by apply Hx|done|done].
    + apply routed_bare; [done|]. unfold active_slot.
      destruct chosen; [by rewrite decide_False by done|done].
  - unfold direct. cbn in Hc. rewrite Hc, Nat.eqb_refl. cbn [negb]. apply hwp_bind.
    unfold hwp at 1. rewrite (ensure_init_again _ Hl). apply hwp_bind. unfold backend_sym.
    apply hwp_bind. unfold hwp at 1. rewrite (ensure_init_again _ Hl). apply hwp_bind, hwp_read.
    pose proof Hl as (_ & Hb & _). rewrite Hb, (proj2 (is_null_false _) Hbl). apply hwp_ret.
    unfold sees_backend, plain1. apply hwp_if; intros Hn; rewrite Hn; [by apply hwp_ret|].
    by destruct (ex_missing e).
Qed.

(** ** Programs *)

Lemma run_sees_backend cs : forall w,
  loadable -> no_extra_calls -> loaded w -> legal_calls cs (hip_view w) ->
  hwp (run cs) (fun rs w' => (rs, hip_view w') = plain cs (hip_view w)) w.
Proof.
  induction cs as [|c cs IH]; intros w Hld Hx Hl Hc; cbn [run]; [done|].
  destruct Hc as [Hc Hcs]. apply hwp_bind. eapply hwp_mono; [by apply run1_sees_backend|].
  intros r w1 [Hl1 Hv]. apply hwp_bind. cbn [plain]. rewrite <- Hv in *. cbn [fst snd] in *.
  eapply hwp_mono; [by apply IH|]. intros rs w2 Hv2. apply hwp_ret. by rewrite <- Hv2.
Qed.

(** The first call runs in the loaded library. *)
Lemma run1_first c m w :
  ensure_init (hip_initial m) = Returns tt w -> loaded w -> run1 c (hip_initial m) = run1 c w.
Proof.
  intros E Hl. pose proof (ensure_init_again _ Hl) as E'. destruct c as [s args|e args]; cbn [run1].
  - unfold fwd. by rewrite (hbind_returns _ _ _ _ _ E), (hbind_returns _ _ _ _ _ E').
  - unfold direct. destruct (negb _); [done|].
    by rewrite (hbind_returns _ _ _ _ _ E), (hbind_returns _ _ _ _ _ E').
Qed.
End Setup.

Section Programs.
Context `{HIP}.

(** C33: Interception is transparent.  Take any program of calls to the exported
    HIP functions, started in a fresh process whose environment selects no
    interceptor, the no-op one, the logger, or the tracer without synchronized
    launches.  If the backend loads, every call has the arguments its prototype
    asks for, and the wrapped functions exist in the backend and leave their
    out-parameters readable, then the whole program runs to its end and the client
    gets exactly the answers, the memory and the sequence of backend calls that the
    backend alone would give. *)
Theorem interception_is_transparent cs m :
  loadable -> no_extra_calls -> legal_calls cs (m, []) ->
  exists w, run cs (hip_initial m) = Returns (plain cs (m, [])).1 w
    /\ hip_view w = (plain cs (m, [])).2.
Proof.
  intros Hld Hx Hc. destruct cs as [|c cs]; [by eexists|].
  destruct (proj1 (hwp_returns _ _ _) (ensure_init_ok m Hld)) as ([] & w0 & E & Hl & Hm & Hcalls & _).
  assert (hip_view w0 = (m, [])) as Hv by (unfold hip_view; by rewrite Hm, Hcalls).
  rewrite <- Hv in *.
  destruct (proj1 (hwp_returns _ _ _) (run_sees_backend (c :: cs) w0 Hld Hx Hl Hc)) as (rs & w' & Er & Hr).
  exists w'. rewrite <- Hr. cbn [fst snd]. split; [|done]. rewrite <- Er.
  change (run (c :: cs)) with (r ← run1 c; rs ← run cs; mret (r :: rs)).
  unfold mbind at 1 3, HM_bind at 1 3. by rewrite (run1_first c m w0 E Hl).
Qed.

End Programs.

(** An allocation, a launch of an unknown kernel, a direct call, a free. *)
Definition sample : list hcall :=
  [Routed hipMalloc [500; 64]; Routed hipLaunchKernel [700; 1; 1; 1; 64; 1; 1; 0; 0; 0];
   Straight (Export "hipMallocAsync" 3 MissingError) [500; 64; 0]; Routed hipFree [65536]].

Lemma interception_is_transparent_witness :
  exists w, @run tracing sample (hip_initial {[500 := 0]}) = Returns [0; 0; 0; 0] w
    /\ hw_calls w = [(1012, [65536]); (2000, [500; 64; 0]); (1039, [700; 1; 1; 1; 64; 1; 1; 0; 0; 0]);
                     (1011, [500; 64])].
Proof.
  destruct (@interception_is_transparent tracing sample {[500 := 0]}) as (w & Hrun & Hv).
  - split; [by vm_compute|]. intros ilib Hlib. vm_compute in Hlib. injection Hlib as <-.
    split; [by vm_compute|]. exists Tracer. by vm_compute.
  - intros _. by vm_compute.
  - repeat split; try (by vm_compute); right; eexists; by vm_compute.
  - exists w. split; [rewrite Hrun; by vm_compute|].
    apply (f_equal snd) in Hv. cbn [hip_view snd] in Hv. rewrite Hv. by vm_compute.
Defined.

Section Loading.
Context `{HIP}.

(** C34: Loading the library selects the right table, once.  Without a loadable
    backend the process aborts after one line on standard error and before any
    table exists.  Otherwise the first use leaves the library loaded: every slot of
    the active table is the wrapper of the interceptor the environment selects when
    that interceptor overrides the slot, and the backend's symbol (or null) when it
    does not; nothing was called and client memory is untouched; and loading again
    changes nothing. *)
Theorem loading_selects_the_table m :
  (backend_lib = 0 ->
     exists w, ensure_init (hip_initial m) = Aborts w /\ length (hw_err w) = 1%nat /\ hw_tables w = ∅)
  /\ (loadable ->
     exists w t, ensure_init (hip_initial m) = Returns tt w
       /\ hw_tables w !! ic_active_table (hw_intercept w) = Some t
       /\ (forall s, tb_slots t s =
            match chosen with
            | Some lib => if decide (s ∈ overridden chosen) then Some (Wrapper lib s)
                          else load_sym backend_lib (slot_name s)
            | None => load_sym backend_lib (slot_name s)
            end)
       /\ hip_view w = (m, []) /\ ensure_init w = Returns tt w).
Proof.
  split.
  - intros Hb. unfold ensure_init, intercept_init. fold backend_lib. rewrite Hb. by eexists.
  - intros Hld.
    destruct (proj1 (hwp_returns _ _ _) (ensure_init_ok m Hld)) as ([] & w & E & Hl & Hm & Hcalls & _).
    pose proof Hl as (_ & _ & _ & _ & (t & Ht & Hs) & _). exists w, t. split_and!; [done..| |].
    + unfold hip_view. by rewrite Hm, Hcalls.
    + by apply ensure_init_again.
Qed.
End Loading.

Lemma loading_selects_the_table_witness :
  (exists w, @ensure_init no_backend (hip_initial ∅) = Aborts w)
  /\ exists w t, @ensure_init logging (hip_initial ∅) = Returns tt w
       /\ hw_tables w !! ic_active_table (hw_intercept w) = Some t
       /\ tb_slots t hipMalloc = Some (Wrapper Logging hipMalloc)
       /\ tb_slots t hipModuleLoad = Some (Backend 1033).
Proof.
  split.
  - destruct (proj1 (@loading_selects_the_table no_backend ∅)) as (w & E & _); [by vm_compute|by exists w].
  - destruct (proj2 (@loading_selects_the_table logging ∅)) as (w & t & E & Ht & Hs & _).
    + split; [by vm_compute|]. intros ilib Hlib. vm_compute in Hlib. injection Hlib as <-.
      split; [by vm_compute|]. exists Logging. by vm_compute.
    + exists w, t. split_and!; [done|done| |]; rewrite Hs; by vm_compute.
Defined.

Section Unloading.
Context `{HIP}.

(** What is left of the tables once the tracer is shut down. *)
Definition freed_wrapper (st : State) (w w' : hip_world) : Prop :=
  hw_intercept w' = hw_intercept w /\ hw_tables w' = delete (tr_wrapper st) (hw_tables w).

Lemma free_wrapper_ok st t file w0 w :
  hw_tables w0 !! tr_wrapper st = Some t ->
  hw_intercept w = hw_intercept w0 -> hw_tables w = hw_tables w0 ->
  hwp (wrapper ← (drop_table (tr_wrapper st) ;; mret null);
       hmodify (fun w => set_tstate w (Some (set_handles st wrapper file))))
    (fun _ w' => freed_wrapper st w0 w') w.
Proof.
  intros Ht Hi Htw. apply hwp_bind, hwp_bind. unfold hwp at 1, drop_table. rewrite Htw, Ht.
  by apply hwp_ret, hwp_modify.
Qed.

Lemma tracer_shutdown_ok st t w :
  hw_state w = Some st -> file_ok (tr_trace_file st) w ->
  tr_wrapper st <> 0 -> hw_tables w !! tr_wrapper st = Some t ->
  hwp HipTracer.hip_interceptor_shutdown (fun _ w' => freed_wrapper st w w') w.
Proof.
  intros Hst Hf Hnz Ht. unfold HipTracer.hip_interceptor_shutdown. apply hwp_bind, hwp_read. rewrite Hst.
  apply hwp_bind, hwp_trace_line; [done|]. intros w1 H1.
  assert (file_ok (tr_trace_file st) w1) as Hf1 by by apply (hush_file_ok _ w).
  apply hwp_bind, hwp_trace_line; [done|]. intros w2 H2.
  assert (file_ok (tr_trace_file st) w2) as Hf2 by by apply (hush_file_ok _ w1).
  apply hwp_bind, hwp_trace_line; [done|]. intros w3 H3.
  assert (file_ok (tr_trace_file st) w3) as Hf3 by by apply (hush_file_ok _ w2).
  assert (hush w w3) as H03 by (transitivity w1; [done|]; by transitivity w2).
  pose proof (hush_intercept _ _ H03) as Hi3. pose proof (hush_tables _ _ H03) as Ht3.
  rewrite (proj2 (is_null_false _) Hnz). cbn [negb].
  apply hwp_bind. apply hwp_if; intros Hown; [|by apply hwp_ret, (free_wrapper_ok st t)]. bool_to_prop.
  destruct Hf3 as [?|[chunks Hopen]]; [done|]. apply hwp_bind. unfold hwp at 1, fclose.
  rewrite Hopen. by apply hwp_ret, (free_wrapper_ok st t).
Qed.

Lemma fini_ok st w w1 :
  hip_entry (ic_interceptor_shutdown (hw_intercept w)) = Some (ShutdownOf Tracer) ->
  ic_interceptor_shutdown (hw_intercept w) <> 0 ->
  HipTracer.hip_interceptor_shutdown w = Returns tt w1 -> freed_wrapper st w w1 ->
  exists w', intercept_fini w = Returns tt w' /\ freed_wrapper st w w'.
Proof.
  intros Hen Hnz E1 [Hi Ht].
  unfold intercept_fini. rewrite (hbind_returns (hread hw_intercept) _ w _ w eq_refl).
  rewrite (proj2 (is_null_false _) Hnz). unfold run_shutdown. rewrite Hen.
  rewrite (hbind_returns _ _ _ _ _ E1), (hbind_returns (hread hw_intercept) _ w1 _ w1 eq_refl).
  destruct (is_null (ic_interceptor_lib (hw_intercept w1))); by eexists.
Qed.

(** A routed call through a freed table. *)
Lemma fwd_dangling s args w :
  ic_once (hw_intercept w) = true -> ic_active_table (hw_intercept w) <> 0 ->
  hw_tables w !! ic_active_table (hw_intercept w) = None -> fwd s args w = Faults.
Proof.
  intros Ho Ha Ht. unfold fwd, active. rewrite (hbind_returns ensure_init _ w tt w).
  2:{ unfold ensure_init, mbind, HM_bind, hread. by rewrite Ho. }
  unfold mbind, HM_bind, hread, load_table. rewrite (proj2 (is_null_false _) Ha). cbn. by rewrite Ht.
Qed.

(** Unloading the tracer leaves a dangling table.  When the environment
    selects the tracer, the destructor of the interception library runs the
    tracer's shutdown, which frees the wrapper table, and keeps it as the active
    table: every routed HIP call made after it, for instance by the destructor of
    another library, reads freed memory. *)
Theorem unloading_leaves_a_dangling_table m :
  loadable -> chosen = Some Tracer ->
  (forall l, interceptor_lib = Some l ->
     hip_dlsym l "hip_interceptor_shutdown" <> 0
     /\ hip_entry (hip_dlsym l "hip_interceptor_shutdown") = Some (ShutdownOf Tracer)) ->
  exists w w', ensure_init (hip_initial m) = Returns tt w
    /\ intercept_fini w = Returns tt w'
    /\ ic_active_table (hw_intercept w') <> 0
    /\ hw_tables w' !! ic_active_table (hw_intercept w') = None
    /\ forall s args, fwd s args w' = Faults.
Proof.
  intros Hld Hc Hsh.
  destruct (proj1 (hwp_returns _ _ _) (ensure_init_ok m Hld)) as ([] & w & E & Hl & _ & _ & Hr & He).
  unfold interceptor_ready in Hr. rewrite Hc in Hr. destruct Hr as (st & Hst & _ & Hw & _ & Hf).
  pose proof Hl as (Ho & _ & Ha & _ & (t & Ht & _) & _). rewrite <- Hw in Ha, Ht.
  destruct interceptor_lib as [l|] eqn:Hlib; [|unfold chosen in Hc; by rewrite Hlib in Hc].
  destruct (He l Hlib) as [_ Hes], (Hsh l eq_refl) as [Hnz Hen]. rewrite <- Hes in Hnz, Hen.
  destruct (proj1 (hwp_returns _ _ _) (tracer_shutdown_ok st t w Hst Hf Ha Ht)) as ([] & w1 & E1 & Hw1).
  destruct (fini_ok st w w1 Hen Hnz E1 Hw1) as (w' & Efini & Hi' & Ht'). rewrite Hw in *.
  assert (hw_tables w' !! ic_active_table (hw_intercept w') = None) as Hnone.
  { rewrite Hi', Ht'. apply lookup_delete_eq. }
  exists w, w'. split_and!; [done|done|by rewrite Hi'|done|].
  intros s args. apply fwd_dangling; [by rewrite Hi'|by rewrite Hi'|done].
Qed.
End Unloading.

Lemma unloading_leaves_a_dangling_table_witness :
  exists w w', @ensure_init tracing (hip_initial ∅) = Returns tt w
    /\ @intercept_fini tracing w = Returns tt w'
    /\ @fwd tracing __hipUnregisterFatBinary [0] w' = Faults.
Proof.
  destruct (@unloading_leaves_a_dangling_table tracing ∅) as (w & w' & E & Ef & _ & _ & Hall).
  - split; [by vm_compute|]. intros ilib Hlib. vm_compute in Hlib. injection Hlib as <-.
    split; [by vm_compute|]. exists Tracer. by vm_compute.
  - by vm_compute.
  - intros l Hl. vm_compute in Hl. injection Hl as <-. split; by vm_compute.
  - exists w, w'. split_and!; [done|done|apply Hall].
Defined.
