(* ===== verification/HipData.v ===== *)
(** * Hashes and configuration values of the tracer

    The buffer hash notices every change of a single byte; what the [atoi] of the
    interceptors makes of any text. *)

From S2P Require Import Prelude HipTable HipMachine HipTracer.

(** ** FNV-1a *)

Definition FNV_INVERSE : Z := 0xce965057aff6957b.

(** Multiplication by the prime is injective on words: it has an inverse. *)
Lemma fnv_mul_inj x y :
  0 <= x <= U64_MAX -> 0 <= y <= U64_MAX ->
  wrap_u64 (x * FNV_PRIME) = wrap_u64 (y * FNV_PRIME) -> x = y.
Proof.
  unfold wrap_u64, U64_MAX. intros Hx Hy E.
  assert (forall z, 0 <= z < 2 ^ 64 -> ((z * FNV_PRIME) mod 2 ^ 64 * FNV_INVERSE) mod 2 ^ 64 = z) as Hinv.
  { intros z Hz. rewrite Zmult_mod_idemp_l, <- Z.mul_assoc.
    rewrite <- Zmult_mod_idemp_r. change ((FNV_PRIME * FNV_INVERSE) mod 2 ^ 64) with 1.
    rewrite Z.mul_1_r. by apply Z.mod_small. }
  rewrite <- (Hinv x), <- (Hinv y) by lia. by rewrite E.
Qed.

(** The exclusive or of words is a word. *)
Lemma lxor_word x b : 0 <= x <= U64_MAX -> 0 <= b <= 255 -> 0 <= Z.lxor x b <= U64_MAX.
Proof.
  unfold U64_MAX. intros Hx Hb.
  assert (0 <= Z.lxor x b) by (apply Z.lxor_nonneg; lia).
  destruct (decide (Z.lxor x b = 0)) as [->|Hne]; [lia|].
  assert (Z.log2 (Z.lxor x b) < 64); [|apply Z.log2_lt_pow2 in H0; lia].
  eapply Z.le_lt_trans; [apply Z.log2_lxor; lia|]. apply Z.max_lub_lt.
  - destruct (decide (x = 0)) as [->|]; [done|]. apply Z.log2_lt_pow2; lia.
  - destruct (decide (b = 0)) as [->|]; [done|]. apply Z.log2_lt_pow2; lia.
Qed.

Lemma hash_step_word h b : 0 <= hash_step h b <= U64_MAX.
Proof. apply wrap_u64_range. Qed.

Definition is_byte (b : Z) : Prop := 0 <= b <= 255.

(** One step loses neither the hash so far nor the byte. *)
Lemma hash_step_inj h1 h2 b1 b2 :
  0 <= h1 <= U64_MAX -> 0 <= h2 <= U64_MAX -> is_byte b1 -> is_byte b2 ->
  hash_step h1 b1 = hash_step h2 b2 -> (h1 = h2 <-> b1 = b2).
Proof.
  intros Hh1 Hh2 Hb1 Hb2 E. apply fnv_mul_inj in E; [|by apply lxor_word..].
  split; intros ->.
  - apply (f_equal (Z.lxor h2)) in E. by rewrite <- !Z.lxor_assoc, !Z.lxor_nilpotent, !Z.lxor_0_l in E.
  - apply (f_equal (fun z => Z.lxor z b2)) in E.
    by rewrite !Z.lxor_assoc, !Z.lxor_nilpotent, !Z.lxor_0_r in E.
Qed.

Lemma hash_fold_word l : forall h, 0 <= h <= U64_MAX -> 0 <= foldl hash_step h l <= U64_MAX.
Proof.
  induction l as [|b l IH]; intros h Hh; cbn [foldl]; [done|]. apply IH, hash_step_word.
Qed.

Lemma hash_fold_inj l : forall h1 h2,
  Forall is_byte l -> 0 <= h1 <= U64_MAX -> 0 <= h2 <= U64_MAX ->
  foldl hash_step h1 l = foldl hash_step h2 l -> h1 = h2.
Proof.
  induction l as [|b l IH]; intros h1 h2 Hl Hh1 Hh2 E; cbn [foldl] in E; [done|].
  apply Forall_cons in Hl as [Hb Hl]. apply IH in E; [|done|apply hash_step_word..].
  by apply (hash_step_inj h1 h2 b b).
Qed.

(** C37: The buffer hash is a 64-bit word, and two dumps of a buffer that differ in
    exactly one byte never have the same hash: FNV-1a as written notices every
    single-byte change, whatever the rest of the buffer is. *)
Theorem hash_notices_a_changed_byte before b b' after :
  Forall is_byte before -> is_byte b -> is_byte b' -> Forall is_byte after ->
  0 <= compute_hash (before ++ b :: after) <= U64_MAX
  /\ (compute_hash (before ++ b :: after) = compute_hash (before ++ b' :: after) <-> b = b').
Proof.
  intros Hbefore Hb Hb' Hafter. assert (0 <= FNV_OFFSET <= U64_MAX) as Ho by done.
  split; [by apply hash_fold_word|]. split; [|by intros ->].
  unfold compute_hash. rewrite !foldl_app. cbn [foldl]. intros E.
  apply hash_fold_inj in E; [|done|apply hash_step_word..].
  apply (hash_step_inj _ _ b b' (hash_fold_word before _ Ho) (hash_fold_word before _ Ho)); done.
Qed.

Lemma hash_notices_a_changed_byte_witness :
  compute_hash [104; 114; 120] <> compute_hash [104; 115; 120].
Proof.
  intros E. apply (hash_notices_a_changed_byte [104] 114 115 [120]) in E; [done| | | |];
    repeat constructor; unfold is_byte; lia.
Defined.

(** ** [atoi] *)

Definition is_digit (b : Z) : Prop := 48 <= b <= 57.
Definition is_blank (b : Z) : Prop := 9 <= b <= 13 \/ b = 32.

Lemma in_range_spec lo hi b : in_range lo hi b = true <-> lo <= b <= hi.
Proof. unfold in_range. rewrite andb_true_iff, Z.leb_le, Z.leb_le. done. Qed.

Lemma in_range_false lo hi b : in_range lo hi b = false <-> ~ (lo <= b <= hi).
Proof. rewrite <- in_range_spec. by destruct (in_range lo hi b). Qed.

Lemma trim_blanks blanks l : Forall is_blank blanks -> trim_start (blanks ++ l) = trim_start l.
Proof.
  induction 1 as [|b blanks Hb _ IH]; [done|]. cbn [app trim_start].
  replace (in_range 9 13 b || (b =? 32)) with true; [done|]. symmetry. apply orb_true_iff.
  destruct Hb as [Hb| ->]; [left; by apply in_range_spec|by right].
Qed.

(** An ASCII character that is not a blank stops the trimming. *)
Lemma trim_stops b l : ~ is_blank b -> b < 128 -> trim_start (b :: l) = b :: l.
Proof.
  intros Hb Hlt. cbn [trim_start].
  replace (in_range 9 13 b) with false by (symmetry; apply in_range_false; unfold is_blank in Hb; lia).
  rewrite (proj2 (Z.eqb_neq b 32)) by (unfold is_blank in Hb; lia). cbn [orb].
  destruct l as [|c l]; [done|]. rewrite (proj2 (Z.eqb_neq b 194)) by lia. cbn [andb].
  destruct l as [|d l]; [done|].
  by rewrite !(proj2 (Z.eqb_neq b _)) by lia.
Qed.

Definition stops (rest : list Z) : Prop :=
  match rest with [] => True | b :: _ => ~ is_digit b end.

Lemma take_digits_app ds rest : Forall is_digit ds -> stops rest -> take_digits (ds ++ rest) = ds.
Proof.
  intros Hds Hr. induction Hds as [|d ds Hd _ IH]; cbn [app take_digits].
  - destruct rest as [|b rest]; [done|]. cbn [take_digits].
    by rewrite (proj2 (in_range_false 48 57 b) Hr).
  - by rewrite (proj2 (in_range_spec 48 57 d) Hd), IH.
Qed.

(** The three ways to write a sign, and what they do to the value. *)
Inductive signed : list Z -> (Z -> Z) -> Prop :=
  | unsigned : signed [] id
  | plus : signed [43] id
  | minus : signed [45] Z.opp.

Lemma ato_reads max blanks sign f ds rest :
  Forall is_blank blanks -> signed sign f -> ds <> [] -> Forall is_digit ds -> stops rest ->
  ato max (blanks ++ sign ++ ds ++ rest) = f (if digits_value ds <=? max then digits_value ds else 0).
Proof.
  intros Hb Hs Hne Hds Hr. unfold ato. rewrite trim_blanks by done.
  destruct ds as [|d ds]; [done|]. pose proof Hds as [Hd _]%Forall_cons. unfold is_digit in Hd.
  assert (forall l, trim_start (d :: l) = d :: l) as Htd.
  { intros l. apply trim_stops; unfold is_blank; lia. }
  assert (parse_digits max (take_digits ((d :: ds) ++ rest)) =
          if digits_value (d :: ds) <=? max then Some (digits_value (d :: ds)) else None) as Hp
    by by rewrite take_digits_app.
  destruct Hs; cbn [app] in *.
  - rewrite Htd. rewrite (proj2 (Z.eqb_neq d 45)), (proj2 (Z.eqb_neq d 43)) by lia.
    rewrite Hp. by destruct (_ <=? _).
  - rewrite trim_stops by (unfold is_blank; lia). cbn. cbn in Hp. rewrite Hp. by destruct (_ <=? _).
  - rewrite trim_stops by (unfold is_blank; lia). cbn. cbn in Hp. rewrite Hp. by destruct (_ <=? _).
Qed.

(** Decimal text as [{}] prints it. *)
Lemma pretty_go_bytes x s :
  exists ds, bytes_of (pretty.pretty_N_go x s) = ds ++ bytes_of s
    /\ Forall is_digit ds /\ digits_value ds = Z.of_N x /\ ((0 < x)%N -> ds <> []).
Proof.
  revert s. induction (N.lt_wf_0 x) as [x _ IH]. intros s.
  destruct (decide (x = 0%N)) as [->|Hx].
  { exists []. rewrite pretty.pretty_N_go_0. split_and!; [done|constructor|done|lia]. }
  rewrite pretty.pretty_N_go_step by lia.
  destruct (IH (x / 10)%N ltac:(apply N.div_lt; lia) (String (pretty.pretty_N_char (x mod 10)) s))
    as (ds & E & Hds & Hv & _).
  assert (Hm : (x mod 10 < 10)%N) by (apply N.mod_lt; lia).
  set (c := pretty.pretty_N_char (x mod 10)) in *.
  assert (Z.of_nat (Ascii.nat_of_ascii c) = 48 + Z.of_N (x mod 10)) as Hc.
  { unfold c. generalize (x mod 10)%N, Hm. intros d Hd.
    assert (d = 0 \/ d = 1 \/ d = 2 \/ d = 3 \/ d = 4 \/ d = 5 \/ d = 6 \/ d = 7 \/ d = 8 \/ d = 9)%N
      as Hcases by lia.
    by destruct_or! Hcases; subst d. }
  assert (0 <= Z.of_N (x mod 10) < 10) as Hz by (split; [apply N2Z.is_nonneg|by apply (N2Z.inj_lt _ 10)]).
  exists (ds ++ [48 + Z.of_N (x mod 10)]). split_and!.
  - rewrite E, <- app_assoc. unfold bytes_of. cbn. by rewrite Hc.
  - apply Forall_app. split; [done|]. constructor; [|constructor]. unfold is_digit. lia.
  - unfold digits_value in *. rewrite foldl_app, Hv. cbn [foldl].
    rewrite N2Z.inj_div, N2Z.inj_mod. change (Z.of_N 10) with 10.
    pose proof (Z.div_mod (Z.of_N x) 10 ltac:(done)). lia.
  - intros _ Hnil. by apply app_eq_nil in Hnil as [_ ?].
Qed.

Lemma pretty_N_bytes x :
  exists ds, bytes_of (pretty.pretty x) = ds /\ Forall is_digit ds /\ digits_value ds = Z.of_N x /\ ds <> [].
Proof.
  unfold pretty.pretty, pretty.pretty_N. case_decide as Hx.
  - exists [48]. subst x. split_and!; [done| |done|done]. constructor; [|constructor]. unfold is_digit. lia.
  - destruct (pretty_go_bytes x "") as (ds & E & Hds & Hv & Hne).
    exists ds. rewrite E, app_nil_r. split_and!; [done..|]. apply Hne. lia.
Qed.

Lemma bytes_of_app s1 s2 : bytes_of (s1 +:+ s2) = bytes_of s1 ++ bytes_of s2.
Proof.
  unfold bytes_of. rewrite <- fmap_app. f_equal.
  induction s1 as [|c s1 IH]; [done|].
  change (String c s1 +:+ s2) with (String c (s1 +:+ s2)). cbn [String.list_ascii_of_string app].
  by rewrite IH.
Qed.

(** The decimal text of a number is a sign and the digits of its magnitude. *)
Lemma pretty_Z_bytes z :
  exists sign f ds, bytes_of (pretty.pretty z) = sign ++ ds /\ signed sign f /\ ds <> []
    /\ Forall is_digit ds /\ digits_value ds = Z.abs z /\ f (Z.abs z) = z.
Proof.
  destruct z as [|q|q].
  - exists [], id, [48]. split_and!; [done|constructor|done| |done|done].
    constructor; [|constructor]. unfold is_digit. lia.
  - destruct (pretty_N_bytes (N.pos q)) as (ds & E & Hds & Hv & Hne).
    exists [], id, ds. split_and!; [exact E|constructor|done..].
  - destruct (pretty_N_bytes (N.pos q)) as (ds & E & Hds & Hv & Hne).
    exists [45], Z.opp, ds. split_and!; [|constructor|done..].
    change (pretty.pretty (Z.neg q)) with ("-" +:+ pretty.pretty (N.pos q)). by rewrite bytes_of_app, E.
Qed.

(** What the interceptors' [atoi] makes of a setting.  Leading blanks, an
    optional sign, digits and any text after them give the signed value of the
    digits when the magnitude fits an [i32], and 0 when it does not; so the decimal
    text of every number from [-i32::MAX] to [i32::MAX] reads back as that number,
    while [i32::MIN], which the type can hold, reads as 0. *)
Theorem atoi_reads_decimals :
  (forall blanks sign f ds rest,
     Forall is_blank blanks -> signed sign f -> ds <> [] -> Forall is_digit ds -> stops rest ->
     atoi (blanks ++ sign ++ ds ++ rest) = f (if digits_value ds <=? I32_MAX then digits_value ds else 0))
  /\ (forall z, atoi (bytes_of (pretty.pretty z)) = if Z.abs z <=? I32_MAX then z else 0)
  /\ atoi (bytes_of (pretty.pretty (- 2 ^ 31))) = 0.
Proof.
  assert (forall z, atoi (bytes_of (pretty.pretty z)) = if Z.abs z <=? I32_MAX then z else 0) as Hall.
  { intros z. destruct (pretty_Z_bytes z) as (sg & g & l & E & Hg & Hl & Hdl & Hv & Hz).
    rewrite E, <- (app_nil_r l). unfold atoi.
    etransitivity; [by apply (ato_reads I32_MAX [] sg g l [])|]. rewrite Hv.
    destruct (_ <=? _); [done|]. by destruct Hg. }
  split_and!; [|done|by rewrite Hall].
  intros. by apply ato_reads.
Qed.

Lemma atoi_reads_decimals_witness :
  atoi (bytes_of "  -42 launches") = -42 /\ atoi (bytes_of "1024") = 1024.
Proof.
  split.
  - change (bytes_of "  -42 launches") with ([32; 32] ++ [45] ++ [52; 50] ++ bytes_of " launches").
    rewrite (proj1 atoi_reads_decimals [32; 32] [45] Z.opp [52; 50] (bytes_of " launches")
      ltac:(by repeat (apply Forall_cons; split; [by right|])) minus ltac:(done)
      ltac:(repeat constructor; unfold is_digit; lia) ltac:(vm_compute; tauto)). by vm_compute.
  - change "1024"%string with (pretty.pretty 1024).
    by rewrite (proj1 (proj2 atoi_reads_decimals)).
Defined.
