(* ===== verification/HipTracking.v ===== *)
(** * What the tracer tracks

    The buffer table of the tracer implements a set of live allocations: a finite
    map from allocation numbers to address, size and kind. *)

From S2P Require Import Prelude HipTable HipMachine HipTracer HipScenario HipLogic HipTransparency.

(** ** Specification *)

Definition allocation : Type := ptr * Z * BufferType.

Record tracker := Tracker { tk_live : gmap Z allocation; tk_next : Z }.

Definition tk_address (a : allocation) : ptr := a.1.1.

Inductive tracking :=
  | Track (p : ptr) (size : Z) (btype : BufferType)
  | Untrack (p : ptr).

Definition CAPACITY : nat := MAX_TRACKED_BUFFERS.
Arguments CAPACITY : simpl never.

Lemma CAPACITY_value : Z.of_nat CAPACITY = 65536.
Proof. apply MAX_TRACKED_BUFFERS_value. Qed.

(** One operation on the set.  An allocation is entered under the next number
    unless it is empty or the set is full; a free takes out one allocation at that
    address, if there is one. *)
Inductive track_step : tracker -> tracking -> tracker -> Prop :=
  | step_track m id p n btype :
      p <> 0 -> n <> 0 -> (size m < CAPACITY)%nat ->
      track_step (Tracker m id) (Track p n btype) (Tracker (<[id := (p, n, btype)]> m) (id + 1))
  | step_refuse m id p n btype :
      p = 0 \/ n = 0 \/ size m = CAPACITY ->
      track_step (Tracker m id) (Track p n btype) (Tracker m id)
  | step_untrack m id p i a :
      p <> 0 -> m !! i = Some a -> tk_address a = p ->
      track_step (Tracker m id) (Untrack p) (Tracker (delete i m) id)
  | step_unknown m id p :
      p = 0 \/ (forall i a, m !! i = Some a -> tk_address a <> p) ->
      track_step (Tracker m id) (Untrack p) (Tracker m id).

(** ** The table as a set *)

Definition contents (b : TrackedBuffer) : allocation := (bf_ptr b, bf_size b, bf_btype b).

Fixpoint live (l : list TrackedBuffer) : gmap Z allocation :=
  match l with
  | [] => ∅
  | b :: l' => if bf_in_use b then <[bf_alloc_id b := contents b]> (live l') else live l'
  end.

(** The numbers of the slots in use. *)
Fixpoint ids (l : list TrackedBuffer) : list Z :=
  match l with
  | [] => []
  | b :: l' => if bf_in_use b then bf_alloc_id b :: ids l' else ids l'
  end.

Definition tracker_of (t : BufferTable) : tracker := Tracker (live (bt_buffers t)) (bt_next_alloc_id t).

(** The table's invariant. *)
Definition table_ok (t : BufferTable) : Prop :=
  length (bt_buffers t) = CAPACITY
  /\ NoDup (ids (bt_buffers t))
  /\ Forall (fun i => 0 < i < bt_next_alloc_id t) (ids (bt_buffers t))
  /\ bt_count t = Z.of_nat (size (live (bt_buffers t)))
  /\ 0 < bt_next_alloc_id t.

(** ** Lemmas on the list *)

Lemma live_elem l i : is_Some (live l !! i) <-> i ∈ ids l.
Proof.
  induction l as [|b l IH]; cbn [live ids].
  - rewrite lookup_empty, elem_of_nil. split; [by intros [? [=]]|done].
  - destruct (bf_in_use b); [|done]. rewrite elem_of_cons, <- IH.
    destruct (decide (bf_alloc_id b = i)) as [->|Hne].
    + rewrite lookup_insert_eq. split; [by left|by eexists].
    + rewrite lookup_insert_ne by done. split; [by right|by intros [->|?]].
Qed.

Lemma live_absent l i : i ∉ ids l -> live l !! i = None.
Proof. rewrite <- live_elem, <- eq_None_not_Some. done. Qed.

Lemma live_size l : NoDup (ids l) -> size (live l) = length (ids l).
Proof.
  induction l as [|b l IH]; cbn [live ids]; intros Hn; [apply map_size_empty|].
  destruct (bf_in_use b); [|by apply IH]. apply NoDup_cons in Hn as [Hb Hn].
  rewrite map_size_insert_None by by apply live_absent. by rewrite IH.
Qed.

Lemma ids_le l : (length (ids l) <= length l)%nat.
Proof. induction l as [|b l IH]; cbn [ids length]; [done|]. destruct (bf_in_use b); cbn [length]; lia. Qed.

Lemma free_slot_None l : free_slot l = None -> length (ids l) = length l.
Proof.
  induction l as [|b l IH]; cbn [free_slot ids]; [done|].
  destruct (bf_in_use b); [|done]. destruct (free_slot l); [done|]. intros _. cbn [length]. by rewrite IH.
Qed.

(** Filling a free slot with a new number. *)
Lemma fill_slot l : forall i b,
  free_slot l = Some i -> bf_in_use b = true -> bf_alloc_id b ∉ ids l ->
  live (<[i := b]> l) = <[bf_alloc_id b := contents b]> (live l)
  /\ ids (<[i := b]> l) ≡ₚ bf_alloc_id b :: ids l
  /\ (length (ids l) < length l)%nat.
Proof.
  induction l as [|c l IH]; intros i b Hi Hb Hid; [done|]. cbn [free_slot ids] in *.
  destruct (bf_in_use c) eqn:Hc.
  - destruct (free_slot l) as [j|] eqn:Hj; [|done]. injection Hi as <-.
    apply not_elem_of_cons in Hid as [Hne Hid].
    destruct (IH j b eq_refl Hb Hid) as (Hl & Hp & Hlen).
    change (<[S j := b]> (c :: l)) with (c :: <[j := b]> l). cbn [live ids length]. rewrite Hc, Hl, Hp.
    split_and!; [by apply insert_insert_ne|apply Permutation_swap|lia].
  - injection Hi as <-. change (<[0%nat := b]> (c :: l)) with (b :: l). cbn [live ids length].
    rewrite Hb, Hc. split_and!; [done..|]. pose proof (ids_le l). lia.
Qed.

Lemma tracked_slot_None p l i a : tracked_slot p l = None -> live l !! i = Some a -> tk_address a <> p.
Proof.
  induction l as [|b l IH]; cbn [tracked_slot live]; [by rewrite lookup_empty|].
  destruct (bf_in_use b); cbn [andb]; [|by destruct (tracked_slot p l); [|intros _; apply IH]].
  destruct (Z.eqb_spec (bf_ptr b) p) as [|Hne]; [done|].
  destruct (tracked_slot p l); [done|]. intros _.
  rewrite lookup_insert_Some. intros [[_ <-]|[_ Hl]]; [done|by apply IH].
Qed.

(** Emptying a slot in use. *)
Lemma empty_slot p l : forall i,
  NoDup (ids l) -> tracked_slot p l = Some i ->
  exists k a, live l !! k = Some a /\ tk_address a = p
    /\ live (alter not_in_use i l) = delete k (live l)
    /\ ids l ≡ₚ k :: ids (alter not_in_use i l).
Proof.
  induction l as [|b l IH]; intros i Hn Hi; [done|]. cbn [tracked_slot ids] in *.
  destruct (bf_in_use b) eqn:Hb; cbn [andb] in Hi.
  - pose proof Hn as [Hout Hn']%NoDup_cons. destruct (Z.eqb_spec (bf_ptr b) p) as [Hp|Hp].
    + injection Hi as <-. exists (bf_alloc_id b), (contents b).
      change (alter not_in_use 0%nat (b :: l)) with (not_in_use b :: l).
      cbn [live ids not_in_use bf_in_use]. rewrite Hb. split_and!; [by apply lookup_insert_eq|done| |done].
      by rewrite delete_insert_id by by apply live_absent.
    + destruct (tracked_slot p l) as [j|] eqn:Hj; [|done]. injection Hi as <-.
      destruct (IH j Hn' eq_refl) as (k & a & Hk & Ha & Hl & Hperm).
      assert (bf_alloc_id b <> k) as Hne.
      { intros <-. apply Hout, live_elem. by eexists. }
      exists k, a. change (alter not_in_use (S j) (b :: l)) with (b :: alter not_in_use j l).
      cbn [live ids]. rewrite Hb, Hl. split_and!; [by rewrite lookup_insert_ne|done| |].
      * by rewrite delete_insert_ne.
      * rewrite Hperm at 1. apply Permutation_swap.
  - destruct (tracked_slot p l) as [j|] eqn:Hj; [|done]. injection Hi as <-.
    destruct (IH j Hn eq_refl) as (k & a & Hk & Ha & Hl & Hperm). exists k, a.
    change (alter not_in_use (S j) (b :: l)) with (b :: alter not_in_use j l).
    cbn [live ids]. by rewrite Hb, Hl.
Qed.

(** ** The operations *)

Section Operations.
Context `{HIP}.

Definition do_track (op : tracking) (st : State) : HM State :=
  match op with
  | Track p n btype => buffer_table_add st p n btype
  | Untrack p => mret (buffer_table_remove st p)
  end.

(** A table operation on the state: it refines one step on the set. *)
Definition refines_step (op : tracking) (st : State) (w : hip_world) (st' : State) (w' : hip_world) : Prop :=
  table_ok (tr_buffers st')
  /\ track_step (tracker_of (tr_buffers st)) op (tracker_of (tr_buffers st'))
  /\ hush w w' /\ tr_trace_file st' = tr_trace_file st
  /\ bt_next_alloc_id (tr_buffers st') <= bt_next_alloc_id (tr_buffers st) + 1.

Lemma table_ok_size t : table_ok t -> (size (live (bt_buffers t)) <= CAPACITY)%nat.
Proof.
  intros (Hlen & Hn & _). rewrite live_size by done. rewrite <- Hlen. apply ids_le.
Qed.

(** The new table after an allocation. *)
Lemma add_refines st p n btype i w :
  table_ok (tr_buffers st) -> bt_next_alloc_id (tr_buffers st) < U64_MAX -> p <> 0 -> n <> 0 ->
  free_slot (bt_buffers (tr_buffers st)) = Some i ->
  let t := tr_buffers st in
  refines_step (Track p n btype) st w
    (set_buffers st (Buffers (<[i := Tracked p n btype true (bt_next_alloc_id t)]> (bt_buffers t))
       (wrap_u64 (bt_count t + 1)) (wrap_u64 (bt_next_alloc_id t + 1)))) w.
Proof.
  intros Hok Hnext Hp Hz Hi t. pose proof (table_ok_size _ Hok) as Hsize.
  destruct Hok as (Hlen & Hn & Hids & Hcount & Hpos). fold t in Hlen, Hn, Hids, Hcount, Hpos, Hnext, Hsize, Hi.
  set (b := Tracked p n btype true (bt_next_alloc_id t)).
  assert (bf_alloc_id b ∉ ids (bt_buffers t)) as Hfresh.
  { intros Hin. rewrite Forall_forall in Hids. specialize (Hids _ Hin). cbn in Hids. lia. }
  destruct (fill_slot _ i b Hi eq_refl Hfresh) as (Hl & Hperm & Hroom).
  rewrite <- (live_size _ Hn), Hlen in Hroom.
  pose proof CAPACITY_value as Hcap.
  assert (live (bt_buffers t) !! bf_alloc_id b = None) as Hnone by by apply live_absent.
  rewrite wrap_u64_id by (unfold U64_MAX; lia). rewrite wrap_u64_id by lia. clear Hcap.
  unfold refines_step. cbn [set_buffers tr_buffers tr_trace_file bt_next_alloc_id].
  split_and!; [|..|done|fold t; lia].
  - unfold table_ok. cbn [bt_buffers bt_count bt_next_alloc_id]. rewrite length_insert, Hl, Hperm.
    split_and!; [done| | | |lia].
    + apply NoDup_cons. split; [exact Hfresh|exact Hn].
    + constructor; [cbn; lia|]. eapply Forall_impl; [done|]. cbn. lia.
    + rewrite map_size_insert_None by done. lia.
  - unfold tracker_of. cbn [bt_buffers bt_next_alloc_id]. rewrite Hl. fold t.
    by apply (step_track _ _ p n btype).
  - reflexivity.
Qed.

Lemma do_track_refines op st w :
  table_ok (tr_buffers st) -> bt_next_alloc_id (tr_buffers st) < U64_MAX ->
  file_ok (tr_trace_file st) w -> hwp (do_track op st) (refines_step op st w) w.
Proof.
  intros Hok Hnext Hf. pose proof Hok as (Hlen & Hn & Hids & Hcount & Hpos).
  assert (forall w', hush w w' -> track_step (tracker_of (tr_buffers st)) op (tracker_of (tr_buffers st)) ->
    refines_step op st w st w') as Hsame by (intros w' Hh Hs; split_and!; try done; lia).
  destruct op as [p n btype|p]; cbn [do_track].
  - unfold buffer_table_add. apply hwp_if; intros Hc.
    + apply hwp_ret, Hsame; [reflexivity|]. apply step_refuse.
      apply orb_true_iff in Hc as [Hc|Hc]; bool_to_prop; tauto.
    + bool_to_prop. destruct (free_slot _) as [i|] eqn:Hi.
      * apply hwp_ret. by apply add_refines.
      * apply hwp_bind, hwp_trace_line; [done|]. intros w' Hh. apply hwp_ret, Hsame; [done|].
        apply step_refuse. right. right. rewrite live_size by done. rewrite <- Hlen. by apply free_slot_None.
  - apply hwp_ret. unfold buffer_table_remove. destruct (is_null p) eqn:Hp.
    { apply Hsame; [reflexivity|]. apply step_unknown. bool_to_prop. by left. }
    bool_to_prop. destruct (tracked_slot p _) as [i|] eqn:Hi.
    2:{ apply Hsame; [reflexivity|]. apply step_unknown. right. intros k a. by apply tracked_slot_None. }
    destruct (empty_slot p _ i Hn Hi) as (k & a & Hk & Ha & Hl & Hperm).
    rewrite Hperm in Hn, Hids. apply NoDup_cons in Hn as [_ Hn]. apply Forall_cons in Hids as [_ Hids].
    pose proof (table_ok_size _ Hok). pose proof (map_size_delete_Some _ _ (mk_is_Some _ _ Hk)) as Hdel.
    assert (0 < size (live (bt_buffers (tr_buffers st))))%nat.
    { apply Nat.neq_0_lt_0, map_size_ne_0_lookup. exists k. by eexists. }
    pose proof CAPACITY_value as Hcap.
    split_and!; [|..|reflexivity|done|cbn; lia].
    + unfold table_ok. cbn [set_buffers tr_buffers bt_buffers bt_count bt_next_alloc_id].
      rewrite length_alter, Hl, Hdel. split_and!; [done..| |done]. rewrite wrap_u64_id; unfold U64_MAX; lia.
    + unfold tracker_of. cbn [set_buffers tr_buffers bt_buffers bt_next_alloc_id]. rewrite Hl.
      by eapply step_untrack.
Qed.

(** ** Sequences of operations *)

Fixpoint track_all (ops : list tracking) (st : State) : HM State :=
  match ops with
  | [] => mret st
  | op :: ops' => st' ← do_track op st; track_all ops' st'
  end.

Inductive track_steps : tracker -> list tracking -> tracker -> Prop :=
  | steps_nil k : track_steps k [] k
  | steps_cons k op k' ops k'' :
      track_step k op k' -> track_steps k' ops k'' -> track_steps k (op :: ops) k''.

Lemma track_all_refines ops : forall st w,
  table_ok (tr_buffers st) ->
  bt_next_alloc_id (tr_buffers st) + Z.of_nat (length ops) <= U64_MAX ->
  file_ok (tr_trace_file st) w ->
  hwp (track_all ops st) (fun st' _ =>
    table_ok (tr_buffers st')
    /\ track_steps (tracker_of (tr_buffers st)) ops (tracker_of (tr_buffers st'))) w.
Proof.
  induction ops as [|op ops IH]; intros st w Hok Hnext Hf; cbn [track_all].
  - apply hwp_ret. split; [done|constructor].
  - apply hwp_bind. cbn [length] in Hnext.
    eapply hwp_mono; [apply do_track_refines; [done|lia|done]|].
    intros st1 w1 (Hok1 & Hs & Hh & Hfile & Hn1).
    eapply hwp_mono; [apply IH; [done|lia|rewrite Hfile; by apply (hush_file_ok _ w)]|].
    intros st2 w2 [Hok2 Hss]. split; [done|]. by econstructor.
Qed.

Lemma live_unused n b : bf_in_use b = false -> live (replicate n b) = ∅ /\ ids (replicate n b) = [].
Proof. intros Hb. induction n as [|n IH]; [done|]. cbn [replicate live ids]. by rewrite Hb. Qed.

Lemma table_new_ok : table_ok buffer_table_new /\ tracker_of buffer_table_new = Tracker ∅ 1.
Proof.
  unfold table_ok, tracker_of, buffer_table_new. cbn [bt_buffers bt_count bt_next_alloc_id].
  destruct (live_unused MAX_TRACKED_BUFFERS (Tracked null 0 Device false 0) eq_refl) as [-> ->].
  rewrite length_replicate, map_size_empty. split; [|done]. split_and!; [done|constructor|constructor|done|lia].
Qed.

(** C35: The tracer's buffer table is a set of live allocations.  Starting from the
    table of a fresh tracer, any sequence of fewer than [2^64 - 1] allocation and
    free events is processed without panic, and each event is one step of the
    specification: an allocation is entered under the next number unless it is
    empty or all 65536 slots are taken, a free takes out exactly one allocation at
    that address if there is one.  The table keeps its invariant throughout: its
    counter is the number of live allocations and their numbers are distinct. *)
Theorem tracker_implements_the_set ops st w :
  tr_buffers st = buffer_table_new -> file_ok (tr_trace_file st) w ->
  Z.of_nat (length ops) < U64_MAX ->
  exists st' w', track_all ops st w = Returns st' w'
    /\ track_steps (Tracker ∅ 1) ops (tracker_of (tr_buffers st'))
    /\ table_ok (tr_buffers st').
Proof.
  intros Hnew Hf Hlen. destruct table_new_ok as [Hok Habs].
  destruct (proj1 (hwp_returns _ _ _) (track_all_refines ops st w
    ltac:(by rewrite Hnew) ltac:(rewrite Hnew; cbn [buffer_table_new bt_next_alloc_id]; lia) Hf))
    as (st' & w' & E & Hok' & Hs).
  rewrite Hnew, Habs in Hs. exact (ex_intro _ st' (ex_intro _ w' (conj E (conj Hs Hok')))).
Qed.
End Operations.

(** A fresh tracer without a trace file. *)
Definition fresh_tracer : State :=
  Tracing 0 0 0 2 false 0 1024 None 0 0 None false buffer_table_new [].

Definition sample_events : list tracking :=
  [Track 65536 64 Device; Track 69632 16 Host; Track 0 8 Device; Untrack 65536; Untrack 4096].

Lemma tracker_implements_the_set_witness :
  exists st' w', @track_all (HipScenario.logging) sample_events fresh_tracer (hip_initial ∅) = Returns st' w'
    /\ track_steps (Tracker ∅ 1) sample_events (tracker_of (tr_buffers st')).
Proof.
  destruct (@tracker_implements_the_set HipScenario.logging sample_events fresh_tracer (hip_initial ∅))
    as (st' & w' & E & Hs & _).
  - exact eq_refl.
  - left. exact eq_refl.
  - vm_compute. exact eq_refl.
  - exact (ex_intro _ st' (ex_intro _ w' (conj E Hs))).
Defined.
