(* ===== verification/HipDump.v ===== *)
(** * Buffer dumps

    A dump around a kernel launch reads every tracked buffer within its bounds,
    copies device buffers through a staging area and leaves the client's memory
    mapped as it was. *)

From S2P Require Import Prelude HipTable HipMachine HipTracer HipScenario HipLogic HipTransparency.

(** ** Memory lemmas *)

Lemma apply_writes_mapped ws : forall m a, is_Some (m !! a) -> is_Some (apply_writes ws m !! a).
Proof.
  induction ws as [|[p v] ws IH]; intros m a Hm; [done|]. apply IH. cbn [fst snd].
  destruct (decide (p = a)) as [->|Hne]; [by rewrite lookup_insert_eq|by rewrite lookup_insert_ne].
Qed.

Lemma write_cells_cons p b l m : write_cells p (b :: l) m = write_cells (p + 1) l (<[p := b]> m).
Proof.
  unfold write_cells. rewrite imap_cons. cbn [apply_writes foldl fst snd]. rewrite Z.add_0_r.
  fold (apply_writes (imap ((fun (i : nat) (b : Z) => (p + Z.of_nat i, b)) ∘ S) l) (<[p := b]> m)).
  f_equal. apply imap_ext. intros i x _. cbn. f_equal. lia.
Qed.

Lemma write_cells_mapped l : forall p m a,
  p <= a < p + Z.of_nat (length l) \/ is_Some (m !! a) -> is_Some (write_cells p l m !! a).
Proof.
  induction l as [|b l IH]; intros p m a Ha.
  - destruct Ha as [Ha|Ha]; [cbn in Ha; lia|done].
  - rewrite write_cells_cons. apply IH. cbn [length] in Ha. destruct (decide (p = a)) as [->|Hne].
    + right. by rewrite lookup_insert_eq.
    + rewrite lookup_insert_ne by done. destruct Ha as [Ha|Ha]; [left; lia|by right].
Qed.

Lemma free_cells_out n : forall p m a, ~ (p <= a < p + Z.of_nat n) -> free_cells p n m !! a = m !! a.
Proof.
  induction n as [|n IH]; intros p m a Ha; [done|]. cbn [free_cells]. rewrite IH by lia.
  apply lookup_delete_ne. lia.
Qed.

Lemma read_bytes_mapped n : forall p m,
  (forall i, 0 <= i < Z.of_nat n -> is_Some (m !! (p + i))) ->
  exists l, read_bytes p n m = Some l /\ length l = n.
Proof.
  induction n as [|n IH]; intros p m Hm; cbn [read_bytes]; [by exists []|].
  destruct (Hm 0 ltac:(lia)) as [b Hb]. rewrite Z.add_0_r in Hb. rewrite Hb.
  destruct (IH (p + 1) m) as (l & El & Hl).
  { intros i Hi. rewrite <- Z.add_assoc. apply Hm. lia. }
  rewrite El. exists (b :: l). cbn. by rewrite Hl.
Qed.

(** Within the data the hexadecimal dump is defined. *)
Lemma hex_bytes_defined data : forall n i, (i + n <= length data)%nat -> is_Some (hex_bytes data i n).
Proof.
  intros n. induction n as [|n IH]; intros i Hi; cbn [hex_bytes]; [by eexists|].
  destruct (lookup_lt_is_Some_2 data i ltac:(lia)) as [b ->]. cbn.
  destruct (IH (S i) ltac:(lia)) as [s ->]. by eexists.
Qed.

Section Dump.
Context `{HIP}.

(** ** What a dump reads *)

(** How many bytes of a buffer are read. *)
Definition bytes_read (st : State) (full : bool) (b : TrackedBuffer) : Z :=
  if negb full && (0 <? tr_trace_dump_max st) && (tr_trace_dump_max st <? bf_size b)
  then tr_trace_dump_max st else bf_size b.

Definition dumped (b : TrackedBuffer) : bool := bf_in_use b && negb (bf_size b =? 0).

(** The buffers copied through the staging area, in table order. *)
Definition device_dumps (l : list TrackedBuffer) : list TrackedBuffer :=
  List.filter (fun b => dumped b && match bf_btype b with Device => true | _ => false end) l.

(** Host buffers are read in place, below the tracer's own allocations. *)
Definition host_readable (st : State) (full : bool) (l : list TrackedBuffer) (w : hip_world) : Prop :=
  Forall (fun b => dumped b = true -> bf_btype b <> Device ->
    forall i, 0 <= i < bytes_read st full b ->
      bf_ptr b + i < hw_next w /\ is_Some (hw_mem w !! (bf_ptr b + i))) l.

(** The call that copies one device buffer. *)
Definition copies (f : ptr) (st : State) (full : bool) (b : TrackedBuffer) (c : ptr * list Z) : Prop :=
  exists dst, c = (f, [dst; bf_ptr b; bytes_read st full b; 2]).

(** ** The loop *)

(** The world during a dump that started in [w0]: [v] is the staging area. *)
Record dumping (file : ptr) (w0 : hip_world) (v : ptr * nat) (w : hip_world) : Prop := Dumping {
  du_staging : forall i, 0 <= i < Z.of_nat v.2 -> is_Some (hw_mem w !! (v.1 + i));
  du_above : v.2 = O \/ hw_next w0 <= v.1;
  du_next : hw_next w0 <= hw_next w;
  du_client : forall a, a < hw_next w0 -> is_Some (hw_mem w0 !! a) -> is_Some (hw_mem w !! a);
  du_tables : hw_tables w = hw_tables w0;
  du_state : hw_state w = hw_state w0;
  du_file : file_ok file w;
}.

Lemma dumping_hush file w0 v w w' : hush w w' -> dumping file w0 v w -> dumping file w0 v w'.
Proof.
  intros Hh []. split; rewrite ?(hush_mem _ _ Hh), ?(hush_next _ _ Hh), ?(hush_tables _ _ Hh),
    ?(hush_state _ _ Hh); try done. by apply (hush_file_ok _ w).
Qed.

Lemma dumping_call file w0 v w f args : dumping file w0 v w -> dumping file w0 v (after_call f args w).
Proof.
  intros []. split; try done; cbn [after_call hw_mem set_calls set_hmem]; intros; apply apply_writes_mapped; auto.
Qed.

Lemma staging_resize_ok file w0 v w n :
  dumping file w0 v w ->
  hwp (staging_resize v n) (fun v' w' => v'.2 = n /\ dumping file w0 v' w' /\ hw_calls w' = hw_calls w) w.
Proof.
  intros D. destruct D as [Hst Hab Hnext Hcl Ht Hs Hf]. unfold hwp, staging_resize.
  destruct (read_bytes_mapped v.2 v.1 (hw_mem w) Hst) as (old & -> & Hlen).
  split; [done|]. split; [|done].
  assert (length (take n (old ++ replicate n 0)) = n) as Hn.
  { rewrite length_take, length_app, length_replicate. lia. }
  split; cbn [fst snd hw_mem hw_next hw_tables hw_state set_hnext set_hmem]; try done.
  - intros i Hi. apply write_cells_mapped. left. rewrite Hn. lia.
  - by right.
  - lia.
  - intros a Ha Hm. apply write_cells_mapped. right. rewrite free_cells_out by lia. by apply Hcl.
Qed.

Lemma slice_ok p n Q w :
  (forall i, 0 <= i < n -> is_Some (hw_mem w !! (p + i))) ->
  (forall l, length l = Z.to_nat n -> Q l w) -> hwp (slice p n) Q w.
Proof.
  intros Hm HQ. destruct (read_bytes_mapped (Z.to_nat n) p (hw_mem w)) as (l & E & Hl).
  { intros i Hi. apply Hm. lia. }
  unfold hwp, slice. rewrite E. by apply HQ.
Qed.

Lemma hwp_raw_write st s Q w :
  file_ok (tr_trace_file st) w -> (forall w', hush w w' -> Q tt w') -> hwp (raw_write st s) Q w.
Proof.
  intros Hf HQ. unfold raw_write. apply hwp_if; intros Hn.
  - apply hwp_ret, HQ. reflexivity.
  - bool_to_prop. destruct Hf as [?|Ho]; [done|]. destruct (fwrite_hush _ s w Ho) as (w' & E & Hh).
    unfold hwp. rewrite E. by apply HQ.
Qed.

(** Printing a buffer whose bytes were read never indexes past them. *)
Lemma report_ok st full b data Q w :
  file_ok (tr_trace_file st) w -> length data = Z.to_nat (bytes_read st full b) ->
  (forall w', hush w w' -> Q tt w') ->
  hwp (report_buffer st full (if full then bf_size b else tr_trace_dump_max st) b data) Q w.
Proof.
  intros Hf Hlen HQ. unfold report_buffer. apply hwp_if; intros _; [by apply hwp_raw_write|].
  apply hwp_bind, hwp_raw_write; [done|]. intros w1 H1. unfold dump_buffer_hex. apply hwp_bind.
  destruct (hex_bytes_defined data (Z.to_nat (Z.min (bf_size b)
    (if full then bf_size b else tr_trace_dump_max st))) 0) as [out ->].
  { rewrite Hlen. unfold bytes_read. destruct full; cbn [negb andb]; [lia|].
    destruct (0 <? _) eqn:E1, (_ <? bf_size b) eqn:E2; bool_to_prop; cbn [andb]; lia. }
  apply hwp_ret, hwp_raw_write; [by apply (hush_file_ok _ w)|].
  intros w2 H2. apply HQ. by transitivity w1.
Qed.

(** The copies a part of the loop makes, latest call first. *)
Definition copied (f : ptr) (st : State) (full : bool) (l : list TrackedBuffer) (w w' : hip_world) : Prop :=
  exists cs, hw_calls w' = reverse cs ++ hw_calls w /\ Forall2 (copies f st full) (device_dumps l) cs.

Lemma copied_none f st full l w w' :
  device_dumps l = [] -> hw_calls w' = hw_calls w -> copied f st full l w w'.
Proof. intros Hl Hc. exists []. rewrite Hl. by split; [|constructor]. Qed.

Lemma copied_app f st full l1 l2 w w1 w2 :
  copied f st full l1 w w1 -> copied f st full l2 w1 w2 -> copied f st full (l1 ++ l2) w w2.
Proof.
  intros (c1 & E1 & F1) (c2 & E2 & F2). exists (c1 ++ c2). split.
  - by rewrite E2, E1, reverse_app, app_assoc.
  - unfold device_dumps. rewrite List.filter_app. by apply Forall2_app.
Qed.

Lemma copied_hush f st full l w w1 w2 : hush w1 w2 -> copied f st full l w w1 -> copied f st full l w w2.
Proof. intros Hh (cs & E & F). exists cs. by rewrite (hush_calls _ _ Hh). Qed.

Lemma dump_one_ok t f st full w0 v w b :
  resolves (tr_real st) t hipMemcpy f w0 -> host_readable st full [b] w0 ->
  dumping (tr_trace_file st) w0 v w ->
  hwp (dump_one st full v b)
    (fun v' w' => dumping (tr_trace_file st) w0 v' w' /\ copied f st full [b] w w') w.
Proof.
  intros Hr Hhost D. unfold host_readable in Hhost. rewrite Forall_singleton in Hhost. unfold dump_one. fold (bytes_read st full b).
  apply hwp_if; intros Hc.
  { apply hwp_ret. split; [done|]. apply copied_none; [|done]. unfold device_dumps, dumped. cbn.
    by destruct (bf_in_use b), (bf_size b =? 0). }
  assert (dumped b = true) as Hd by (unfold dumped; by destruct (bf_in_use b), (bf_size b =? 0)).
  assert (forall data v' w', dumping (tr_trace_file st) w0 v' w' -> copied f st full [b] w w' ->
    length data = Z.to_nat (bytes_read st full b) ->
    hwp (report_buffer st full (if full then bf_size b else tr_trace_dump_max st) b data ;; mret v')
      (fun v'' w'' => dumping (tr_trace_file st) w0 v'' w'' /\ copied f st full [b] w w'') w') as Hreport.
  { intros data v' w' D' Hcp Hlen. apply hwp_bind. eapply report_ok; [apply D'|done|].
    intros w'' Hh. apply hwp_ret. split; [by apply (dumping_hush _ _ _ w')|by apply (copied_hush _ _ _ _ _ w')]. }
  assert (bf_btype b <> Device -> hwp (data ← slice (bf_ptr b) (bytes_read st full b);
    report_buffer st full (if full then bf_size b else tr_trace_dump_max st) b data ;; mret v)
    (fun v' w' => dumping (tr_trace_file st) w0 v' w' /\ copied f st full [b] w w') w) as Hin_place.
  { intros Hty. apply hwp_bind, slice_ok.
    - intros i Hi. destruct (Hhost Hd Hty i Hi) as [Hlt Hm]. by apply (du_client _ _ _ _ D).
    - intros data Hlen. apply Hreport; [done| |done]. apply copied_none; [|done].
      unfold device_dumps. cbn. rewrite Hd. by destruct (bf_btype b). }
  destruct (bf_btype b) eqn:Hty; [|by apply Hin_place..]. clear Hin_place.
  apply hwp_bind. eapply hwp_mono; [by apply staging_resize_ok|]. intros v1 w1 (Hv1 & D1 & Hcalls).
  destruct Hr as [Ht Hs]. apply hwp_bind.
  eapply hwp_call_real; [rewrite (du_tables _ _ _ _ D1); exact Ht|exact Hs|].
  set (args := [v1.1; bf_ptr b; bytes_read st full b; 2]).
  pose proof (dumping_call _ _ _ _ f args D1) as D2.
  assert (copied f st full [b] w (after_call f args w1)) as Hcp.
  { exists [(f, args)]. cbn. rewrite Hcalls. split; [done|]. unfold device_dumps. cbn. rewrite Hd, Hty.
    repeat constructor. by exists v1.1. }
  apply hwp_if; intros _.
  - apply hwp_bind, hwp_trace_line; [apply D2|]. intros w3 H3. apply hwp_ret.
    split; [by apply (dumping_hush _ _ _ _ _ H3)|by apply (copied_hush _ _ _ _ _ _ _ H3)].
  - apply hwp_bind, slice_ok.
    + intros i Hi. apply (du_staging _ _ _ _ D2). rewrite Hv1. lia.
    + intros data Hlen. by apply Hreport.
Qed.

Lemma dump_loop_ok t f st full w0 l : forall v w,
  resolves (tr_real st) t hipMemcpy f w0 -> host_readable st full l w0 ->
  dumping (tr_trace_file st) w0 v w ->
  hwp (dump_loop st full v l)
    (fun v' w' => dumping (tr_trace_file st) w0 v' w' /\ copied f st full l w w') w.
Proof.
  induction l as [|b l IH]; intros v w Hr Hh D; cbn [dump_loop].
  - apply hwp_ret. split; [done|]. by apply copied_none.
  - apply hwp_bind. apply Forall_cons in Hh as [Hb Hl].
    eapply hwp_mono; [apply (dump_one_ok t f); [done|by unfold host_readable; rewrite Forall_singleton|done]|].
    intros v1 w1 [D1 C1]. eapply hwp_mono; [by apply IH|]. intros v2 w2 [D2 C2].
    split; [done|]. by apply (copied_app f st full [b] l w w1).
Qed.

(** The world after a whole dump, for what follows it. *)
Record dump_done (st : State) (w w' : hip_world) : Prop := DumpDone {
  dd_next : hw_next w <= hw_next w';
  dd_client : forall a, a < hw_next w -> is_Some (hw_mem w !! a) -> is_Some (hw_mem w' !! a);
  dd_tables : hw_tables w' = hw_tables w;
  dd_state : hw_state w' = hw_state w;
  dd_file : file_ok (tr_trace_file st) w';
}.

Lemma dump_all_ok t f st label full w :
  resolves (tr_real st) t hipMemcpy f w -> host_readable st full (bt_buffers (tr_buffers st)) w ->
  file_ok (tr_trace_file st) w ->
  hwp (dump_all_buffers_ex st label full) (fun _ w' =>
    dump_done st w w'
    /\ copied f st full (if tr_trace_dump st =? 0 then [] else bt_buffers (tr_buffers st)) w w') w.
Proof.
  intros Hr Hh Hf. unfold dump_all_buffers_ex. apply hwp_if; intros Hd; rewrite Hd.
  - apply hwp_ret. split; [by split|]. by apply copied_none.
  - apply hwp_bind, hwp_trace_line; [done|]. intros w1 H1. apply hwp_bind.
    eapply hwp_mono; [apply (dump_loop_ok t f st full w); [done|done|]|].
    + split; cbn; rewrite ?(hush_mem _ _ H1), ?(hush_next _ _ H1); try done.
      * lia.
      * by left.
      * by apply hush_tables.
      * by apply hush_state.
      * by apply (hush_file_ok _ w).
    + intros v w2 [[Hst Hab Hnext Hcl Ht Hs Hfile] Hcp]. apply hwp_modify.
      split; [split|]; cbn; try done.
      * intros a Ha Hm. destruct (decide (v.2 = 0%nat)) as [Hz|Hz].
        -- rewrite free_cells_out by lia. by apply Hcl.
        -- rewrite free_cells_out by lia. by apply Hcl.
      * destruct Hcp as (cs & E & F). exists cs. split; [|done]. cbn. by rewrite E, (hush_calls _ _ H1).
Qed.

(** C36: A dump stays within its bounds.  If the real [hipMemcpy] exists and the
    tracked host buffers can be read, a dump in any mode returns without panicking.
    It makes exactly one backend call per tracked device buffer, in table order:
    a copy to the host of at most the size of the buffer, of the whole buffer for a
    forced full dump, and otherwise of at most the configured maximum when that is
    positive (a maximum of 0 means none).  Every address the
    client could read before can be read afterwards, and the tracer's tables are
    unchanged. *)
Theorem dumps_stay_in_bounds t f st label full w :
  resolves (tr_real st) t hipMemcpy f w -> host_readable st full (bt_buffers (tr_buffers st)) w ->
  file_ok (tr_trace_file st) w ->
  exists w' cs, dump_all_buffers_ex st label full w = Returns tt w'
    /\ hw_calls w' = reverse cs ++ hw_calls w
    /\ Forall2 (fun b c => exists dst n, c = (f, [dst; bf_ptr b; n; 2]) /\ n <= bf_size b
           /\ (full = true -> n = bf_size b)
           /\ (full = false -> 0 < tr_trace_dump_max st -> n <= tr_trace_dump_max st))
         (if tr_trace_dump st =? 0 then [] else device_dumps (bt_buffers (tr_buffers st))) cs
    /\ (forall a, a < hw_next w -> is_Some (hw_mem w !! a) -> is_Some (hw_mem w' !! a))
    /\ hw_tables w' = hw_tables w /\ hw_state w' = hw_state w.
Proof.
  intros Hr Hh Hf.
  destruct (proj1 (hwp_returns _ _ _) (dump_all_ok t f st label full w Hr Hh Hf))
    as ([] & w' & E & [_ Hcl Ht Hs _] & cs & Hc & F).
  exists w', cs. split_and!; try done.
  replace (if tr_trace_dump st =? 0 then [] else device_dumps (bt_buffers (tr_buffers st)))
    with (device_dumps (if tr_trace_dump st =? 0 then [] else bt_buffers (tr_buffers st)))
    by by destruct (tr_trace_dump st =? 0).
  eapply Forall2_impl; [exact F|]. intros b c [dst ->]. exists dst, (bytes_read st full b). split; [done|].
  unfold bytes_read. destruct full; cbn [negb andb]; [split_and!; [lia|done|done]|].
  destruct (0 <? _) eqn:E1, (_ <? bf_size b) eqn:E2; bool_to_prop; cbn [andb]; split_and!; intros; done || lia.
Qed.

(** ** Launches *)

(** The calls of one synchronization point: [hipDeviceSynchronize], at [g], and
    the copies. *)
Definition sync_point (g f : ptr) (st : State) (on full : bool) (w w' : hip_world) : Prop :=
  exists cs, hw_calls w' = reverse cs ++ (if on then (g, []) :: hw_calls w else hw_calls w)
    /\ Forall2 (copies f st full)
         (if on && negb (tr_trace_dump st =? 0) then device_dumps (bt_buffers (tr_buffers st)) else []) cs.

Lemma dump_point_ok t g f st do_trace full label w :
  resolves (tr_real st) t hipMemcpy f w -> resolves (tr_real st) t hipDeviceSynchronize g w ->
  host_readable st full (bt_buffers (tr_buffers st)) w -> file_ok (tr_trace_file st) w ->
  hwp (dump_point st do_trace full label) (fun _ w' =>
    dump_done st w w' /\ sync_point g f st (do_trace && tr_trace_sync st) full w w') w.
Proof.
  intros Hf Hg Hh Hfile. unfold dump_point, sync_point.
  apply hwp_if; intros Hon; rewrite Hon; cbn [andb].
  2:{ apply hwp_ret. split; [by split|]. by exists []. }
  apply hwp_bind. eapply hwp_call_real; [apply Hg|apply Hg|].
  eapply hwp_mono; [apply (dump_all_ok t f)|].
  - exact Hf.
  - eapply Forall_impl; [exact Hh|]. intros b Hb Hd Hty i Hi. destruct (Hb Hd Hty i Hi) as [Hlt Hm].
    split; [done|]. by apply apply_writes_mapped.
  - exact Hfile.
  - intros [] w' [[Hn Hcl Ht Hs Hfl] (cs & E & F)]. split; [split|]; try done.
    + intros a Ha Hm. apply Hcl; [done|]. by apply apply_writes_mapped.
    + exists cs. split; [done|]. by destruct (tr_trace_dump st =? 0).
Qed.

Lemma dump_done_readable st full l w w' :
  dump_done st w w' -> host_readable st full l w -> host_readable st full l w'.
Proof.
  intros D Hh. eapply Forall_impl; [exact Hh|]. intros b Hb Hd Hty i Hi.
  destruct (Hb Hd Hty i Hi) as [Hlt Hm]. pose proof (dd_next _ _ _ D).
  split; [lia|]. by apply (dd_client _ _ _ D).
Qed.

Lemma hush_dump_done st w w' : hush w w' -> file_ok (tr_trace_file st) w -> dump_done st w w'.
Proof.
  intros Hh Hf. split; rewrite ?(hush_mem _ _ Hh), ?(hush_next _ _ Hh); try done.
  - by apply hush_tables.
  - by apply hush_state.
  - by apply (hush_file_ok _ w).
Qed.

Lemma after_call_done st f args w : file_ok (tr_trace_file st) w -> dump_done st w (after_call f args w).
Proof. intros Hf. split; try done. intros a _ Hm. by apply apply_writes_mapped. Qed.

Lemma dump_done_trans st w1 w2 w3 : dump_done st w1 w2 -> dump_done st w2 w3 -> dump_done st w1 w3.
Proof.
  intros [Hn1 Hc1 Ht1 Hs1 Hf1] [Hn2 Hc2 Ht2 Hs2 Hf2]. split; [lia| |congruence|congruence|done].
  intros a Ha Hm. apply Hc2; [lia|]. by apply Hc1.
Qed.

(** What a launch needs from the world, in every tracing mode. *)
Record launchable (t : HipFunctionTable) (s : slot) (k f g : ptr) (st : State) (w : hip_world) : Prop := Launchable {
  la_kernel : resolves (tr_real st) t s k w;
  la_memcpy : resolves (tr_real st) t hipMemcpy f w;
  la_sync : resolves (tr_real st) t hipDeviceSynchronize g w;
  la_host : forall full, host_readable st full (bt_buffers (tr_buffers st)) w;
  la_file : file_ok (tr_trace_file st) w;
}.

Lemma launchable_done t s k f g st w w' :
  dump_done st w w' -> launchable t s k f g st w -> launchable t s k f g st w'.
Proof.
  intros D [[Tk Sk] [Tf Sf] [Tg Sg] Hh Hf].
  split; try (split; [by rewrite (dd_tables _ _ _ D)|done]).
  - intros full. by apply (dump_done_readable st full _ w).
  - apply D.
Qed.

(** C39: Kernel launches are traced within the limit.  In every tracing mode a
    launch returns the backend's answer to exactly one call of the real launch
    function.  A launch that is traced with synchronization on is surrounded by two
    synchronization points (a device synchronization, then the copies of the tracked
    device buffers); any other launch makes no further call.  The launch counter
    advances exactly for traced launches, and with a limit set it never passes
    it. *)
Theorem launches_are_traced_within_the_limit t s k f g st func message args w :
  launchable t s k f g st w -> hw_state w = Some st ->
  0 <= tr_kernel_count st <= I32_MAX -> tr_kernel_count_limit st <= I32_MAX ->
  (0 < tr_kernel_count_limit st -> tr_kernel_count st <= tr_kernel_count_limit st) ->
  let on := should_trace_kernel st (kernel_table_get_name st func) in
  exists full w1 w2 w' n,
    traced_launch func message s args w = Returns (answer k args w1) w'
    /\ sync_point g f st (on && tr_trace_sync st) full w w1
    /\ hw_calls w2 = (k, args) :: hw_calls w1
    /\ sync_point g f st (on && tr_trace_sync st) full w2 w'
    /\ hw_state w' = Some (set_kernel_count st n)
    /\ n = (if on then wrap_i32 (tr_kernel_count st + 1) else tr_kernel_count st)
    /\ (0 < tr_kernel_count_limit st -> n <= tr_kernel_count_limit st).
Proof.
  intros L Hst Hcount Hlim Hbound on.
  assert (hwp (traced_launch func message s args) (fun r w' => exists full w1 w2 n,
    r = answer k args w1 /\ sync_point g f st (on && tr_trace_sync st) full w w1
    /\ hw_calls w2 = (k, args) :: hw_calls w1
    /\ sync_point g f st (on && tr_trace_sync st) full w2 w'
    /\ hw_state w' = Some (set_kernel_count st n)
    /\ n = (if on then wrap_i32 (tr_kernel_count st + 1) else tr_kernel_count st)) w) as Hrun.
  { apply (hwp_with_state _ st); [done|]. apply hwp_bind, hwp_should_full_dump; [apply L|].
    intros full wa Ha. pose proof (hush_dump_done st _ _ Ha ltac:(apply L)) as Da.
    pose proof (launchable_done _ _ _ _ _ _ _ _ Da L) as La.
    apply hwp_bind. eapply hwp_mono; [apply (dump_point_ok t g f); apply La|].
    intros [] wb [Db Sb]. pose proof (launchable_done _ _ _ _ _ _ _ _ Db La) as Lb.
    apply hwp_bind, hwp_trace_line; [apply Lb|]. intros wc Hc.
    pose proof (launchable_done _ _ _ _ _ _ _ _ (hush_dump_done st _ _ Hc ltac:(apply Lb)) Lb) as Lc.
    apply hwp_bind. eapply hwp_call_real; [apply Lc|apply Lc|].
    pose proof (launchable_done _ _ _ _ _ _ _ _ (after_call_done st k args _ ltac:(apply Lc)) Lc) as Ld.
    apply hwp_bind. eapply hwp_mono; [apply (dump_point_ok t g f); apply Ld|].
    intros [] we [De Se]. apply hwp_bind, hwp_trace_line.
    { destruct (should_trace_kernel _ _); apply De. }
    intros wf Hf. apply hwp_ret. exists full, wc, (after_call k args wc).
    eexists. split_and!; [done| |done| | |reflexivity].
    - destruct Sb as (cs & E & F). exists cs. by rewrite (hush_calls _ _ Hc), E, (hush_calls _ _ Ha).
    - destruct Se as (cs & E & F). exists cs. cbn [hw_calls set_tstate]. by rewrite (hush_calls _ _ Hf).
    - fold on. cbn. destruct on; [done|]. by destruct st. }
  destruct (proj1 (hwp_returns _ _ _) Hrun) as (r & w' & E & full & w1 & w2 & n & -> & S1 & Hc & S2 & Hs & Hn).
  exists full, w1, w2, w', n. split_and!; try done. intros Hpos. rewrite Hn. specialize (Hbound Hpos).
  destruct on eqn:Hon; [|done]. unfold on, should_trace_kernel in Hon.
  destruct (0 <? _) eqn:E1; cbn [andb] in Hon; bool_to_prop; [|lia].
  destruct (_ <=? tr_kernel_count st) eqn:E2; [done|]. bool_to_prop.
  unfold wrap_i32, I32_MAX in *. rewrite Z.mod_small; lia.
Qed.
End Dump.

(** A tracer that synchronizes and hashes, tracking one device and one host
    buffer, on a world where the host buffer is mapped. *)
Definition sync_tracer : State :=
  Tracing 4096 0 0 2 true 2 4 None 1 0 None false
    (Buffers [Tracked 65536 8 Device true 1; Tracked 700 2 Host true 2; Tracked 0 0 Device false 0] 2 3) [].

Definition sync_world : hip_world :=
  set_tstate (set_tables (hip_initial {[700 := 5; 701 := 6]})
    {[4096 := HipIntercept.real_table_of (H := logging) 16]}) (Some sync_tracer).

Lemma sync_host_readable full : host_readable sync_tracer full (bt_buffers (tr_buffers sync_tracer)) sync_world.
Proof.
  apply Forall_cons. split; [by intros _ []|]. apply Forall_cons. split.
  - intros _ _ i Hi. change (bytes_read sync_tracer full (Tracked 700 2 Host true 2)) with
      (if negb full && true && false then 4 else 2) in Hi.
    rewrite andb_false_r in Hi. assert (i = 0 \/ i = 1) as [-> | ->] by lia; (split; [done|by eexists]).
  - apply Forall_singleton. by intros [=].
Qed.

Lemma dumps_stay_in_bounds_witness :
  exists w' cs, @dump_all_buffers_ex logging sync_tracer "BEFORE kernel #0" false sync_world = Returns tt w'
    /\ hw_calls w' = reverse cs /\ length cs = 1%nat.
Proof.
  destruct (@dumps_stay_in_bounds logging (HipIntercept.real_table_of (H := logging) 16) 1016 sync_tracer
    "BEFORE kernel #0" false sync_world) as (w' & cs & E & Hc & F & _).
  - split; by vm_compute.
  - apply sync_host_readable.
  - by left.
  - exists w', cs. split_and!; [done|by rewrite Hc, app_nil_r|]. by rewrite <- (Forall2_length _ _ _ F).
Defined.

Lemma launches_are_traced_within_the_limit_witness :
  exists w1 w', @traced_launch logging 900 (fun n => n) hipLaunchKernel [900; 1; 1; 1; 1; 1; 1; 0; 0; 0] sync_world
      = Returns (@answer logging 1039 [900; 1; 1; 1; 1; 1; 1; 0; 0; 0] w1) w'
    /\ hw_state w' = Some (set_kernel_count sync_tracer 1).
Proof.
  destruct (@launches_are_traced_within_the_limit logging (HipIntercept.real_table_of (H := logging) 16)
    hipLaunchKernel 1039 1016 1007 sync_tracer 900 (fun n => n) [900; 1; 1; 1; 1; 1; 1; 0; 0; 0] sync_world)
    as (full & w1 & w2 & w' & n & E & _ & _ & _ & Hs & Hn & _).
  - split; try (split; by vm_compute); [apply sync_host_readable|by left].
  - done.
  - by vm_compute.
  - by vm_compute.
  - by vm_compute.
  - exists w1, w'. split; [done|]. rewrite Hs, Hn. by vm_compute.
Defined.
