(* ===== verification/AbiLayout.v ===== *)
(** * The structures shared with IREE

    The [repr(C)] structures of crates/iree-sys/src/{lib,init,fem}.rs and of
    hrx-libhrx/src/pool.rs with the types of their fields, the compile-time
    assertions about them (abi_layout.rs and the end of pool.rs) with the types
    the C headers give those fields, the values libhrx builds, and the option blocks whose fields are set by offset. *)

From S2P Require Import Prelude Iree Layout.

(** ** Declarations *)

(** [repr(C)] without an [align] attribute. *)
Abbreviation repr_C fields := (Struct 1 fields) (only parsing).

Definition iree_allocator_repr : ctype := repr_C [("self_", pointer); ("ctl", pointer)].
Definition iree_const_byte_span_repr : ctype := repr_C [("data", pointer); ("data_length", usize)].
Definition iree_vm_value_repr : ctype :=
  Struct 8 [("type_", i32); ("_pad", i32); ("storage", Array u8 8)].
Definition iree_vm_ref_repr : ctype := repr_C [("ptr", pointer); ("type_", usize)].

Definition iree_hal_buffer_params_repr : ctype :=
  repr_C [("usage", u32); ("access", u16); ("_pad0", u16); ("type_", u32); ("_pad1", u32);
          ("queue_affinity", u64); ("min_alignment", u64)].
Definition iree_byte_span_repr : ctype := repr_C [("data", pointer); ("data_length", usize)].
Definition iree_hal_buffer_mapping_repr : ctype :=
  Struct 8 [("contents", iree_byte_span_repr); ("_rest", Array u8 32)].
Definition iree_string_view_repr : ctype := repr_C [("data", pointer); ("size", usize)].
Definition iree_timeout_repr : ctype := repr_C [("type_", i32); ("nanos", i64)].
Definition iree_hal_semaphore_list_repr : ctype :=
  repr_C [("count", usize); ("semaphores", pointer); ("payload_values", pointer)].
Definition iree_hal_buffer_ref_repr : ctype :=
  repr_C [("reserved_and_slot", u32); ("_pad", u32); ("buffer", pointer); ("offset", u64); ("length", u64)].
Definition iree_hal_dispatch_config_repr : ctype :=
  Struct 8 [("workgroup_size", Array u32 3); ("workgroup_count", Array u32 3);
            ("workgroup_count_ref", iree_hal_buffer_ref_repr);
            ("dynamic_workgroup_local_memory", u32); ("_pad", u32)].
Definition iree_hal_buffer_ref_list_repr : ctype := repr_C [("count", usize); ("values", pointer)].
Definition iree_hal_memory_barrier_repr : ctype := repr_C [("source_scope", u32); ("target_scope", u32)].
Definition iree_hal_buffer_binding_table_repr : ctype := repr_C [("count", usize); ("bindings", pointer)].
Definition iree_async_frontier_tracker_options_repr : ctype :=
  repr_C [("axis_table_capacity", u32); ("session_epoch", u8); ("machine_index", u8); ("_pad", Array u8 2)].
Definition iree_hal_host_call_repr : ctype := repr_C [("fn_", pointer); ("user_data", pointer)].
Definition iree_hal_device_info_repr : ctype :=
  repr_C [("device_id", u64); ("path", iree_string_view_repr); ("name", iree_string_view_repr)].

Definition iree_hal_executable_function_repr : ctype := repr_C [("value", u64)].
Definition iree_vm_function_repr : ctype := Struct 8 [("bytes", Array u8 16)].
Definition iree_hal_module_device_policy_repr : ctype := Struct 8 [("bytes", Array u8 16)].
Definition iree_hal_module_debug_sink_repr : ctype := Struct 8 [("bytes", Array u8 32)].
Definition iree_hal_executable_params_repr : ctype := Struct 8 [("bytes", Array u8 64)].
Definition iree_hal_executable_function_info_repr : ctype :=
  Struct 8 [("name", iree_string_view_repr); ("flags", u32); ("_pad0", u32); ("constant_count", u16);
            ("binding_count", u16); ("parameter_count", u16); ("_pad1", u16);
            ("workgroup_size", Array u32 3); ("_tail", u32)].
Definition iree_hal_external_buffer_repr : ctype :=
  Struct 8 [("type_", u32); ("flags", u32); ("size", u64); ("handle_ptr", pointer)].
Definition iree_hal_buffer_release_callback_repr : ctype := repr_C [("fn_", pointer); ("user_data", pointer)].

(** The [blob!] macro and its instances. *)
Definition blob (size : nat) : ctype := Struct 8 [("bytes", Array u8 size)].
Definition iree_task_topology_repr : ctype := blob (Z.to_nat 22544).
Definition iree_task_executor_options_repr : ctype := blob 40.
Definition iree_async_proactor_pool_options_repr : ctype := blob 80.
Definition iree_hal_task_device_params_repr : ctype := blob 24.
Definition iree_hal_device_create_params_repr : ctype := blob 16.

(** pool.rs. *)
Definition IreeHalResource_repr : ctype := repr_C [("ref_count", i32); ("_pad", u32); ("vtable", pointer)].
Definition IreeHalPoolReservation_repr : ctype :=
  repr_C [("offset", u64); ("length", u64); ("block_handle", u64); ("slab_index", u16); ("reserved", Array u16 3)].
Definition IreeHalPoolAcquireInfo_repr : ctype :=
  repr_C [("wait_frontier", pointer); ("flags", u32); ("reserved", u32)].
Definition IreeHalPoolCapabilities_repr : ctype :=
  repr_C [("memory_type", u32); ("supported_usage", u32); ("min_allocation_size", u64); ("max_allocation_size", u64)].
Definition IreeHalPoolVtable_repr : ctype :=
  repr_C [("destroy", pointer); ("acquire_reservation", pointer); ("release_reservation", pointer);
          ("materialize_reservation", pointer); ("query_capabilities", pointer); ("query_stats", pointer);
          ("trim", pointer); ("notification", pointer)].
Definition HrxExactPool_repr : ctype :=
  repr_C [("resource", IreeHalResource_repr); ("host_allocator", iree_allocator_repr); ("allocator", pointer);
          ("params", iree_hal_buffer_params_repr); ("notification", pointer)].

(** ** What the headers say *)

(** The types of IREE's C headers, as the C compiler lays them out on x86-64.  They are
    written out here by themselves: a reader on the C side knows nothing of the Rust
    declarations above. *)
Definition uint8_t : ctype := Uint 1.
Definition uint16_t : ctype := Uint 2.
Definition uint32_t : ctype := Uint 4.
Definition uint64_t : ctype := Uint 8.
Definition int32_t : ctype := Sint 4.
Definition size_t : ctype := Uint 8.
Definition c_pointer : ctype := Uint 8.
Definition c_string_view : ctype := Struct 1 [("data", c_pointer); ("size", size_t)].
Definition c_byte_span : ctype := Struct 1 [("data", c_pointer); ("data_length", size_t)].
Definition c_buffer_ref : ctype :=
  Struct 1 [("reserved_and_slot", uint32_t); ("_pad", uint32_t); ("buffer", c_pointer);
            ("offset", uint64_t); ("length", uint64_t)].
Definition c_resource : ctype := Struct 1 [("ref_count", int32_t); ("_pad", uint32_t); ("vtable", c_pointer)].

(** A structure, its size in the headers where one is recorded, and for the named fields
    the offset and the type a C reader uses. *)
Definition probe : Type := (ctype * option nat * list (string * nat * ctype))%type.

Definition assert_layout (p : probe) : bool :=
  let '(t, size, fields) := p in
  match size with Some s => (size_of t =? s)%nat | None => true end
  && forallb (fun f => match field_of t f.1.1 with
                       | Some (o, ft) => (o =? f.1.2)%nat && ctype_eqb ft f.2
                       | None => false
                       end) fields.

(** The assertions of abi_layout.rs, with the types its comments (and those of the
    declarations) record beside the offsets. *)
Definition abi_layout : list probe :=
  [ (iree_hal_buffer_params_repr, Some 32%nat,
      [("usage", 0%nat, uint32_t); ("access", 4%nat, uint16_t); ("type_", 8%nat, uint32_t);
       ("queue_affinity", 16%nat, uint64_t); ("min_alignment", 24%nat, uint64_t)]);
    (iree_hal_dispatch_config_repr, Some 64%nat,
      [("workgroup_size", 0%nat, Array uint32_t 3); ("workgroup_count", 12%nat, Array uint32_t 3);
       ("workgroup_count_ref", 24%nat, c_buffer_ref);
       ("dynamic_workgroup_local_memory", 56%nat, uint32_t)]);
    (iree_hal_buffer_ref_repr, Some 32%nat,
      [("buffer", 8%nat, c_pointer); ("offset", 16%nat, uint64_t); ("length", 24%nat, uint64_t)]);
    (iree_hal_buffer_ref_list_repr, Some 16%nat, [("count", 0%nat, size_t); ("values", 8%nat, c_pointer)]);
    (iree_hal_semaphore_list_repr, Some 24%nat,
      [("count", 0%nat, size_t); ("semaphores", 8%nat, c_pointer); ("payload_values", 16%nat, c_pointer)]);
    (iree_hal_external_buffer_repr, Some 24%nat,
      [("type_", 0%nat, uint32_t); ("flags", 4%nat, uint32_t); ("size", 8%nat, uint64_t);
       ("handle_ptr", 16%nat, c_pointer)]);
    (iree_const_byte_span_repr, Some 16%nat, [("data", 0%nat, c_pointer); ("data_length", 8%nat, size_t)]) ].

Definition abi_alignments : list (ctype * nat) := [(iree_hal_dispatch_config_repr, 8%nat)].

(** The alignments recorded in the comments of init.rs. *)
Definition documented_alignments : list (ctype * nat) :=
  [ (iree_task_topology_repr, 8%nat);
    (iree_task_executor_options_repr, 8%nat); (iree_async_proactor_pool_options_repr, 8%nat);
    (iree_async_frontier_tracker_options_repr, 4%nat); (iree_hal_task_device_params_repr, 8%nat);
    (iree_hal_device_create_params_repr, 8%nat); (iree_hal_semaphore_list_repr, 8%nat);
    (iree_string_view_repr, 8%nat); (iree_timeout_repr, 8%nat) ].

(** The assertions at the end of pool.rs, which give no size for the pool itself. *)
Definition pool_layout : list probe :=
  [ (IreeHalResource_repr, Some 16%nat, []); (IreeHalPoolReservation_repr, Some 32%nat, []);
    (IreeHalPoolAcquireInfo_repr, Some 16%nat, []); (IreeHalPoolCapabilities_repr, Some 24%nat, []);
    (IreeHalPoolVtable_repr, Some 64%nat, []); (HrxExactPool_repr, None, [("resource", 0%nat, c_resource)]) ].

(** The sizes, offsets and types the comments of init.rs, fem.rs, lib.rs and pool.rs record. *)
Definition documented_layout : list probe :=
  [ (iree_hal_buffer_mapping_repr, Some 48%nat, [("contents", 0%nat, c_byte_span)]);
    (iree_string_view_repr, Some 16%nat, []); (iree_timeout_repr, Some 16%nat, []);
    (iree_hal_memory_barrier_repr, Some 8%nat,
      [("source_scope", 0%nat, uint32_t); ("target_scope", 4%nat, uint32_t)]);
    (iree_hal_buffer_binding_table_repr, Some 16%nat, []);
    (iree_task_topology_repr, Some (Z.to_nat 22544), []); (iree_task_executor_options_repr, Some 40%nat, []);
    (iree_async_proactor_pool_options_repr, Some 80%nat, []); (iree_hal_task_device_params_repr, Some 24%nat, []);
    (iree_hal_device_create_params_repr, Some 16%nat, []);
    (iree_async_frontier_tracker_options_repr, Some 8%nat, []); (iree_hal_host_call_repr, Some 16%nat, []);
    (iree_hal_device_info_repr, Some 40%nat,
      [("device_id", 0%nat, uint64_t); ("path", 8%nat, c_string_view); ("name", 24%nat, c_string_view)]);
    (iree_hal_executable_params_repr, Some 64%nat, []);
    (iree_hal_executable_function_info_repr, Some 48%nat,
      [("name", 0%nat, c_string_view); ("flags", 16%nat, uint32_t); ("constant_count", 24%nat, uint16_t);
       ("binding_count", 26%nat, uint16_t); ("parameter_count", 28%nat, uint16_t);
       ("workgroup_size", 32%nat, Array uint32_t 3)]);
    (iree_hal_module_device_policy_repr, Some 16%nat, []); (iree_hal_module_debug_sink_repr, Some 32%nat, []);
    (iree_vm_function_repr, Some 16%nat, []);
    (iree_hal_executable_function_repr, Some 8%nat, [("value", 0%nat, uint64_t)]);
    (iree_hal_buffer_release_callback_repr, Some 16%nat, []);
    (iree_vm_value_repr, Some 16%nat, [("type_", 0%nat, int32_t); ("storage", 8%nat, Array uint8_t 8)]);
    (IreeHalResource_repr, Some 16%nat, [("ref_count", 0%nat, int32_t); ("vtable", 8%nat, c_pointer)]);
    (IreeHalPoolVtable_repr, Some 64%nat, [("destroy", 0%nat, c_pointer)]) ].

(** ** Values libhrx passes *)

Definition buffer_params_value (p : iree_hal_buffer_params_t) : value :=
  VList [VInt (p_usage p); VInt (p_access p); VInt 0; VInt (p_type p); VInt 0;
         VInt (p_queue_affinity p); VInt (p_min_alignment p)].

(** [iree_hal_buffer_ref_t::make]. *)
Definition buffer_ref_make (buffer : ptr) (offset length : Z) : value :=
  VList [VInt 0; VInt 0; VInt buffer; VInt offset; VInt length].

(** [iree_hal_dispatch_config_t::new_static]. *)
Definition new_static (size count : list value) : value :=
  VList [VList size; VList count; buffer_ref_make null 0 0; VInt 0; VInt 0].

(** The values documented as all-zero. *)
Definition vm_ref_null : value := VList [VInt null; VInt 0].
Definition vm_function_zeroed : value := VList [VList (replicate 16 (VInt 0))].
Definition executable_params_zeroed : value := VList [VList (replicate 64 (VInt 0))].
Definition executable_function_info_zeroed : value :=
  VList [VList [VInt null; VInt 0]; VInt 0; VInt 0; VInt 0; VInt 0; VInt 0; VInt 0;
         VList (replicate 3 (VInt 0)); VInt 0].
Definition buffer_release_callback_null : value := VList [VInt null; VInt null].
Definition buffer_mapping_zeroed : value :=
  VList [VList [VInt null; VInt 0]; VList (replicate 32 (VInt 0))].
Definition semaphore_list_default : value := VList [VInt 0; VInt null; VInt null].
Definition binding_table_default : value := VList [VInt 0; VInt null].

Definition zero_constructors : list (ctype * value) :=
  [ (iree_vm_ref_repr, vm_ref_null); (iree_vm_function_repr, vm_function_zeroed);
    (iree_hal_executable_params_repr, executable_params_zeroed);
    (iree_hal_executable_function_info_repr, executable_function_info_zeroed);
    (iree_hal_buffer_release_callback_repr, buffer_release_callback_null);
    (iree_hal_buffer_mapping_repr, buffer_mapping_zeroed);
    (iree_hal_semaphore_list_repr, semaphore_list_default);
    (iree_hal_buffer_binding_table_repr, binding_table_default) ].

(** [iree_async_frontier_tracker_options_t::default_opts]. *)
Definition default_opts : value := VList [VInt 256; VInt 1; VInt 0; VList [VInt 0; VInt 0]].

(** C's [strlen]: the distance to the first NUL; without one, undefined behaviour. *)
Fixpoint strlen (bytes : list Z) : option Z :=
  match bytes with
  | [] => None
  | c :: rest => if c =? 0 then Some 0 else Z.succ <$> strlen rest
  end.

(** [iree_string_view_t::cstr] of a string literal at [data], and
    [iree_string_view_t::cstr_raw] of an address in [mem]. *)
Definition string_view_cstr (data : ptr) (bytes : list Z) : value :=
  VList [VInt data; VInt (Z.of_nat (length bytes))].
Definition string_view_cstr_raw (p : ptr) (mem : list Z) : option value :=
  if is_null p then Some (VList [VInt null; VInt 0])
  else n ← strlen (drop (Z.to_nat p) mem); Some (VList [VInt p; VInt n]).

(** [hrx_dispatch_config_t] of the public header and its conversion in
    [hrx_queue_dispatch] and [hrx_stream_dispatch]: the two fields swap places. *)
Definition HrxDispatchConfig_repr : ctype :=
  repr_C [("workgroup_count", Array u32 3); ("workgroup_size", Array u32 3); ("subgroup_size", u32)].

Definition to_hal_config (config : value) : value :=
  match config with
  | VList [VList count; VList size; _] => new_static size count
  | _ => VList []
  end.

(** The bytes of an IREE configuration at [to] in [out], built from the client's
    configuration at [from] in [mem]. *)
Definition convert_dispatch_config (from : nat) (mem : list Z) (to : nat) (out : list Z) : list Z :=
  store iree_hal_dispatch_config_repr (to_hal_config (load HrxDispatchConfig_repr from mem)) to out.

(** ** Option blocks: fields set by their offset *)

Definition OFF_EXEC_WORKER_STACK_SIZE : nat := 24.
Definition OFF_DEVICE_PARAMS_PROACTOR_POOL : nat := 8.

Definition zeroed (size : nat) : list Z := replicate size 0.
Definition set_worker_stack_size (v : Z) (bytes : list Z) : list Z :=
  store usize (VInt v) OFF_EXEC_WORKER_STACK_SIZE bytes.
Definition set_proactor_pool (pool : ptr) (bytes : list Z) : list Z :=
  store pointer (VInt pool) OFF_DEVICE_PARAMS_PROACTOR_POOL bytes.
Definition set_caching_mode (v : Z) (bytes : list Z) : list Z := store u32 (VInt v) 8 bytes.
Definition set_executable_format (data : ptr) (size : Z) (bytes : list Z) : list Z :=
  store iree_string_view_repr (VList [VInt data; VInt size]) 16 bytes.
Definition set_executable_data (data : ptr) (length : Z) (bytes : list Z) : list Z :=
  store iree_const_byte_span_repr (VList [VInt data; VInt length]) 32 bytes.

(** The order in which [hrx_executable_load_data] fills the block that
    [iree_hal_executable_params_initialize] left. *)
Definition fill_executable_params (format : ptr) (format_size : Z) (data : ptr) (data_size : Z)
  (bytes : list Z) : list Z :=
  set_caching_mode 0 (set_executable_data data data_size (set_executable_format format format_size bytes)).

(** ** Theorems *)

Lemma place_types off fs name o t : In (name, o, t) (place off fs) -> In (name, t) fs.
Proof.
  revert off. induction fs as [|[n u] fs IH]; intros off; simpl; [done|].
  intros [[= <- _ <-]|H]; [by left|right; by eapply IH].
Qed.

(** The alignments that abi_layout.rs asserts and init.rs records. *)
Lemma probed_alignments : Forall (fun p => align_of p.1 = p.2) (abi_alignments ++ documented_alignments).
Proof. by repeat constructor. Qed.

Lemma field_of_field a fs name o t :
  field_of (Struct a fs) name = Some (o, t) -> exists i, fields_of (Struct a fs) !! i = Some (name, o, t).
Proof.
  unfold field_of. intros ([i [[n o'] t']] & (Hi & Hn & _)%list_find_Some & [= -> ->])%fmap_Some.
  simpl in *. subst n. by exists i.
Qed.

Lemma typed_fields_length fs vs : typed_fields typed fs vs = true -> length vs = length fs.
Proof.
  revert vs. induction fs as [|f fs IH]; intros [|v vs]; try done.
  simpl. intros [_ H]%andb_true_iff. by rewrite (IH _ H).
Qed.

Lemma length_place off fs : length (place off fs) = length fs.
Proof. revert off. induction fs as [|[n t] fs IH]; intros off; simpl; [done|]. by rewrite IH. Qed.

Lemma probed_well_formed p :
  In p (abi_layout ++ pool_layout ++ documented_layout) ->
  assert_layout p = true /\ exists a fs, p.1.1 = Struct a fs /\ well_formed (Struct a fs) = true.
Proof.
  intros H. assert (E : forallb (fun p => assert_layout p && match p.1.1 with Struct _ _ => well_formed p.1.1 | _ => false end)
                          (abi_layout ++ pool_layout ++ documented_layout) = true) by (vm_compute; reflexivity).
  rewrite forallb_forall in E. apply E in H. apply andb_true_iff in H as [? H]. split; [done|].
  destruct p as [[t n] l]. simpl in *. destruct t as [| | |a fs]; try done. by exists a, fs.
Qed.

(** What an assertion that holds says of a field. *)
Lemma assert_layout_field a fs size fields name o ct :
  assert_layout (Struct a fs, size, fields) = true -> In (name, o, ct) fields ->
  (forall s, size = Some s -> size_of (Struct a fs) = s)
  /\ exists i, fields_of (Struct a fs) !! i = Some (name, o, ct).
Proof.
  unfold assert_layout. intros [Hs Hf]%andb_true_iff Hin. split.
  - intros s ->. by apply Nat.eqb_eq.
  - rewrite forallb_forall in Hf. apply Hf in Hin. simpl in Hin.
    destruct (field_of (Struct a fs) name) as [[o' t']|] eqn:E; [|done].
    apply andb_true_iff in Hin as [->%Nat.eqb_eq ->%ctype_eqb_eq]. by apply (field_of_field a fs).
Qed.

(** Storing one field leaves the other fields of the structure as they were. *)
Lemma store_one_field a fs i name o t v base mem :
  well_formed (Struct a fs) = true -> fields_of (Struct a fs) !! i = Some (name, o, t) ->
  typed t v = true -> (base + size_of (Struct a fs) <= length mem)%nat ->
  exists ws, load (Struct a fs) base (store t v (base + o) mem) = VList ws /\ ws !! i = Some v
    /\ forall j f, j <> i -> fields_of (Struct a fs) !! j = Some f ->
         ws !! j = Some (load f.2 (base + f.1.2) mem).
Proof.
  intros Hwf Hi Hv Hl. pose proof (fields_fit a fs Hwf) as Hfit.
  apply well_formed_struct in Hwf as [_ Hfs]. destruct (place_spec 0 fs Hfs) as [Hall Hord].
  pose proof (fields_well_formed fs Hfs) as Hwf.
  cbn [load]. rewrite load_fields_place. eexists. split; [reflexivity|]. unfold fields_of in *.
  pose proof (Hwf _ _ _ Hi) as Hwt. simpl in Hwt.
  assert (o + size_of t <= fields_end 0 fs)%nat as Hend.
  { rewrite Forall_forall in Hall. by apply (Hall _ (list_elem_of_lookup_2 _ _ _ Hi)). }
  split.
  - rewrite list_lookup_fmap, Hi. simpl. f_equal. apply load_store; [done|done|lia].
  - intros j f Hj Hf. rewrite list_lookup_fmap, Hf. simpl. f_equal.
    eapply load_within; [by eapply Hwf|by apply store_within|].
    pose proof (apart_either _ _ _ _ _ Hord Hj Hf Hi) as [H|H]; unfold apart in H; simpl in H; lia.
Qed.

(** C18: C code that knows a structure only by its header reads what the Rust code
    stored, and the Rust code what C stored.  Take a structure for which the headers were
    probed (the assertions of abi_layout.rs and pool.rs and the layouts recorded in the
    comments), and a field with the offset and the C type recorded for it.  The Rust size
    is the recorded one, where one is recorded; after the Rust code stores any values of
    the fields, a load of the C type at the recorded offset gives the field's value, the
    bytes around the structure are unchanged, and loading the whole structure gives all
    the values back; and after C stores any value of its type at that offset the Rust
    code reads it in that field and every other field as before. *)
Theorem stored_fields_are_read_at_the_probed_offsets t size fields name o ct vs base mem :
  In (t, size, fields) (abi_layout ++ pool_layout ++ documented_layout) -> In (name, o, ct) fields ->
  typed t (VList vs) = true -> (base + size_of t <= length mem)%nat ->
  (forall s, size = Some s -> size_of t = s) /\
  exists i v, fields_of t !! i = Some (name, o, ct) /\ vs !! i = Some v
    /\ load ct (base + o) (store t (VList vs) base mem) = v
    /\ load t base (store t (VList vs) base mem) = VList vs
    /\ within base (size_of t) mem (store t (VList vs) base mem)
    /\ forall cv, typed ct cv = true ->
         exists ws, load t base (store ct cv (base + o) mem) = VList ws /\ ws !! i = Some cv
           /\ forall j f, j <> i -> fields_of t !! j = Some f ->
                ws !! j = Some (load f.2 (base + f.1.2) mem).
Proof.
  intros Hp Ho Hty Hlen. destruct (probed_well_formed _ Hp) as (Ha & a & fs & Et & Hwf).
  simpl in Et. subst t. destruct (assert_layout_field _ _ _ _ _ _ _ Ha Ho) as (Hs & i & Hi).
  split; [done|]. destruct (lookup_lt_is_Some_2 vs i) as [v Hv].
  { rewrite (typed_fields_length _ _ Hty), <- (length_place 0). by eapply lookup_lt_Some. }
  exists i, v. split; [done|]. split; [done|]. split; [by eapply load_field|].
  split; [by apply load_store|]. split; [by apply store_within|].
  intros cv Hcv. by eapply store_one_field.
Qed.

Lemma HrxDispatchConfig_load from mem :
  load HrxDispatchConfig_repr from mem =
    VList [load (Array u32 3) (from + 0) mem; load (Array u32 3) (from + 12) mem; load u32 (from + 24) mem].
Proof. reflexivity. Qed.

Lemma triple_typed from mem :
  Forall is_byte mem -> (from + 12 <= length mem)%nat ->
  exists vs, load (Array u32 3) from mem = VList vs /\ typed (Array u32 3) (VList vs) = true.
Proof.
  intros Hb Hl. pose proof (load_typed (Array u32 3) eq_refl from mem Hb Hl) as Ht.
  cbn [load] in *. eexists. split; [reflexivity|exact Ht].
Qed.

(** A dispatch configuration arrives at IREE with the client's sizes and counts. *)
Lemma dispatch_config_crosses from mem to out :
  Forall is_byte mem -> (from + 28 <= length mem)%nat -> (to + 64 <= length out)%nat ->
  let out' := convert_dispatch_config from mem to out in
  load (Array u32 3) (to + 0) out' = load (Array u32 3) (from + 12) mem
  /\ load (Array u32 3) (to + 12) out' = load (Array u32 3) (from + 0) mem
  /\ load iree_hal_buffer_ref_repr (to + 24) out' = buffer_ref_make null 0 0
  /\ load u32 (to + 56) out' = VInt 0
  /\ within to 64 out out'.
Proof.
  intros Hb Hm Ho. unfold convert_dispatch_config. rewrite HrxDispatchConfig_load.
  destruct (triple_typed (from + 0) mem Hb) as (count & -> & Hc); [lia|].
  destruct (triple_typed (from + 12) mem Hb) as (size & -> & Hs); [lia|].
  cbn [to_hal_config]. unfold new_static.
  assert (Hty : typed iree_hal_dispatch_config_repr (new_static size count) = true).
  { unfold new_static, iree_hal_dispatch_config_repr. cbn [typed typed_fields snd] in *. by rewrite Hs, Hc. }
  assert (Hf : forall i name o t v, fields_of iree_hal_dispatch_config_repr !! i = Some (name, o, t) ->
    [VList size; VList count; buffer_ref_make null 0 0; VInt 0; VInt 0] !! i = Some v ->
    load t (to + o) (store iree_hal_dispatch_config_repr (new_static size count) to out) = v).
  { intros. by eapply load_field. }
  split; [by eapply (Hf 0%nat)|]. split; [by eapply (Hf 1%nat)|].
  split; [by eapply (Hf 2%nat)|]. split; [by eapply (Hf 3%nat)|].
  exact (store_within iree_hal_dispatch_config_repr eq_refl _ to out Hty).
Qed.

(** A setter: the field reads back, the bytes around it stay, and so do other fields. *)
Lemma set_field t v off bytes :
  well_formed t = true -> typed t v = true -> (off + size_of t <= length bytes)%nat ->
  load t off (store t v off bytes) = v
  /\ within off (size_of t) bytes (store t v off bytes)
  /\ forall u o, well_formed u = true -> (o + size_of u <= off \/ off + size_of t <= o)%nat ->
     load u o (store t v off bytes) = load u o bytes.
Proof.
  intros Ht Hv Hl. pose proof (store_within t Ht v off bytes Hv) as Hw.
  split; [by apply load_store|]. split; [done|]. intros u o Hu Hd. by eapply load_within.
Qed.

Definition is_u64 (z : Z) : bool := (0 <=? z) && (z <? 2 ^ 64).

Lemma pair_typed name1 name2 a b :
  is_u64 a = true -> is_u64 b = true ->
  typed (repr_C [(name1, pointer); (name2, usize)]) (VList [VInt a; VInt b]) = true.
Proof. unfold is_u64. intros Ha Hb. cbn [typed typed_fields snd pointer usize]. change (bits 8) with 64.
  by rewrite Ha, Hb. Qed.

Lemma executable_params_filled format format_size data data_size bytes :
  is_u64 format = true -> is_u64 format_size = true -> is_u64 data = true -> is_u64 data_size = true ->
  length bytes = 64%nat ->
  let p := fill_executable_params format format_size data data_size bytes in
  load iree_string_view_repr 16 p = VList [VInt format; VInt format_size]
  /\ load iree_const_byte_span_repr 32 p = VList [VInt data; VInt data_size]
  /\ load u32 8 p = VInt 0 /\ length p = length bytes
  /\ forall i, (i < 8 \/ 12 <= i < 16 \/ 48 <= i)%nat -> p !! i = bytes !! i.
Proof.
  intros Hf Hfs Hd Hds Hl. unfold fill_executable_params, set_caching_mode, set_executable_data, set_executable_format.
  destruct (set_field iree_string_view_repr _ 16 bytes eq_refl (pair_typed "data" "size" _ _ Hf Hfs))
    as (L1 & [E1 W1] & _); [rewrite Hl; vm_compute; lia|].
  set (b1 := store iree_string_view_repr _ _ _) in *.
  destruct (set_field iree_const_byte_span_repr _ 32 b1 eq_refl (pair_typed "data" "data_length" _ _ Hd Hds))
    as (L2 & [E2 W2] & F2); [rewrite E1, Hl; vm_compute; lia|].
  set (b2 := store iree_const_byte_span_repr _ _ _) in *.
  destruct (set_field u32 (VInt 0) 8 b2 eq_refl eq_refl) as (L3 & [E3 W3] & F3);
    [rewrite E2, E1, Hl; vm_compute; lia|].
  set (b3 := store u32 _ _ _) in *.
  change (size_of iree_string_view_repr) with 16%nat in *. change (size_of iree_const_byte_span_repr) with 16%nat in *.
  change (size_of u32) with 4%nat in *.
  split; [rewrite F3, F2; [done|done|change (size_of iree_string_view_repr) with 16%nat; lia|done|
          change (size_of iree_string_view_repr) with 16%nat; lia]|].
  split; [rewrite F3; [done|done|lia]|]. split; [done|]. split; [congruence|].
  intros i Hi. by rewrite W3, W2, W1 by lia.
Qed.

(** The value of a type that zero bytes hold. *)
Fixpoint zero_value (t : ctype) : value :=
  match t with
  | Uint _ | Sint _ => VInt 0
  | Array t n => VList (replicate n (zero_value t))
  | Struct _ fs => VList ((fun f => zero_value f.2) <$> fs)
  end.

Definition zero_at (base n : nat) (mem : list Z) : Prop :=
  forall i, (base <= i < base + n)%nat -> mem !! i = Some 0.

Lemma zero_at_sub base n o k mem :
  zero_at base n mem -> (o + k <= n)%nat -> zero_at (base + o) k mem.
Proof. intros H Hk i Hi. apply H. lia. Qed.

Lemma le_value_zero_at base n mem : zero_at base n mem -> le_value (bytes_at base n mem) = 0.
Proof.
  intros H. assert (Forall (eq 0) (bytes_at base n mem)) as HF.
  { apply Forall_lookup. intros i z Hi. unfold bytes_at in Hi.
    apply lookup_take_Some in Hi as [Hi Hlt]. rewrite lookup_drop, H in Hi by lia. by simplify_eq. }
  induction HF as [|? ? <- _ IH]; simpl; [done|lia].
Qed.

Lemma place_zero off fs :
  (fun f => zero_value f.2) <$> place off fs = (fun f => zero_value f.2) <$> fs.
Proof. revert off. induction fs as [|[n t] fs IH]; intros off; simpl; [done|]. by rewrite IH. Qed.

Lemma load_zero t : well_formed t = true -> forall base mem,
  zero_at base (size_of t) mem -> load t base mem = zero_value t.
Proof.
  induction t as [w|w|t n IH|a fs IH] using ctype_nested_ind; intros Hwf base mem Hz; cbn [load zero_value].
  - by rewrite le_value_zero_at.
  - rewrite le_value_zero_at by done. unfold to_signed. pose proof (align_pos _ Hwf) as Hw.
    change (align_of (Sint w)) with w in Hw. pose proof (Z.pow_pos_nonneg 2 (bits w - 1)) as Hp.
    unfold bits in *. destruct (Z.ltb_spec 0 (2 ^ (8 * Z.of_nat w - 1))); [done|lia].
  - f_equal. symmetry. apply replicate_as_Forall. rewrite length_fmap, length_seq. split; [done|].
    apply Forall_fmap, Forall_seq. intros i Hi. simpl. symmetry. apply IH; [done|].
    eapply zero_at_sub; [exact Hz|]. change (size_of (Array t n)) with (n * size_of t)%nat. nia.
  - f_equal. pose proof (fields_fit a fs Hwf) as Hfit. apply well_formed_struct in Hwf as [_ Hfs].
    destruct (place_spec 0 fs Hfs) as [Hall _]. rewrite load_fields_place, <- (place_zero 0).
    apply list_fmap_ext. intros i [[name o] ft] Hi%list_elem_of_lookup_2. rewrite Forall_forall in Hall.
    pose proof (proj1 (Forall_forall _ _) Hfs) as Hwf.
    destruct (Hall _ Hi) as (_ & _ & ?). apply list_elem_of_In, place_types, list_elem_of_In in Hi.
    apply (proj1 (Forall_forall _ _) IH _ Hi (Hwf _ Hi)). eapply zero_at_sub; [exact Hz|]. simpl in *. lia.
Qed.

Lemma zero_constructors_zero :
  Forall (fun c => well_formed c.1 = true /\ c.2 = zero_value c.1) zero_constructors.
Proof. repeat constructor. Qed.

Lemma strlen_terminated s rest : 0 ∉ s -> strlen (s ++ 0 :: rest) = Some (Z.of_nat (length s)).
Proof.
  induction s as [|c s IH]; simpl; [done|]. intros [Hc Hs]%not_elem_of_cons.
  destruct (Z.eqb_spec c 0); [done|]. rewrite IH by done. simpl. f_equal. lia.
Qed.

Lemma default_opts_stored base mem :
  (base + size_of iree_async_frontier_tracker_options_repr <= length mem)%nat ->
  let mem' := store iree_async_frontier_tracker_options_repr default_opts base mem in
  load u32 (base + 0) mem' = VInt 256 /\ load u8 (base + 4) mem' = VInt 1 /\ load u8 (base + 5) mem' = VInt 0.
Proof.
  intros Hl mem'.
  assert (Hf : forall i name o t v,
    fields_of iree_async_frontier_tracker_options_repr !! i = Some (name, o, t) ->
    [VInt 256; VInt 1; VInt 0; VList [VInt 0; VInt 0]] !! i = Some v -> load t (base + o) mem' = v).
  { intros. by eapply load_field. }
  split; [by eapply (Hf 0%nat)|]. split; [by eapply (Hf 1%nat)|by eapply (Hf 2%nat)].
Qed.

(** C29: What libhrx writes into option blocks by offset arrives as meant.  The block of
    executable parameters, whatever IREE's initializer left in it, afterwards reads the
    format, the data and caching mode 0 at the offsets the setters use, with every other
    byte unchanged; the worker stack size and the proactor pool are set the same way
    without touching the rest of their blocks; and a client's dispatch configuration,
    which lists counts before sizes, arrives at IREE with sizes before counts and an
    empty indirect reference.  The values built for IREE to fill in or to take as empty
    are exactly what zero bytes hold; the frontier tracker's options read capacity 256,
    epoch 1, machine 0; and a view of a C string has the length up to its first NUL, and
    of a null pointer length 0. *)
Theorem option_blocks_are_filled :
  (forall format format_size data data_size bytes,
     is_u64 format = true -> is_u64 format_size = true -> is_u64 data = true -> is_u64 data_size = true ->
     length bytes = size_of iree_hal_executable_params_repr ->
     let p := fill_executable_params format format_size data data_size bytes in
     load iree_string_view_repr 16 p = VList [VInt format; VInt format_size]
     /\ load iree_const_byte_span_repr 32 p = VList [VInt data; VInt data_size]
     /\ load u32 8 p = VInt 0 /\ length p = length bytes
     /\ forall i, (i < 8 \/ 12 <= i < 16 \/ 48 <= i)%nat -> p !! i = bytes !! i)
  /\ (forall v bytes, is_u64 v = true -> length bytes = size_of iree_task_executor_options_repr ->
     load usize 24 (set_worker_stack_size v bytes) = VInt v
     /\ within 24 8 bytes (set_worker_stack_size v bytes))
  /\ (forall pool bytes, is_u64 pool = true -> length bytes = size_of iree_hal_device_create_params_repr ->
     load pointer 8 (set_proactor_pool pool bytes) = VInt pool
     /\ within 8 8 bytes (set_proactor_pool pool bytes))
  /\ (forall from mem to out,
     Forall is_byte mem -> (from + size_of HrxDispatchConfig_repr <= length mem)%nat ->
     (to + size_of iree_hal_dispatch_config_repr <= length out)%nat ->
     let out' := convert_dispatch_config from mem to out in
     load (Array u32 3) (to + 0) out' = load (Array u32 3) (from + 12) mem
     /\ load (Array u32 3) (to + 12) out' = load (Array u32 3) (from + 0) mem
     /\ load iree_hal_buffer_ref_repr (to + 24) out' = buffer_ref_make null 0 0
     /\ load u32 (to + 56) out' = VInt 0
     /\ within to 64 out out')
  /\ (forall t v base mem, In (t, v) zero_constructors ->
     zero_at base (size_of t) mem -> load t base mem = v)
  /\ (forall base mem,
     (base + size_of iree_async_frontier_tracker_options_repr <= length mem)%nat ->
     let mem' := store iree_async_frontier_tracker_options_repr default_opts base mem in
     load u32 (base + 0) mem' = VInt 256 /\ load u8 (base + 4) mem' = VInt 1
     /\ load u8 (base + 5) mem' = VInt 0)
  /\ (forall p s before rest, 0 < p -> length before = Z.to_nat p -> 0 ∉ s ->
     string_view_cstr_raw p (before ++ s ++ 0 :: rest) = Some (string_view_cstr p s))
  /\ (forall mem, string_view_cstr_raw null mem = Some (string_view_cstr null [])).
Proof.
  split; [exact executable_params_filled|split; [|split; [|split; [exact dispatch_config_crosses|]]]].
  - intros v bytes Hv Hl. destruct (set_field usize (VInt v) 24 bytes eq_refl Hv) as (? & ? & _); [|done].
    rewrite Hl. vm_compute. lia.
  - intros v bytes Hv Hl. destruct (set_field pointer (VInt v) 8 bytes eq_refl Hv) as (? & ? & _); [|done].
    rewrite Hl. vm_compute. lia.
  - split; [|split; [exact default_opts_stored|split; [|done]]].
    + intros t v base mem Hin Hz. pose proof zero_constructors_zero as HF. rewrite Forall_forall in HF.
      destruct (HF _ (proj2 (list_elem_of_In _ _) Hin)) as [Hwf Hv]. simpl in *. subst v. by apply load_zero.
    + intros p s before rest Hp Hb Hs. unfold string_view_cstr_raw, is_null.
      destruct (Z.eqb_spec p 0); [lia|]. by rewrite drop_app_length', strlen_terminated.
Qed.

(** ** Concrete instances *)

(** Buffer parameters stored at offset 3 into memory filled with 170. *)
Definition sample_params : iree_hal_buffer_params_t := BufferParams 3 7 16 U64_MAX 256.
Definition sample_memory : list Z := replicate 40 170.

Lemma stored_fields_are_read_at_the_probed_offsets_witness :
  exists i v, fields_of iree_hal_buffer_params_repr !! i = Some ("access", 4%nat, uint16_t)
    /\ Some v = Some (VInt 7)
    /\ load uint16_t (3 + 4) (store iree_hal_buffer_params_repr (buffer_params_value sample_params) 3 sample_memory) = v.
Proof.
  destruct (stored_fields_are_read_at_the_probed_offsets iree_hal_buffer_params_repr (Some 32%nat)
    [("usage", 0%nat, uint32_t); ("access", 4%nat, uint16_t); ("type_", 8%nat, uint32_t);
     ("queue_affinity", 16%nat, uint64_t); ("min_alignment", 24%nat, uint64_t)]
    "access" 4 uint16_t [VInt 3; VInt 7; VInt 0; VInt 16; VInt 0; VInt U64_MAX; VInt 256] 3 sample_memory)
    as (_ & i & v & Hi & Hv & Hr & _).
  - left. reflexivity.
  - right. left. reflexivity.
  - vm_compute. reflexivity.
  - vm_compute. lia.
  - exists i, v. split; [exact Hi|]. split; [|exact Hr]. rewrite <- Hv.
    do 7 (destruct i as [|i]; [first [discriminate Hi|reflexivity]|]). discriminate Hi.
Defined.

Lemma option_blocks_are_filled_witness :
  load iree_string_view_repr 16 (fill_executable_params 4096 11 8192 500 (replicate 64 170))
    = VList [VInt 4096; VInt 11]
  /\ fill_executable_params 4096 11 8192 500 (replicate 64 170) !! 50%nat = Some 170.
Proof.
  destruct option_blocks_are_filled as [H _].
  destruct (H 4096 11 8192 500 (replicate 64 170) eq_refl eq_refl eq_refl eq_refl eq_refl)
    as (H1 & _ & _ & _ & H5).
  split; [exact H1|]. rewrite H5; [reflexivity|]. right. right. lia.
Defined.
