(* ===== verification/MiriMock.v ===== *)
(** * The test double of IREE's reference counting: crates/iree-sys/src/mock.rs

    Under Miri the retain and release functions of fences, buffers and pools are
    replaced by an in-memory reference count, and Miri reports a use of a freed node
    as undefined behaviour and a node alive at the end as a leak.  The model has the
    mock's heap, the shims, and programs over the wrappers of crates/iree-hal that
    run on it. *)

From S2P Require Import Prelude.

(** ** The mock *)

(** [MockHandle] nodes by address with their [count]; addresses are not reused. *)
Record mock : Type := Mock { m_nodes : gmap Z Z; m_minted : nat }.

Definition mock_empty : mock := Mock ∅ 0.

Definition address (n : nat) : ptr := 16 * (Z.of_nat n + 1).

Definition new_handle (m : mock) : ptr * mock :=
  let h := address (m_minted m) in (h, Mock (<[h := 1]> (m_nodes m)) (S (m_minted m))).

(** [None]: a freed or foreign node is accessed, which Miri reports. *)
Definition retain (h : ptr) (m : mock) : option mock :=
  if is_null h then Some m
  else c ← m_nodes m !! h; Some (Mock (<[h := wrap_i32 (c + 1)]> (m_nodes m)) (m_minted m)).

Definition release (h : ptr) (m : mock) : option mock :=
  if is_null h then Some m
  else
    c ← m_nodes m !! h;
    if c =? 1 then Some (Mock (delete h (m_nodes m)) (m_minted m))
    else Some (Mock (<[h := wrap_i32 (c - 1)]> (m_nodes m)) (m_minted m)).

(** The shims of init.rs and fem.rs. *)
Definition iree_hal_pool_retain_shim (pool : ptr) : mock -> option mock := retain pool.
Definition iree_hal_pool_release_shim (pool : ptr) : mock -> option mock := release pool.
Definition iree_hal_buffer_retain_shim (buffer : ptr) : mock -> option mock := retain buffer.
Definition iree_hal_buffer_release_shim (buffer : ptr) : mock -> option mock := release buffer.
Definition iree_hal_fence_retain_shim (fence : ptr) : mock -> option mock := retain fence.
Definition iree_hal_fence_release_shim (fence : ptr) : mock -> option mock := release fence.

(** ** Programs of mock calls *)

Inductive mock_op : Set := MNew | MRetain (h : ptr) | MRelease (h : ptr).

Definition mock_step (op : mock_op) (m : mock) : option mock :=
  match op with
  | MNew => Some (new_handle m).2
  | MRetain h => retain h m
  | MRelease h => release h m
  end.

Definition mock_run (p : list mock_op) : option mock :=
  foldl (fun s op => s ≫= mock_step op) (Some mock_empty) p.

(** What Miri accepts: no undefined behaviour and nothing left allocated. *)
Definition miri_clean (p : list mock_op) : Prop :=
  exists m, mock_run p = Some m /\ m_nodes m = ∅.

(** ** The specification: counting references *)

#[export] Instance mock_op_eq_dec : EqDecision mock_op.
Proof. solve_decision. Defined.

Definition minted (p : list mock_op) : nat := length (filter (eq MNew) p).

(** References to [h] handed out over a program, [n] handles having been minted before. *)
Fixpoint refs_from (n : nat) (h : ptr) (p : list mock_op) : Z :=
  match p with
  | [] => 0
  | MNew :: p => (if address n =? h then 1 else 0) + refs_from (S n) h p
  | MRetain k :: p => (if k =? h then 1 else 0) + refs_from n h p
  | MRelease k :: p => (if k =? h then -1 else 0) + refs_from n h p
  end.

Definition refs (h : ptr) (p : list mock_op) : Z := refs_from 0 h p.

Definition touches (op : mock_op) : option ptr :=
  match op with MNew => None | MRetain h | MRelease h => if is_null h then None else Some h end.

(** Every retain and release happens while a reference is held. *)
Definition scoped (p : list mock_op) : Prop :=
  forall before op after h, p = before ++ op :: after -> touches op = Some h -> 0 < refs h before.

Definition balanced (p : list mock_op) : Prop :=
  scoped p /\ forall h, h <> null -> refs h p = 0.

(** ** The mock finds exactly the imbalances *)

Definition op_delta (n : nat) (h : ptr) (op : mock_op) : Z :=
  match op with
  | MNew => if address n =? h then 1 else 0
  | MRetain k => if k =? h then 1 else 0
  | MRelease k => if k =? h then -1 else 0
  end.

Lemma refs_from_snoc h p op : forall n,
  refs_from n h (p ++ [op]) = refs_from n h p + op_delta (n + minted p) h op.
Proof.
  unfold minted. induction p as [|o p IH]; intros n.
  { rewrite Nat.add_0_r. destruct op; simpl; lia. }
  destruct o; cbn [app refs_from]; rewrite IH, filter_cons.
  - rewrite decide_True by done. simpl. replace (n + S (length (filter (eq MNew) p)))%nat
      with (S n + length (filter (eq MNew) p))%nat by lia. simpl. lia.
  - rewrite decide_False by done. lia.
  - rewrite decide_False by done. lia.
Qed.

Lemma refs_snoc h p op : refs h (p ++ [op]) = refs h p + op_delta (minted p) h op.
Proof. apply (refs_from_snoc h p op 0). Qed.

Lemma mock_run_snoc p op : mock_run (p ++ [op]) = mock_run p ≫= mock_step op.
Proof. unfold mock_run. by rewrite foldl_app. Qed.

Lemma minted_snoc p op : minted (p ++ [op]) = (minted p + if decide (MNew = op) then 1 else 0)%nat.
Proof.
  unfold minted. rewrite filter_app, length_app. f_equal. rewrite filter_cons, filter_nil.
  by destruct (decide (MNew = op)).
Qed.

Lemma scoped_snoc p op :
  scoped (p ++ [op]) <-> scoped p /\ forall h, touches op = Some h -> 0 < refs h p.
Proof.
  split.
  - intros H. split; [|intros h Hh; by eapply (H p op []) ].
    intros b o a h -> Hh. eapply (H b o (a ++ [op])); [|done]. by rewrite <- app_assoc.
  - intros [H Hop] b o a h E Hh. destruct a as [|x a _] using rev_ind.
    + apply app_inj_tail in E as [<- <-]. by apply Hop.
    + rewrite app_comm_cons, app_assoc in E. apply app_inj_tail in E as [-> _]. by eapply H.
Qed.

(** The heap after a program: each live node with its number of references. *)
Definition node_of (r : Z) : option Z := if 0 <? r then Some r else None.

Definition exact (p : list mock_op) (m : mock) : Prop :=
  (m_minted m = minted p /\ m_nodes m !! null = None)
  /\ (forall n, (minted p <= n)%nat -> refs (address n) p = 0)
  /\ forall h, h <> null -> 0 <= refs h p <= Z.of_nat (length p) /\ m_nodes m !! h = node_of (refs h p).

Lemma address_nonnull n : address n <> null.
Proof. unfold address, null. lia. Qed.

Lemma address_inj n k : address n = address k -> n = k.
Proof. unfold address. lia. Qed.

Lemma wrap_i32_small z : 0 <= z <= I32_MAX -> wrap_i32 z = z.
Proof. unfold wrap_i32, I32_MAX. intros. rewrite Z.mod_small; lia. Qed.

Lemma exact_new p m :
  exact p m -> exact (p ++ [MNew]) (new_handle m).2.
Proof.
  intros ([Hm H0] & Hn & Hx). unfold exact. rewrite minted_snoc, length_app. simpl.
  split; [split; [lia|rewrite lookup_insert_ne; [done|apply address_nonnull]]|]. split.
  - intros n Hge. rewrite refs_snoc, Hn by lia. simpl.
    destruct (Z.eqb_spec (address (minted p)) (address n)) as [E%address_inj|]; lia.
  - intros h Hh. rewrite refs_snoc, Hm. simpl. destruct (Hx h Hh) as [Hr Hl].
    destruct (Z.eqb_spec (address (minted p)) h) as [E|E].
    + subst h. rewrite Hn, lookup_insert_eq in * by lia. split; [lia|done].
    + rewrite lookup_insert_ne by done. rewrite Z.add_0_r. split; [lia|done].
Qed.

(** A retain or release of a live node moves its count by one. *)
Lemma exact_touch p m op k nodes :
  exact p m -> touches op = Some k -> 0 < refs k p ->
  nodes !! k = node_of (refs k (p ++ [op])) ->
  (forall h, h <> k -> nodes !! h = m_nodes m !! h) ->
  exact (p ++ [op]) (Mock nodes (m_minted m)).
Proof.
  intros ([Hm H0] & Hn & Hx) Ht Hpos Hk Hother.
  assert (Hnn : null <> k).
  { intros <-. destruct op as [|j|j]; simpl in Ht; [done| |]; destruct (is_null j) eqn:E; simplify_eq.
    all: by apply Z.eqb_neq in E. }
  assert (Hd : forall h, op_delta (minted p) h op = (if k =? h then op_delta (minted p) k op else 0)
    /\ -1 <= op_delta (minted p) k op <= 1).
  { intros h. destruct op as [|j|j]; simpl in Ht; [done| |]; destruct (is_null j); simplify_eq.
    all: simpl; rewrite Z.eqb_refl; destruct (k =? h); lia. }
  assert (E : minted (p ++ [op]) = minted p).
  { rewrite minted_snoc. destruct (decide (MNew = op)); [by subst op|lia]. }
  unfold exact. rewrite E. split; [split; [done|by rewrite Hother]|]. split.
  - intros n Hge. rewrite refs_snoc, (Hn n Hge). destruct (Hd (address n)) as [-> _].
    destruct (Z.eqb_spec k (address n)) as [->|]; [|done]. rewrite (Hn n Hge) in Hpos. lia.
  - intros h Hh. destruct (Hx h Hh) as [Hr Hl]. rewrite length_app. simpl.
    destruct (decide (h = k)) as [->|Hne].
    + split; [|done]. rewrite refs_snoc. destruct (Hd k). lia.
    + rewrite Hother by done. rewrite refs_snoc. destruct (Hd h) as [-> _].
      destruct (Z.eqb_spec k h); [congruence|]. rewrite Z.add_0_r. split; [lia|done].
Qed.

(** A call on null changes nothing. *)
Lemma exact_null p m op : op <> MNew -> touches op = None -> exact p m -> exact (p ++ [op]) m.
Proof.
  intros Hop Ht (Hm & Hn & Hx).
  assert (Hd : forall h, h <> null -> op_delta (minted p) h op = 0).
  { intros h Hh. destruct op as [|j|j]; [done| |]; simpl in *; destruct (is_null j) eqn:E; try done.
    all: bool_to_prop; subst j; unfold null in Hh; destruct (Z.eqb_spec 0 h); [congruence|done]. }
  unfold exact. rewrite minted_snoc, decide_False, Nat.add_0_r, length_app by done.
  split; [done|]. split.
  - intros n Hge. rewrite refs_snoc, (Hn n Hge), Hd; [done|apply address_nonnull].
  - intros h Hh. rewrite refs_snoc, Hd, Z.add_0_r by done. destruct (Hx h Hh). split; [simpl; lia|done].
Qed.

Lemma mock_step_exact p m op :
  exact p m -> Z.of_nat (length p) < I32_MAX ->
  match mock_step op m with
  | Some m' => (forall h, touches op = Some h -> 0 < refs h p) /\ exact (p ++ [op]) m'
  | None => exists h, touches op = Some h /\ ~ 0 < refs h p
  end.
Proof.
  intros Hx Hlen. destruct op as [|k|k]; simpl; [split; [done|by apply exact_new]| |].
  all: unfold retain, release; destruct (is_null k) eqn:Ek;
    [split; [done|]; apply exact_null; simpl; [done|by rewrite Ek|done]|].
  all: assert (Hk : k <> null) by by bool_to_prop.
  all: destruct Hx as (Hm & Hn & Hh); destruct (Hh k Hk) as [Hr Hl]; rewrite Hl; unfold node_of in *.
  all: destruct (Z.ltb_spec 0 (refs k p)); simpl; [|exists k; split; [done|lia]].
  - split; [by intros ? [= <-]|]. eapply exact_touch; simpl.
    + done.
    + simpl. by rewrite Ek.
    + done.
    + rewrite lookup_insert_eq, refs_snoc. simpl. rewrite Z.eqb_refl, wrap_i32_small by lia.
      unfold node_of. by destruct (Z.ltb_spec 0 (refs k p + 1)); [|lia].
    + intros h Hne. by rewrite lookup_insert_ne.
  - destruct (Z.eqb_spec (refs k p) 1) as [E|E].
    all: split; [by intros ? [= <-]|]; eapply exact_touch; simpl; [done|by rewrite Ek|done| |].
    + rewrite lookup_delete_eq, refs_snoc. simpl. by rewrite Z.eqb_refl, E.
    + intros h Hne. by rewrite lookup_delete_ne.
    + rewrite lookup_insert_eq, refs_snoc. simpl. rewrite Z.eqb_refl, wrap_i32_small by lia.
      unfold node_of. destruct (Z.ltb_spec 0 (refs k p + -1)); [done|lia].
    + intros h Hne. by rewrite lookup_insert_ne.
Qed.

Lemma mock_run_exact p :
  Z.of_nat (length p) <= I32_MAX ->
  match mock_run p with Some m => scoped p /\ exact p m | None => ~ scoped p end.
Proof.
  induction p as [|op p IH] using rev_ind; intros Hlen.
  { split; [by intros [|] ? ? ?|]. split; [done|]. by split. }
  rewrite length_app in Hlen. simpl in Hlen. rewrite mock_run_snoc.
  specialize (IH ltac:(lia)). destruct (mock_run p) as [m|]; simpl; [|rewrite scoped_snoc; tauto].
  destruct IH as [Hs Hx]. pose proof (mock_step_exact p m op Hx ltac:(lia)) as Hstep.
  destruct (mock_step op m) as [m'|]; rewrite scoped_snoc; [by destruct Hstep|].
  destruct Hstep as (h & Ht & Hno). intros [_ H]. by apply Hno, H.
Qed.

(** ** Wrappers on the mock *)

(** The wrapper types of crates/iree-hal whose retain and release have shims. *)
Inductive wrapper : Set := HalFence | HalBuffer | HalPool.

(** The values a program owns: wrappers, and raw pointers taken out of a buffer. *)
Record wstate : Type := WState { ws_mock : mock; ws_owned : list (wrapper * ptr); ws_raw : list ptr }.

Definition ws_empty : wstate := WState mock_empty [] [].

(** Mint a handle and wrap it, clone a fence, drop a wrapper, turn a buffer into a raw
    pointer, release a raw pointer.  Values are named by their position. *)
Inductive wrapper_op : Set :=
  | WMint (w : wrapper) | WClone (i : nat) | WDrop (i : nat) | WIntoRaw (i : nat) | WReleaseRaw (i : nat).

(** [Rejected]: not a program the borrow checker accepts.  [Reported]: Miri reports
    undefined behaviour. *)
Inductive outcome : Type := Rejected | Reported | Ran (s : wstate).

Definition after (r : option mock) (k : mock -> wstate) : outcome :=
  match r with None => Reported | Some m => Ran (k m) end.

Definition shim_release (w : wrapper) : ptr -> mock -> option mock :=
  match w with
  | HalFence => iree_hal_fence_release_shim
  | HalBuffer => iree_hal_buffer_release_shim
  | HalPool => iree_hal_pool_release_shim
  end.

Definition wrapper_step (op : wrapper_op) (s : wstate) : outcome :=
  match op with
  | WMint w =>
      let '(h, m) := new_handle (ws_mock s) in
      (* [from_owned(..).expect(..)]: the handle is not null *)
      if is_null h then Reported else Ran (WState m (ws_owned s ++ [(w, h)]) (ws_raw s))
  | WClone i =>
      match ws_owned s !! i with
      | Some (HalFence, h) =>
          after (iree_hal_fence_retain_shim h (ws_mock s))
            (fun m => WState m (ws_owned s ++ [(HalFence, h)]) (ws_raw s))
      | _ => Rejected
      end
  | WDrop i =>
      match ws_owned s !! i with
      | Some (w, h) =>
          after (shim_release w h (ws_mock s)) (fun m => WState m (delete i (ws_owned s)) (ws_raw s))
      | None => Rejected
      end
  | WIntoRaw i =>
      match ws_owned s !! i with
      | Some (HalBuffer, h) => Ran (WState (ws_mock s) (delete i (ws_owned s)) (ws_raw s ++ [h]))
      | _ => Rejected
      end
  | WReleaseRaw i =>
      match ws_raw s !! i with
      | Some h => after (release h (ws_mock s)) (fun m => WState m (ws_owned s) (delete i (ws_raw s)))
      | None => Rejected
      end
  end.

Fixpoint wrapper_run (p : list wrapper_op) (s : wstate) : outcome :=
  match p with
  | [] => Ran s
  | op :: p => match wrapper_step op s with Ran s => wrapper_run p s | o => o end
  end.

(** Everyone who owes a release. *)
Definition owners (s : wstate) : list ptr := (ws_owned s).*2 ++ ws_raw s.

Definition occurrences (h : ptr) (l : list ptr) : Z := Z.of_nat (count_occ Z.eq_dec l h).

(** Each live node counts its owners; null and handles yet to be minted have none. *)
Definition counted (m : mock) (l : list ptr) : Prop :=
  (forall h, m_nodes m !! h = node_of (occurrences h l))
  /\ (forall n, (m_minted m <= n)%nat -> occurrences (address n) l = 0)
  /\ occurrences null l = 0.

#[export] Instance occurrences_perm h : Proper ((≡ₚ) ==> (=)) (occurrences h).
Proof.
  intros l l' H. unfold occurrences. f_equal. by apply (Permutation_count_occ Z.eq_dec).
Qed.

#[export] Instance counted_perm m : Proper ((≡ₚ) ==> iff) (counted m).
Proof. intros l l' H. unfold counted. by setoid_rewrite H. Qed.

Lemma occurrences_cons x h l : occurrences x (h :: l) = (if decide (h = x) then 1 else 0) + occurrences x l.
Proof. unfold occurrences. simpl. destruct (Z.eq_dec h x), (decide (h = x)); try done; lia. Qed.

Lemma occurrences_range h l : 0 <= occurrences h l <= Z.of_nat (length l).
Proof. unfold occurrences. pose proof (count_occ_bound Z.eq_dec h l). lia. Qed.

Lemma counted_new m l : counted m l -> counted (new_handle m).2 ((new_handle m).1 :: l).
Proof.
  intros (Hc & Hn & H0). simpl. split; [|split].
  - intros h. rewrite occurrences_cons. simpl. destruct (decide (address (m_minted m) = h)) as [<-|Hne].
    + rewrite lookup_insert_eq, Hn by lia. done.
    + by rewrite lookup_insert_ne.
  - simpl. intros n Hge. rewrite occurrences_cons, Hn by lia.
    destruct (decide _) as [E%address_inj|]; lia.
  - rewrite occurrences_cons, H0. destruct (decide _) as [E|]; [by apply address_nonnull in E|done].
Qed.

(** An owned handle is a live node. *)
Lemma counted_owner m h l :
  counted m (h :: l) ->
  is_null h = false /\ m_nodes m !! h = Some (1 + occurrences h l).
Proof.
  intros (Hc & _ & H0). split.
  - rewrite occurrences_cons in H0. pose proof (occurrences_range null l). unfold is_null, null in *.
    destruct (Z.eqb_spec h 0); [|done]. subst h. destruct (decide _); [lia|done].
  - rewrite Hc, occurrences_cons. unfold node_of. destruct (decide (h = h)); [|done].
    pose proof (occurrences_range h l). destruct (Z.ltb_spec 0 (1 + occurrences h l)); [done|lia].
Qed.

Lemma counted_retain m h l :
  counted m (h :: l) -> Z.of_nat (S (length l)) < I32_MAX ->
  exists m', retain h m = Some m' /\ counted m' (h :: h :: l).
Proof.
  intros Hc Hlen. destruct (counted_owner _ _ _ Hc) as [Hnull Hnode]. unfold retain.
  rewrite Hnull, Hnode. eexists. split; [reflexivity|]. destruct Hc as (Hc & Hn & H0).
  pose proof (occurrences_range h l). split; [|split].
  - intros x. rewrite !occurrences_cons. simpl. specialize (Hc x). rewrite occurrences_cons in Hc.
    destruct (decide (h = x)) as [<-|Hne]; [|by rewrite lookup_insert_ne].
    rewrite lookup_insert_eq, wrap_i32_small by lia. unfold node_of.
    destruct (Z.ltb_spec 0 (1 + (1 + occurrences h l))); [f_equal; lia|lia].
  - intros n Hge. specialize (Hn n Hge). rewrite !occurrences_cons in *.
    pose proof (occurrences_range (address n) l). destruct (decide _); lia.
  - rewrite !occurrences_cons in *. pose proof (occurrences_range null l). destruct (decide _); lia.
Qed.

Lemma counted_release m h l :
  counted m (h :: l) -> Z.of_nat (length l) < I32_MAX ->
  exists m', release h m = Some m' /\ counted m' l.
Proof.
  intros Hc Hlen. destruct (counted_owner _ _ _ Hc) as [Hnull Hnode]. unfold release.
  rewrite Hnull, Hnode. simpl. destruct Hc as (Hc & Hn & H0). pose proof (occurrences_range h l).
  assert (Hrest : (forall n, (m_minted m <= n)%nat -> occurrences (address n) l = 0) /\ occurrences null l = 0).
  { split; [intros n Hge; specialize (Hn n Hge)|].
    all: rewrite occurrences_cons in *.
    - pose proof (occurrences_range (address n) l). destruct (decide _); lia.
    - pose proof (occurrences_range null l). destruct (decide _); lia. }
  destruct (Z.eqb_spec (1 + occurrences h l) 1) as [E|E].
  all: eexists; split; [reflexivity|]; split; [|done].
  all: intros x; specialize (Hc x); rewrite occurrences_cons in Hc; simpl.
  - destruct (decide (h = x)) as [<-|]; [|by rewrite lookup_delete_ne].
    rewrite lookup_delete_eq. by replace (occurrences h l) with 0 by lia.
  - destruct (decide (h = x)) as [<-|]; [|by rewrite lookup_insert_ne].
    rewrite lookup_insert_eq, wrap_i32_small by lia. unfold node_of.
    destruct (Z.ltb_spec 0 (occurrences h l)); [f_equal; lia|lia].
Qed.

Lemma owners_push m s w h : owners (WState m (ws_owned s ++ [(w, h)]) (ws_raw s)) ≡ₚ h :: owners s.
Proof. unfold owners. simpl. rewrite fmap_app, <- app_assoc. simpl. by rewrite <- Permutation_middle. Qed.

Lemma owners_take s i w h :
  ws_owned s !! i = Some (w, h) -> owners s ≡ₚ h :: (delete i (ws_owned s)).*2 ++ ws_raw s.
Proof.
  intros H. unfold owners. rewrite (delete_Permutation _ _ _ H) at 1. done.
Qed.

Lemma owners_take_raw s i h :
  ws_raw s !! i = Some h -> owners s ≡ₚ h :: (ws_owned s).*2 ++ delete i (ws_raw s).
Proof.
  intros H. unfold owners. rewrite (delete_Permutation _ _ _ H) at 1. by rewrite <- Permutation_middle.
Qed.

Lemma shim_release_is_release w h m : shim_release w h m = release h m.
Proof. by destruct w. Qed.

Definition step_fine (s : wstate) (o : outcome) : Prop :=
  match o with
  | Rejected => True
  | Reported => False
  | Ran s' => counted (ws_mock s') (owners s') /\ (length (owners s') <= S (length (owners s)))%nat
  end.

(** A release by an owner [h], the remaining owners being those of [k m]. *)
Lemma after_release_fine s h l k :
  counted (ws_mock s) (owners s) -> Z.of_nat (length (owners s)) < I32_MAX ->
  owners s ≡ₚ h :: l -> (forall m, ws_mock (k m) = m /\ owners (k m) ≡ₚ l) ->
  step_fine s (after (release h (ws_mock s)) k).
Proof.
  intros Hc Hlen Ho Hk. rewrite Ho in Hc. pose proof (Permutation_length Ho) as Hl. simpl in Hl.
  destruct (counted_release _ _ _ Hc) as (m' & -> & Hc'); [lia|]. simpl.
  destruct (Hk m') as [-> El]. rewrite El. split; [done|lia].
Qed.

Lemma wrapper_step_fine op s :
  counted (ws_mock s) (owners s) -> Z.of_nat (length (owners s)) < I32_MAX -> step_fine s (wrapper_step op s).
Proof.
  intros Hc Hlen. destruct op as [w|i|i|i|i]; simpl.
  - destruct (is_null (address (m_minted (ws_mock s)))) eqn:E.
    { unfold is_null in E. apply Z.eqb_eq, address_nonnull in E as []. }
    simpl. rewrite owners_push. split; [by apply counted_new|done].
  - destruct (ws_owned s !! i) as [[[] h]|] eqn:Ei; try done.
    pose proof (owners_take _ _ _ _ Ei) as Ho. pose proof (Permutation_length Ho) as Hl. simpl in Hl.
    rewrite Ho in Hc. destruct (counted_retain _ _ _ Hc) as (m' & Hr & Hc'); [lia|].
    unfold iree_hal_fence_retain_shim. rewrite Hr. simpl. rewrite owners_push, Ho. split; [done|simpl; lia].
  - destruct (ws_owned s !! i) as [[w h]|] eqn:Ei; [|done]. rewrite shim_release_is_release.
    eapply after_release_fine; [done|done|by apply (owners_take s i w)|done].
  - destruct (ws_owned s !! i) as [[[] h]|] eqn:Ei; try done.
    pose proof (owners_take _ _ _ _ Ei) as Ho. simpl.
    assert (E : owners (WState (ws_mock s) (delete i (ws_owned s)) (ws_raw s ++ [h])) ≡ₚ owners s).
    { rewrite Ho. unfold owners. simpl. rewrite app_assoc. symmetry. apply Permutation_cons_append. }
    rewrite E. split; [done|lia].
  - destruct (ws_raw s !! i) as [h|] eqn:Ei; [|done].
    eapply after_release_fine; [done|done|by apply (owners_take_raw s i)|done].
Qed.

Lemma wrapper_run_fine p : forall s,
  counted (ws_mock s) (owners s) -> Z.of_nat (length (owners s) + length p) < I32_MAX ->
  match wrapper_run p s with
  | Rejected => True
  | Reported => False
  | Ran s' => counted (ws_mock s') (owners s')
  end.
Proof.
  induction p as [|op p IH]; intros s Hc Hlen; simpl; [done|]. simpl in Hlen.
  pose proof (wrapper_step_fine op s Hc ltac:(lia)) as Hs.
  destruct (wrapper_step op s) as [| |s']; [done|done|]. destruct Hs as [Hc' Hl]. apply IH; [done|lia].
Qed.

(** C38: The test double is an exact oracle, and the wrappers pass it.  A program of
    mock calls runs under Miri without a report of undefined behaviour and without a leak
    exactly when each retain and release happens while a reference is held and every
    reference is given back (counts stay below the range of the atomic counter).  Programs
    that create, clone, drop and take apart the wrappers of iree-hal are never reported;
    at any time each node counts exactly the wrappers and raw pointers that refer to it,
    and nothing is left when they are gone. *)
Theorem miri_reports_exactly_the_imbalances :
  (forall p, Z.of_nat (length p) <= I32_MAX -> (miri_clean p <-> balanced p))
  /\ (forall p, Z.of_nat (length p) < I32_MAX ->
      match wrapper_run p ws_empty with
      | Rejected => True
      | Reported => False
      | Ran s => (forall h, m_nodes (ws_mock s) !! h = node_of (occurrences h (owners s)))
                 /\ (owners s = [] -> m_nodes (ws_mock s) = ∅)
      end).
Proof.
  split.
  - intros p Hlen. pose proof (mock_run_exact p Hlen) as H. unfold miri_clean, balanced.
    destruct (mock_run p) as [m|]; [|split; [by intros (? & ? & _)|tauto]].
    destruct H as [Hs ([_ H0] & _ & Hx)]. split.
    + intros (? & [= <-] & E). split; [done|]. intros h Hh. destruct (Hx h Hh) as [? Hl].
      rewrite E, lookup_empty in Hl. unfold node_of in Hl. destruct (Z.ltb_spec 0 (refs h p)); [done|lia].
    + intros [_ Hz]. exists m. split; [done|]. apply map_empty. intros h.
      destruct (decide (h = null)) as [->|Hh]; [apply H0|]. destruct (Hx h Hh) as [_ ->]. by rewrite Hz.
  - intros p Hlen. pose proof (wrapper_run_fine p ws_empty) as H. simpl in H.
    destruct (wrapper_run p ws_empty) as [| |s]; [done|apply H; [|done]; by split|].
    destruct H as [Hc _]; [by split|done|]. split; [done|].
    intros E. apply map_empty. intros h. by rewrite Hc, E.
Qed.

(** ** The tests of iree-hal and a concrete run *)

Example fence_clone_retains_and_drops_balance :
  exists m, wrapper_run [WMint HalFence; WClone 0; WDrop 0; WDrop 0] ws_empty = Ran (WState m [] [])
    /\ m_nodes m = ∅.
Proof. eexists. split; vm_compute; reflexivity. Qed.

Example buffer_into_raw_transfers_without_releasing :
  exists m, wrapper_run [WMint HalBuffer; WIntoRaw 0] ws_empty = Ran (WState m [] [16]) /\ m_nodes m !! 16 = Some 1.
Proof. eexists. split; vm_compute; reflexivity. Qed.

Lemma miri_reports_exactly_the_imbalances_witness :
  miri_clean [MNew; MRetain 16; MRelease 16; MRelease 16]
  /\ ~ miri_clean [MNew; MRetain 16; MRelease 16]
  /\ mock_run [MNew; MRelease 16; MRelease 16] = None.
Proof.
  destruct miri_reports_exactly_the_imbalances as [H _].
  assert (B : forall p : list mock_op, Z.of_nat (length p) <= 10 -> Z.of_nat (length p) <= I32_MAX).
  { unfold I32_MAX. intros. lia. }
  split; [|split; [|vm_compute; reflexivity]].
  - eexists. split; vm_compute; reflexivity.
  - rewrite H by (apply B; vm_compute; discriminate). intros [_ E]. specialize (E 16 ltac:(discriminate)).
    vm_compute in E. discriminate E.
Defined.
