(* ===== verification/GpuEnumeration.v ===== *)
(** * The device loop of [hrx_gpu_initialize]

    The loop is written in the source with two cursors, [info_index] over the
    enumerated devices and [created], and leaves entries without a path out.
    [gpu_while] is that loop with its two cursors and explicit array accesses;
    [gpu_devices] of [Runtime] recurses over the list.  Here they are proved equal,
    and the loop to end after at most one pass with the devices it should make. *)

From S2P Require Import Prelude Iree Objects Machine Handle Status IreeHal Device Runtime Lifecycle Scenario Ownership StreamTimeline.

Section Loop.
Context `{IREE}.

(** The body of the loop for a physical device: the status that ends the loop or
    the new device. *)
Definition make_gpu_device (driver pool : ptr) (info : iree_hal_device_info_t) (info_index : Z)
  (created : nat) : M (Z + ptr) :=
  hal ← call (ffi_create (iree_hal_driver_create_device_by_ordinal driver info_index pool));
  if negb (status_is_ok (c_status hal)) then mret (inl (c_status hal))
  else
    group ← create_single_device_group (c_ptr hal);
    if negb (status_is_ok (c_status group)) then
      call (ffi_release iree_hal_device (c_ptr hal)) ;;
      mret (inl (c_status group))
    else
      hal_alloc ← call (ffi_get (iree_hal_device_allocator (c_ptr hal)));
      call (ffi_retain iree_hal_allocator hal_alloc) ;;
      arch ← gpu_architecture (c_ptr hal);
      dev ← build_device HRX_ACCELERATOR_GPU (wrap_i32 (Z.of_nat created))
              (c_ptr hal) (c_ptr group) hal_alloc (cstr_array_bytes 128 (di_name info)) arch;
      mret (inr dev).

(** [while info_index < info_count && created < count]; [None] when [fuel] runs out,
    undefined when the array is read outside its bounds. *)
Fixpoint gpu_while (fuel : nat) (driver pool : ptr) (infos : list iree_hal_device_info_t)
  (info_index : nat) (count : nat) (devices : list ptr) : M (option (Z * list ptr + list ptr)) :=
  match fuel with
  | O => mret None
  | S fuel =>
      if (info_index <? length infos)%nat && (length devices <? count)%nat then
        match infos !! info_index with
        | None => undefined
        | Some info =>
            if di_path_size info =? 0
            then gpu_while fuel driver pool infos (S info_index) count devices
            else
              r ← make_gpu_device driver pool info (Z.of_nat info_index) (length devices);
              match r with
              | inl s => mret (Some (inl (s, devices)))
              | inr dev => gpu_while fuel driver pool infos (S info_index) count (devices ++ [dev])
              end
        end
      else mret (Some (inr devices))
  end.

Lemma bind_cong {A B} (m : M A) (f g : A -> M B) w :
  (forall a w', f a w' = g a w') -> (m ≫= f) w = (m ≫= g) w.
Proof. intros E. unfold mbind, M_bind. destruct (m w); [apply E|done|done]. Qed.

Lemma bind_assoc {A B C} (m : M A) (f : A -> M B) (g : B -> M C) w :
  ((m ≫= f) ≫= g) w = (m ≫= (fun a => f a ≫= g)) w.
Proof. unfold mbind, M_bind. by destruct (m w). Qed.

(** One iteration of [gpu_devices] in terms of the body. *)
Lemma gpu_devices_cons driver pool info infos i count devices w :
  gpu_devices driver pool (info :: infos) i count devices w =
  (if (length devices <? count)%nat then
     if di_path_size info =? 0 then gpu_devices driver pool infos (i + 1) count devices
     else r ← make_gpu_device driver pool info i (length devices);
          match r with
          | inl s => mret (inl (s, devices))
          | inr dev => gpu_devices driver pool infos (i + 1) count (devices ++ [dev])
          end
   else mret (inr devices)) w.
Proof.
  cbn [gpu_devices]. destruct (length devices <? count)%nat; [|done].
  destruct (di_path_size info =? 0); [done|]. unfold make_gpu_device.
  rewrite bind_assoc. apply bind_cong. intros hal w1. destruct (negb _); [done|].
  rewrite bind_assoc. apply bind_cong. intros group w2. destruct (negb _).
  { rewrite bind_assoc. by apply bind_cong. }
  rewrite bind_assoc. apply bind_cong. intros ? w3. rewrite bind_assoc. apply bind_cong. intros ? w4.
  rewrite bind_assoc. apply bind_cong. intros ? w5. rewrite bind_assoc. by apply bind_cong.
Qed.

(** With fuel for the rest of the array the loop is the recursion. *)
Lemma gpu_while_is_recursion driver pool infos count : forall fuel i devices w,
  (i <= length infos)%nat -> (length infos - i < fuel)%nat ->
  gpu_while fuel driver pool infos i count devices w =
  (r ← gpu_devices driver pool (drop i infos) (Z.of_nat i) count devices; mret (Some r)) w.
Proof.
  induction fuel as [|fuel IH]; intros i devices w Hi Hf; [lia|]. cbn [gpu_while].
  destruct (Nat.ltb_spec i (length infos)) as [Hlt|Hge]; simpl.
  - destruct (lookup_lt_is_Some_2 infos i Hlt) as [info Hinfo].
    rewrite (drop_S _ _ _ Hinfo). unfold mbind at 2, M_bind at 2. rewrite gpu_devices_cons.
    destruct (length devices <? count)%nat; [|done]. rewrite Hinfo.
    replace (Z.of_nat i + 1) with (Z.of_nat (S i)) by lia.
    destruct (di_path_size info =? 0).
    { rewrite IH by lia. done. }
    unfold mbind at 1 2, M_bind at 1 2. destruct (make_gpu_device _ _ _ _ _ w) as [[s|dev] w'| |]; try done.
    rewrite IH by lia. done.
  - rewrite drop_ge by lia. done.
Qed.
End Loop.

(** ** Which devices are asked for *)

Definition ordinal_of (e : event) : option Z :=
  match e with
  | Ev c _ => match c with ffi_create (iree_hal_driver_create_device_by_ordinal _ i _) => Some i | _ => None end
  end.

(** The ordinals of the device creations of a trace, oldest first. *)
Definition requested (tr : list event) : list Z := reverse (omap ordinal_of tr).

(** The indices of the entries with a path, counting from [i]. *)
Fixpoint physical_ordinals (i : Z) (infos : list iree_hal_device_info_t) : list Z :=
  match infos with
  | [] => []
  | info :: infos =>
      if di_path_size info =? 0 then physical_ordinals (i + 1) infos
      else i :: physical_ordinals (i + 1) infos
  end.

Lemma length_physical_ordinals infos : forall i, length (physical_ordinals i infos) = physical infos.
Proof.
  unfold physical. induction infos as [|info infos IH]; intros i; simpl; [done|].
  rewrite filter_cons. destruct (Z.eqb_spec (di_path_size info) 0).
  - rewrite decide_False by by intros ?. apply IH.
  - rewrite decide_True by done. simpl. by rewrite IH.
Qed.

Section Requests.
Context `{IREE}.

(** [m] asks for no device. *)
Definition asks_none {A} (m : M A) : Prop :=
  forall w a w', m w = Done a w' -> requested (w_trace w') = requested (w_trace w).

Lemma requested_cons e tr : requested (e :: tr) = requested tr ++ option_list (ordinal_of e).
Proof. unfold requested. simpl. destruct (ordinal_of e); simpl; [by rewrite reverse_cons|by rewrite app_nil_r]. Qed.

Lemma asks_none_ret {A} (a : A) : asks_none (mret a).
Proof. by intros w b w' [= <- <-]. Qed.

Lemma asks_none_bind {A B} (m : M A) (f : A -> M B) :
  asks_none m -> (forall a, asks_none (f a)) -> asks_none (m ≫= f).
Proof.
  intros Hm Hf w b w' (a & w1 & E1 & E2)%bind_inv. by rewrite (Hf _ _ _ _ E2), (Hm _ _ _ E1).
Qed.

Lemma asks_none_call {A : Set} (c : ffi A) :
  (forall r, ordinal_of (Ev c r) = None) -> asks_none (call c).
Proof.
  intros Hc w r w' E. unfold call in E. injection E as <- <-. simpl. rewrite requested_cons, Hc. apply app_nil_r.
Qed.

Lemma asks_none_expect {A} (o : option A) msg : asks_none (expect o msg).
Proof. destruct o; [apply asks_none_ret|]. by intros w a w'. Qed.

Lemma asks_none_cyclic {T : Type} `{!Boxed T} (b : ptr -> T) : asks_none (into_handle_cyclic b).
Proof. intros w a w' E. unfold into_handle_cyclic, into_handle in E. injection E as <- <-. done. Qed.

Ltac asks_tac :=
  repeat first
    [ apply asks_none_bind; [|intros ?]
    | apply asks_none_ret | apply asks_none_expect | apply asks_none_cyclic
    | apply asks_none_call; reflexivity
    | match goal with |- asks_none (if ?b then _ else _) => destruct b
                    | |- asks_none (let '(_, _) := ?x in _) => destruct x end ].

(** Making a device asks for its ordinal and for no other. *)
Lemma make_gpu_device_asks driver pool info i n w r w' :
  make_gpu_device driver pool info i n w = Done r w' ->
  requested (w_trace w') = requested (w_trace w) ++ [i].
Proof.
  intros (hal & w1 & E1 & E2)%bind_inv. unfold call in E1. injection E1 as <- <-.
  match type of E2 with ?m _ = _ => assert (asks_none m) as Hm end.
  { asks_tac. }
  rewrite (Hm _ _ _ E2). simpl. by rewrite requested_cons.
Qed.

Lemma gpu_devices_asks driver pool infos count : forall i devices w r w',
  (length devices <= count)%nat ->
  gpu_devices driver pool infos i count devices w = Done r w' ->
  let phys := physical_ordinals i infos in
  let made := match r with inl (_, ds) | inr ds => length ds end in
  (length devices <= made <= count)%nat /\
  match r with
  | inl _ => (made - length devices < length phys)%nat /\ (made < count)%nat /\
      requested (w_trace w') = requested (w_trace w) ++ take (S (made - length devices)) phys
  | inr _ => (made - length devices)%nat = Nat.min (count - length devices) (length phys) /\
      requested (w_trace w') = requested (w_trace w) ++ take (made - length devices) phys
  end.
Proof.
  induction infos as [|info infos IH]; intros i devices w r w' Hle E.
  { injection E as <- <-. simpl. split; [lia|]. split; [lia|]. by rewrite take_nil, app_nil_r. }
  rewrite gpu_devices_cons in E. destruct (Nat.ltb_spec (length devices) count) as [Hlt|Hge].
  2:{ injection E as <- <-. simpl. split; [lia|]. replace (_ - _)%nat with 0%nat by lia.
      replace (count - length devices)%nat with 0%nat by lia. split; [done|]. by rewrite app_nil_r. }
  cbn [physical_ordinals]. destruct (di_path_size info =? 0); [by apply IH|].
  apply bind_inv in E as ([s|dev] & w1 & E1 & E2); apply make_gpu_device_asks in E1.
  { injection E2 as <- <-. simpl. rewrite E1, Nat.sub_diag. simpl. split; [lia|]. split; [lia|]. done. }
  apply IH in E2 as [Hlen Hr]; [|rewrite length_app; simpl; lia]. rewrite length_app in *. simpl in *.
  destruct r as [[s ds]|ds]; simpl in *; rewrite E1, <- app_assoc in Hr.
  - destruct Hr as (H1 & H2 & Hr). split; [lia|]. split; [lia|]. split; [lia|]. rewrite Hr.
    replace (length ds - length devices)%nat with (S (length ds - (length devices + 1))) by lia. done.
  - destruct Hr as (H1 & Hr). split; [lia|]. split; [lia|]. rewrite Hr.
    replace (length ds - length devices)%nat with (S (length ds - (length devices + 1))) by lia. done.
Qed.
End Requests.

Section Enumeration.
Context `{IREE, !IreeCreates, !IreeDeviceAllocator}.

(** C40: The device loop of GPU initialization terminates.  From any consistent state it
    ends, without reading the array of enumerated devices outside its bounds, after at most
    one test of its condition more than there are entries, whatever IREE answers; it makes
    the devices the recursive definition makes.  When it succeeds it has made as many
    devices as there are entries with a path, at most [HRX_MAX_DEVICES], asking IREE for
    exactly the ordinals of the first of them, in order and once each; when a device fails,
    it stops there, having asked for that one and those before it. *)
Theorem gpu_enumeration_terminates driver pool infos w :
  wf w ->
  let count := Nat.min (physical infos) HRX_MAX_DEVICES in
  exists r w',
    (forall fuel, (length infos < fuel)%nat ->
       gpu_while fuel driver pool infos 0 count [] w = Done (Some r) w')
    /\ gpu_devices driver pool infos 0 count [] w = Done r w'
    /\ match r with
       | inr devices => length devices = count /\
           requested (w_trace w') = requested (w_trace w) ++ take count (physical_ordinals 0 infos)
       | inl (s, devices) => s <> 0 /\ (length devices < count)%nat /\
           requested (w_trace w')
             = requested (w_trace w) ++ take (S (length devices)) (physical_ordinals 0 infos)
       end.
Proof.
  intros Hwf count. pose proof (gpu_devices_spec driver pool infos w 0 count [] Hwf) as Hsp.
  unfold wp in Hsp. destruct (gpu_devices driver pool infos 0 count [] w) as [r w'| |] eqn:E.
  2,3: exfalso; apply Hsp; [by intros d ?%elem_of_nil|simpl; lia].
  exists r, w'. split; [|split; [done|]].
  { intros fuel Hf. rewrite gpu_while_is_recursion by lia. unfold mbind, M_bind.
    change (drop 0 infos) with infos. change (Z.of_nat 0) with 0. by rewrite E. }
  destruct Hsp as (_ & _ & _ & _ & Hs); [by intros d ?%elem_of_nil|simpl; lia|].
  apply gpu_devices_asks in E as [_ Ha]; [|simpl; lia]. simpl in Ha.
  destruct r as [[s ds]|ds]; simpl in Ha; rewrite Nat.sub_0_r in Ha.
  - destruct Ha as (_ & ? & ?). done.
  - destruct Ha as [Hl Hr]. rewrite length_physical_ordinals, Nat.sub_0_r in Hl.
    assert (El : length ds = count) by (unfold count in *; lia). split; [done|]. by rewrite El in Hr.
Qed.
End Enumeration.

(** ** A concrete enumeration: the pseudo-device and two physical ones *)

Definition three_infos : list iree_hal_device_info_t :=
  [DeviceInfo 0 [97; 108; 108]; DeviceInfo 9 [103; 48]; DeviceInfo 9 [103; 49]].

Lemma gpu_enumeration_terminates_witness :
  exists devices w', gpu_while 4 48 64 three_infos 0 2 [] (world_of session) = Done (Some (inr devices)) w'
    /\ length devices = 2%nat
    /\ requested (w_trace w') = requested (w_trace (world_of session)) ++ [1; 2].
Proof.
  destruct (gpu_enumeration_terminates 48 64 three_infos (world_of session))
    as (r & w' & Hw & E & Hr).
  - exact (inv_wf _ (reachable_inv _ session_reachable)).
  - assert (Hok : match gpu_devices 48 64 three_infos 0 2 [] (world_of session) with
                  | Done (inr _) _ => true | _ => false end = true) by (vm_compute; reflexivity).
    change (Nat.min (physical three_infos) HRX_MAX_DEVICES) with 2%nat in *. rewrite E in Hok.
    destruct r as [[s ds]|ds]; [discriminate Hok|]. exists ds, w'.
    split; [apply Hw; simpl; lia|]. exact Hr.
Defined.
