(* ===== verification/Threads.v ===== *)
(** * Handles shared by threads: crates/hrx-libhrx/src/handle.rs

    The rest of the development runs one call at a time.  Here several threads use the
    handles of the library at once, with the atomic operations of [Arc] as the steps:
    retaining is one increment, releasing is one decrement, and the thread that takes
    the count to zero runs the destructor, which releases the fields one by one and
    then frees the block, while other threads go on. *)

From S2P Require Import Prelude Iree Objects.

(** ** State *)

(** Handles an object owns, in the order its fields are dropped. *)
Definition link_ptrs (o : obj) : list ptr := (links o).*2.

(** The references a thread holds, and the destructors it is in the middle of: the
    object and the fields still to be released. *)
Record thread := Thread { t_own : list ptr; t_stack : list (ptr * list ptr) }.

(** The blocks with their strong counts, the next address, the blocks freed so far. *)
Record store := Store { s_heap : gmap Z (Z * obj); s_next : Z; s_freed : list ptr }.

Record config := Config { c_store : store; c_threads : list thread }.

(** ** Steps *)

(** [fetch_sub] of the strong count; the last reference leaves a destructor to run.
    [None]: no such block, or its count is already zero. *)
Definition fetch_sub (heap : gmap Z (Z * obj)) (h : ptr) : option (gmap Z (Z * obj) * list (ptr * list ptr)) :=
  match heap !! h with
  | Some (n, o) =>
      if n <=? 0 then None
      else Some (<[h := (n - 1, o)]> heap, if n =? 1 then [(h, link_ptrs o)] else [])
  | None => None
  end.

(** Using up one reference to [h]. *)
Fixpoint take_ref (h : ptr) (own : list ptr) : option (list ptr) :=
  match own with
  | [] => None
  | q :: own => if q =? h then Some own else (fun own' => q :: own') <$> take_ref h own
  end.

Fixpoint take_refs (hs own : list ptr) : option (list ptr) :=
  match hs with
  | [] => Some own
  | h :: hs => own' ← take_ref h own; take_refs hs own'
  end.

Inductive act :=
  | AUse (h : ptr)        (** [handle_ref] *)
  | ARetain (h : ptr)     (** [handle_retain] *)
  | ARelease (h : ptr)    (** [handle_release] *)
  | AIntoInner (h : ptr)  (** [into_inner_handle] *)
  | ANew (o : obj)        (** [into_handle]; the fields are references of the thread *)
  | ADestroy.             (** one step of the innermost destructor *)

(** Reading or retaining an object needs one that is not being destroyed. *)
Definition live_block (s : store) (h : ptr) : option (Z * obj) :=
  match s_heap s !! h with Some (n, o) => if n <=? 0 then None else Some (n, o) | None => None end.

(** [None] is undefined behaviour: a dangling handle, an object under destruction, a
    double free, a reference the thread does not have. *)
Definition run_act (a : act) (s : store) (t : thread) : option (store * thread) :=
  match a with
  | AUse h => _ ← live_block s h; Some (s, t)
  | ARetain h =>
      '(n, o) ← live_block s h;
      Some (Store (<[h := (n + 1, o)]> (s_heap s)) (s_next s) (s_freed s),
            Thread (h :: t_own t) (t_stack t))
  | ARelease h =>
      own ← take_ref h (t_own t);
      '(heap, last) ← fetch_sub (s_heap s) h;
      Some (Store heap (s_next s) (s_freed s), Thread own (last ++ t_stack t))
  | AIntoInner h =>
      own ← take_ref h (t_own t);
      '(heap, last) ← fetch_sub (s_heap s) h;
      Some (match last with
            | (_, fields) :: _ =>
                (Store (delete h heap) (s_next s) (h :: s_freed s), Thread (fields ++ own) (t_stack t))
            | [] => (Store heap (s_next s) (s_freed s), Thread own (t_stack t))
            end)
  | ANew o =>
      own ← take_refs (link_ptrs o) (t_own t);
      Some (Store (<[s_next s := (1, o)]> (s_heap s)) (s_next s + 1) (s_freed s),
            Thread (s_next s :: own) (t_stack t))
  | ADestroy =>
      match t_stack t with
      | [] => Some (s, t)
      | (d, l :: ls) :: rest =>
          '(heap, last) ← fetch_sub (s_heap s) l;
          Some (Store heap (s_next s) (s_freed s), Thread (t_own t) (last ++ (d, ls) :: rest))
      | (d, []) :: rest =>
          _ ← s_heap s !! d;
          Some (Store (delete d (s_heap s)) (s_next s) (d :: s_freed s), Thread (t_own t) rest)
      end
  end.

(** What a thread can get at: the objects it holds and the objects those own. *)
Inductive reach (s : store) (t : thread) : ptr -> Prop :=
  | reach_own h : h ∈ t_own t -> reach s t h
  | reach_link h n o q : reach s t h -> s_heap s !! h = Some (n, o) -> q ∈ link_ptrs o -> reach s t q.

(** The contract of the handle functions, thread by thread.  A thread inside a
    destructor does nothing else. *)
Definition legal_act (s : store) (t : thread) (a : act) : Prop :=
  match a with
  | AUse h | ARetain h => t_stack t = [] /\ reach s t h
  | ARelease h | AIntoInner h => t_stack t = [] /\ h ∈ t_own t
  | ANew o => t_stack t = [] /\ is_Some (take_refs (link_ptrs o) (t_own t))
  | ADestroy => True
  end.

(** Any thread may move next; threads start empty and may pass references on. *)
Inductive cstep : config -> config -> Prop :=
  | cstep_act s ts i t a s' t' :
      ts !! i = Some t -> legal_act s t a -> run_act a s t = Some (s', t') ->
      cstep (Config s ts) (Config s' (<[i := t']> ts))
  | cstep_give s ts i j t u h own :
      ts !! i = Some t -> ts !! j = Some u -> i <> j -> take_ref h (t_own t) = Some own ->
      cstep (Config s ts)
        (Config s (<[j := Thread (h :: t_own u) (t_stack u)]> (<[i := Thread own (t_stack t)]> ts)))
  | cstep_spawn s ts : cstep (Config s ts) (Config s (ts ++ [Thread [] []])).

Definition FIRST : Z := 4096.
Definition config_initial : config := Config (Store ∅ FIRST []) [].
Definition creachable : config -> Prop := rtc cstep config_initial.

(** ** The ledger *)

(** References to [h] in a list. *)
Definition cntl (l : list ptr) (h : ptr) : Z := lsum (fun q => one q h) l.
Arguments cntl : simpl never.

(** Everything a thread has to give back. *)
Definition held (t : thread) : list ptr := t_own t ++ concat (t_stack t).*2.

Definition count (heap : gmap Z (Z * obj)) (h : ptr) : Z :=
  match heap !! h with Some e => e.1 | None => 0 end.

(** References from the fields of an object that is not being destroyed. *)
Definition live_links (h : ptr) (e : Z * obj) : Z := if e.1 <=? 0 then 0 else link_cnt e.2 h.

(** Destructors that run for [h]. *)
Definition destroys (ts : list thread) (h : ptr) : Z := lsum (fun t => cntl (t_stack t).*1 h) ts.

(** Blocks under destruction. *)
Definition dying (heap : gmap Z (Z * obj)) (h : ptr) : Z :=
  match heap !! h with Some e => if e.1 <=? 0 then 1 else 0 | None => 0 end.

(** Every address handed out is a block or was freed, once; fields are older than
    their object. *)
Record store_ok (s : store) : Prop := StoreOk {
  so_older : forall h e q, s_heap s !! h = Some e -> q ∈ link_ptrs e.2 -> q < h;
  so_fresh : forall h, s_next s <= h -> s_heap s !! h = None;
  so_nodup : NoDup (s_freed s);
  so_gone : forall h, h ∈ s_freed s -> s_heap s !! h = None /\ h < s_next s;
  so_all : forall h, FIRST <= h < s_next s -> is_Some (s_heap s !! h) \/ h ∈ s_freed s;
  so_first : FIRST <= s_next s;
}.

Record config_ok (c : config) : Prop := ConfigOk {
  co_count : forall h, count (s_heap (c_store c)) h
    = lsum (fun t => cntl (held t) h) (c_threads c) + msum (live_links h) (s_heap (c_store c));
  co_dying : forall h, destroys (c_threads c) h = dying (s_heap (c_store c)) h;
  co_store : store_ok (c_store c);
}.

(** ** Counting *)

Lemma cntl_cons q l h : cntl (q :: l) h = one q h + cntl l h.
Proof. done. Qed.

Lemma cntl_app l1 l2 h : cntl (l1 ++ l2) h = cntl l1 h + cntl l2 h.
Proof. apply lsum_app. Qed.

Lemma cntl_nonneg l h : 0 <= cntl l h.
Proof. apply lsum_nonneg. intros. apply one_nonneg. Qed.

Lemma cntl_elem l h : h ∈ l -> 1 <= cntl l h.
Proof.
  intros Hh. rewrite <- (one_eq h). apply (lsum_elem (fun q => one q h)); [|done].
  intros. apply one_nonneg.
Qed.

Lemma cntl_pos l h : 0 < cntl l h -> h ∈ l.
Proof. intros (q & Hq & Hp)%lsum_pos_elem. unfold one in Hp. destruct (Z.eqb_spec q h); [by subst|lia]. Qed.

Lemma link_cnt_ptrs o h : link_cnt o h = cntl (link_ptrs o) h.
Proof. unfold link_cnt, cntl, link_ptrs. induction (links o) as [|l ls IH]; simpl; [done|]. by rewrite IH. Qed.

Lemma take_ref_cnt h l l' : take_ref h l = Some l' -> forall q, cntl l q = one h q + cntl l' q.
Proof.
  revert l'. induction l as [|x l IH]; intros l' E q; [done|]. simpl in E.
  destruct (Z.eqb_spec x h) as [->|Hne]; [by injection E as <-|].
  apply fmap_Some in E as (l1 & E & ->). rewrite !cntl_cons, (IH _ E q). lia.
Qed.

Lemma take_ref_elem h l : h ∈ l -> is_Some (take_ref h l).
Proof.
  induction l as [|x l IH]; intros Hh; [by apply elem_of_nil in Hh|]. simpl.
  destruct (Z.eqb_spec x h) as [|Hne]; [by eexists|].
  apply elem_of_cons in Hh as [->|Hh]; [done|]. destruct (IH Hh) as [l' ->]. by eexists.
Qed.

Lemma take_refs_cnt hs : forall l l', take_refs hs l = Some l' -> forall q, cntl l q = cntl hs q + cntl l' q.
Proof.
  induction hs as [|h hs IH]; intros l l' E q; [by injection E as <-|].
  simpl in E. apply bind_Some in E as (l1 & E1 & E). rewrite (take_ref_cnt _ _ _ E1), cntl_cons, (IH _ _ E). lia.
Qed.

Lemma live_links_nonneg h e : 0 <= live_links h e.
Proof. unfold live_links. destruct (_ <=? _); [done|]. apply link_cnt_nonneg. Qed.

Lemma count_insert heap h e q : count (<[h := e]> heap) q = if decide (h = q) then e.1 else count heap q.
Proof. unfold count. rewrite lookup_insert. by case_decide. Qed.

Lemma dying_insert heap h e q :
  dying (<[h := e]> heap) q = if decide (h = q) then if e.1 <=? 0 then 1 else 0 else dying heap q.
Proof. unfold dying. rewrite lookup_insert. by case_decide. Qed.

(** ** One decrement *)

Lemma fetch_sub_ok heap h :
  1 <= count heap h ->
  exists heap' last, fetch_sub heap h = Some (heap', last)
    /\ (forall q, count heap' q = count heap q - one h q)
    /\ (forall q, msum (live_links q) heap' = msum (live_links q) heap - cntl (concat last.*2) q)
    /\ (forall q, dying heap' q = dying heap q + cntl last.*1 q)
    /\ (forall q, snd <$> heap' !! q = snd <$> heap !! q)
    /\ (last = [] \/ exists n o, heap !! h = Some (n, o) /\ last = [(h, link_ptrs o)]).
Proof.
  unfold count at 1, fetch_sub. destruct (heap !! h) as [[n o]|] eqn:Eh; simpl; [|lia]. intros Hn.
  destruct (Z.leb_spec n 0); [lia|]. eexists _, _. split; [done|].
  assert (Hone : forall q, one h q = if decide (h = q) then 1 else 0).
  { intros q. case_decide; [subst; apply one_eq|by apply one_ne]. }
  split; [|split; [|split; [|split]]].
  - intros q. rewrite count_insert, Hone. case_decide; [subst|lia]. unfold count. by rewrite Eh.
  - intros q. rewrite (msum_insert_Some _ _ _ _ _ Eh). unfold live_links. simpl.
    destruct (Z.leb_spec n 0); [lia|]. destruct (Z.eqb_spec n 1) as [->|]; simpl.
    + rewrite app_nil_r, <- link_cnt_ptrs. lia.
    + destruct (Z.leb_spec (n - 1) 0); [lia|]. change (cntl [] q) with 0. lia.
  - intros q. rewrite dying_insert. simpl. destruct (Z.eqb_spec n 1) as [->|]; simpl.
    + rewrite cntl_cons, Hone. change (cntl [] q) with 0. case_decide; [subst|lia].
      unfold dying. rewrite Eh. simpl. done.
    + change (cntl [] q) with 0. case_decide; [subst|lia]. unfold dying. rewrite Eh. simpl.
      destruct (Z.leb_spec n 0), (Z.leb_spec (n - 1) 0); lia.
  - intros q. rewrite lookup_insert. case_decide; [subst; by rewrite Eh|done].
  - destruct (n =? 1); [right; eauto|by left].
Qed.

(** ** The invariant *)

(** A thread and the store move together: what the thread has to give back and the
    counts change alike. *)
Lemma config_update s ts i t s' t' :
  config_ok (Config s ts) -> ts !! i = Some t ->
  (forall h, count (s_heap s') h - msum (live_links h) (s_heap s') - cntl (held t') h
     = count (s_heap s) h - msum (live_links h) (s_heap s) - cntl (held t) h) ->
  (forall h, dying (s_heap s') h - cntl (t_stack t').*1 h = dying (s_heap s) h - cntl (t_stack t).*1 h) ->
  store_ok s' -> config_ok (Config s' (<[i := t']> ts)).
Proof.
  intros [Hc Hd _] Ht HC HD HS. split; simpl in *; [|unfold destroys in *|done]; intros h.
  - rewrite (lsum_insert _ _ _ _ _ Ht). specialize (Hc h). specialize (HC h). lia.
  - rewrite (lsum_insert _ _ _ _ _ Ht). specialize (Hd h). specialize (HD h). lia.
Qed.

(** A store with the same objects. *)
Lemma store_ok_same s heap :
  store_ok s -> (forall q, snd <$> heap !! q = snd <$> s_heap s !! q) ->
  store_ok (Store heap (s_next s) (s_freed s)).
Proof.
  intros [Ho Hf Hn Hg Ha H1] He.
  assert (Hnone : forall h, heap !! h = None <-> s_heap s !! h = None).
  { intros h. specialize (He h). destruct (heap !! h), (s_heap s !! h); simplify_eq/=; done. }
  split; simpl; [| |done| | |done].
  - intros h e q Hh. specialize (He h). rewrite Hh in He. simpl in He.
    destruct (s_heap s !! h) as [e'|] eqn:E; [|discriminate He]. injection He as Heq. rewrite Heq. by eapply Ho.
  - intros h Hh. by apply Hnone, Hf.
  - intros h Hh. rewrite Hnone. by apply Hg.
  - intros h Hh. destruct (Ha h Hh) as [Hi|]; [left|by right].
    destruct (heap !! h) eqn:E; [by eexists|]. apply Hnone in E. rewrite E in Hi. by destruct Hi.
Qed.

(** Freeing a block. *)
Lemma store_ok_free s h :
  store_ok s -> is_Some (s_heap s !! h) ->
  store_ok (Store (delete h (s_heap s)) (s_next s) (h :: s_freed s)).
Proof.
  intros [Ho Hf Hn Hg Ha H1] [e He]. split; simpl; [| | | | |done].
  - intros h' e' q Hh. apply lookup_delete_Some in Hh as [_ Hh]. by eapply Ho.
  - intros h' Hh. apply lookup_delete_None. right. by apply Hf.
  - apply NoDup_cons. split; [|done]. intros Hin. destruct (Hg h Hin) as [Hx _]. congruence.
  - intros h' [->|Hh]%elem_of_cons.
    + split; [apply lookup_delete_eq|]. destruct (decide (h < s_next s)); [done|].
      rewrite Hf in He; [done|lia].
    + rewrite lookup_delete_None. destruct (Hg h' Hh). auto.
  - intros h' Hh. destruct (decide (h = h')) as [->|Hne]; [right; left|].
    rewrite lookup_delete_ne by done. destruct (Ha h' Hh); [by left|right; by right].
Qed.

(** Adding a block. *)
Lemma store_ok_new s o :
  store_ok s -> (forall q, q ∈ link_ptrs o -> q < s_next s) ->
  store_ok (Store (<[s_next s := (1, o)]> (s_heap s)) (s_next s + 1) (s_freed s)).
Proof.
  intros [Ho Hf Hn Hg Ha H1] Hl. split; simpl; [| |done| | |lia].
  - intros h e q. rewrite lookup_insert. case_decide; [intros [= <-]; subst; by apply Hl|apply Ho].
  - intros h Hh. rewrite lookup_insert_ne by lia. apply Hf. lia.
  - intros h Hh. destruct (Hg h Hh). rewrite lookup_insert_ne by lia. split; [done|lia].
  - intros h Hh. rewrite lookup_insert. case_decide; [left; by eexists|]. apply Ha. lia.
Qed.

Section Invariant.
Context (s : store) (ts : list thread) (i : nat) (t : thread).
Hypothesis Hok : config_ok (Config s ts).
Hypothesis Ht : ts !! i = Some t.

(** What a thread has to give back is counted. *)
Lemma held_counted h : cntl (held t) h + msum (live_links h) (s_heap s) <= count (s_heap s) h.
Proof.
  pose proof (co_count _ Hok h) as Hc. cbn [c_store c_threads] in Hc. rewrite Hc.
  pose proof (lsum_elem (fun t => cntl (held t) h) ts t (fun _ => cntl_nonneg _ _)
    (list_elem_of_lookup_2 _ _ _ Ht)). simpl in *. lia.
Qed.

Lemma held_alive h : h ∈ held t -> 1 <= count (s_heap s) h.
Proof.
  intros Hh%cntl_elem. pose proof (held_counted h).
  pose proof (msum_nonneg (live_links h) (s_heap s) (live_links_nonneg h)). lia.
Qed.

(** The fields of a live object are alive. *)
Lemma link_alive h n o q :
  s_heap s !! h = Some (n, o) -> 1 <= n -> q ∈ link_ptrs o -> 1 <= count (s_heap s) q.
Proof.
  intros Hh Hn Hq%cntl_elem. rewrite <- link_cnt_ptrs in Hq. pose proof (held_counted q).
  pose proof (cntl_nonneg (held t) q).
  pose proof (msum_lookup_le (live_links q) _ _ _ (live_links_nonneg q) Hh) as Hl.
  unfold live_links in Hl at 1. simpl in Hl. destruct (Z.leb_spec n 0); lia.
Qed.

Lemma reach_alive h : reach s t h -> 1 <= count (s_heap s) h.
Proof.
  induction 1 as [h Hh|h n o q _ IH Hh Hq].
  - apply held_alive, elem_of_app. by left.
  - eapply link_alive; [exact Hh| |exact Hq]. unfold count in IH. by rewrite Hh in IH.
Qed.

Lemma alive_block h : 1 <= count (s_heap s) h -> exists n o,
  s_heap s !! h = Some (n, o) /\ 1 <= n /\ live_block s h = Some (n, o).
Proof.
  unfold count, live_block. destruct (s_heap s !! h) as [[n o]|]; simpl; [|lia]. intros Hn.
  exists n, o. destruct (Z.leb_spec n 0); [lia|]. done.
Qed.

(** The object of a destructor is still allocated, with count zero. *)
Lemma stack_block d ls rest :
  t_stack t = (d, ls) :: rest -> exists o, s_heap s !! d = Some (0, o) /\ cntl (t_stack t).*1 d = 1.
Proof.
  intros Es. pose proof (co_dying _ Hok d) as Hd. unfold destroys in Hd. simpl in Hd.
  pose proof (lsum_elem (fun t => cntl (t_stack t).*1 d) ts t (fun _ => cntl_nonneg _ _)
    (list_elem_of_lookup_2 _ _ _ Ht)) as Hl. cbv beta in Hl.
  assert (H1 : 1 <= cntl (t_stack t).*1 d) by (apply cntl_elem; rewrite Es; left).
  pose proof (held_counted d) as Hc. pose proof (cntl_nonneg (held t) d).
  pose proof (msum_nonneg (live_links d) (s_heap s) (live_links_nonneg d)).
  unfold dying in Hd. unfold count in Hc. destruct (s_heap s !! d) as [[n o]|]; simpl in *; [|lia].
  destruct (Z.leb_spec n 0); [|lia]. exists o. split; [do 2 f_equal; lia|lia].
Qed.
End Invariant.

(** Deleting a block whose count is zero. *)
Lemma delete_zero heap d o :
  heap !! d = Some (0, o) ->
  (forall q, count (delete d heap) q = count heap q)
  /\ (forall q, msum (live_links q) (delete d heap) = msum (live_links q) heap)
  /\ (forall q, dying (delete d heap) q = dying heap q - one d q).
Proof.
  intros Hd. split; [|split]; intros q.
  - unfold count. rewrite lookup_delete. case_decide; [subst; by rewrite Hd|done].
  - rewrite (msum_delete (live_links q) heap d _ Hd). done.
  - unfold dying. rewrite lookup_delete. case_decide; [subst; rewrite Hd, one_eq; done|].
    rewrite one_ne by done. lia.
Qed.

Lemma held_stack own fr st q :
  cntl (held (Thread own (fr ++ st))) q = cntl own q + cntl (concat fr.*2) q + cntl (concat st.*2) q.
Proof. unfold held. simpl. by rewrite fmap_app, concat_app, !cntl_app, Z.add_assoc. Qed.

Section Acts.
Context (s : store) (ts : list thread) (i : nat) (t : thread).
Hypothesis Hok : config_ok (Config s ts).
Hypothesis Ht : ts !! i = Some t.

Definition act_safe (a : act) : Prop :=
  exists s' t', run_act a s t = Some (s', t') /\ config_ok (Config s' (<[i := t']> ts)).

Let Hst : store_ok s := co_store _ Hok.

Lemma use_safe h : reach s t h -> act_safe (AUse h).
Proof.
  intros Hr. destruct (alive_block s h (reach_alive s ts i t Hok Ht h Hr)) as (n & o & _ & _ & E).
  exists s, t. simpl. rewrite E. split; [done|]. by rewrite list_insert_id.
Qed.

Lemma retain_safe h : reach s t h -> act_safe (ARetain h).
Proof.
  intros Hr. destruct (alive_block s h (reach_alive s ts i t Hok Ht h Hr)) as (n & o & Hh & Hn & E).
  eexists _, _. simpl. rewrite E. split; [done|].
  eapply config_update; [exact Hok|exact Ht| | |apply store_ok_same; [exact Hst|]]; intros q; simpl.
  - rewrite count_insert, (msum_insert_Some _ _ _ _ _ Hh). unfold live_links, held. simpl.
    rewrite cntl_cons. destruct (Z.leb_spec n 0), (Z.leb_spec (n + 1) 0); try lia.
    case_decide; [subst; rewrite one_eq; unfold count; rewrite Hh; simpl; lia|rewrite one_ne by done; lia].
  - rewrite dying_insert. case_decide; [subst|lia]. unfold dying. rewrite Hh. simpl.
    destruct (Z.leb_spec n 0), (Z.leb_spec (n + 1) 0); lia.
  - rewrite lookup_insert. case_decide; [subst; by rewrite Hh|done].
Qed.

Lemma release_safe h : h ∈ t_own t -> act_safe (ARelease h).
Proof.
  intros Hh. destruct (take_ref_elem _ _ Hh) as [own Eo].
  destruct (fetch_sub_ok (s_heap s) h) as (heap & last & Ef & Hc & Hm & Hd & Hs & _).
  { apply (reach_alive s ts i t Hok Ht). by constructor. }
  eexists _, _. simpl. rewrite Eo. simpl. rewrite Ef. split; [done|].
  eapply config_update; [exact Hok|exact Ht| | |by apply store_ok_same]; intros q; simpl.
  - rewrite Hc, Hm, held_stack. unfold held. rewrite cntl_app, (take_ref_cnt _ _ _ Eo q). lia.
  - rewrite Hd, fmap_app, cntl_app. lia.
Qed.

Lemma into_inner_safe h : h ∈ t_own t -> act_safe (AIntoInner h).
Proof.
  intros Hh. destruct (take_ref_elem _ _ Hh) as [own Eo].
  destruct (fetch_sub_ok (s_heap s) h) as (heap & last & Ef & Hc & Hm & Hd & Hs & Hl).
  { apply (reach_alive s ts i t Hok Ht). by constructor. }
  unfold act_safe. cbn [run_act]. rewrite Eo. simpl. rewrite Ef. simpl.
  destruct Hl as [->|(n & o & Hn & ->)].
  - eexists _, _. split; [done|].
    eapply config_update; [exact Hok|exact Ht| | |by apply store_ok_same]; intros q; simpl.
    + specialize (Hm q). simpl in Hm. change (cntl [] q) with 0 in Hm.
      rewrite Hc, Hm. unfold held. simpl. rewrite !cntl_app, (take_ref_cnt _ _ _ Eo q). lia.
    + rewrite Hd. simpl. change (cntl [] q) with 0. lia.
  - assert (Hz : heap !! h = Some (0, o)).
    { unfold fetch_sub in Ef. rewrite Hn in Ef. destruct (Z.leb_spec n 0); [done|].
      destruct (Z.eqb_spec n 1) as [Hn1|]; [|done]. injection Ef as <-. by rewrite lookup_insert_eq, Hn1. }
    destruct (delete_zero heap h o Hz) as (Hc' & Hm' & Hd').
    eexists _, _. split; [done|]. eapply config_update; [exact Hok|exact Ht| | |]; [intros q; simpl..|].
    + specialize (Hm q). simpl in Hm. rewrite app_nil_r in Hm.
      rewrite Hc', Hm', Hc, Hm. unfold held. simpl. rewrite !cntl_app, (take_ref_cnt _ _ _ Eo q). lia.
    + rewrite Hd', Hd. simpl. rewrite cntl_cons. change (cntl [] q) with 0. lia.
    + apply (store_ok_free (Store heap (s_next s) (s_freed s))); [by apply store_ok_same|by eexists].
Qed.

Lemma new_safe o : is_Some (take_refs (link_ptrs o) (t_own t)) -> act_safe (ANew o).
Proof.
  intros [own Eo]. eexists _, _. simpl. rewrite Eo. split; [done|].
  pose proof (so_fresh _ Hst (s_next s) (Z.le_refl _)) as Hf.
  eapply config_update; [exact Hok|exact Ht| | |]; [intros q; simpl..|].
  - rewrite count_insert, (msum_insert_None _ _ _ _ Hf). unfold held. simpl.
    rewrite cntl_cons, !cntl_app, (take_refs_cnt _ _ _ Eo q). unfold live_links at 1. simpl.
    rewrite link_cnt_ptrs.
    case_decide; [subst; rewrite one_eq; unfold count; rewrite Hf; lia|rewrite one_ne by done; lia].
  - rewrite dying_insert. case_decide; [subst; unfold dying; by rewrite Hf|done].
  - apply store_ok_new; [done|]. intros q Hq%cntl_elem.
    destruct (decide (q < s_next s)); [done|].
    assert (Hin : q ∈ t_own t).
    { apply cntl_pos. rewrite (take_refs_cnt _ _ _ Eo q). pose proof (cntl_nonneg own q). lia. }
    pose proof (reach_alive s ts i t Hok Ht q (reach_own _ _ _ Hin)) as Hc.
    unfold count in Hc. rewrite (so_fresh _ Hst) in Hc; lia.
Qed.

Lemma destroy_safe : act_safe ADestroy.
Proof.
  unfold act_safe. simpl. destruct (t_stack t) as [|[d [|l ls]] rest] eqn:Es.
  - exists s, t. split; [done|]. by rewrite list_insert_id.
  - destruct (stack_block s ts i t Hok Ht d [] rest Es) as (o & Hd & _). rewrite Hd. simpl.
    destruct (delete_zero _ _ _ Hd) as (Hc & Hm & Hdy).
    eexists _, _. split; [done|]. eapply config_update; [exact Hok|exact Ht| | |]; [intros q; simpl..|].
    + rewrite Hc, Hm. unfold held. by rewrite Es.
    + rewrite Hdy, Es, fmap_cons, cntl_cons. simpl. lia.
    + apply store_ok_free; [done|by eexists].
  - destruct (fetch_sub_ok (s_heap s) l) as (heap & last & Ef & Hc & Hm & Hd & Hs & _).
    { apply (held_alive s ts i t Hok Ht). unfold held. rewrite Es. simpl. set_solver. }
    rewrite Ef. eexists _, _. split; [done|].
    eapply config_update; [exact Hok|exact Ht| | |by apply store_ok_same]; intros q; simpl.
    + rewrite Hc, Hm, held_stack. unfold held. rewrite Es, !fmap_cons. cbn [fst snd concat].
      rewrite !cntl_app, cntl_cons. lia.
    + rewrite Hd, Es, fmap_app, cntl_app, !fmap_cons. cbn [fst]. lia.
Qed.

Lemma legal_act_safe a : legal_act s t a -> act_safe a.
Proof.
  destruct a; simpl; intros Hl; [apply use_safe|apply retain_safe|apply release_safe
    |apply into_inner_safe|apply new_safe|apply destroy_safe]; apply Hl.
Qed.
End Acts.

(** ** Every schedule *)

Lemma config_ok_initial : config_ok config_initial.
Proof.
  split; simpl.
  - intros h. unfold count. by rewrite lookup_empty, msum_empty.
  - intros h. unfold dying. by rewrite lookup_empty.
  - split; simpl; [|done|constructor| |intros; lia|done].
    + intros h e q Hh. by rewrite lookup_empty in Hh.
    + intros h Hh. by apply elem_of_nil in Hh.
Qed.

Lemma cstep_ok c c' : config_ok c -> cstep c c' -> config_ok c'.
Proof.
  intros Hok Hstep. destruct Hstep as [s ts i t a s' t' Ht Hl Hr|s ts i j t u h own Ht Hu Hij Ho|s ts].
  - destruct (legal_act_safe s ts i t Hok Ht a Hl) as (s2 & t2 & Hr2 & Hok2). congruence.
  - destruct Hok as [Hc Hd HS]. assert (Hu' : <[i := Thread own (t_stack t)]> ts !! j = Some u).
    { by rewrite list_lookup_insert_ne. }
    split; simpl in *; [|unfold destroys in *|done]; intros q.
    + rewrite (lsum_insert _ _ _ _ _ Hu'), (lsum_insert _ _ _ _ _ Ht), Hc. unfold held. simpl.
      rewrite cntl_cons, !cntl_app, (take_ref_cnt _ _ _ Ho q). lia.
    + rewrite (lsum_insert _ _ _ _ _ Hu'), (lsum_insert _ _ _ _ _ Ht), Hd. simpl. lia.
  - destruct Hok as [Hc Hd HS]. split; simpl in *; [|unfold destroys in *|done]; intros q.
    + rewrite lsum_app, Hc. unfold held. simpl. unfold cntl at 3. simpl. lia.
    + rewrite lsum_app, Hd. simpl. unfold cntl. simpl. lia.
Qed.

Lemma creachable_ok c : creachable c -> config_ok c.
Proof.
  intros Hr. unfold creachable in Hr. pose proof config_ok_initial as Hi.
  induction Hr as [|c1 c2 c3 Hs _ IH]; [done|]. apply IH. by eapply cstep_ok.
Qed.

(** ** Destructors end *)

(** A step of a destructor, on any thread. *)
Inductive dstep : config -> config -> Prop :=
  | dstep_intro s ts i t s' t' :
      ts !! i = Some t -> t_stack t <> [] -> run_act ADestroy s t = Some (s', t') ->
      dstep (Config s ts) (Config s' (<[i := t']> ts)).

(** Work left: the steps of the running destructors and of those that may still start. *)
Definition frame_work (f : ptr * list ptr) : Z := 1 + Z.of_nat (length f.2).
Definition object_work (e : Z * obj) : Z :=
  if e.1 <=? 0 then 0 else 2 + Z.of_nat (length (link_ptrs e.2)).
Definition work (c : config) : Z :=
  lsum (fun t => lsum frame_work (t_stack t)) (c_threads c) + msum object_work (s_heap (c_store c)).

Lemma work_nonneg c : 0 <= work c.
Proof.
  apply Z.add_nonneg_nonneg; [apply lsum_nonneg; intros t; apply lsum_nonneg|apply msum_nonneg].
  - intros f. unfold frame_work. lia.
  - intros e. unfold object_work. destruct (_ <=? _); lia.
Qed.

Lemma fetch_sub_work heap h heap' last :
  fetch_sub heap h = Some (heap', last) ->
  lsum frame_work last + msum object_work heap' <= msum object_work heap.
Proof.
  unfold fetch_sub. destruct (heap !! h) as [[n o]|] eqn:Eh; [|done].
  destruct (Z.leb_spec n 0); [done|]. intros [= <- <-].
  rewrite (msum_insert_Some _ _ _ _ _ Eh). unfold object_work at 1 2. simpl.
  destruct (Z.leb_spec n 0); [lia|]. destruct (Z.eqb_spec n 1) as [->|]; simpl.
  - unfold frame_work. simpl. lia.
  - destruct (Z.leb_spec (n - 1) 0); lia.
Qed.

Lemma dstep_work c c' : dstep c c' -> work c' < work c.
Proof.
  intros [s ts i t s' t' Ht Hs Hr]. unfold work. cbn [c_store c_threads].
  rewrite (lsum_insert _ _ _ _ _ Ht). cbn [run_act] in Hr.
  destruct (t_stack t) as [|[d [|l ls]] rest] eqn:Es; [done| |].
  - destruct (s_heap s !! d) as [e|] eqn:Ed; [|done]. injection Hr as <- <-. cbn [t_stack s_heap].
    rewrite (msum_delete object_work _ _ _ Ed), lsum_cons.
    assert (0 <= object_work e) by (unfold object_work; destruct (_ <=? _); lia).
    unfold frame_work at 2. simpl. lia.
  - apply bind_Some in Hr as ([heap last] & Ef & [= <- <-]). cbn [t_stack s_heap].
    pose proof (fetch_sub_work _ _ _ _ Ef). rewrite lsum_app, !lsum_cons.
    assert (frame_work (d, l :: ls) = 1 + frame_work (d, ls)) by (unfold frame_work; simpl; lia). lia.
Qed.

Lemma dsteps_bounded n c c' : nsteps dstep n c c' -> Z.of_nat n <= work c.
Proof.
  induction 1 as [c|n c1 c2 c3 Hs _ IH]; [apply work_nonneg|]. apply dstep_work in Hs. lia.
Qed.

(** ** Nothing is left *)

Definition idle (c : config) : Prop := forall t, t ∈ c_threads c -> t_own t = [] /\ t_stack t = [].

Lemma idle_lsum c (f : thread -> Z) :
  idle c -> (forall t, t_own t = [] -> t_stack t = [] -> f t = 0) -> lsum f (c_threads c) = 0.
Proof.
  unfold idle. intros Hi Hf. induction (c_threads c) as [|t ts IH]; [done|]. rewrite lsum_cons.
  destruct (Hi t) as [? ?]; [left|]. rewrite IH by (intros u Hu; apply Hi; by right). rewrite Hf; done.
Qed.

(** Of the blocks left, one of the highest address would have no owner. *)
Lemma idle_empty c : config_ok c -> idle c -> s_heap (c_store c) = ∅.
Proof.
  intros Hok Hi. set (heap := s_heap (c_store c)). apply map_empty.
  assert (Hnone : forall k h, s_next (c_store c) - Z.of_nat k <= h -> heap !! h = None).
  { induction k as [|k IH]; intros h Hh; [apply (so_fresh _ (co_store _ Hok)); lia|].
    destruct (decide (s_next (c_store c) - Z.of_nat k <= h)); [by apply IH|].
    destruct (heap !! h) as [[m o]|] eqn:Eh; [exfalso|done].
    pose proof (co_count _ Hok h) as Hc. pose proof (co_dying _ Hok h) as Hd.
    unfold destroys, dying, count in Hc, Hd. fold heap in Hc, Hd. rewrite Eh in Hc, Hd.
    rewrite (idle_lsum c) in Hc by (done || (intros [] ? ?; simplify_eq/=; done)).
    rewrite (idle_lsum c) in Hd by (done || (intros [] ? ?; simplify_eq/=; done)).
    simpl in Hc, Hd. destruct (Z.leb_spec m 0); [done|].
    destruct (msum_pos_elem (live_links h) heap) as (h' & [n' o'] & Eh' & Hl); [lia|].
    unfold live_links in Hl. simpl in Hl. destruct (n' <=? 0); [lia|]. rewrite link_cnt_ptrs in Hl.
    apply cntl_pos in Hl. pose proof (so_older _ (co_store _ Hok) h' (n', o') h Eh' Hl).
    rewrite IH in Eh' by lia. done. }
  intros h. apply (Hnone (Z.to_nat (s_next (c_store c) - h))). lia.
Qed.

(** C26: Handles may be shared between threads.  Whatever the schedule, with the atomic
    increments and decrements of [Arc] as steps and destructors interleaved with
    everything else: a thread that uses, retains, releases or takes apart what it holds
    (or what its objects own), or goes on with a destructor, never touches a freed block
    or one under destruction; every block is freed at most once, and the addresses handed
    out are exactly the live and the freed ones; destructors end, under any schedule,
    within the work that is left; and when no thread holds anything every block is freed. *)
Theorem shared_handles_are_safe c :
  creachable c ->
  (forall i t a, c_threads c !! i = Some t -> legal_act (c_store c) t a ->
     is_Some (run_act a (c_store c) t))
  /\ NoDup (s_freed (c_store c))
  /\ (forall h, FIRST <= h < s_next (c_store c) ->
       (h ∈ s_freed (c_store c) <-> s_heap (c_store c) !! h = None))
  /\ (forall n c', nsteps dstep n c c' -> Z.of_nat n <= work c)
  /\ (idle c -> s_heap (c_store c) = ∅).
Proof.
  intros Hr%creachable_ok. pose proof (co_store _ Hr) as HS. split; [|split; [|split; [|split]]].
  - intros i t a Ht Hl. destruct c as [s ts].
    destruct (legal_act_safe s ts i t Hr Ht a Hl) as (s' & t' & E & _). simpl. rewrite E. by eexists.
  - apply HS.
  - intros h Hh. split; [intros Hf; apply (so_gone _ HS h Hf)|]. intros Hn.
    destruct (so_all _ HS h Hh) as [[e He]|]; [congruence|done].
  - intros n c'. apply dsteps_bounded.
  - by apply idle_empty.
Qed.

Lemma cstep_to s ts i t a s' t' c' :
  ts !! i = Some t -> legal_act s t a -> run_act a s t = Some (s', t') ->
  rtc cstep (Config s' (<[i := t']> ts)) c' -> rtc cstep (Config s ts) c'.
Proof. intros. eapply rtc_l; [by eapply cstep_act|done]. Qed.

(** One thread makes a device and a semaphore on it and hands the semaphore to another
    thread; while that thread destroys the semaphore the first one releases the device. *)
Definition shared_device : obj := ODevice (Device 0 0 (AllocatorInline 0 0 0) 0 0 [] []).
Definition shared_semaphore : obj := OSemaphore (Semaphore 0 FIRST).

Definition shared_config : config :=
  Config (Store {[FIRST := (1, shared_device); FIRST + 1 := (0, shared_semaphore)]} (FIRST + 2) [])
    [Thread [] []; Thread [] [(FIRST + 1, [FIRST])]].

Lemma shared_config_reachable : creachable shared_config.
Proof.
  unfold creachable, config_initial.
  eapply rtc_l; [apply cstep_spawn|]. eapply rtc_l; [apply cstep_spawn|]. cbn [app].
  eapply (cstep_to _ _ 0%nat _ (ANew shared_device)); [reflexivity|split; [reflexivity|eexists; reflexivity]|reflexivity|].
  eapply (cstep_to _ _ 0%nat _ (ARetain FIRST)); [reflexivity|split; [reflexivity|constructor; left]|reflexivity|].
  eapply (cstep_to _ _ 0%nat _ (ANew shared_semaphore)); [reflexivity|split; [reflexivity|eexists; reflexivity]|reflexivity|].
  eapply rtc_l; [eapply (cstep_give _ _ 0%nat 1%nat _ _ (FIRST + 1)); [reflexivity|reflexivity|done|reflexivity]|].
  eapply (cstep_to _ _ 1%nat _ (ARelease (FIRST + 1))); [reflexivity|split; [reflexivity|left]|reflexivity|].
  eapply (cstep_to _ _ 0%nat _ (ARelease FIRST)); [reflexivity|split; [reflexivity|left]|reflexivity|].
  match goal with |- rtc _ ?x ?y => replace x with y by (vm_compute; reflexivity) end. apply rtc_refl.
Qed.

Lemma shared_handles_are_safe_witness :
  is_Some (run_act ADestroy (c_store shared_config) (Thread [] [(FIRST + 1, [FIRST])]))
  /\ (forall n c', nsteps dstep n shared_config c' -> (n <= 4)%nat).
Proof.
  destruct (shared_handles_are_safe shared_config shared_config_reachable) as (Hs & _ & _ & Hw & _). split.
  - apply (Hs 1%nat); [reflexivity|exact I].
  - intros n c' Hn. apply Hw in Hn. change (work shared_config) with 4 in Hn. lia.
Defined.
