(* ===== verification/AtomicCalls.v ===== *)
(** * The atomic release is a schedule of the thread machine

    [handle_release] of [Handle] runs a destructor in one go, with the block already
    gone; in [Threads] the block stays until its fields are released one by one.  The
    two agree on the blocks that are left when nobody else moves. *)

From S2P Require Import Prelude Iree Objects Machine Handle Status IreeHal Device Semaphore Buffer HostAllocator Executable BufferView ValueList Modules QueueOps Stream Pool StreamAlloc Runtime Lifecycle Scenario Ownership StreamTimeline Threads.

(** ** Releasing a list of references in one go *)

Inductive hrel : gmap Z (Z * obj) -> list ptr -> gmap Z (Z * obj) -> Prop :=
  | hrel_nil heap : hrel heap [] heap
  | hrel_dec heap l n o ls heap' :
      heap !! l = Some (n, o) -> 1 < n -> hrel (<[l := (n - 1, o)]> heap) ls heap' ->
      hrel heap (l :: ls) heap'
  | hrel_last heap l o ls heap1 heap' :
      heap !! l = Some (1, o) -> hrel (delete l heap) (link_ptrs o) heap1 -> hrel heap1 ls heap' ->
      hrel heap (l :: ls) heap'.

Lemma hrel_app heap1 l1 heap2 l2 heap3 :
  hrel heap1 l1 heap2 -> hrel heap2 l2 heap3 -> hrel heap1 (l1 ++ l2) heap3.
Proof. induction 1; intros; simpl; [done|by eapply hrel_dec; eauto|by eapply hrel_last; eauto]. Qed.

Lemma hrel_gone heap ls heap' q : hrel heap ls heap' -> heap !! q = None -> heap' !! q = None.
Proof.
  induction 1 as [|heap l n o ls heap' Hl Hn _ IH|heap l o ls heap1 heap' Hl _ IH1 _ IH2]; intros Hq; [done|..].
  - apply IH. rewrite lookup_insert_ne; [done|]. congruence.
  - apply IH2, IH1. rewrite lookup_delete_None. auto.
Qed.

Definition hpos (heap : gmap Z (Z * obj)) : Prop := forall h e, heap !! h = Some e -> 1 <= e.1.

Lemma hrel_hpos heap ls heap' : hrel heap ls heap' -> hpos heap -> hpos heap'.
Proof.
  induction 1 as [|heap l n o ls heap' Hl Hn _ IH|heap l o ls heap1 heap' Hl _ IH1 _ IH2]; intros Hp; [done|..].
  - apply IH. intros h e. rewrite lookup_insert. case_decide; [intros [= <-]; simpl; lia|apply Hp].
  - apply IH2, IH1. intros h e [_ He]%lookup_delete_Some. by eapply Hp.
Qed.

(** ** The destructors of the library *)

(** [m] leaves the blocks alone. *)
Definition still {A} (m : M A) : Prop := forall w a w', m w = Done a w' -> w_heap w' = w_heap w.

(** [m] releases exactly [ls], in this order. *)
Definition releases {A} (m : M A) (ls : list ptr) : Prop :=
  forall w a w', m w = Done a w' -> hpos (w_heap w) -> hrel (w_heap w) ls (w_heap w').

Create HintDb still.

Section Rules.
Context `{IREE}.

Lemma still_ret {A} (a : A) : still (mret a).
Proof. by intros w b w' [= <- <-]. Qed.

Lemma still_bind {A B} (m : M A) (f : A -> M B) : still m -> (forall a, still (f a)) -> still (m ≫= f).
Proof. intros Hm Hf w b w' (a & w1 & E1 & E2)%bind_inv. rewrite (Hf _ _ _ _ E2). by eapply Hm. Qed.

Lemma still_call {A : Set} (c : ffi A) : still (call c).
Proof. intros w a w' E. unfold call in E. by injection E as <- <-. Qed.

Lemma releases_still {A} (m : M A) : still m -> releases m [].
Proof. intros Hm w a w' E _. rewrite (Hm _ _ _ E). constructor. Qed.

Lemma releases_bind {A B} (m : M A) (f : A -> M B) l1 l2 :
  releases m l1 -> (forall a, releases (f a) l2) -> releases (m ≫= f) (l1 ++ l2).
Proof.
  intros Hm Hf w b w' (a & w1 & E1 & E2)%bind_inv Hp. pose proof (Hm _ _ _ E1 Hp) as H1.
  eapply hrel_app; [exact H1|]. apply (Hf _ _ _ _ E2). by eapply hrel_hpos.
Qed.

(** A quiet prefix. *)
Lemma releases_skip {A B} (m : M A) (f : A -> M B) ls :
  still m -> (forall a, releases (f a) ls) -> releases (m ≫= f) ls.
Proof. intros Hm Hf. apply (releases_bind m f [] ls); [by apply releases_still|done]. Qed.

Lemma releases_handle {T} `{Boxed T, DropGlue T} h :
  (forall t : T, releases (drop_glue t) (link_ptrs (box t))) -> releases (handle_release (T:=T) h) [h].
Proof.
  intros Hd w a w'. unfold handle_release. destruct (w_heap w !! h) as [[n o]|] eqn:Eh; [|done].
  destruct (unbox o) as [t|] eqn:Eu; [|done]. apply unbox_Some in Eu as ->.
  destruct (Z.eqb_spec n 1) as [->|Hn]; intros E Hp.
  - eapply hrel_last; [exact Eh| |constructor]. apply (Hd t _ _ _ E). simpl.
    intros q e [_ He]%lookup_delete_Some. by eapply Hp.
  - injection E as <- <-. eapply hrel_dec; [exact Eh| |constructor]. pose proof (Hp _ _ Eh). simpl in *. lia.
Qed.
End Rules.
#[export] Hint Resolve still_ret still_call : still.

Ltac still_prim :=
  let w := fresh in let a := fresh in let w' := fresh in let E := fresh in
  intros w a w' E; repeat case_match; by simplify_eq.

Ltac still_step :=
  lazymatch goal with
  | |- still (_ ≫= _) => apply still_bind; [|intros]
  | |- still (match ?x with _ => _ end) => destruct x
  | |- still ?m => first [ solve [auto with still] | let f := head_of m in unfold f; still_prim
                         | let f := head_of m in unfold f ]
  end.
Ltac still_tac := repeat still_step.

(** The fields an object releases, in the order of [links]. *)
Ltac releases_tac :=
  repeat lazymatch goal with
  | |- releases (drop_glue ?t) ?ls =>
      let ls' := eval unfold link_ptrs in ls in let ls' := eval simpl in ls' in
      change (releases (drop_glue t) ls'); unfold drop_glue
  | |- releases (_ ≫= _) _ => apply releases_skip; [solve [still_tac]|intros]
  | |- releases (handle_release _) [_] => apply releases_handle; intros
  | |- releases ?m _ => first [ apply releases_still; solve [still_tac] | let f := head_of m in unfold f ]
  end.

Section Destructors.
Context `{IREE}.

Lemma device_releases h : releases (hrx_device_release h) [h].
Proof. releases_tac. Qed.

Lemma semaphore_releases h : releases (hrx_semaphore_release h) [h].
Proof. releases_tac. Qed.

(** Flushing keeps the semaphore and the device of the stream. *)
Lemma flush_inner_links st w r st' w' :
  flush_inner st w = Done (r, st') w' -> st_semaphore st' = st_semaphore st /\ st_device st' = st_device st.
Proof.
  unfold flush_inner. intros E.
  repeat match goal with
  | E : (if ?b then _ else _) _ = Done _ _ |- _ => destruct b
  | E : (_ ≫= _) _ = Done _ _ |- _ => let x := fresh in let w1 := fresh in let E1 := fresh in
      apply bind_inv in E as (x & w1 & E1 & E)
  | E : mret _ _ = Done _ _ |- _ => injection E as <- <- <-; by split
  | E : (let _ := _ in _) _ = Done _ _ |- _ => cbv zeta in E
  end.
Qed.

Lemma stream_releases h : releases (hrx_stream_release h) [h].
Proof.
  unfold hrx_stream_release. apply releases_handle. intros st w a w' E Hp.
  unfold drop_glue, drop_stream in E. apply bind_inv in E as (st' & w1 & E1 & E).
  assert (Hs : w_heap w1 = w_heap w /\ st_semaphore st' = st_semaphore st /\ st_device st' = st_device st).
  { destruct (st_has_pending_work st); [|by injection E1 as <- <-].
    apply bind_inv in E1 as ([r st1] & w2 & E2 & E1). apply bind_inv in E1 as (u & w3 & E3 & E1).
    injection E1 as <- <-. split; [|by eapply flush_inner_links].
    assert (Hf : still (flush_inner st)) by still_tac. assert (Hr : still (hrx_status_drop r)) by still_tac.
    by rewrite (Hr _ _ _ E3), (Hf _ _ _ E2). }
  destruct Hs as (Hh & Hsem & Hdev). rewrite <- Hh in Hp |- *. revert E Hp.
  change (link_ptrs (box st)) with ([st_semaphore st] ++ [st_device st]). rewrite <- Hsem, <- Hdev.
  intros E Hp. refine (_ w1 a w' E Hp).
  apply releases_skip; [still_tac|intros]. apply releases_skip; [still_tac|intros].
  apply releases_bind; [apply semaphore_releases|]. intros _. apply device_releases.
Qed.

Lemma kind_releases k h : h <> 0 -> releases (release_kind k h) [h].
Proof.
  intros Hh. destruct k; cbn [release_kind]; try (apply stream_releases).
  6: unfold hrx_executable_release; rewrite (proj2 (is_null_false h) Hh).
  all: releases_tac.
Qed.
End Destructors.

(** ** The same release, step by step *)

(** A thread that moves alone. *)
Definition solo (x y : store * thread) : Prop :=
  exists a, legal_act x.1 x.2 a /\ run_act a x.1 x.2 = Some y.

(** While destructors run, their blocks [dead] are still there with count zero. *)
Lemma hrel_solo heap ls heap' :
  hrel heap ls heap' -> forall dead d rest own next freed, dead ##ₘ heap ->
  exists freed', rtc solo (Store (dead ∪ heap) next freed, Thread own ((d, ls) :: rest))
    (Store (dead ∪ heap') next (freed' ++ freed), Thread own ((d, []) :: rest)).
Proof.
  induction 1 as [heap|heap l n o ls heap' Hl Hn _ IH|heap l o ls heap1 heap' Hl Hr IH1 _ IH2];
    intros dead d rest own next freed Hdis.
  - exists []. apply rtc_refl.
  - assert (Hd : dead !! l = None) by (eapply map_disjoint_Some_r; [exact Hdis|exact Hl]).
    destruct (IH dead d rest own next freed) as [freed' Hs].
    { by apply map_disjoint_insert_r_2. }
    exists freed'. eapply rtc_l; [|exact Hs]. exists ADestroy. split; [done|]. simpl.
    unfold fetch_sub. rewrite lookup_union_r, Hl by done. destruct (Z.leb_spec n 0); [lia|].
    destruct (Z.eqb_spec n 1); [lia|]. simpl. by rewrite insert_union_r.
  - assert (Hd : dead !! l = None) by (eapply map_disjoint_Some_r; [exact Hdis|exact Hl]).
    assert (Hg : heap1 !! l = None) by (eapply hrel_gone; [exact Hr|apply lookup_delete_eq]).
    assert (Hdis1 : dead ##ₘ heap1).
    { apply map_disjoint_spec. intros q e e' He He'.
      rewrite (hrel_gone _ _ _ q Hr) in He'; [done|]. apply lookup_delete_None. right.
      eapply map_disjoint_Some_l; [exact Hdis|exact He]. }
    destruct (IH1 (<[l := (0, o)]> dead) l ((d, ls) :: rest) own next freed) as [freed1 Hs1].
    { apply map_disjoint_insert_l_2; [apply lookup_delete_eq|]. by apply map_disjoint_delete_r. }
    destruct (IH2 dead d rest own next (l :: freed1 ++ freed) Hdis1) as [freed2 Hs2].
    exists (freed2 ++ l :: freed1). rewrite <- app_assoc. simpl.
    eapply rtc_l; [|etransitivity; [exact Hs1|eapply rtc_l; [|exact Hs2]]].
    + exists ADestroy. split; [done|]. simpl. unfold fetch_sub. rewrite lookup_union_r, Hl by done.
      simpl. do 3 f_equal. rewrite <- insert_union_l, !insert_union_r, insert_delete_eq by done. done.
    + exists ADestroy. split; [done|]. simpl.
      rewrite (lookup_union_Some_l _ _ l (0, o)) by apply lookup_insert_eq. simpl. do 3 f_equal.
      by rewrite delete_union, delete_insert_id, delete_id by done.
Qed.

(** The last field of the argument above: the reference itself. *)
Lemma solo_release heap h heap' next :
  hrel heap [h] heap' ->
  exists freed, rtc solo (Store heap next [], Thread [h] []) (Store heap' next freed, Thread [] []).
Proof.
  assert (Hleg : legal_act (Store heap next []) (Thread [h] []) (ARelease h)) by (split; [done|left]).
  intros Hr. inversion Hr as [|? ? n o ? ? Hl Hn Hr'|? ? o ? heap1 ? Hl Hr1 Hr2]; subst.
  - inversion Hr'; subst. exists []. apply rtc_once. exists (ARelease h). split; [done|]. simpl.
    rewrite Z.eqb_refl. simpl. unfold fetch_sub. rewrite Hl. destruct (Z.leb_spec n 0); [lia|].
    destruct (Z.eqb_spec n 1); [lia|]. done.
  - inversion Hr2; subst.
    assert (Hg : heap' !! h = None) by (eapply hrel_gone; [exact Hr1|apply lookup_delete_eq]).
    destruct (hrel_solo _ _ _ Hr1 {[h := (0, o)]} h [] [] next []) as [freed Hs].
    { apply map_disjoint_singleton_l, lookup_delete_eq. }
    exists (h :: freed). eapply rtc_l; [|etransitivity; [exact Hs|apply rtc_once]].
    + exists (ARelease h). split; [done|]. simpl. rewrite Z.eqb_refl. simpl. unfold fetch_sub. rewrite Hl.
      simpl. do 3 f_equal. by rewrite <- insert_union_singleton_l, insert_delete_eq.
    + exists ADestroy. split; [done|]. simpl.
      rewrite (lookup_union_Some_l _ _ h (0, o)) by apply lookup_singleton_eq. simpl. do 3 f_equal.
      { by rewrite delete_union, delete_singleton_eq, (delete_id heap'), (left_id_L ∅ (∪)) by done. }
      by rewrite app_nil_r.
Qed.

Section Calls.
Context `{IREE, !IreeCreates, !LibcAlloc, !IreeDeviceAllocator}.

Lemma reachable_hpos w : reachable w -> hpos (w_heap w).
Proof. intros Hr%reachable_inv h [n o] Hh. exact (wf_strong _ (inv_wf _ Hr) _ _ _ Hh). Qed.

Lemma handle_retain_heap {T} `{Boxed T} h w u w' :
  handle_retain (T:=T) h w = Done u w' ->
  exists n o, w_heap w !! h = Some (n, o) /\ w_heap w' = <[h := (n + 1, o)]> (w_heap w).
Proof.
  unfold handle_retain. destruct (w_heap w !! h) as [[n o]|]; [|done]. destruct (unbox o); [|done].
  intros [= <- <-]. eauto.
Qed.

Lemma retain_kind_heap k h w u w' :
  h <> 0 -> retain_kind k h w = Done u w' ->
  exists n o, w_heap w !! h = Some (n, o) /\ w_heap w' = <[h := (n + 1, o)]> (w_heap w).
Proof.
  intros Hh. destruct k; cbn [retain_kind]; try (by apply handle_retain_heap).
  unfold hrx_executable_retain. rewrite (proj2 (is_null_false h) Hh). apply handle_retain_heap.
Qed.

(** C22: The calls of the model are schedules of the thread machine.  Retaining a usable
    handle is its increment.  Releasing a reference of the client's own, with every
    destructor it sets off in any object of the library (the flush and the wait of a
    stream included), ends with exactly the blocks and counts that one thread leaves which
    decrements the count and, if it was the last, releases the fields of each object in
    declaration order and frees the blocks from the innermost out, all steps being legal. *)
Theorem calls_are_solo_schedules w k h next :
  reachable w -> usable w k h ->
  (exists w', retain_kind k h w = Done tt w' /\
     solo (Store (w_heap w) next [], Thread [h] []) (Store (w_heap w') next [], Thread [h; h] []))
  /\ (1 <= ext w h -> exists w' freed, release_kind k h w = Done tt w' /\
     rtc solo (Store (w_heap w) next [], Thread [h] []) (Store (w_heap w') next freed, Thread [] [])).
Proof.
  intros Hr Hu. pose proof (reachable_inv w Hr) as [Hwf _].
  assert (Hne : h <> 0) by (apply is_null_false; by eapply usable_nonnull). split.
  - pose proof (retain_kind_spec k h w Hwf Hu) as ([] & w' & E & _)%wp_Done. exists w'. split; [done|].
    destruct (retain_kind_heap k h w tt w' Hne E) as (n & o & Hh & ->).
    exists (ARetain h). split; [split; [done|by constructor; left]|]. simpl. unfold live_block. simpl. rewrite Hh.
    pose proof (reachable_hpos w Hr _ _ Hh). simpl in *. by destruct (Z.leb_spec n 0); [lia|].
  - intros He. pose proof (release_kind_spec k h w Hwf Hu He) as ([] & w' & E & _)%wp_Done.
    destruct (solo_release _ _ _ next (kind_releases k h Hne _ _ _ E (reachable_hpos w Hr))) as [freed Hs].
    by exists w', freed.
Qed.
End Calls.

(** The stream of the session: its destructor waits, releases the semaphore, whose
    destructor releases the device, and then the device. *)
Lemma calls_are_solo_schedules_witness :
  exists w' freed, release_kind KStream STR (world_of session) = Done tt w'
    /\ rtc solo (Store (w_heap (world_of session)) 0 [], Thread [STR] []) (Store (w_heap w') 0 freed, Thread [] [])
    /\ w_heap w' !! STR = None /\ w_heap w' !! SEM = None.
Proof.
  destruct (calls_are_solo_schedules (world_of session) KStream STR 0) as [_ Hrel].
  - apply session_reachable.
  - vm_compute. eexists _, _. split; reflexivity.
  - destruct Hrel as (w' & freed & E & Hs); [vm_compute; discriminate|].
    exists w', freed. split; [exact E|]. split; [exact Hs|].
    assert (X : match release_kind KStream STR (world_of session) with
      | Done _ w' => w_heap w' !! STR = None /\ w_heap w' !! SEM = None | _ => True end)
      by (vm_compute; split; reflexivity).
    rewrite E in X. exact X.
Defined.
